(** * Job scheduler and pipeline executor of the photo-restoration server

    A shallow embedding of [packages/core/queue.js], [heartbeat.js],
    [steps/*.js], [utils.js], [config.js] and of the route handlers
    [routes/jobs.js] and [routes/settings.js].

    The server is a single-threaded Node.js process.  Its state is a set of
    module-level [Map]s whose values are mutable job objects shared by
    reference between the route handlers, [processNext] and every suspended
    [processJob] call.  The embedding keeps one store ([jobs], a list in
    insertion order, as [Map] iterates) and lets every piece of code reach a
    job through its id, so that all of them observe each other's writes.

    [processJob] is an [async] function: it runs synchronously up to
    [await runPythonStep(...)], where its frame is parked in [awaiting] until
    the worker process exits.  Every call site chains
    [.then(() => processNext())]; the callbacks queued that way are counted in
    [microtasks] and run one at a time by the [EvMicrotask] event, before any
    other event is taken (run-to-completion). *)

From Stdlib Require Import List String Ascii ZArith QArith Qround Bool Lia.
From Stdlib Require Import Lqa Sorting.Sorted Sorting.Permutation.
Import ListNotations.

Local Open Scope string_scope.
Local Open Scope Z_scope.

(** ** Strings and paths *)

Module Path.

(** [path.join(dir, rel)] for a directory without trailing slash and a
    relative name without dot segments, the only way the server calls it. *)
Definition join (dir rel : string) : string := dir ++ "/" ++ rel.

(** The last non-empty segment of [s], read from left to right: [last] is
    the last complete one so far and [acc] the one being read. *)
Fixpoint basename_from (last acc s : string) : string :=
  match s with
  | EmptyString => if (acc =? "")%string then last else acc
  | String c s' =>
      if Ascii.eqb c "/"
      then basename_from (if (acc =? "")%string then last else acc) "" s'
      else basename_from last (acc ++ String c "") s'
  end.

(** [path.basename(p)]: the last segment of [p] that is not empty, trailing
    slashes being ignored; the empty string when there is none. *)
Definition basename (p : string) : string := basename_from "" "" p.

(** Position of the last dot of [s] counted from [i], if any. *)
Fixpoint last_dot (i : nat) (s : string) : option nat :=
  match s with
  | EmptyString => None
  | String c s' =>
      match last_dot (S i) s' with
      | Some k => Some k
      | None => if Ascii.eqb c "." then Some i else None
      end
  end.

(** [path.parse(p).name]: the base name without its last extension; a
    leading dot does not start an extension, and the base name [..] has
    none. *)
Definition parse_name (p : string) : string :=
  let b := basename p in
  if (b =? "..")%string then b
  else
    match last_dot 0 b with
    | Some (S k) => substring 0 (S k) b
    | _ => b
    end.

End Path.

(** [s.replace(/^\//, '')] *)
Definition stripLeadingSlash (s : string) : string :=
  match s with
  | String c s' => if Ascii.eqb c "/" then s' else s
  | EmptyString => s
  end.

(** JavaScript truthiness of a possibly absent string. *)
Definition truthy (o : option string) : bool :=
  match o with
  | Some s => negb (s =? "")%string
  | None => false
  end.

(** [a || b] on strings. *)
Definition orElse (o : option string) (d : string) : string :=
  match o with
  | Some s => if (s =? "")%string then d else s
  | None => d
  end.

(** [array.indexOf(x)], [-1] when absent. *)
Fixpoint indexOf_from (i : Z) (x : string) (l : list string) : Z :=
  match l with
  | [] => -1
  | y :: l' => if (y =? x)%string then i else indexOf_from (i + 1) x l'
  end.

Definition indexOf (x : string) (l : list string) : Z := indexOf_from 0 x l.

(** [array[i]] for a JavaScript index: [undefined] outside the array. *)
Definition at_index {A} (l : list A) (i : Z) : option A :=
  if i <? 0 then None else nth_error l (Z.to_nat i).

(** [Math.round(x)] *)
Definition Math_round (x : Q) : Z := Qfloor (x + (1 # 2))%Q.

(** The integer nearest to [x], the even one of the two when [x] lies half
    way. *)
Definition roundEven (x : Q) : Z :=
  let f := Qfloor x in
  match (x - inject_Z f ?= 1 # 2)%Q with
  | Lt => f
  | Gt => f + 1
  | Eq => if Z.even f then f else f + 1
  end.

(** [2 ** e] *)
Definition pow2 (e : Z) : Q :=
  if 0 <=? e then inject_Z (2 ^ e) else / inject_Z (2 ^ (- e)).

(** The value of the double nearest to a rational [q >= 0]: [q] is scaled by
    a power of two into [[2 ** 52, 2 ** 53)], rounded to an integer, ties to
    even, and scaled back (the exponent range of doubles is not modelled). *)
Definition double (q : Q) : Q :=
  if Qle_bool q 0 then 0%Q
  else
    let e0 := Z.log2 (Qnum q) - Z.log2 (Zpos (Qden q)) - 52 in
    let e := if Qle_bool (pow2 (52 + e0)) q then e0 else e0 - 1 in
    (inject_Z (roundEven (q / pow2 e)) * pow2 e)%Q.

(** [Math.round((i / n) * 100)] for integers [0 <= i] and [0 < n], in
    double arithmetic: the quotient and the product are rounded. *)
Definition percent (i n : Z) : Z :=
  Math_round (double (double (inject_Z i / inject_Z n) * 100)).

(** *** [utils.js] *)

(** A string is a sequence of UTF-16 code units below 256, one per
    character.  In that range the canonical decomposition (NFD) of a
    character is a base letter followed by one combining mark of the block
    U+0300 to U+036F when the character is an accented Latin-1 letter, and
    the character itself otherwise. *)
Definition baseLetter (c : ascii) : ascii :=
  let n := nat_of_ascii c in
  (if (192 <=? n) && (n <=? 197) then "A"
   else if n =? 199 then "C"
   else if (200 <=? n) && (n <=? 203) then "E"
   else if (204 <=? n) && (n <=? 207) then "I"
   else if n =? 209 then "N"
   else if (210 <=? n) && (n <=? 214) then "O"
   else if (217 <=? n) && (n <=? 220) then "U"
   else if n =? 221 then "Y"
   else if (224 <=? n) && (n <=? 229) then "a"
   else if n =? 231 then "c"
   else if (232 <=? n) && (n <=? 235) then "e"
   else if (236 <=? n) && (n <=? 239) then "i"
   else if n =? 241 then "n"
   else if (242 <=? n) && (n <=? 246) then "o"
   else if (249 <=? n) && (n <=? 252) then "u"
   else if (n =? 253) || (n =? 255) then "y"
   else c)%nat%char.

(** [name.normalize('NFD').replace(/[\u0300-\u036f]/g, '')]: the first
    [replace] of [sanitizeFilename]. *)
Fixpoint removeDiacritics (s : string) : string :=
  match s with
  | EmptyString => EmptyString
  | String c s' => String (baseLetter c) (removeDiacritics s')
  end.

Definition isPlain (c : ascii) : bool :=
  let n := nat_of_ascii c in
  ((97 <=? n) && (n <=? 122) || (65 <=? n) && (n <=? 90)
   || (48 <=? n) && (n <=? 57) || (n =? 46) || (n =? 95) || (n =? 45))%nat.

(** Second and third [replace] of [sanitizeFilename]: special characters
    become underscores and runs of underscores collapse. *)
Fixpoint underscore (prev : bool) (s : string) : string :=
  match s with
  | EmptyString => EmptyString
  | String c s' =>
      let c' := if isPlain c then c else "_"%char in
      if Ascii.eqb c' "_" then
        if prev then underscore true s' else String c' (underscore true s')
      else String c' (underscore false s')
  end.

Definition dropLast_ (s : string) : string :=
  let n := String.length s in
  match n with
  | O => s
  | S k => if (substring k 1 s =? "_")%string then substring 0 k s else s
  end.

Definition dropFirst_ (s : string) : string :=
  match s with
  | String c s' => if Ascii.eqb c "_" then s' else s
  | EmptyString => s
  end.

(** [sanitizeFilename(name)] *)
Definition sanitizeFilename (name : string) : string :=
  dropLast_ (dropFirst_ (underscore false (removeDiacritics name))).

(** ** Data model *)

Inductive Status :=
| pending | processing | waiting_input | completed | failed | cancelled.

Definition Status_eqb (a b : Status) : bool :=
  match a, b with
  | pending, pending | processing, processing
  | waiting_input, waiting_input | completed, completed
  | failed, failed | cancelled, cancelled => true
  | _, _ => false
  end.

Record Photo := {
  photo_id : string;
  filename : string;
  originalName : string;
}.

Record StepResult := {
  sr_step : string;
  sr_result : string;
}.

(** A job object.  The first fourteen fields are those of the literal built
    by [POST /jobs]; the others are added by assignment later on and are
    [undefined] ([None]) until then.  Timestamps are milliseconds. *)
Record Job := {
  job_id : string;
  photoId : string;
  photoName : string;
  original : string;
  steps : list string;
  options : list (string * string);
  maskPath : option string;
  cropRect : option string;
  status : Status;
  progress : Z;
  createdAt : Z;
  result : option string;
  stepResults : list StepResult;
  priority : Z;
  resumeFromStep : option Z;
  currentInputPath : option string;
  currentStep : option string;
  waitingStep : option string;
  waitingImage : option string;
  job_error : option string;
  failedStep : option string;
  failedStepIndex : option Z;
}.

(** Field assignments [job.f = v]. *)
Definition set_options (v : list (string * string)) (j : Job) : Job :=
  {| job_id := job_id j; photoId := photoId j; photoName := photoName j;
     original := original j; steps := steps j; options := v;
     maskPath := maskPath j; cropRect := cropRect j; status := status j;
     progress := progress j; createdAt := createdAt j; result := result j;
     stepResults := stepResults j; priority := priority j;
     resumeFromStep := resumeFromStep j;
     currentInputPath := currentInputPath j; currentStep := currentStep j;
     waitingStep := waitingStep j; waitingImage := waitingImage j;
     job_error := job_error j; failedStep := failedStep j;
     failedStepIndex := failedStepIndex j |}.

Definition set_maskPath (v : option string) (j : Job) : Job :=
  {| job_id := job_id j; photoId := photoId j; photoName := photoName j;
     original := original j; steps := steps j; options := options j;
     maskPath := v; cropRect := cropRect j; status := status j;
     progress := progress j; createdAt := createdAt j; result := result j;
     stepResults := stepResults j; priority := priority j;
     resumeFromStep := resumeFromStep j;
     currentInputPath := currentInputPath j; currentStep := currentStep j;
     waitingStep := waitingStep j; waitingImage := waitingImage j;
     job_error := job_error j; failedStep := failedStep j;
     failedStepIndex := failedStepIndex j |}.

Definition set_cropRect (v : option string) (j : Job) : Job :=
  {| job_id := job_id j; photoId := photoId j; photoName := photoName j;
     original := original j; steps := steps j; options := options j;
     maskPath := maskPath j; cropRect := v; status := status j;
     progress := progress j; createdAt := createdAt j; result := result j;
     stepResults := stepResults j; priority := priority j;
     resumeFromStep := resumeFromStep j;
     currentInputPath := currentInputPath j; currentStep := currentStep j;
     waitingStep := waitingStep j; waitingImage := waitingImage j;
     job_error := job_error j; failedStep := failedStep j;
     failedStepIndex := failedStepIndex j |}.

Definition set_status (v : Status) (j : Job) : Job :=
  {| job_id := job_id j; photoId := photoId j; photoName := photoName j;
     original := original j; steps := steps j; options := options j;
     maskPath := maskPath j; cropRect := cropRect j; status := v;
     progress := progress j; createdAt := createdAt j; result := result j;
     stepResults := stepResults j; priority := priority j;
     resumeFromStep := resumeFromStep j;
     currentInputPath := currentInputPath j; currentStep := currentStep j;
     waitingStep := waitingStep j; waitingImage := waitingImage j;
     job_error := job_error j; failedStep := failedStep j;
     failedStepIndex := failedStepIndex j |}.

Definition set_progress (v : Z) (j : Job) : Job :=
  {| job_id := job_id j; photoId := photoId j; photoName := photoName j;
     original := original j; steps := steps j; options := options j;
     maskPath := maskPath j; cropRect := cropRect j; status := status j;
     progress := v; createdAt := createdAt j; result := result j;
     stepResults := stepResults j; priority := priority j;
     resumeFromStep := resumeFromStep j;
     currentInputPath := currentInputPath j; currentStep := currentStep j;
     waitingStep := waitingStep j; waitingImage := waitingImage j;
     job_error := job_error j; failedStep := failedStep j;
     failedStepIndex := failedStepIndex j |}.

Definition set_result (v : option string) (j : Job) : Job :=
  {| job_id := job_id j; photoId := photoId j; photoName := photoName j;
     original := original j; steps := steps j; options := options j;
     maskPath := maskPath j; cropRect := cropRect j; status := status j;
     progress := progress j; createdAt := createdAt j; result := v;
     stepResults := stepResults j; priority := priority j;
     resumeFromStep := resumeFromStep j;
     currentInputPath := currentInputPath j; currentStep := currentStep j;
     waitingStep := waitingStep j; waitingImage := waitingImage j;
     job_error := job_error j; failedStep := failedStep j;
     failedStepIndex := failedStepIndex j |}.

Definition set_stepResults (v : list StepResult) (j : Job) : Job :=
  {| job_id := job_id j; photoId := photoId j; photoName := photoName j;
     original := original j; steps := steps j; options := options j;
     maskPath := maskPath j; cropRect := cropRect j; status := status j;
     progress := progress j; createdAt := createdAt j; result := result j;
     stepResults := v; priority := priority j;
     resumeFromStep := resumeFromStep j;
     currentInputPath := currentInputPath j; currentStep := currentStep j;
     waitingStep := waitingStep j; waitingImage := waitingImage j;
     job_error := job_error j; failedStep := failedStep j;
     failedStepIndex := failedStepIndex j |}.

Definition set_priority (v : Z) (j : Job) : Job :=
  {| job_id := job_id j; photoId := photoId j; photoName := photoName j;
     original := original j; steps := steps j; options := options j;
     maskPath := maskPath j; cropRect := cropRect j; status := status j;
     progress := progress j; createdAt := createdAt j; result := result j;
     stepResults := stepResults j; priority := v;
     resumeFromStep := resumeFromStep j;
     currentInputPath := currentInputPath j; currentStep := currentStep j;
     waitingStep := waitingStep j; waitingImage := waitingImage j;
     job_error := job_error j; failedStep := failedStep j;
     failedStepIndex := failedStepIndex j |}.

Definition set_resumeFromStep (v : option Z) (j : Job) : Job :=
  {| job_id := job_id j; photoId := photoId j; photoName := photoName j;
     original := original j; steps := steps j; options := options j;
     maskPath := maskPath j; cropRect := cropRect j; status := status j;
     progress := progress j; createdAt := createdAt j; result := result j;
     stepResults := stepResults j; priority := priority j;
     resumeFromStep := v; currentInputPath := currentInputPath j;
     currentStep := currentStep j; waitingStep := waitingStep j;
     waitingImage := waitingImage j; job_error := job_error j;
     failedStep := failedStep j; failedStepIndex := failedStepIndex j |}.

Definition set_currentInputPath (v : option string) (j : Job) : Job :=
  {| job_id := job_id j; photoId := photoId j; photoName := photoName j;
     original := original j; steps := steps j; options := options j;
     maskPath := maskPath j; cropRect := cropRect j; status := status j;
     progress := progress j; createdAt := createdAt j; result := result j;
     stepResults := stepResults j; priority := priority j;
     resumeFromStep := resumeFromStep j; currentInputPath := v;
     currentStep := currentStep j; waitingStep := waitingStep j;
     waitingImage := waitingImage j; job_error := job_error j;
     failedStep := failedStep j; failedStepIndex := failedStepIndex j |}.

Definition set_currentStep (v : option string) (j : Job) : Job :=
  {| job_id := job_id j; photoId := photoId j; photoName := photoName j;
     original := original j; steps := steps j; options := options j;
     maskPath := maskPath j; cropRect := cropRect j; status := status j;
     progress := progress j; createdAt := createdAt j; result := result j;
     stepResults := stepResults j; priority := priority j;
     resumeFromStep := resumeFromStep j;
     currentInputPath := currentInputPath j; currentStep := v;
     waitingStep := waitingStep j; waitingImage := waitingImage j;
     job_error := job_error j; failedStep := failedStep j;
     failedStepIndex := failedStepIndex j |}.

Definition set_waitingStep (v : option string) (j : Job) : Job :=
  {| job_id := job_id j; photoId := photoId j; photoName := photoName j;
     original := original j; steps := steps j; options := options j;
     maskPath := maskPath j; cropRect := cropRect j; status := status j;
     progress := progress j; createdAt := createdAt j; result := result j;
     stepResults := stepResults j; priority := priority j;
     resumeFromStep := resumeFromStep j;
     currentInputPath := currentInputPath j; currentStep := currentStep j;
     waitingStep := v; waitingImage := waitingImage j;
     job_error := job_error j; failedStep := failedStep j;
     failedStepIndex := failedStepIndex j |}.

Definition set_waitingImage (v : option string) (j : Job) : Job :=
  {| job_id := job_id j; photoId := photoId j; photoName := photoName j;
     original := original j; steps := steps j; options := options j;
     maskPath := maskPath j; cropRect := cropRect j; status := status j;
     progress := progress j; createdAt := createdAt j; result := result j;
     stepResults := stepResults j; priority := priority j;
     resumeFromStep := resumeFromStep j;
     currentInputPath := currentInputPath j; currentStep := currentStep j;
     waitingStep := waitingStep j; waitingImage := v;
     job_error := job_error j; failedStep := failedStep j;
     failedStepIndex := failedStepIndex j |}.

Definition set_job_error (v : option string) (j : Job) : Job :=
  {| job_id := job_id j; photoId := photoId j; photoName := photoName j;
     original := original j; steps := steps j; options := options j;
     maskPath := maskPath j; cropRect := cropRect j; status := status j;
     progress := progress j; createdAt := createdAt j; result := result j;
     stepResults := stepResults j; priority := priority j;
     resumeFromStep := resumeFromStep j;
     currentInputPath := currentInputPath j; currentStep := currentStep j;
     waitingStep := waitingStep j; waitingImage := waitingImage j;
     job_error := v; failedStep := failedStep j;
     failedStepIndex := failedStepIndex j |}.

Definition set_failedStep (v : option string) (j : Job) : Job :=
  {| job_id := job_id j; photoId := photoId j; photoName := photoName j;
     original := original j; steps := steps j; options := options j;
     maskPath := maskPath j; cropRect := cropRect j; status := status j;
     progress := progress j; createdAt := createdAt j; result := result j;
     stepResults := stepResults j; priority := priority j;
     resumeFromStep := resumeFromStep j;
     currentInputPath := currentInputPath j; currentStep := currentStep j;
     waitingStep := waitingStep j; waitingImage := waitingImage j;
     job_error := job_error j; failedStep := v;
     failedStepIndex := failedStepIndex j |}.

Definition set_failedStepIndex (v : option Z) (j : Job) : Job :=
  {| job_id := job_id j; photoId := photoId j; photoName := photoName j;
     original := original j; steps := steps j; options := options j;
     maskPath := maskPath j; cropRect := cropRect j; status := status j;
     progress := progress j; createdAt := createdAt j; result := result j;
     stepResults := stepResults j; priority := priority j;
     resumeFromStep := resumeFromStep j;
     currentInputPath := currentInputPath j; currentStep := currentStep j;
     waitingStep := waitingStep j; waitingImage := waitingImage j;
     job_error := job_error j; failedStep := failedStep j;
     failedStepIndex := v |}.

(** ** Stage registry ([steps/*.js], [steps/index.js]) *)

Record StepDef := {
  name : string;
  script : string;
  prefix : string;
  manual : bool;
  models : option (list string);
  defaultModel : option string;
  requiresApiKey : option string;
  disabled : bool;
  needsInput : option (Job -> bool);
  buildArgs : string -> string -> Job -> option string ->
              string * list (option string);
  (** the hook receives the job and the files on disk *)
  onComplete : option (Job -> list string -> Job * list string);
}.

Definition remove_file (p : string) (fs : list string) : list string :=
  filter (fun q => negb (q =? p)%string) fs.

(** [try { unlinkSync(p) } catch {}] *)
Definition unlinkSync (p : string) (fs : list string) : list string :=
  remove_file p fs.

(** [writeFileSync(p, data)]: only the existence of the file is tracked. *)
Definition writeFileSync (p : string) (fs : list string) : list string :=
  if existsb (fun q => (q =? p)%string) fs then fs else fs ++ [p].

Definition crop : StepDef :=
  {| name := "Recadrage"; script := "crop.py"; prefix := "CROP";
     manual := true; models := None; defaultModel := None;
     requiresApiKey := None; disabled := false;
     needsInput := Some (fun job => negb (truthy (cropRect job)));
     buildArgs := fun inputPath outputPath job _ =>
       ("crop.py", [Some inputPath; Some outputPath; cropRect job]);
     onComplete := Some (fun job fs => (set_cropRect None job, fs)) |}.

Definition inpaint : StepDef :=
  {| name := "Retouche manuelle"; script := "inpaint.py"; prefix := "INPAINT";
     manual := true; models := None; defaultModel := None;
     requiresApiKey := None; disabled := false;
     needsInput := Some (fun job => negb (truthy (maskPath job)));
     buildArgs := fun inputPath outputPath job _ =>
       ("inpaint.py", [Some inputPath; maskPath job; Some outputPath]);
     onComplete := Some (fun job fs =>
       if truthy (maskPath job)
       then (set_maskPath None job, unlinkSync (orElse (maskPath job) "") fs)
       else (job, fs)) |}.

Definition spot_removal : StepDef :=
  {| name := "Nettoyage des taches"; script := "clean_spots.py";
     prefix := "SPOTS"; manual := false;
     models := Some ["lama"; "opencv"]; defaultModel := Some "lama";
     requiresApiKey := None; disabled := false;
     needsInput := None;
     buildArgs := fun inputPath outputPath _ selectedModel =>
       ("clean_spots.py", [Some inputPath; Some outputPath; selectedModel]);
     onComplete := None |}.

Definition scratch_removal : StepDef :=
  {| name := "Suppression des rayures"; script := "restore.py";
     prefix := "REST"; manual := false;
     models := Some ["lama"; "opencv"]; defaultModel := Some "lama";
     requiresApiKey := None; disabled := false;
     needsInput := None;
     buildArgs := fun inputPath outputPath _ selectedModel =>
       ("restore.py", [Some inputPath; Some outputPath; selectedModel]);
     onComplete := None |}.

Definition face_restore : StepDef :=
  {| name := "Restauration des visages"; script := "face_restore.py";
     prefix := "FACE"; manual := false;
     models := None; defaultModel := None;
     requiresApiKey := None; disabled := false;
     needsInput := None;
     buildArgs := fun inputPath outputPath _ _ =>
       ("face_restore.py", [Some inputPath; Some outputPath]);
     onComplete := None |}.

Definition opt_eqb (o : option string) (s : string) : bool :=
  match o with
  | Some x => (x =? s)%string
  | None => false
  end.

Definition colorize : StepDef :=
  {| name := "Colorisation"; script := "colorize_ddcolor.py";
     prefix := "COL"; manual := false;
     models := Some ["ddcolor"; "deoldify_artistic"; "deoldify_stable";
                     "siggraph17"; "eccv16"];
     defaultModel := Some "ddcolor";
     requiresApiKey := None; disabled := false;
     needsInput := None;
     buildArgs := fun inputPath outputPath _ selectedModel =>
       if opt_eqb selectedModel "ddcolor" then
         ("colorize_ddcolor.py", [Some inputPath; Some outputPath])
       else if opt_eqb selectedModel "deoldify_artistic" then
         ("colorize_deoldify.py",
          [Some inputPath; Some outputPath; Some "artistic"])
       else if opt_eqb selectedModel "deoldify_stable" then
         ("colorize_deoldify.py",
          [Some inputPath; Some outputPath; Some "stable"])
       else ("colorize.py", [Some inputPath; Some outputPath; selectedModel]);
     onComplete := None |}.

Definition upscale : StepDef :=
  {| name := "Upscale x2"; script := "upscale.py";
     prefix := "UPS"; manual := false;
     models := Some ["compact"; "x4plus"; "x4plus-anime"; "x2plus"; "lanczos"];
     defaultModel := Some "compact";
     requiresApiKey := None; disabled := false;
     needsInput := None;
     buildArgs := fun inputPath outputPath _ selectedModel =>
       ("upscale.py",
        [Some inputPath; Some outputPath; selectedModel; Some "2"]);
     onComplete := None |}.

Fixpoint assoc {A} (k : string) (l : list (string * A)) : option A :=
  match l with
  | [] => None
  | (k', v) :: l' => if (k' =? k)%string then Some v else assoc k l'
  end.

Definition ONLINE_STEPS_MAP : list (string * string) :=
  [("full", "restore,colorize,enhance"); ("restore", "restore");
   ("colorize", "colorize"); ("enhance", "enhance")].

Definition online_restore : StepDef :=
  {| name := "IA en ligne (OpenAI)"; script := "restore_openai.py";
     prefix := "CLOUD"; manual := false;
     models := Some ["full"; "restore"; "colorize"; "enhance"];
     defaultModel := Some "full";
     requiresApiKey := Some "OPENAI_API_KEY"; disabled := true;
     needsInput := None;
     buildArgs := fun inputPath outputPath _ selectedModel =>
       let steps :=
         match selectedModel with
         | Some m => Some (orElse (assoc m ONLINE_STEPS_MAP) m)
         | None => None
         end in
       ("restore_openai.py", [Some inputPath; Some outputPath; steps]);
     onComplete := None |}.

Definition ALL_STEPS : list (string * StepDef) :=
  [("crop", crop); ("inpaint", inpaint); ("spot_removal", spot_removal);
   ("scratch_removal", scratch_removal); ("face_restore", face_restore);
   ("colorize", colorize); ("upscale", upscale);
   ("online_restore", online_restore)].

(** The property names every plain object inherits from
    [Object.prototype]. *)
Definition Object_prototype_keys : list string :=
  ["constructor"; "__defineGetter__"; "__defineSetter__"; "hasOwnProperty";
   "__lookupGetter__"; "__lookupSetter__"; "isPrototypeOf";
   "propertyIsEnumerable"; "toString"; "valueOf"; "__proto__";
   "toLocaleString"].

(** What [STEPS[key]] can be when it is not [undefined]: a stage, or a
    member inherited from [Object.prototype] (a built-in function, or the
    prototype itself for [__proto__]).  Such a member is truthy and has no
    [needsInput], [prefix], [models] or [buildArgs] property. *)
Inductive StepsValue :=
| Stage (stepDef : StepDef)
| Inherited.

(** ** Server state *)

(** The frame of a [processJob] call suspended at [await runPythonStep]:
    the locals it still needs once the worker has exited. *)
Record Frame := {
  fr_job : string;
  fr_origName : string;
  fr_jobShort : string;
  fr_i : Z;
  fr_step : string;
  fr_stepDef : StepDef;
  fr_outputFilename : string;
  fr_outputPath : string;
  fr_script : string;
  fr_args : list (option string);
}.

(** [photos], [jobs] and [runningProcs] are the three [Map]s of
    [storage.js] ([runningProcs] by its keys); [files] are the mask files
    written under the uploads directory; [killed] logs the job ids whose
    worker was sent SIGTERM. *)
Record State := {
  photos : list Photo;
  jobs : list Job;
  runningProcs : list string;
  awaiting : list Frame;
  maxConcurrent : Z;
  lastHeartbeat : Z;
  files : list string;
  microtasks : nat;
  killed : list string;
}.

Definition set_photos (v : list Photo) (st : State) : State :=
  {| photos := v; jobs := jobs st; runningProcs := runningProcs st;
     awaiting := awaiting st; maxConcurrent := maxConcurrent st;
     lastHeartbeat := lastHeartbeat st; files := files st;
     microtasks := microtasks st; killed := killed st |}.

Definition set_jobs (v : list Job) (st : State) : State :=
  {| photos := photos st; jobs := v; runningProcs := runningProcs st;
     awaiting := awaiting st; maxConcurrent := maxConcurrent st;
     lastHeartbeat := lastHeartbeat st; files := files st;
     microtasks := microtasks st; killed := killed st |}.

Definition set_runningProcs (v : list string) (st : State) : State :=
  {| photos := photos st; jobs := jobs st; runningProcs := v;
     awaiting := awaiting st; maxConcurrent := maxConcurrent st;
     lastHeartbeat := lastHeartbeat st; files := files st;
     microtasks := microtasks st; killed := killed st |}.

Definition set_awaiting (v : list Frame) (st : State) : State :=
  {| photos := photos st; jobs := jobs st; runningProcs := runningProcs st;
     awaiting := v; maxConcurrent := maxConcurrent st;
     lastHeartbeat := lastHeartbeat st; files := files st;
     microtasks := microtasks st; killed := killed st |}.

Definition set_maxConcurrent (v : Z) (st : State) : State :=
  {| photos := photos st; jobs := jobs st; runningProcs := runningProcs st;
     awaiting := awaiting st; maxConcurrent := v;
     lastHeartbeat := lastHeartbeat st; files := files st;
     microtasks := microtasks st; killed := killed st |}.

Definition set_lastHeartbeat (v : Z) (st : State) : State :=
  {| photos := photos st; jobs := jobs st; runningProcs := runningProcs st;
     awaiting := awaiting st; maxConcurrent := maxConcurrent st;
     lastHeartbeat := v; files := files st; microtasks := microtasks st;
     killed := killed st |}.

Definition set_files (v : list string) (st : State) : State :=
  {| photos := photos st; jobs := jobs st; runningProcs := runningProcs st;
     awaiting := awaiting st; maxConcurrent := maxConcurrent st;
     lastHeartbeat := lastHeartbeat st; files := v;
     microtasks := microtasks st; killed := killed st |}.

Definition set_microtasks (v : nat) (st : State) : State :=
  {| photos := photos st; jobs := jobs st; runningProcs := runningProcs st;
     awaiting := awaiting st; maxConcurrent := maxConcurrent st;
     lastHeartbeat := lastHeartbeat st; files := files st; microtasks := v;
     killed := killed st |}.

Definition set_killed (v : list string) (st : State) : State :=
  {| photos := photos st; jobs := jobs st; runningProcs := runningProcs st;
     awaiting := awaiting st; maxConcurrent := maxConcurrent st;
     lastHeartbeat := lastHeartbeat st; files := files st;
     microtasks := microtasks st; killed := v |}.

(** ** Configuration ([config.js]) *)

(** What the process reads from its environment.  The numeric variables are
    given as [parseInt] returns them, [None] standing for [NaN]. *)
Class Env := {
  ROOT : string;
  env_UPLOADS_DIR : option string;
  env_RESULTS_DIR : option string;
  env_MAX_CONCURRENT_JOBS : option Z;
  env_HEARTBEAT_TIMEOUT_SECONDS : option Z;
  getenv : string -> option string;
}.

(** [parseInt(x) || d] *)
Definition intOr (o : option Z) (d : Z) : Z :=
  match o with
  | Some n => if n =? 0 then d else n
  | None => d
  end.

Section Scheduler.

Context {env : Env}.

Definition UPLOADS_DIR : string :=
  orElse env_UPLOADS_DIR (Path.join ROOT "uploads").

Definition RESULTS_DIR : string :=
  orElse env_RESULTS_DIR (Path.join ROOT "results").

Definition MAX_CONCURRENT_LIMIT : Z :=
  Z.max 1 (intOr env_MAX_CONCURRENT_JOBS 2).

(** [parseInt(...) * 1000], [None] when the variable does not parse. *)
Definition HEARTBEAT_TIMEOUT_MS : option Z :=
  option_map (fun s => s * 1000) env_HEARTBEAT_TIMEOUT_SECONDS.

(** [getUrlForPath(filePath)] *)
Definition getUrlForPath (filePath : string) : string :=
  if String.prefix RESULTS_DIR filePath
  then "/results/" ++ Path.basename filePath
  else "/uploads/" ++ Path.basename filePath.

(** The own properties of [STEPS]: the stages that are neither disabled nor
    missing their key. *)
Definition STEPS_entries : list (string * StepDef) :=
  filter (fun e =>
            let s := snd e in
            if disabled s then false
            else match requiresApiKey s with
                 | Some k => truthy (getenv k)
                 | None => true
                 end)
         ALL_STEPS.

(** [STEPS[key]].  [STEPS] is a plain object ([Object.fromEntries]), so a
    key that is not a stage still finds the members of [Object.prototype];
    [None] is [undefined]. *)
Definition STEPS (key : string) : option StepsValue :=
  match assoc key STEPS_entries with
  | Some stepDef => Some (Stage stepDef)
  | None =>
      if existsb (fun k => (k =? key)%string) Object_prototype_keys
      then Some Inherited else None
  end.

Definition MANUAL_STEPS : list string :=
  map fst (filter (fun e => manual (snd e)) STEPS_entries).

Definition MANUAL_STEPS_has (s : string) : bool :=
  existsb (fun k => (k =? s)%string) MANUAL_STEPS.

(** ** Store access *)

Definition photos_get (pid : string) (st : State) : option Photo :=
  find (fun p => (photo_id p =? pid)%string) (photos st).

Definition jobs_get (jid : string) (st : State) : option Job :=
  find (fun j => (job_id j =? jid)%string) (jobs st).

(** A write through a reference to the job object [jid]. *)
Definition update_job (jid : string) (f : Job -> Job) (st : State) : State :=
  set_jobs (map (fun j => if (job_id j =? jid)%string then f j else j)
                (jobs st)) st.

(** [jobs.set(job.id, job)] *)
Definition jobs_set (job : Job) (st : State) : State :=
  if existsb (fun j => (job_id j =? job_id job)%string) (jobs st)
  then update_job (job_id job) (fun _ => job) st
  else set_jobs (jobs st ++ [job]) st.

Definition procs_has (jid : string) (st : State) : bool :=
  existsb (fun k => (k =? jid)%string) (runningProcs st).

(** [runningProcs.delete(jid)] *)
Definition procs_delete (jid : string) (st : State) : State :=
  set_runningProcs
    (filter (fun k => negb (k =? jid)%string) (runningProcs st)) st.

(** [runningProcs.set(jid, proc)] *)
Definition procs_set (jid : string) (st : State) : State :=
  if procs_has jid st then st
  else set_runningProcs (runningProcs st ++ [jid]) st.

(** [const proc = runningProcs.get(id); if (proc) { proc.kill('SIGTERM');
    runningProcs.delete(id) }] *)
Definition kill_proc (jid : string) (st : State) : State :=
  if procs_has jid st
  then procs_delete jid (set_killed (killed st ++ [jid]) st)
  else st.

(** The promise of a [processJob] call settles: its
    [.then(() => processNext())] callback is queued. *)
Definition settle (st : State) : State :=
  set_microtasks (S (microtasks st)) st.

(** ** [queue.js] *)

Definition jobHasManualSteps (job : Job) : bool :=
  existsb MANUAL_STEPS_has (steps job).

(** [stepDef?.needsInput?.(job)] *)
Definition needsInput_of (d : option StepsValue) (job : Job) : bool :=
  match d with
  | Some (Stage sd) => match needsInput sd with
                       | Some f => f job
                       | None => false
                       end
  | Some Inherited => false
  | None => false
  end.

(** [job.resumeFromStep || 0] *)
Definition startIndex_of (job : Job) : Z :=
  match resumeFromStep job with
  | Some n => n
  | None => 0
  end.

(** [STEPS[job.steps[i]]] *)
Definition stepDef_at (job : Job) (i : Z) : option StepsValue :=
  match at_index (steps job) i with
  | Some step => STEPS step
  | None => None
  end.

Definition jobWillPauseImmediately (job : Job) : bool :=
  needsInput_of (stepDef_at job (startIndex_of job)) job.

Definition steps_length (job : Job) : Z := Z.of_nat (List.length (steps job)).

(** The assignments of the pause branch of [processJob]. *)
Definition pause (step : string) (i : Z) (currentInput : string)
    (job : Job) : Job :=
  set_progress (percent i (steps_length job))
    (set_waitingImage (Some (getUrlForPath currentInput))
       (set_currentInputPath (Some currentInput)
          (set_resumeFromStep (Some i)
             (set_waitingStep (Some step)
                (set_status waiting_input job))))).

Definition last_result (job : Job) : option string :=
  match rev (stepResults job) with
  | r :: _ => Some (sr_result r)
  | [] => None
  end.

(** The assignments after the loop of [processJob]. *)
Definition complete (job : Job) : Job :=
  set_result (last_result job)
    (set_waitingImage None
       (set_waitingStep None
          (set_currentStep None
             (set_progress 100 (set_status completed job))))).

(** [job.options?.[step] || stepDef.defaultModel], [null] without models *)
Definition selectedModel_of (sd : StepDef) (step : string) (job : Job)
  : option string :=
  match models sd with
  | Some _ => if truthy (assoc step (options job))
              then assoc step (options job) else defaultModel sd
  | None => None
  end.

(** The assignments made when a step is about to run. *)
Definition enter_step (step : string) (i : Z) (job : Job) : Job :=
  set_progress (percent i (steps_length job))
    (set_currentStep (Some step) job).

(** The frame left behind by [await runPythonStep(script, args, job.id)]
    at iteration [i], with the names computed just before. *)
Definition frame_at (jid origName jobShort : string) (i : Z)
    (step : string) (stepDef : StepDef) (currentInput : string) (job : Job)
  : Frame :=
  let prefix := orElse (Some (prefix stepDef)) step in
  let outputFilename :=
    origName ++ "_" ++ prefix ++ "_" ++ jobShort ++ ".png" in
  let outputPath := Path.join RESULTS_DIR outputFilename in
  let selectedModel := selectedModel_of stepDef step job in
  let '(script, args) :=
    buildArgs stepDef currentInput outputPath job selectedModel in
  {| fr_job := jid; fr_origName := origName; fr_jobShort := jobShort;
     fr_i := i; fr_step := step; fr_stepDef := stepDef;
     fr_outputFilename := outputFilename; fr_outputPath := outputPath;
     fr_script := script; fr_args := args |}.

(** [runPythonStep] spawns the worker and registers it:
    [if (jobId) runningProcs.set(jobId, proc)]. *)
Definition spawn (fr : Frame) (st : State) : State :=
  set_awaiting (awaiting st ++ [fr])
    (if truthy (Some (fr_job fr)) then procs_set (fr_job fr) st else st).

(** [job.steps.indexOf(job.currentStep)] *)
Definition indexOf_currentStep (job : Job) : Z :=
  match currentStep job with
  | Some s => indexOf s (steps job)
  | None => -1
  end.

(** The assignments of the [catch] block for a job that is not cancelled. *)
Definition fail (message : string) (job : Job) : Job :=
  set_currentStep None
    (set_failedStepIndex (Some (indexOf_currentStep job))
       (set_failedStep (currentStep job)
          (set_job_error (Some message)
             (set_status failed job)))).

(** The [catch] block of [processJob]. *)
Definition caught (message : string) (job : Job) : Job :=
  if Status_eqb (status job) cancelled then set_currentStep None job
  else fail message job.

(** The message of the [TypeError] raised by [stepDef.buildArgs(...)] when
    [stepDef] has no such property. *)
Definition buildArgs_TypeError : string :=
  "stepDef.buildArgs is not a function".

(** The [for] loop of [processJob], entered with [n] iterations left, that
    is [n = steps.length - i] (or [0] when [i] is already beyond the end).
    It runs until the job pauses, awaits a worker, throws or leaves the
    loop; the job object is read again from the store on each iteration.
    For an inherited member the call of [buildArgs] throws and the [catch]
    block runs at once. *)
Fixpoint runLoop (n : nat) (jid origName jobShort : string) (i : Z)
    (currentInput : string) (st : State) : State :=
  match n with
  | O => settle (update_job jid complete st)
  | S n' =>
      match jobs_get jid st with
      | None => st
      | Some job =>
          match at_index (steps job) i with
          | None => runLoop n' jid origName jobShort (i + 1) currentInput st
          | Some step =>
              match STEPS step with
              | None =>
                  runLoop n' jid origName jobShort (i + 1) currentInput st
              | Some stepDef =>
                  if needsInput_of (Some stepDef) job then
                    settle (update_job jid (pause step i currentInput) st)
                  else
                    let st1 := update_job jid (enter_step step i) st in
                    match stepDef with
                    | Stage sd =>
                        let fr := frame_at jid origName jobShort i step sd
                                           currentInput job in
                        if Status_eqb (status job) cancelled then settle st1
                        else spawn fr st1
                    | Inherited =>
                        settle (update_job jid (caught buildArgs_TypeError)
                                           st1)
                    end
              end
          end
      end
  end.

Definition iterations (job : Job) (i : Z) : nat :=
  Z.to_nat (steps_length job - i).

(** [processJob(job)] up to its first suspension. *)
Definition processJob (jid : string) (st : State) : State :=
  match jobs_get jid st with
  | None => st
  | Some job =>
      let st1 := update_job jid (set_status processing) st in
      match photos_get (photoId job) st1 with
      | None => settle (update_job jid (set_status failed) st1)
      | Some photo =>
          let origName :=
            sanitizeFilename (Path.parse_name (originalName photo)) in
          let jobShort := substring 0 6 (job_id job) in
          let startIndex := startIndex_of job in
          let currentInput :=
            orElse (currentInputPath job)
                   (Path.join UPLOADS_DIR (filename photo)) in
          runLoop (iterations job startIndex) jid origName jobShort
                  startIndex currentInput st1
      end
  end.

(** [array.sort((a, b) => (a.priority || 0) - (b.priority || 0))]: the sort
    is stable, equal priorities keep their order. *)
Fixpoint insert_by_priority (j : Job) (l : list Job) : list Job :=
  match l with
  | [] => [j]
  | k :: l' => if priority j <=? priority k then j :: k :: l'
               else k :: insert_by_priority j l'
  end.

Definition sort_by_priority (l : list Job) : list Job :=
  fold_right insert_by_priority [] l.

Definition count_status (s : Status) (l : list Job) : Z :=
  Z.of_nat (List.length (filter (fun j => Status_eqb (status j) s) l)).

Definition hasWaitingManual (l : list Job) : bool :=
  existsb (fun j => Status_eqb (status j) waiting_input) l.

(** The array [pending] of [processNext]. *)
Definition candidates (allJobs : list Job) : list Job :=
  sort_by_priority
    (filter (fun j => negb (hasWaitingManual allJobs)
                      || negb (jobHasManualSteps j))
            (filter (fun j => Status_eqb (status j) pending) allJobs)).

(** The object a reference taken earlier now denotes. *)
Definition deref (job : Job) (st : State) : Job :=
  match jobs_get (job_id job) st with
  | Some j => j
  | None => job
  end.

(** The [for (const job of pending)] loop of [processNext]. *)
Fixpoint dispatch (running : Z) (pending : list Job) (slotsUsed : Z)
    (st : State) : State :=
  match pending with
  | [] => st
  | job :: rest =>
      let willPause := jobWillPauseImmediately (deref job st) in
      if negb willPause && (running + slotsUsed >=? maxConcurrent st) then
        dispatch running rest slotsUsed st
      else
        dispatch running rest (if willPause then slotsUsed else slotsUsed + 1)
                 (processJob (job_id job) st)
  end.

Definition processNext (st : State) : State :=
  let allJobs := jobs st in
  let running := count_status processing allJobs in
  dispatch running (candidates allJobs) 0 st.

Definition enqueueJob (st : State) : State := processNext st.

(** *** The rest of [processJob], after [await runPythonStep] *)

(** How the worker of [runPythonStep] ended: [resolve(stdout.trim())] or
    [reject(new Error(stderr || err.message))] (non-zero exit, timeout,
    output overflow, signal). *)
Inductive Outcome :=
| Resolved (stdout : string)
| Rejected (message : string).

Fixpoint remove_frame (jid : string) (l : list Frame) : list Frame :=
  match l with
  | [] => []
  | fr :: l' => if (fr_job fr =? jid)%string then l'
                else fr :: remove_frame jid l'
  end.

Definition find_frame (jid : string) (st : State) : option Frame :=
  find (fun fr => (fr_job fr =? jid)%string) (awaiting st).

(** [if (stepDef.onComplete) stepDef.onComplete(job)] *)
Definition run_onComplete (fr : Frame) (st : State) : State :=
  match onComplete (fr_stepDef fr), jobs_get (fr_job fr) st with
  | Some hook, Some job =>
      let '(job', fs') := hook job (files st) in
      set_files fs' (update_job (fr_job fr) (fun _ => job') st)
  | _, _ => st
  end.

(** [job.stepResults.push(...); job.currentInputPath = outputPath] *)
Definition record_result (fr : Frame) (job : Job) : Job :=
  set_currentInputPath (Some (fr_outputPath fr))
    (set_stepResults
       (stepResults job ++
          [{| sr_step := fr_step fr;
              sr_result := "/results/" ++ fr_outputFilename fr |}])
       job).

(** The worker of job [jid] exits: the [execFile] callback deregisters the
    process and the suspended [processJob] resumes. *)
Definition workerExit (jid : string) (o : Outcome) (st : State) : State :=
  match find_frame jid st with
  | None => st
  | Some fr =>
      let st1 := procs_delete jid
                   (set_awaiting (remove_frame jid (awaiting st)) st) in
      match jobs_get jid st1 with
      | None => st1
      | Some job =>
          match o with
          | Resolved _ =>
              if Status_eqb (status job) cancelled then settle st1
              else
                let st2 := run_onComplete fr st1 in
                let st3 := update_job jid (record_result fr) st2 in
                let st4 := processNext st3 in
                runLoop (iterations job (fr_i fr + 1)) jid (fr_origName fr)
                        (fr_jobShort fr) (fr_i fr + 1) (fr_outputPath fr) st4
          | Rejected message =>
              if Status_eqb (status job) cancelled
              then settle (update_job jid (set_currentStep None) st1)
              else settle (update_job jid (fail message) st1)
          end
      end
  end.

(** ** [heartbeat.js] *)

Definition touchHeartbeat (now : Z) (st : State) : State :=
  set_lastHeartbeat now st.

(** The four assignments shared by every cancellation path. *)
Definition mark_cancelled (job : Job) : Job :=
  set_waitingImage None
    (set_waitingStep None
       (set_currentStep None (set_status cancelled job))).

Definition cancel_one (st : State) (job : Job) : State :=
  kill_proc (job_id job) (update_job (job_id job) mark_cancelled st).

Definition isActive (j : Job) : bool :=
  Status_eqb (status j) processing || Status_eqb (status j) pending.

(** [Date.now() - lastHeartbeat < HEARTBEAT_TIMEOUT_MS], false for [NaN] *)
Definition heartbeatFresh (now : Z) (st : State) : bool :=
  match HEARTBEAT_TIMEOUT_MS with
  | Some t => now - lastHeartbeat st <? t
  | None => false
  end.

Definition checkHeartbeat (now : Z) (st : State) : State :=
  if heartbeatFresh now st then st
  else
    let active := filter isActive (jobs st) in
    if (List.length active =? 0)%nat then st
    else fold_left cancel_one active st.

(** ** Route handlers ([routes/jobs.js], [routes/settings.js],
       [routes/photos.js]) *)

Inductive Response :=
| RespOk
| RespCreated (ids : list string)
| RespCancelled (count : Z)
| RespSettings (maxConcurrent maxConcurrentLimit : Z)
| RespError (code : Z) (error : string).

(** [POST /photos] for one accepted file, [DELETE /photos/:id],
    [DELETE /photos] *)
Definition photos_set (p : Photo) (st : State) : State :=
  if existsb (fun q => (photo_id q =? photo_id p)%string) (photos st)
  then set_photos (map (fun q => if (photo_id q =? photo_id p)%string
                                 then p else q) (photos st)) st
  else set_photos (photos st ++ [p]) st.

Definition photos_delete (pid : string) (st : State) : State :=
  set_photos (filter (fun q => negb (photo_id q =? pid)%string) (photos st))
             st.

Definition photos_clear (st : State) : State := set_photos [] st.

(** [PUT /jobs/reorder] *)
Fixpoint reorder_from (index : Z) (jobIds : list string) (st : State)
  : State :=
  match jobIds with
  | [] => st
  | jid :: rest =>
      reorder_from (index + 1) rest
        (match jobs_get jid st with
         | Some job =>
             if Status_eqb (status job) pending
             then update_job jid (set_priority index) st
             else st
         | None => st
         end)
  end.

Definition reorder (jobIds : list string) (st : State) : State * Response :=
  (reorder_from 0 jobIds st, RespOk).

Definition cancellable (s : Status) : bool :=
  Status_eqb s pending || Status_eqb s processing
  || Status_eqb s waiting_input.

(** [POST /jobs/cancel-all]: the loop reads each job as it reaches it. *)
Definition cancelAll (st : State) : State * Response :=
  let step acc jid :=
    match jobs_get jid (fst acc) with
    | Some job =>
        if cancellable (status job)
        then (cancel_one (fst acc) job, snd acc + 1)
        else acc
    | None => acc
    end in
  let '(st', count) := fold_left step (map job_id (jobs st)) (st, 0) in
  (st', RespCancelled count).

(** [POST /jobs/:id/cancel] *)
Definition cancel (jid : string) (st : State) : State * Response :=
  match jobs_get jid st with
  | None => (st, RespError 404 "Job not found")
  | Some job =>
      if cancellable (status job)
      then (processNext (cancel_one st job), RespOk)
      else (st, RespError 400 "Job cannot be cancelled")
  end.

(** The per-request randomness and clock of one iteration of
    [POST /jobs]: the job's UUID, the eight hex digits of a mask name and
    [Date.now()]. *)
Record Fresh := {
  fresh_uuid : string;
  fresh_maskId : string;
  fresh_now : Z;
}.

Definition includes (x : string) (l : list string) : bool :=
  existsb (fun y => (y =? x)%string) l.

Definition maskFile (maskId : string) : string :=
  Path.join UPLOADS_DIR ("mask_" ++ maskId ++ ".png").

(** One iteration of the [for (const photoId of photoIds)] loop. *)
Definition createJob (validSteps : list string)
    (opts masks cropRects : list (string * string))
    (acc : State * list string) (req : string * Fresh)
  : State * list string :=
  let '(st, created) := acc in
  let '(pid, fr) := req in
  match photos_get pid st with
  | None => acc
  | Some photo =>
      let withMask :=
        includes "inpaint" validSteps && truthy (assoc pid masks) in
      let mp := if withMask then Some (maskFile (fresh_maskId fr))
                else None in
      let st1 := if withMask
                 then set_files (writeFileSync (maskFile (fresh_maskId fr))
                                               (files st)) st
                 else st in
      let cr := if includes "crop" validSteps && truthy (assoc pid cropRects)
                then assoc pid cropRects else None in
      let job :=
        {| job_id := fresh_uuid fr; photoId := pid;
           photoName := originalName photo;
           original := "/uploads/" ++ filename photo;
           steps := validSteps; options := opts;
           maskPath := mp; cropRect := cr;
           status := pending; progress := 0; createdAt := fresh_now fr;
           result := None; stepResults := []; priority := fresh_now fr;
           resumeFromStep := None; currentInputPath := None;
           currentStep := None; waitingStep := None; waitingImage := None;
           job_error := None; failedStep := None;
           failedStepIndex := None |} in
      (enqueueJob (jobs_set job st1), (created ++ [job_id job])%list)
  end.

(** The message of [POST /jobs] when the AI part is not installed; its
    sixteenth character is an e with an acute accent (code unit 233). *)
Definition notConfigured : string :=
  "IA non configur"
  ++ String (ascii_of_nat 233) "e. Lancez : cd ai && bash setup.sh".

(** [POST /jobs].  [aiReady] and [setupRunning] are [isAiReady()] and
    [isSetupRunning()]; [reqs] pairs each photo id of the body with the
    fresh values drawn for it. *)
Definition createJobs (aiReady setupRunning : bool)
    (reqs : list (string * Fresh)) (steps : list string)
    (opts masks cropRects : list (string * string))
    (st : State) : State * Response :=
  if negb aiReady then
    (st, RespError 503
           (if setupRunning
            then "Installation IA en cours, veuillez patienter..."
            else notConfigured))
  else if (List.length reqs =? 0)%nat || (List.length steps =? 0)%nat
  then (st, RespError 400 "photoIds and steps are required")
  else
    let validSteps :=
      filter (fun s => match STEPS s with Some _ => true | None => false end)
             steps in
    if (List.length validSteps =? 0)%nat
    then (st, RespError 400 "No valid steps provided")
    else
      let '(st', created) :=
        fold_left (createJob validSteps opts masks cropRects) reqs (st, []) in
      (st', RespCreated created).

Definition clear_waiting (job : Job) : Job :=
  set_waitingImage None (set_waitingStep None job).

(** [POST /jobs/:id/input] *)
Definition submitInput (jid : string) (mask cropRect : option string)
    (maskId : string) (st : State) : State * Response :=
  match jobs_get jid st with
  | None => (st, RespError 400 "Job is not waiting for input")
  | Some job =>
      if negb (Status_eqb (status job) waiting_input)
      then (st, RespError 400 "Job is not waiting for input")
      else
        let st1 :=
          if opt_eqb (waitingStep job) "inpaint" && truthy mask
          then set_files (writeFileSync (maskFile maskId) (files st))
                 (update_job jid (set_maskPath (Some (maskFile maskId))) st)
          else st in
        let st2 :=
          if opt_eqb (waitingStep job) "crop" && truthy cropRect
          then update_job jid (set_cropRect cropRect) st1
          else st1 in
        (processJob jid (update_job jid clear_waiting st2), RespOk)
  end.

(** [POST /jobs/:id/skip] *)
Definition skipStep (jid : string) (st : State) : State * Response :=
  match jobs_get jid st with
  | None => (st, RespError 400 "Job is not waiting for input")
  | Some job =>
      if negb (Status_eqb (status job) waiting_input)
      then (st, RespError 400 "Job is not waiting for input")
      else
        (processJob jid
           (update_job jid
              (fun j => clear_waiting
                          (set_resumeFromStep (Some (startIndex_of j + 1)) j))
              st),
         RespOk)
  end.

(** The search loop of [POST /jobs/:id/back], entered with [i = n - 1]:
    the greatest manual index below [n], or [-1]. *)
Fixpoint previousManual (l : list string) (n : nat) : Z :=
  match n with
  | O => -1
  | S k =>
      match nth_error l k with
      | Some s => if MANUAL_STEPS_has s then Z.of_nat k
                  else previousManual l k
      | None => previousManual l k
      end
  end.

(** One iteration of the loop clearing the inputs of later steps. *)
Definition clearInput (acc : Job * list string) (s : string)
  : Job * list string :=
  let '(job, fs) := acc in
  let job1 := if (s =? "crop")%string then set_cropRect None job else job in
  if (s =? "inpaint")%string then
    (set_maskPath None job1,
     if truthy (maskPath job1)
     then unlinkSync (orElse (maskPath job1) "") fs else fs)
  else (job1, fs).

(** The input path recomputed by a rewind. *)
Definition rewindInput (job : Job) (st : State) : option string :=
  match rev (stepResults job) with
  | lastResult :: _ =>
      Some (Path.join ROOT (stripLeadingSlash (sr_result lastResult)))
  | [] =>
      match photos_get (photoId job) st with
      | Some photo => Some (Path.join UPLOADS_DIR (filename photo))
      | None => None
      end
  end.

(** The mutations of a rewind to [targetIdx], before execution resumes. *)
Definition rewindTo (targetIdx : Z) (jid : string) (job : Job) (st : State)
  : State :=
  let '(job1, fs) :=
    fold_left clearInput (skipn (Z.to_nat targetIdx) (steps job))
              (job, files st) in
  let job2 :=
    set_stepResults (firstn (Z.to_nat targetIdx) (stepResults job1)) job1 in
  let job3 := set_currentInputPath (rewindInput job2 st) job2 in
  let job4 := clear_waiting (set_resumeFromStep (Some targetIdx) job3) in
  set_files fs (update_job jid (fun _ => job4) st).

(** [POST /jobs/:id/back] *)
Definition back (jid : string) (st : State) : State * Response :=
  match jobs_get jid st with
  | None => (st, RespError 400 "Job is not waiting for input")
  | Some job =>
      if negb (Status_eqb (status job) waiting_input)
      then (st, RespError 400 "Job is not waiting for input")
      else
        let currentIdx := startIndex_of job in
        let targetIdx := previousManual (steps job) (Z.to_nat currentIdx) in
        if targetIdx <? 0
        then (st, RespError 400 "No previous manual step")
        else (processJob jid (rewindTo targetIdx jid job st), RespOk)
  end.

(** [obj[k] = v] on an object used as a map *)
Fixpoint assoc_set {A} (k : string) (v : A) (l : list (string * A))
  : list (string * A) :=
  match l with
  | [] => [(k, v)]
  | (k', v') :: l' => if (k' =? k)%string then (k, v) :: l'
                      else (k', v') :: assoc_set k v l'
  end.

(** [job.failedStepIndex ?? 0] *)
Definition failedIndex_of (job : Job) : Z :=
  match failedStepIndex job with
  | Some n => n
  | None => 0
  end.

Definition clear_error (job : Job) : Job :=
  set_failedStepIndex None (set_failedStep None (set_job_error None job)).

(** [POST /jobs/:id/retry].  The failed step can be [__proto__], an
    inherited member of [STEPS]; assigning a string to that property of the
    options object has no effect. *)
Definition retry (jid : string) (model : option string) (st : State)
  : State * Response :=
  match jobs_get jid st with
  | None => (st, RespError 400 "Job is not in failed state")
  | Some job =>
      if negb (Status_eqb (status job) failed)
      then (st, RespError 400 "Job is not in failed state")
      else
        let withModel (j : Job) :=
          match model, failedStep j with
          | Some m, Some fs =>
              if truthy model && truthy (failedStep j)
              then if (fs =? "__proto__")%string then j
                   else set_options (assoc_set fs m (options j)) j
              else j
          | _, _ => j
          end in
        (processJob jid
           (update_job jid
              (fun j =>
                 let j1 := withModel j in
                 clear_error
                   (set_status processing
                      (set_resumeFromStep (Some (failedIndex_of j1)) j1)))
              st),
         RespOk)
  end.

(** [POST /jobs/:id/skip-failed] *)
Definition skipFailed (jid : string) (st : State) : State * Response :=
  match jobs_get jid st with
  | None => (st, RespError 400 "Job is not in failed state")
  | Some job =>
      if negb (Status_eqb (status job) failed)
      then (st, RespError 400 "Job is not in failed state")
      else
        let nextIndex := failedIndex_of job + 1 in
        let st1 := update_job jid clear_error st in
        if nextIndex >=? steps_length job then
          (update_job jid
             (fun j => set_result (last_result j)
                         (set_progress 100 (set_status completed j))) st1,
           RespOk)
        else
          (processJob jid
             (update_job jid
                (fun j => set_status processing
                            (set_resumeFromStep (Some nextIndex) j)) st1),
           RespOk)
  end.

(** A JSON value of a request body. *)
Inductive JsValue :=
| JsUndefined
| JsNull
| JsBool (b : bool)
| JsNumber (q : Q)
| JsString (s : string)
| JsObject.

Definition setMaxConcurrent (val : Z) (st : State) : State :=
  set_maxConcurrent val st.

Definition inRange (q : Q) : bool :=
  Qle_bool 1 q && Qle_bool q (inject_Z MAX_CONCURRENT_LIMIT).

(** [PUT /settings] with [req.body.maxConcurrent = val] *)
Definition putSettings (val : JsValue) (st : State) : State * Response :=
  let st1 :=
    match val with
    | JsNumber q => if inRange q then setMaxConcurrent (Math_round q) st
                    else st
    | _ => st
    end in
  let st2 := processNext st1 in
  (st2, RespSettings (maxConcurrent st2) MAX_CONCURRENT_LIMIT).

Definition getSettings (st : State) : Response :=
  RespSettings (maxConcurrent st) MAX_CONCURRENT_LIMIT.

(** ** The event loop *)

(** What the process reacts to: HTTP requests, the heartbeat timer, the
    exit of a worker, and one queued [.then(() => processNext())]. *)
Inductive Event :=
| EvUpload (p : Photo)
| EvDeletePhoto (pid : string)
| EvClearPhotos
| EvCreateJobs (aiReady setupRunning : bool) (reqs : list (string * Fresh))
    (steps : list string) (opts masks cropRects : list (string * string))
| EvListJobs (now : Z)
| EvSubmitInput (jid : string) (mask cropRect : option string)
    (maskId : string)
| EvSkip (jid : string)
| EvBack (jid : string)
| EvRetry (jid : string) (model : option string)
| EvSkipFailed (jid : string)
| EvCancel (jid : string)
| EvCancelAll
| EvReorder (jobIds : list string)
| EvPutSettings (val : JsValue)
| EvHeartbeat (now : Z)
| EvWorkerExit (jid : string) (o : Outcome)
| EvMicrotask.

Definition step (ev : Event) (st : State) : State :=
  match ev with
  | EvUpload p => photos_set p st
  | EvDeletePhoto pid => photos_delete pid st
  | EvClearPhotos => photos_clear st
  | EvCreateJobs aiReady setupRunning reqs steps opts masks cropRects =>
      fst (createJobs aiReady setupRunning reqs steps opts masks cropRects st)
  | EvListJobs now => touchHeartbeat now st
  | EvSubmitInput jid mask cropRect maskId =>
      fst (submitInput jid mask cropRect maskId st)
  | EvSkip jid => fst (skipStep jid st)
  | EvBack jid => fst (back jid st)
  | EvRetry jid model => fst (retry jid model st)
  | EvSkipFailed jid => fst (skipFailed jid st)
  | EvCancel jid => fst (cancel jid st)
  | EvCancelAll => fst (cancelAll st)
  | EvReorder jobIds => fst (reorder jobIds st)
  | EvPutSettings val => fst (putSettings val st)
  | EvHeartbeat now => checkHeartbeat now st
  | EvWorkerExit jid o => workerExit jid o st
  | EvMicrotask =>
      match microtasks st with
      | O => st
      | S k => processNext (set_microtasks k st)
      end
  end.

Fixpoint distinct (l : list string) : bool :=
  match l with
  | [] => true
  | x :: l' => negb (includes x l') && distinct l'
  end.

(** When an event can occur.  Queued callbacks run before anything else;
    identifiers drawn by [randomUUID()] are new; a worker that exits was
    started. *)
Definition enabled (ev : Event) (st : State) : bool :=
  match ev with
  | EvMicrotask => negb (microtasks st =? 0)%nat
  | _ =>
      (microtasks st =? 0)%nat &&
      match ev with
      | EvUpload p =>
          negb (includes (photo_id p) (map photo_id (photos st)))
          && negb (includes (photo_id p) (map photoId (jobs st)))
      | EvCreateJobs _ _ reqs _ _ _ _ =>
          let uuids := map (fun r => fresh_uuid (snd r)) reqs in
          distinct uuids
          && forallb (fun u => negb (includes u (map job_id (jobs st)))) uuids
      | EvWorkerExit jid _ =>
          existsb (fun fr => (fr_job fr =? jid)%string) (awaiting st)
      | _ => true
      end
  end.

(** The state when the modules have been loaded at time [now]. *)
Definition init (now : Z) : State :=
  {| photos := []; jobs := []; runningProcs := []; awaiting := [];
     maxConcurrent := MAX_CONCURRENT_LIMIT; lastHeartbeat := now;
     files := []; microtasks := 0; killed := [] |}.

Inductive reachable : State -> Prop :=
| reachable_init now : reachable (init now)
| reachable_step st ev :
    reachable st -> enabled ev st = true -> reachable (step ev st).

(** Running a list of events, each of which must be enabled. *)
Fixpoint run (evs : list Event) (st : State) : option State :=
  match evs with
  | [] => Some st
  | ev :: rest => if enabled ev st then run rest (step ev st) else None
  end.

(** ** Vocabulary of the statements *)

(** How the loop of [processJob] can end a synchronous run started at
    iteration [i] for the job object [job]. *)
Inductive LoopOutcome (jid origName jobShort : string) (job : Job) (i : Z)
    (cur : string) (st : State) : State -> Prop :=
| loop_complete :
    LoopOutcome jid origName jobShort job i cur st
      (settle (update_job jid complete st))
| loop_pause i' step sd :
    i <= i' -> at_index (steps job) i' = Some step ->
    STEPS step = Some (Stage sd) ->
    needsInput_of (Some (Stage sd)) job = true ->
    LoopOutcome jid origName jobShort job i cur st
      (settle (update_job jid (pause step i' cur) st))
| loop_cancelled i' step sd :
    i <= i' -> at_index (steps job) i' = Some step ->
    STEPS step = Some (Stage sd) ->
    needsInput_of (Some (Stage sd)) job = false ->
    status job = cancelled ->
    LoopOutcome jid origName jobShort job i cur st
      (settle (update_job jid (enter_step step i') st))
| loop_await i' step sd :
    i <= i' -> at_index (steps job) i' = Some step ->
    STEPS step = Some (Stage sd) ->
    needsInput_of (Some (Stage sd)) job = false ->
    status job <> cancelled ->
    LoopOutcome jid origName jobShort job i cur st
      (spawn (frame_at jid origName jobShort i' step sd cur job)
             (update_job jid (enter_step step i') st))
| loop_throw i' step :
    i <= i' -> at_index (steps job) i' = Some step ->
    STEPS step = Some Inherited ->
    LoopOutcome jid origName jobShort job i cur st
      (settle (update_job jid (caught buildArgs_TypeError)
                 (update_job jid (enter_step step i') st))).

(** A write to the job [jid], as a function on job objects. *)
Definition upd (jid : string) (f : Job -> Job) (j : Job) : Job :=
  if (job_id j =? jid)%string then f j else j.

Definition keeps_id (f : Job -> Job) : Prop := forall j, job_id (f j) = job_id j.

(** [quiet jid st st']: from [st] to [st'] only the job [jid] was written,
    by id-preserving assignments, and frames were only added for it. *)
Record quiet (jid : string) (st st' : State) : Prop := {
  q_jobs : exists f, keeps_id f /\ (forall j, steps (f j) = steps j) /\
                     jobs st' = map (upd jid f) (jobs st);
  q_awaiting : exists extra, awaiting st' = (awaiting st ++ extra)%list /\
                             forall fr, In fr extra -> fr_job fr = jid;
  q_photos : photos st' = photos st;
  q_maxConcurrent : maxConcurrent st' = maxConcurrent st;
  q_lastHeartbeat : lastHeartbeat st' = lastHeartbeat st;
  q_files : files st' = files st;
  q_killed : killed st' = killed st;
}.

Definition dispatched (st' : State) (c : Job) : bool :=
  match jobs_get (job_id c) st' with
  | Some j => negb (Status_eqb (status j) pending)
  | None => false
  end.

Definition slotsConsumed (st' : State) (earlier : list Job) : Z :=
  Z.of_nat (List.length
              (filter (fun c => negb (jobWillPauseImmediately c)
                                && dispatched st' c) earlier)).

Definition by_priority (a b : Job) : Prop := priority a <= priority b.

Definition indicator (s t : Status) : Z := if Status_eqb s t then 1 else 0.

(** [MANUAL_STEPS.has(steps[k])] *)
Definition manualAt (l : list string) (k : Z) : bool :=
  match at_index l k with
  | Some s => MANUAL_STEPS_has s
  | None => false
  end.

Definition results_length (j : Job) : Z :=
  Z.of_nat (List.length (stepResults j)).

(** *** The invariant of the reachable states *)

(** A worker of the job [jid] is awaited. *)
Definition has_frame (jid : string) (st : State) : bool :=
  existsb (fun fr => (fr_job fr =? jid)%string) (awaiting st).

(** The photo [pid] is not in the store. *)
Definition photo_gone (pid : string) (st : State) : bool :=
  match photos_get pid st with
  | Some _ => false
  | None => true
  end.

(** What the pause branch of [processJob] establishes. *)
Definition waiting_ok (j : Job) : Prop :=
  exists i stp sd p,
    resumeFromStep j = Some i /\ at_index (steps j) i = Some stp
    /\ waitingStep j = Some stp /\ STEPS stp = Some (Stage sd)
    /\ needsInput_of (Some (Stage sd)) j = true
    /\ currentInputPath j = Some p /\ p <> ""
    /\ waitingImage j = Some (getUrlForPath p)
    /\ (NoDup (steps j) -> results_length j <= i).

(** The invariant of one job; [gone] and [framed] say whether its photo has
    left the store and whether one of its workers is awaited. *)
Definition job_ok (gone framed : bool) (j : Job) : Prop :=
  (failedStep j <> None \/ failedStepIndex j <> None -> status j = failed)
  /\ (forall r, resumeFromStep j = Some r -> r <= steps_length j)
  /\ (forall k, failedStepIndex j = Some k ->
        k < steps_length j /\ failedStep j <> None
        /\ (NoDup (steps j) -> results_length j <= k))
  /\ (status j = failed -> failedStepIndex j = None ->
        failedStep j = None /\ gone = true)
  /\ (status j = waiting_input -> waiting_ok j)
  /\ (status j = pending -> stepResults j = [] /\ resumeFromStep j = None)
  /\ (framed = true -> status j = processing \/ status j = cancelled).

(** The invariant of one suspended frame. *)
Definition frame_ok (st : State) (fr : Frame) : Prop :=
  fr_outputPath fr <> ""
  /\ STEPS (fr_step fr) = Some (Stage (fr_stepDef fr))
  /\ exists j,
       jobs_get (fr_job fr) st = Some j
       /\ at_index (steps j) (fr_i fr) = Some (fr_step fr)
       /\ (status j = processing ->
           currentStep j = Some (fr_step fr)
           /\ (NoDup (steps j) -> results_length j <= fr_i fr)).

Record Inv (st : State) : Prop := {
  inv_ids : NoDup (map job_id (jobs st));
  inv_frames : NoDup (map fr_job (awaiting st));
  inv_jobs : forall j, In j (jobs st) ->
               job_ok (photo_gone (photoId j) st) (has_frame (job_id j) st) j;
  inv_awaiting : forall fr, In fr (awaiting st) -> frame_ok st fr;
}.

(** A job without failure record and with a sound resume index. *)
Definition calm (j : Job) : Prop :=
  failedStep j = None /\ failedStepIndex j = None
  /\ (forall r, resumeFromStep j = Some r -> r <= steps_length j).

(** ** Further definitions *)

(** [s] with a final underscore removed, by recursion on [s]. *)
Fixpoint trimEnd_ (s : string) : string :=
  match s with
  | EmptyString => EmptyString
  | String c s' =>
      match s' with
      | EmptyString => if Ascii.eqb c "_" then EmptyString else s
      | String _ _ => String c (trimEnd_ s')
      end
  end.

(** Only plain characters, no underscore next to another, and none first
    when [prev] is set. *)
Fixpoint loose (prev : bool) (s : string) : bool :=
  match s with
  | EmptyString => true
  | String c s' =>
      isPlain c
      && (if Ascii.eqb c "_" then negb prev && loose true s'
          else loose false s')
  end.

(** The last character of [s] is an underscore. *)
Fixpoint ends_ (s : string) : bool :=
  match s with
  | EmptyString => false
  | String c s' =>
      match s' with
      | EmptyString => Ascii.eqb c "_"
      | String _ _ => ends_ s'
      end
  end.

(** No character of [s] is a slash. *)
Fixpoint no_slash (s : string) : bool :=
  match s with
  | EmptyString => true
  | String c s' => negb (Ascii.eqb c "/") && no_slash s'
  end.

(** The job [jid] is in the store with status [s]. *)
Definition has_status (jid : string) (s : Status) (st : State) : Prop :=
  exists job, jobs_get jid st = Some job /\ status job = s.

(** The fields of a job that are written once, by [POST /jobs]. *)
Definition identity_of (j : Job)
  : string * string * string * string * list string * Z :=
  (job_id j, photoId j, photoName j, original j, steps j, createdAt j).

(** The identity of the job that [POST /jobs] builds for one request. *)
Definition created_for (validSteps : list string) (st : State)
    (req : string * Fresh)
  : list (string * string * string * string * list string * Z) :=
  match photos_get (fst req) st with
  | Some photo =>
      [(fresh_uuid (snd req), fst req, originalName photo,
        "/uploads/" ++ filename photo, validSteps, fresh_now (snd req))]
  | None => []
  end.

(** *** [GET /jobs] *)

(** [statusOrder[status]] *)
Definition statusOrder (s : Status) : Z :=
  match s with
  | waiting_input => -1
  | processing => 0
  | pending => 1
  | completed | failed | cancelled => 2
  end.

(** The comparator of the listing: by status rank, then by priority among
    pending jobs and by creation time, latest first, among the others. *)
Definition listCompare (a b : Job) : Z :=
  let sa := statusOrder (status a) in
  let sb := statusOrder (status b) in
  if negb (sa =? sb) then sa - sb
  else if Status_eqb (status a) pending && Status_eqb (status b) pending
       then priority a - priority b
       else createdAt b - createdAt a.

(** [all.sort(compare)]: the sort is stable. *)
Fixpoint insert_listed (j : Job) (l : list Job) : list Job :=
  match l with
  | [] => [j]
  | k :: l' => if listCompare j k <=? 0 then j :: k :: l'
               else k :: insert_listed j l'
  end.

Definition sort_listed (l : list Job) : list Job :=
  fold_right insert_listed [] l.

(** The [canGoBack] loop, entered with [i = n - 1]. *)
Fixpoint canGoBack_from (l : list string) (n : nat) : bool :=
  match n with
  | O => false
  | S k =>
      match nth_error l k with
      | Some s => if MANUAL_STEPS_has s then true else canGoBack_from l k
      | None => canGoBack_from l k
      end
  end.

(** [rest.canGoBack], absent unless the job waits with a resume index. *)
Definition canGoBack (job : Job) : option bool :=
  if Status_eqb (status job) waiting_input then
    match resumeFromStep job with
    | Some r => Some (canGoBack_from (steps job) (Z.to_nat r))
    | None => None
    end
  else None.

(** What the listing shows of a job: the job without its mask path, crop
    rectangle and current input path, and [canGoBack]. *)
Definition listed (job : Job) : Job * option bool :=
  (set_currentInputPath None (set_cropRect None (set_maskPath None job)),
   canGoBack job).

(** [GET /jobs] at time [now] *)
Definition listJobs (now : Z) (st : State)
  : State * list (Job * option bool) :=
  (touchHeartbeat now st, map listed (sort_listed (jobs st))).

(** The order of the listing. *)
Definition listed_before (a b : Job) : Prop :=
  statusOrder (status a) < statusOrder (status b)
  \/ (statusOrder (status a) = statusOrder (status b)
      /\ if Status_eqb (status a) pending then priority a <= priority b
         else createdAt b <= createdAt a).

(** *** A second invariant of the reachable states *)

(** [STEPS[s]] is not [undefined]. *)
Definition registered (s : string) : bool :=
  match STEPS s with
  | Some _ => true
  | None => false
  end.

(** What holds of a job between two events; [framed] says whether one of
    its workers is awaited. *)
Definition sound (framed : bool) (j : Job) : Prop :=
  (steps j <> [] /\ forallb registered (steps j) = true)
  /\ (status j = processing -> framed = true)
  /\ (waitingStep j <> None \/ waitingImage j <> None ->
      status j = waiting_input)
  /\ (result j <> None -> status j = completed)
  /\ (status j = completed -> result j = last_result j /\ progress j = 100)
  /\ 0 <= progress j <= 100
  /\ (forall k, failedStepIndex j = Some k ->
        0 <= k /\ at_index (steps j) k = failedStep j).

(** A job that [processJob] may be called on. *)
Definition ready (j : Job) : Prop :=
  (steps j <> [] /\ forallb registered (steps j) = true)
  /\ waitingStep j = None /\ waitingImage j = None /\ result j = None
  /\ 0 <= progress j <= 100
  /\ (forall k, failedStepIndex j = Some k ->
        0 <= k /\ at_index (steps j) k = failedStep j).

(** A worker of [jid] is awaited, or [jid] is one of the jobs [ex] that are
    in the middle of a synchronous run. *)
Definition framedx (ex : string -> bool) (jid : string) (st : State) : bool :=
  has_frame jid st || ex jid.

Definition nobody (jid : string) : bool := false.

(** [ex] with [jid] added. *)
Definition also (jid : string) (ex : string -> bool) (k : string) : bool :=
  ex k || (k =? jid)%string.

Record Tidy (ex : string -> bool) (st : State) : Prop := {
  tidy_max : 1 <= maxConcurrent st <= MAX_CONCURRENT_LIMIT;
  tidy_jobs : forall j, In j (jobs st) -> sound (framedx ex (job_id j) st) j;
  tidy_procs : forall k, In k (runningProcs st) ->
                 exists j, jobs_get k st = Some j /\ status j = processing
                           /\ has_frame k st = true;
  tidy_reg : forall j, In j (jobs st) -> status j = processing ->
               has_frame (job_id j) st = true -> job_id j <> "" ->
               procs_has (job_id j) st = true;
}.

End Scheduler.

(** ** Concrete scenarios *)

(** An installation with the default configuration. *)
Definition demo_env : Env :=
  {| ROOT := "/app"; env_UPLOADS_DIR := None; env_RESULTS_DIR := None;
     env_MAX_CONCURRENT_JOBS := None;
     env_HEARTBEAT_TIMEOUT_SECONDS := Some 10;
     getenv := fun _ => None |}.

Definition demo_photo : Photo :=
  {| photo_id := "photo-1"; filename := "3f2a.jpg";
     originalName := "grand-pere 1923.jpg" |}.

Definition fresh (uuid : string) (now : Z) : Fresh :=
  {| fresh_uuid := uuid; fresh_maskId := "0a1b2c3d"; fresh_now := now |}.

(** The state reached from start-up by a list of events ([init] itself if
    one of them cannot occur). *)
Definition state_after {env : Env} (evs : list Event) : State :=
  match run evs (init 0) with
  | Some st => st
  | None => init 0
  end.

(** Three jobs whose only step is a crop, then the first is cancelled. *)
Definition two_waiting_trace : list Event :=
  [EvUpload demo_photo;
   EvCreateJobs true false
     [("photo-1", fresh "job-a00001" 1); ("photo-1", fresh "job-b00002" 2);
      ("photo-1", fresh "job-c00003" 3)]
     ["crop"] [] [] [];
   EvMicrotask;
   EvCancel "job-a00001"].

(** One slot; a job waits for its crop while another one is processing,
    then the crop rectangle is submitted. *)
Definition over_limit_trace : list Event :=
  [EvPutSettings (JsNumber 1);
   EvUpload demo_photo;
   EvCreateJobs true false [("photo-1", fresh "job-a00001" 1)]
     ["crop"; "face_restore"] [] [] [];
   EvMicrotask;
   EvCreateJobs true false [("photo-1", fresh "job-b00002" 2)]
     ["face_restore"] [] [] [];
   EvSubmitInput "job-a00001" None (Some "10,10,200,200") "0a1b2c3d"].

(** A pipeline that lists the same stage twice, up to its third worker. *)
Definition duplicate_step_trace : list Event :=
  [EvUpload demo_photo;
   EvCreateJobs true false [("photo-1", fresh "job-a00001" 1)]
     ["face_restore"; "colorize"; "face_restore"] [] [] [];
   EvWorkerExit "job-a00001" (Resolved "ok");
   EvWorkerExit "job-a00001" (Resolved "ok")].

(** An automatic pipeline whose first worker has succeeded. *)
Definition automatic_trace : list Event :=
  [EvUpload demo_photo;
   EvCreateJobs true false [("photo-1", fresh "job-a00001" 1)]
     ["face_restore"; "colorize"] [] [] [];
   EvWorkerExit "job-a00001" (Resolved "ok")].

(** A job waits for its crop and its photo is deleted. *)
Definition orphan_trace : list Event :=
  [EvUpload demo_photo;
   EvCreateJobs true false [("photo-1", fresh "job-a00001" 1)]
     ["crop"] [] [] [];
   EvMicrotask;
   EvDeletePhoto "photo-1"].

(** A job waits for its crop, its photo is deleted, the crop is submitted. *)
Definition missing_photo_trace : list Event :=
  [EvUpload demo_photo;
   EvCreateJobs true false [("photo-1", fresh "job-a00001" 1)]
     ["crop"] [] [] [];
   EvMicrotask;
   EvDeletePhoto "photo-1";
   EvSubmitInput "job-a00001" None (Some "10,10,200,200") "0a1b2c3d"].

(** Two pending jobs behind a processing one, with a single slot. *)
Definition queued_trace : list Event :=
  [EvPutSettings (JsNumber 1);
   EvUpload demo_photo;
   EvCreateJobs true false
     [("photo-1", fresh "job-a00001" 1); ("photo-1", fresh "job-b00002" 2);
      ("photo-1", fresh "job-c00003" 3)]
     ["face_restore"] [] [] []].

Definition queued_state : State :=
  state_after (env:=demo_env) queued_trace.

(** An installation whose [HEARTBEAT_TIMEOUT_SECONDS] is not a number. *)
Definition unparsed_env : Env :=
  {| ROOT := "/app"; env_UPLOADS_DIR := None; env_RESULTS_DIR := None;
     env_MAX_CONCURRENT_JOBS := None;
     env_HEARTBEAT_TIMEOUT_SECONDS := None;
     getenv := fun _ => None |}.

(** A job as [POST /jobs] builds it. *)
Definition demo_job : Job :=
  {| job_id := "job-a00001"; photoId := "photo-1";
     photoName := "grand-pere 1923.jpg"; original := "/uploads/3f2a.jpg";
     steps := ["face_restore"; "crop"]; options := [];
     maskPath := None; cropRect := None; status := pending; progress := 0;
     createdAt := 1; result := None; stepResults := []; priority := 1;
     resumeFromStep := None; currentInputPath := None; currentStep := None;
     waitingStep := None; waitingImage := None; job_error := None;
     failedStep := None; failedStepIndex := None |}.

(** One photo in the store, no job yet. *)
Definition uploaded_state : State :=
  state_after (env:=demo_env) [EvUpload demo_photo].

(** The state reached by [two_waiting_trace]: two jobs wait for a crop. *)
Definition waiting_state : State :=
  state_after (env:=demo_env) two_waiting_trace.

(** A request for the photo of the store and for an unknown one. *)
Definition two_requests : list (string * Fresh) :=
  [("photo-1", fresh "job-a00001" 1); ("photo-2", fresh "job-b00002" 2)].

(** A job of one automatic step whose worker has succeeded, the queued
    [processNext] having run. *)
Definition completed_state : State :=
  state_after (env:=demo_env)
    [EvUpload demo_photo;
     EvCreateJobs true false [("photo-1", fresh "job-a00001" 1)]
       ["face_restore"] [] [] [];
     EvWorkerExit "job-a00001" (Resolved "ok");
     EvMicrotask].

(** A job whose second worker has failed. *)
Definition failed_state : State :=
  state_after (env:=demo_env)
    (automatic_trace ++ [EvWorkerExit "job-a00001" (Rejected "out of memory")]).

(** One slot.  A job is processing, a crop-only job waits, then two jobs
    are created, one with a crop among its steps and one without, and the
    worker of the first job succeeds: its [processNext] callback is
    queued. *)
Definition gated_trace : list Event :=
  [EvPutSettings (JsNumber 1);
   EvUpload demo_photo;
   EvCreateJobs true false [("photo-1", fresh "job-x00000" 1)]
     ["face_restore"] [] [] [];
   EvCreateJobs true false [("photo-1", fresh "job-a00001" 2)]
     ["crop"] [] [] [];
   EvMicrotask;
   EvCreateJobs true false [("photo-1", fresh "job-b00002" 3)]
     ["crop"; "colorize"] [] [] [];
   EvCreateJobs true false [("photo-1", fresh "job-c00003" 4)]
     ["colorize"] [] [] [];
   EvWorkerExit "job-x00000" (Resolved "ok")].

Definition gated_state : State :=
  state_after (env:=demo_env) gated_trace.

(** The installation of the [Dockerfile]: the code under [/app], uploads
    and results under [/data]. *)
Definition docker_env : Env :=
  {| ROOT := "/app"; env_UPLOADS_DIR := Some "/data/uploads";
     env_RESULTS_DIR := Some "/data/results";
     env_MAX_CONCURRENT_JOBS := None;
     env_HEARTBEAT_TIMEOUT_SECONDS := Some 10;
     getenv := fun _ => None |}.

(** A pipeline [face_restore; crop; inpaint] created with its crop
    rectangle: two workers succeed and the job waits for its mask. *)
Definition rewind_trace : list Event :=
  [EvUpload demo_photo;
   EvCreateJobs true false [("photo-1", fresh "job-a00001" 1)]
     ["face_restore"; "crop"; "inpaint"] [] []
     [("photo-1", "10,10,200,200")];
   EvWorkerExit "job-a00001" (Resolved "ok");
   EvWorkerExit "job-a00001" (Resolved "ok");
   EvMicrotask].

(** A request whose steps name a stage, an unknown key and a member of
    [Object.prototype]: the job waits for its crop. *)
Definition inherited_state : State :=
  state_after (env:=demo_env)
    [EvUpload demo_photo;
     EvCreateJobs true false [("photo-1", fresh "job-a00001" 1)]
       ["crop"; "sepia"; "constructor"] [] [] [];
     EvMicrotask].

(** A stage followed by a member of [Object.prototype]: the worker of the
    stage is awaited. *)
Definition inherited_next_state : State :=
  state_after (env:=demo_env)
    [EvUpload demo_photo;
     EvCreateJobs true false [("photo-1", fresh "job-a00001" 1)]
       ["face_restore"; "toString"] [] [] []].

(** * Properties *)

Section Properties.

Context {env : Env}.

(** ** Basic facts about the stores *)

Lemma Status_eqb_eq (a b : Status) : Status_eqb a b = true <-> a = b.
Proof. destruct a, b; simpl; split; congruence. Qed.

Lemma Status_eqb_neq (a b : Status) : Status_eqb a b = false <-> a <> b.
Proof. destruct a, b; simpl; split; congruence. Qed.

Lemma includes_In (x : string) (l : list string) :
  includes x l = true <-> In x l.
Proof.
  unfold includes. rewrite existsb_exists. split.
  - intros (y & Hy & E). apply String.eqb_eq in E. now subst.
  - intros H. exists x. split; [assumption | apply String.eqb_refl].
Qed.

Lemma includes_cons (x y : string) (l : list string) :
  includes x (y :: l) = (y =? x)%string || includes x l.
Proof. reflexivity. Qed.

Lemma includes_not_In (x : string) (l : list string) :
  includes x l = false <-> ~ In x l.
Proof.
  rewrite <- includes_In. destruct (includes x l); split; congruence.
Qed.

Lemma find_job_Some (jid : string) (l : list Job) (j : Job) :
  find (fun k => (job_id k =? jid)%string) l = Some j ->
  In j l /\ job_id j = jid.
Proof.
  intros H. apply find_some in H. destruct H as [H E].
  apply String.eqb_eq in E. now split.
Qed.

Lemma jobs_get_Some (jid : string) (st : State) (j : Job) :
  jobs_get jid st = Some j -> In j (jobs st) /\ job_id j = jid.
Proof. apply find_job_Some. Qed.

Lemma find_job_In (l : list Job) (j : Job) :
  NoDup (map job_id l) -> In j l ->
  find (fun k => (job_id k =? job_id j)%string) l = Some j.
Proof.
  induction l as [|k l IH]; simpl; intros ND Hin; [contradiction|].
  inversion ND as [|? ? Hk ND']; subst.
  destruct Hin as [->|Hin].
  - now rewrite String.eqb_refl.
  - destruct (String.eqb_spec (job_id k) (job_id j)) as [E|_].
    + exfalso. apply Hk. rewrite E. now apply in_map.
    + now apply IH.
Qed.

Lemma jobs_get_In (st : State) (j : Job) :
  NoDup (map job_id (jobs st)) -> In j (jobs st) ->
  jobs_get (job_id j) st = Some j.
Proof. apply find_job_In. Qed.

Lemma find_job_None (jid : string) (l : list Job) :
  find (fun k => (job_id k =? jid)%string) l = None <->
  ~ In jid (map job_id l).
Proof.
  induction l as [|k l IH]; simpl; [tauto|].
  destruct (String.eqb_spec (job_id k) jid) as [E|N].
  - split; [discriminate | intros H; exfalso; apply H; now left].
  - rewrite IH. tauto.
Qed.

Lemma runLoop_outcome (n : nat) (jid origName jobShort : string) (i : Z)
    (cur : string) (st : State) (job : Job) :
  jobs_get jid st = Some job ->
  LoopOutcome jid origName jobShort job i cur st
    (runLoop n jid origName jobShort i cur st).
Proof.
  intros Hget. revert i. induction n as [|n IH]; intros i; cbn [runLoop].
  - constructor.
  - rewrite Hget.
    assert (Hnext : LoopOutcome jid origName jobShort job i cur st
              (runLoop n jid origName jobShort (i + 1) cur st)).
    { destruct (IH (i + 1)); econstructor; eauto; lia. }
    destruct (at_index (steps job) i) as [step|] eqn:Hs; [|exact Hnext].
    destruct (STEPS step) as [[sd|]|] eqn:Hd; [| |exact Hnext].
    + destruct (needsInput_of (Some (Stage sd)) job) eqn:Hn.
      * eapply loop_pause; eauto; lia.
      * destruct (Status_eqb (status job) cancelled) eqn:Hc.
        -- apply Status_eqb_eq in Hc. eapply loop_cancelled; eauto; lia.
        -- apply Status_eqb_neq in Hc. eapply loop_await; eauto; lia.
    + cbn [needsInput_of]. eapply loop_throw; eauto; lia.
Qed.

Lemma jobs_update_job jid f st :
  jobs (update_job jid f st) = map (upd jid f) (jobs st).
Proof. reflexivity. Qed.

Lemma upd_id jid f j : keeps_id f -> job_id (upd jid f j) = job_id j.
Proof. intros K. unfold upd. destruct (_ =? _)%string; [apply K | reflexivity]. Qed.

Lemma map_upd_ids jid f l :
  keeps_id f -> map job_id (map (upd jid f) l) = map job_id l.
Proof.
  intros K. rewrite map_map. apply map_ext. intros j. now apply upd_id.
Qed.

Lemma upd_upd jid f g l :
  keeps_id g ->
  map (upd jid f) (map (upd jid g) l) = map (upd jid (fun j => f (g j))) l.
Proof.
  intros K. rewrite map_map. apply map_ext. intros j. unfold upd.
  destruct (String.eqb_spec (job_id j) jid) as [E|N].
  - now rewrite K, E, String.eqb_refl.
  - now rewrite (proj2 (String.eqb_neq _ _) N).
Qed.

Lemma find_upd_same jid f l job :
  keeps_id f ->
  find (fun k => (job_id k =? jid)%string) l = Some job ->
  find (fun k => (job_id k =? jid)%string) (map (upd jid f) l) = Some (f job).
Proof.
  intros K. induction l as [|k l IH]; simpl; [discriminate|].
  unfold upd at 1 2. destruct (String.eqb_spec (job_id k) jid) as [E|N].
  - rewrite K, E, String.eqb_refl. congruence.
  - rewrite (proj2 (String.eqb_neq _ _) N). exact IH.
Qed.

Lemma find_upd_other jid jid' f l :
  keeps_id f -> jid' <> jid ->
  find (fun k => (job_id k =? jid')%string) (map (upd jid f) l) =
  find (fun k => (job_id k =? jid')%string) l.
Proof.
  intros K N. induction l as [|k l IH]; simpl; [reflexivity|].
  rewrite upd_id by assumption.
  destruct (String.eqb_spec (job_id k) jid') as [E|N'].
  - unfold upd. rewrite (proj2 (String.eqb_neq _ _)) by congruence. reflexivity.
  - exact IH.
Qed.

Lemma In_upd jid f l j' :
  In j' (map (upd jid f) l) ->
  exists j, In j l /\ ((job_id j = jid /\ j' = f j) \/ (job_id j <> jid /\ j' = j)).
Proof.
  intros H. apply in_map_iff in H. destruct H as (j & E & Hin).
  exists j. split; [assumption|]. unfold upd in E.
  destruct (String.eqb_spec (job_id j) jid); [left | right]; split; congruence.
Qed.

Lemma In_upd_other jid f l j :
  In j l -> job_id j <> jid -> In j (map (upd jid f) l).
Proof.
  intros Hin N. apply in_map_iff. exists j. split; [|assumption].
  unfold upd. now rewrite (proj2 (String.eqb_neq _ _) N).
Qed.

Ltac keeps := intros ?; reflexivity.

Lemma caught_id (m : string) : keeps_id (caught m).
Proof. intros j. unfold caught. now destruct (Status_eqb _ _). Qed.

Lemma caught_steps (m : string) (j : Job) : steps (caught m j) = steps j.
Proof. unfold caught. now destruct (Status_eqb _ _). Qed.

Lemma caught_live (m : string) (j : Job) :
  status j <> cancelled -> caught m j = fail m j.
Proof.
  intros H. unfold caught.
  destruct (Status_eqb (status j) cancelled) eqn:E; [|reflexivity].
  apply Status_eqb_eq in E. contradiction.
Qed.

(** Entering an inherited member and failing on it, as one write. *)
Lemma update_caught (jid : string) (m step : string) (i : Z) (st : State) :
  update_job jid (caught m) (update_job jid (enter_step step i) st)
  = update_job jid (fun j => caught m (enter_step step i j)) st.
Proof.
  unfold update_job, set_jobs. cbn. f_equal.
  apply upd_upd. keeps.
Qed.

Lemma quiet_update jid f st :
  keeps_id f -> (forall j, steps (f j) = steps j) ->
  quiet jid st (update_job jid f st).
Proof.
  intros K S. split; try reflexivity.
  - exists f. now repeat split.
  - exists []. split; [symmetry; apply app_nil_r | contradiction].
Qed.

Lemma quiet_trans jid st1 st2 st3 :
  quiet jid st1 st2 -> quiet jid st2 st3 -> quiet jid st1 st3.
Proof.
  intros [(f & Kf & Sf & Ef) (x & Ex & Hx) ? ? ? ? ?]
         [(g & Kg & Sg & Eg) (y & Ey & Hy) ? ? ? ? ?].
  split; try congruence.
  - exists (fun j => g (f j)). split; [|split].
    + intros j. now rewrite Kg, Kf.
    + intros j. now rewrite Sg, Sf.
    + rewrite Eg, Ef. now apply upd_upd.
  - exists (x ++ y)%list. split.
    + now rewrite Ey, Ex, app_assoc.
    + intros fr Hin. apply in_app_or in Hin. destruct Hin; auto.
Qed.

Lemma quiet_settle jid st st' : quiet jid st st' -> quiet jid st (settle st').
Proof. intros [? ? ? ? ? ? ?]. split; assumption. Qed.

Lemma frame_at_fields jid origName jobShort i stp sd cur job :
  let fr := frame_at jid origName jobShort i stp sd cur job in
  fr_job fr = jid /\ fr_i fr = i /\ fr_step fr = stp /\ fr_stepDef fr = sd
  /\ fr_origName fr = origName /\ fr_jobShort fr = jobShort
  /\ fr_outputPath fr = Path.join RESULTS_DIR (fr_outputFilename fr).
Proof.
  unfold frame_at. destruct (buildArgs _ _ _ _ _). cbn. repeat split.
Qed.

Lemma quiet_spawn jid fr st st' :
  fr_job fr = jid -> quiet jid st st' -> quiet jid st (spawn fr st').
Proof.
  intros Hfr [? (x & Ex & Hx) ? ? ? ? ?].
  assert (Ha : awaiting (spawn fr st') = (awaiting st' ++ [fr])%list).
  { unfold spawn, procs_set.
    destruct (truthy _); [destruct (procs_has _ _)|]; reflexivity. }
  unfold spawn, procs_set in *.
  destruct (truthy _); [destruct (procs_has _ _)|]; split; try assumption;
    (exists (x ++ [fr])%list; split;
     [ rewrite Ha, Ex, app_assoc; reflexivity
     | intros fr' Hin; apply in_app_or in Hin;
       destruct Hin as [Hin|[<-|[]]]; auto ]).
Qed.

Lemma quiet_refl jid st : quiet jid st st.
Proof.
  split; try reflexivity.
  - exists (fun j => j). repeat split.
    rewrite <- (map_id (jobs st)) at 1. apply map_ext. intros j.
    unfold upd. now destruct (_ =? _)%string.
  - exists []. split; [symmetry; apply app_nil_r | contradiction].
Qed.

Lemma runLoop_quiet n jid origName jobShort i cur st :
  quiet jid st (runLoop n jid origName jobShort i cur st).
Proof.
  destruct (jobs_get jid st) as [job|] eqn:Hget.
  - destruct (runLoop_outcome n jid origName jobShort i cur st job Hget).
    + apply quiet_settle, quiet_update; keeps.
    + apply quiet_settle, quiet_update; keeps.
    + apply quiet_settle, quiet_update; keeps.
    + apply quiet_spawn; [apply frame_at_fields | apply quiet_update; keeps].
    + apply quiet_settle.
      eapply quiet_trans; apply quiet_update; try keeps;
        [apply caught_id | apply caught_steps].
  - revert i. induction n as [|n IH]; intros i; cbn [runLoop].
    + apply quiet_settle, quiet_update; keeps.
    + rewrite Hget. apply quiet_refl.
Qed.

Lemma processJob_quiet jid st : quiet jid st (processJob jid st).
Proof.
  unfold processJob. destruct (jobs_get jid st) as [job|]; [|apply quiet_refl].
  destruct (photos_get _ _).
  - eapply quiet_trans; [|apply runLoop_quiet]. apply quiet_update; keeps.
  - apply quiet_settle. eapply quiet_trans; apply quiet_update; keeps.
Qed.


(** ** The stage table *)

Lemma STEPS_entries_eq :
  STEPS_entries =
    [("crop", crop); ("inpaint", inpaint); ("spot_removal", spot_removal);
     ("scratch_removal", scratch_removal); ("face_restore", face_restore);
     ("colorize", colorize); ("upscale", upscale)].
Proof. reflexivity. Qed.

Lemma STEPS_cases (step : string) (sd : StepDef) :
  STEPS step = Some (Stage sd) ->
  (step = "crop" /\ sd = crop) \/ (step = "inpaint" /\ sd = inpaint) \/
  (needsInput sd = None /\ onComplete sd = None /\ manual sd = false).
Proof.
  unfold STEPS. rewrite STEPS_entries_eq. cbn [assoc].
  repeat match goal with
         | |- context [String.eqb ?a step] =>
             destruct (String.eqb_spec a step) as [<-|?]
         end;
    try (intros H; inversion H; subst; auto).
  destruct (existsb _ _); discriminate.
Qed.

Lemma needsInput_of_ext (step : string) (sd : StepDef) (j j' : Job) :
  STEPS step = Some (Stage sd) ->
  cropRect j = cropRect j' -> maskPath j = maskPath j' ->
  needsInput_of (Some (Stage sd)) j = needsInput_of (Some (Stage sd)) j'.
Proof.
  intros H Hc Hm.
  destruct (STEPS_cases _ _ H) as [[_ ->]|[[_ ->]|[N _]]]; simpl.
  - now rewrite Hc.
  - now rewrite Hm.
  - now rewrite N.
Qed.

Lemma MANUAL_STEPS_eq : MANUAL_STEPS = ["crop"; "inpaint"].
Proof. reflexivity. Qed.

Lemma MANUAL_STEPS_has_spec (s : string) :
  MANUAL_STEPS_has s = true <-> s = "crop" \/ s = "inpaint".
Proof.
  unfold MANUAL_STEPS_has. rewrite MANUAL_STEPS_eq. cbn [existsb].
  rewrite !orb_false_r, orb_true_iff, !String.eqb_eq. intuition congruence.
Qed.

Lemma registered_key (s : string) :
  registered s = true ->
  (In s ["crop"; "inpaint"; "spot_removal"; "scratch_removal";
         "face_restore"; "colorize"; "upscale"]
   /\ exists sd, STEPS s = Some (Stage sd))
  \/ (In s Object_prototype_keys /\ STEPS s = Some Inherited).
Proof.
  unfold registered, STEPS. rewrite STEPS_entries_eq. cbn [assoc].
  repeat match goal with
         | |- context [String.eqb ?a s] =>
             destruct (String.eqb_spec a s) as [<-|?]
         end;
    try (intros _; left; split; [cbn [In]; tauto | eexists; reflexivity]).
  destruct (existsb _ _) eqn:E; [|discriminate].
  intros _. right. split; [|reflexivity].
  apply existsb_exists in E. destruct E as (k & Hk & E).
  apply String.eqb_eq in E. now subst k.
Qed.

(** The names under which [STEPS] holds something. *)
Lemma registered_names (s : string) :
  registered s = true <->
  In s ["crop"; "inpaint"; "spot_removal"; "scratch_removal";
        "face_restore"; "colorize"; "upscale"]
  \/ In s Object_prototype_keys.
Proof.
  split.
  - intros H. destruct (registered_key s H) as [[H1 _]|[H1 _]]; auto.
  - unfold Object_prototype_keys. cbn [In].
    intros [H|H]; repeat (destruct H as [<-|H]; [reflexivity|]);
      contradiction.
Qed.

(** ** Outcome of a call of [processJob] *)

Lemma at_index_Some {A} (l : list A) (i : Z) (x : A) :
  at_index l i = Some x -> 0 <= i < Z.of_nat (List.length l).
Proof.
  unfold at_index. destruct (Z.ltb_spec i 0); [discriminate|].
  intros Hx. assert (Hn : nth_error l (Z.to_nat i) <> None) by congruence.
  apply nth_error_Some in Hn. lia.
Qed.

(** A job whose next step needs its input pauses at once. *)
Lemma runLoop_pauses_now jid origName jobShort i cur st job step sd :
  jobs_get jid st = Some job ->
  at_index (steps job) i = Some step -> STEPS step = Some (Stage sd) ->
  needsInput_of (Some (Stage sd)) job = true ->
  runLoop (iterations job i) jid origName jobShort i cur st =
  settle (update_job jid (pause step i cur) st).
Proof.
  intros Hget Hs Hd Hn. unfold iterations, steps_length.
  apply at_index_Some in Hs as Hi.
  destruct (Z.to_nat _) as [|n] eqn:En; [lia|].
  cbn [runLoop]. now rewrite Hget, Hs, Hd, Hn.
Qed.

Lemma jobs_get_update_same jid f st job :
  keeps_id f -> jobs_get jid st = Some job ->
  jobs_get jid (update_job jid f st) = Some (f job).
Proof. intros K H. unfold jobs_get. now apply find_upd_same. Qed.

Lemma jobs_get_quiet_other jid jid' st st' :
  quiet jid st st' -> jid' <> jid -> jobs_get jid' st' = jobs_get jid' st.
Proof.
  intros [(f & K & _ & E) _ _ _ _ _ _] N. unfold jobs_get. rewrite E.
  now apply find_upd_other.
Qed.

Lemma quiet_ids jid st st' :
  quiet jid st st' -> map job_id (jobs st') = map job_id (jobs st).
Proof.
  intros [(f & K & _ & E) _ _ _ _ _ _]. rewrite E. now apply map_upd_ids.
Qed.

(** After [processJob(job)] has run up to its first suspension the job is
    no longer pending, and it is not processing either when its next step
    was a manual stage in need of its input. *)
Lemma processJob_status jid st job :
  jobs_get jid st = Some job ->
  exists job',
    jobs_get jid (processJob jid st) = Some job'
    /\ status job' <> pending
    /\ (jobWillPauseImmediately job = true -> status job' <> processing).
Proof.
  intros Hget. unfold processJob. rewrite Hget.
  set (st1 := update_job jid (set_status processing) st).
  assert (Hget1 : jobs_get jid st1 = Some (set_status processing job)).
  { apply jobs_get_update_same; [keeps | assumption]. }
  change (photos_get (photoId job) st1) with (photos_get (photoId job) st).
  destruct (photos_get (photoId job) st) as [photo|].
  - set (cur := orElse _ _). set (on := sanitizeFilename _).
    set (js := substring _ _ _).
    destruct (jobWillPauseImmediately job) eqn:W.
    + unfold jobWillPauseImmediately, stepDef_at in W.
      destruct (at_index (steps job) (startIndex_of job)) as [step|] eqn:Hs;
        [|discriminate].
      destruct (STEPS step) as [[sd|]|] eqn:Hd; try discriminate.
      change (iterations job (startIndex_of job))
        with (iterations (set_status processing job) (startIndex_of job)).
      erewrite runLoop_pauses_now; eauto.
      * eexists. split.
        -- unfold settle. cbn [jobs_get jobs set_microtasks].
           apply jobs_get_update_same; [keeps | exact Hget1].
        -- split; [discriminate|]. intros _. discriminate.
      * rewrite <- W. eapply needsInput_of_ext; eauto.
    + assert (Hres : forall f st', keeps_id f ->
                jobs st' = jobs (update_job jid f st1) ->
                jobs_get jid st' = Some (f (set_status processing job))).
      { intros f st' K E. unfold jobs_get. rewrite E.
        apply jobs_get_update_same; assumption. }
      destruct (runLoop_outcome (iterations job (startIndex_of job)) jid on js
                  (startIndex_of job) cur st1 _ Hget1)
        as [|i' stp sd _ _ _ _|i' stp sd _ _ _ _ _|i' stp sd _ _ _ _ _
            |i' stp _ _ _].
      * eexists. split; [apply (Hres complete); [keeps | reflexivity]|].
        split; discriminate.
      * eexists. split;
          [apply (Hres (pause stp i' cur)); [keeps | reflexivity]|].
        split; discriminate.
      * eexists. split;
          [apply (Hres (enter_step stp i')); [keeps | reflexivity]|].
        split; discriminate.
      * eexists. split.
        -- apply (Hres (enter_step stp i')); [keeps|].
           unfold spawn, procs_set.
           destruct (truthy _); [destruct (procs_has _ _)|]; reflexivity.
        -- split; discriminate.
      * rewrite update_caught. eexists. split.
        -- apply (Hres (fun j => caught buildArgs_TypeError
                                   (enter_step stp i' j)));
             [|reflexivity].
           intros j. now rewrite caught_id.
        -- cbv beta. rewrite caught_live by discriminate.
           split; discriminate.
  - eexists. split.
    + unfold settle. cbn [jobs_get jobs set_microtasks].
      apply jobs_get_update_same; [keeps | exact Hget1].
    + split; [discriminate|]. intros _. discriminate.
Qed.


Lemma insert_by_priority_perm (j : Job) (l : list Job) :
  Permutation (insert_by_priority j l) (j :: l).
Proof.
  induction l as [|k l IH]; simpl; [reflexivity|].
  destruct (priority j <=? priority k); [reflexivity|].
  rewrite IH. apply perm_swap.
Qed.

Lemma sort_by_priority_perm (l : list Job) :
  Permutation (sort_by_priority l) l.
Proof.
  induction l as [|j l IH]; simpl; [reflexivity|].
  rewrite insert_by_priority_perm. now constructor.
Qed.

Lemma insert_by_priority_sorted (j : Job) (l : list Job) :
  StronglySorted by_priority l ->
  StronglySorted by_priority (insert_by_priority j l).
Proof.
  induction 1 as [|k l Hs IH Hk]; simpl.
  - repeat constructor.
  - destruct (Z.leb_spec (priority j) (priority k)).
    + constructor; [now constructor|]. constructor; [assumption|].
      eapply Forall_impl; [|exact Hk]. unfold by_priority. intros; lia.
    + constructor; [assumption|].
      eapply Permutation_Forall;
        [symmetry; apply insert_by_priority_perm|].
      constructor; [unfold by_priority; lia | assumption].
Qed.

Lemma sort_by_priority_sorted (l : list Job) :
  StronglySorted by_priority (sort_by_priority l).
Proof.
  induction l; simpl; [constructor | now apply insert_by_priority_sorted].
Qed.

Lemma candidates_In (l : list Job) (j : Job) :
  In j (candidates l) <->
  In j l /\ status j = pending /\
  (hasWaitingManual l = true -> jobHasManualSteps j = false).
Proof.
  unfold candidates.
  split.
  - intros H. eapply Permutation_in in H; [|apply sort_by_priority_perm].
    apply filter_In in H. destruct H as [H G]. apply filter_In in H.
    destruct H as [H P]. apply Status_eqb_eq in P.
    repeat split; try assumption. intros W. rewrite W in G. simpl in G.
    now apply negb_true_iff in G.
  - intros (H & P & G).
    eapply Permutation_in; [symmetry; apply sort_by_priority_perm|].
    apply filter_In. split.
    + apply filter_In. split; [assumption | now apply Status_eqb_eq].
    + destruct (hasWaitingManual l); simpl; [|reflexivity].
      now rewrite G.
Qed.

Lemma filter_ids_NoDup (keep : Job -> bool) (js : list Job) :
  NoDup (map job_id js) -> NoDup (map job_id (filter keep js)).
Proof.
  intros ND. induction js as [|j js IH]; cbn [filter map] in *; [exact ND|].
  inversion ND as [|? ? Hfresh ND']; subst.
  destruct (keep j); cbn [map]; [|now apply IH].
  constructor; [|now apply IH].
  intros Hin. apply Hfresh. apply in_map_iff in Hin.
  destruct Hin as (k & E & Hk). apply filter_In in Hk.
  apply in_map_iff. exists k. tauto.
Qed.

Lemma candidates_NoDup (l : list Job) :
  NoDup (map job_id l) -> NoDup (map job_id (candidates l)).
Proof.
  intros ND. unfold candidates.
  eapply Permutation_NoDup.
  - symmetry. apply Permutation_map, sort_by_priority_perm.
  - now do 2 apply filter_ids_NoDup.
Qed.

(** ** The dispatch loop *)

Lemma processJob_maxConcurrent jid st :
  maxConcurrent (processJob jid st) = maxConcurrent st.
Proof. apply (q_maxConcurrent _ _ _ (processJob_quiet jid st)). Qed.

Lemma jobs_get_In_quiet jid st st' j :
  quiet jid st st' -> In j (jobs st) -> job_id j <> jid -> In j (jobs st').
Proof.
  intros [(f & K & _ & E) _ _ _ _ _ _] Hin N. rewrite E.
  now apply In_upd_other.
Qed.

Lemma dispatched_cons_other (st' : State) (c : Job) :
  jobs_get (job_id c) st' = Some c -> status c = pending ->
  dispatched st' c = false.
Proof. intros H P. unfold dispatched. now rewrite H, P. Qed.

Lemma dispatch_spec (rest : list Job) :
  forall (running slotsUsed : Z) (s : State),
  NoDup (map job_id (jobs s)) ->
  NoDup (map job_id rest) ->
  (forall c, In c rest -> In c (jobs s) /\ status c = pending) ->
  let s' := dispatch running rest slotsUsed s in
  maxConcurrent s' = maxConcurrent s
  /\ map job_id (jobs s') = map job_id (jobs s)
  /\ (forall j, In j (jobs s) -> ~ In (job_id j) (map job_id rest) ->
                jobs_get (job_id j) s' = Some j)
  /\ (forall k c, nth_error rest k = Some c ->
        (dispatched s' c = true <->
         jobWillPauseImmediately c = true \/
         running + (slotsUsed + slotsConsumed s' (firstn k rest))
           < maxConcurrent s)).
Proof.
  induction rest as [|job rest IH]; intros running slotsUsed s ND NDr Hall;
    cbn zeta.
  - cbn [dispatch]. split; [reflexivity|]. split; [reflexivity|]. split.
    + intros j Hj _. now apply jobs_get_In.
    + intros [|k] c E; discriminate.
  - inversion NDr as [|? ? Hnot NDr']; subst.
    destruct (Hall job (or_introl eq_refl)) as [Hjob Hpend].
    assert (Hget : jobs_get (job_id job) s = Some job)
      by now apply jobs_get_In.
    cbn [dispatch]. unfold deref. rewrite Hget.
    set (willPause := jobWillPauseImmediately job).
    destruct (negb willPause && (running + slotsUsed >=? maxConcurrent s))
      eqn:Hskip.
    + (* the candidate is passed over *)
      apply andb_true_iff in Hskip. destruct Hskip as [Hw Hfull].
      apply negb_true_iff in Hw. apply Z.geb_le in Hfull.
      specialize (IH running slotsUsed s ND NDr'
                     (fun c Hc => Hall c (or_intror Hc))).
      cbn zeta in IH. destruct IH as (Hmc & Hids & Hkeep & Hdisp).
      set (s' := dispatch running rest slotsUsed s) in *.
      assert (Hjob' : jobs_get (job_id job) s' = Some job)
        by now apply Hkeep.
      assert (Hnd : dispatched s' job = false)
        by now apply dispatched_cons_other.
      split; [assumption|]. split; [assumption|]. split.
      * intros j Hj Hn. apply Hkeep; [assumption|].
        intros Hin. apply Hn. now right.
      * intros k c. destruct k as [|k]; cbn [nth_error firstn].
        -- intros E. injection E as <-. rewrite Hnd. fold willPause.
           rewrite Hw. unfold slotsConsumed. simpl.
           split; [discriminate|]. intros [?|?]; [discriminate | lia].
        -- intros E. rewrite (Hdisp k c E).
           unfold slotsConsumed. cbn [filter].
           fold willPause. rewrite Hw, Hnd. reflexivity.
    + (* the candidate is dispatched *)
      set (s1 := processJob (job_id job) s).
      assert (Q : quiet (job_id job) s s1) by apply processJob_quiet.
      destruct (processJob_status _ _ _ Hget) as (job' & Hget1 & Hnp & _).
      fold s1 in Hget1.
      assert (ND1 : NoDup (map job_id (jobs s1)))
        by now rewrite (quiet_ids _ _ _ Q).
      assert (Hall1 : forall c, In c rest -> In c (jobs s1) /\ status c = pending).
      { intros c Hc. destruct (Hall c (or_intror Hc)) as [Hin P].
        split; [|assumption].
        eapply jobs_get_In_quiet; eauto.
        intros E. apply Hnot. rewrite <- E. now apply in_map. }
      set (slots' := if willPause then slotsUsed else slotsUsed + 1).
      specialize (IH running slots' s1 ND1 NDr' Hall1).
      cbn zeta in IH. destruct IH as (Hmc & Hids & Hkeep & Hdisp).
      set (s' := dispatch running rest slots' s1) in *.
      assert (Hmc1 : maxConcurrent s1 = maxConcurrent s)
        by apply processJob_maxConcurrent.
      assert (Hjob' : jobs_get (job_id job) s' = Some job').
      { apply jobs_get_Some in Hget1 as [Hin1 Hid1].
        rewrite <- Hid1. apply Hkeep; [assumption|]. now rewrite Hid1. }
      assert (Hd : dispatched s' job = true).
      { unfold dispatched. rewrite Hjob'. apply negb_true_iff.
        now apply Status_eqb_neq. }
      assert (Hcond : willPause = true \/ running + slotsUsed < maxConcurrent s).
      { destruct willPause; [now left|]. right. simpl in Hskip.
        rewrite Z.geb_leb in Hskip. apply Z.leb_gt in Hskip. lia. }
      split; [exact (eq_trans Hmc Hmc1)|].
      split; [exact (eq_trans Hids (quiet_ids _ _ _ Q))|]. split.
      * intros j Hj Hn.
        assert (Nj : job_id j <> job_id job)
          by (intros E; apply Hn; now left).
        apply Hkeep.
        -- eapply jobs_get_In_quiet; eauto.
        -- intros Hin. apply Hn. now right.
      * intros k c. destruct k as [|k]; cbn [nth_error firstn].
        -- intros E. injection E as <-. rewrite Hd.
           unfold slotsConsumed. simpl. fold willPause.
           split; [|reflexivity]. intros _.
           destruct Hcond; [now left | right; lia].
        -- intros E. rewrite (Hdisp k c E), Hmc1.
           unfold slotsConsumed. cbn [filter]. fold willPause.
           rewrite Hd. unfold slots'.
           destruct willPause; simpl; [reflexivity|].
           split; (intros [H|H]; [now left | right; lia]).
Qed.


Lemma count_status_cons (s : Status) (j : Job) (l : list Job) :
  count_status s (j :: l) = indicator (status j) s + count_status s l.
Proof.
  unfold count_status, indicator. cbn [filter].
  destruct (Status_eqb (status j) s); cbn [List.length]; lia.
Qed.

Lemma count_status_upd_absent (s : Status) (jid : string) (f : Job -> Job)
    (l : list Job) :
  ~ In jid (map job_id l) ->
  count_status s (map (upd jid f) l) = count_status s l.
Proof.
  induction l as [|k l IH]; intros Hn; [reflexivity|].
  cbn [map]. rewrite !count_status_cons, IH.
  - unfold upd. rewrite (proj2 (String.eqb_neq _ _)); [reflexivity|].
    intros E. apply Hn. now left.
  - intros Hin. apply Hn. now right.
Qed.

Lemma count_status_upd (s : Status) (jid : string) (f : Job -> Job)
    (l : list Job) (job : Job) :
  NoDup (map job_id l) ->
  find (fun k => (job_id k =? jid)%string) l = Some job ->
  count_status s (map (upd jid f) l) =
  count_status s l - indicator (status job) s + indicator (status (f job)) s.
Proof.
  induction l as [|k l IH]; intros ND Hf; [discriminate|].
  inversion ND as [|? ? Hk ND']; subst.
  cbn [map find] in *. rewrite !count_status_cons.
  unfold upd at 1. destruct (String.eqb_spec (job_id k) jid) as [E|N].
  - injection Hf as <-. rewrite count_status_upd_absent; [lia|].
    now rewrite <- E.
  - rewrite (IH ND' Hf). lia.
Qed.

Lemma dispatch_count (rest : list Job) :
  forall (running slotsUsed : Z) (s : State),
  NoDup (map job_id (jobs s)) ->
  NoDup (map job_id rest) ->
  (forall c, In c rest -> In c (jobs s) /\ status c = pending) ->
  count_status processing (jobs s) <= running + slotsUsed ->
  count_status processing (jobs (dispatch running rest slotsUsed s))
    <= Z.max (running + slotsUsed) (maxConcurrent s).
Proof.
  induction rest as [|job rest IH]; intros running slotsUsed s ND NDr Hall Hc.
  - cbn [dispatch]. lia.
  - inversion NDr as [|? ? Hnot NDr']; subst.
    destruct (Hall job (or_introl eq_refl)) as [Hjob Hpend].
    assert (Hget : jobs_get (job_id job) s = Some job)
      by now apply jobs_get_In.
    cbn [dispatch]. unfold deref. rewrite Hget.
    set (willPause := jobWillPauseImmediately job).
    destruct (negb willPause && (running + slotsUsed >=? maxConcurrent s))
      eqn:Hskip.
    + apply IH; try assumption. intros c Hin. apply Hall. now right.
    + set (s1 := processJob (job_id job) s).
      assert (Q : quiet (job_id job) s s1) by apply processJob_quiet.
      destruct (processJob_status _ _ _ Hget) as (job' & Hget1 & Hnp & Hw).
      fold s1 in Hget1. fold willPause in Hw.
      assert (ND1 : NoDup (map job_id (jobs s1)))
        by now rewrite (quiet_ids _ _ _ Q).
      assert (Hall1 : forall c, In c rest -> In c (jobs s1) /\ status c = pending).
      { intros c Hin. destruct (Hall c (or_intror Hin)) as [Hin' P].
        split; [|assumption].
        eapply jobs_get_In_quiet; eauto.
        intros E. apply Hnot. rewrite <- E. now apply in_map. }
      assert (Hmc1 : maxConcurrent s1 = maxConcurrent s)
        by apply processJob_maxConcurrent.
      assert (Hcount : count_status processing (jobs s1) =
                       count_status processing (jobs s)
                       + indicator (status job') processing).
      { destruct Q as [(f & K & _ & E) _ _ _ _ _ _].
        assert (Ef : f job = job').
        { unfold jobs_get in Hget1. rewrite E in Hget1.
          erewrite find_upd_same in Hget1; eauto. congruence. }
        rewrite E, (count_status_upd _ _ _ _ job ND Hget), Ef, Hpend.
        unfold indicator at 1. simpl. lia. }
      rewrite <- Hmc1.
      destruct willPause eqn:W.
      * specialize (Hw eq_refl).
        assert (indicator (status job') processing = 0).
        { unfold indicator. now rewrite (proj2 (Status_eqb_neq _ _) Hw). }
        rewrite Hmc1. rewrite <- Hmc1. apply IH; try assumption. lia.
      * simpl in Hskip. rewrite Z.geb_leb in Hskip. apply Z.leb_gt in Hskip.
        assert (indicator (status job') processing <= 1).
        { unfold indicator. destruct (Status_eqb _ _); lia. }
        specialize (IH running (slotsUsed + 1) s1 ND1 NDr' Hall1).
        lia.
Qed.

Lemma filter_none {A} (f : A -> bool) (l : list A) :
  existsb f l = false -> filter f l = [].
Proof.
  induction l as [|a l IH]; simpl; [reflexivity|].
  destruct (f a); simpl; [discriminate | exact IH].
Qed.

(** ** The heartbeat *)

(** What a cancellation loop over the jobs [l] leaves behind. *)
Lemma fold_cancel_one (l : list Job) (st : State) :
  let st' := fold_left cancel_one l st in
  jobs st' =
    map (fun j => if includes (job_id j) (map job_id l)
                  then mark_cancelled j else j) (jobs st)
  /\ (forall k, In k (runningProcs st') <->
                In k (runningProcs st) /\ ~ In k (map job_id l))
  /\ (forall k, In k (killed st') <->
                In k (killed st) \/
                (In k (map job_id l) /\ In k (runningProcs st)))
  /\ photos st' = photos st /\ awaiting st' = awaiting st
  /\ maxConcurrent st' = maxConcurrent st
  /\ lastHeartbeat st' = lastHeartbeat st /\ files st' = files st
  /\ microtasks st' = microtasks st.
Proof.
  revert st. induction l as [|c l IH]; intros st; cbn [fold_left].
  - repeat split; try (simpl; tauto).
    simpl. now rewrite map_id.
  - specialize (IH (cancel_one st c)). cbv zeta in IH.
    destruct IH as (Hj & Hp & Hk & Hph & Haw & Hmc & Hlh & Hf & Hm).
    assert (Ej : jobs (cancel_one st c) =
                 map (fun j => if (job_id j =? job_id c)%string
                               then mark_cancelled j else j) (jobs st)).
    { unfold cancel_one, kill_proc.
      destruct (procs_has _ _); reflexivity. }
    assert (Ep : forall k, In k (runningProcs (cancel_one st c)) <->
                           In k (runningProcs st) /\ k <> job_id c).
    { intros k. unfold cancel_one, kill_proc. simpl.
      destruct (procs_has (job_id c) _) eqn:Ex; simpl.
      - rewrite filter_In, negb_true_iff.
        destruct (String.eqb_spec k (job_id c)); split;
          intros [? ?]; split; congruence.
      - apply includes_not_In in Ex. simpl in Ex.
        split; [|tauto]. intros Hin. split; [assumption|].
        intros ->. contradiction. }
    assert (Ek : forall k, In k (killed (cancel_one st c)) <->
                           In k (killed st) \/
                           (k = job_id c /\ In k (runningProcs st))).
    { intros k. unfold cancel_one, kill_proc. simpl.
      destruct (procs_has (job_id c) _) eqn:Ex; simpl.
      - rewrite in_app_iff. simpl.
        apply includes_In in Ex. simpl in Ex.
        split.
        + intros [H|[H|[]]]; [now left | right; subst; now split].
        + intros [H|[H _]]; [now left | right; left; now subst].
      - apply includes_not_In in Ex. simpl in Ex.
        split; [tauto|]. intros [H|[-> H]]; [assumption|contradiction]. }
    split; [|split; [|split]].
    + rewrite Hj, Ej, map_map. apply map_ext. intros j.
      change (map job_id (c :: l)) with (job_id c :: map job_id l).
      rewrite includes_cons.
      destruct (String.eqb_spec (job_id j) (job_id c)) as [E|N].
      * rewrite E, String.eqb_refl. simpl orb. cbv iota.
        now destruct (includes _ _).
      * rewrite (proj2 (String.eqb_neq _ _)) by congruence. reflexivity.
    + intros k. rewrite Hp, Ep. cbn [map In]. intuition congruence.
    + intros k. rewrite Hk, Ek, Ep. cbn [map In].
      destruct (String.eqb_spec k (job_id c)); intuition congruence.
    + unfold cancel_one, kill_proc in *.
      destruct (procs_has _ _); simpl in *; repeat split; assumption.
Qed.

Lemma isActive_spec (j : Job) :
  isActive j = true <-> status j = pending \/ status j = processing.
Proof. unfold isActive. destruct (status j); cbn; intuition congruence. Qed.

Lemma existsb_isActive (l : list Job) :
  existsb isActive l = true <->
  exists a, In a l /\ (status a = pending \/ status a = processing).
Proof.
  rewrite existsb_exists.
  split; intros (a & Hin & H); exists a; split; try assumption;
    now apply isActive_spec.
Qed.

(** An overdue check, in terms of the filter of the code. *)
Lemma checkHeartbeat_overdue_active (now t : Z) (st : State) :
  HEARTBEAT_TIMEOUT_MS = Some t ->
  now - lastHeartbeat st >= t ->
  NoDup (map job_id (jobs st)) ->
  let st' := checkHeartbeat now st in
  (existsb isActive (jobs st) = true ->
   forall j, In j (jobs st) ->
     (isActive j = true ->
        jobs_get (job_id j) st' = Some (mark_cancelled j)
        /\ status (mark_cancelled j) = cancelled
        /\ currentStep (mark_cancelled j) = None
        /\ waitingStep (mark_cancelled j) = None
        /\ waitingImage (mark_cancelled j) = None
        /\ procs_has (job_id j) st' = false
        /\ (procs_has (job_id j) st = true -> In (job_id j) (killed st')))
     /\ (isActive j = false -> jobs_get (job_id j) st' = Some j)
     /\ (status j = waiting_input -> jobs_get (job_id j) st' = Some j))
  /\ (existsb isActive (jobs st) = false -> st' = st).
Proof.
  intros Ht Hex ND st'. subst st'. unfold checkHeartbeat, heartbeatFresh.
  rewrite Ht. replace (now - lastHeartbeat st <? t) with false
    by (symmetry; apply Z.ltb_ge; lia).
  set (active := filter isActive (jobs st)).
  assert (Hact : forall j, In j (jobs st) ->
            (includes (job_id j) (map job_id active) = isActive j)).
  { intros j Hj. destruct (isActive j) eqn:A.
    - apply includes_In, in_map, filter_In. now split.
    - apply includes_not_In. intros Hin. apply in_map_iff in Hin.
      destruct Hin as (k & Ek & Hk). apply filter_In in Hk.
      destruct Hk as [Hk Ak].
      assert (k = j); [|congruence].
      apply jobs_get_In in Hk; [|assumption].
      apply jobs_get_In in Hj; [|assumption]. congruence. }
  split.
  - intros Hsome.
    destruct (List.length active =? 0)%nat eqn:L.
    { exfalso. apply Nat.eqb_eq in L. apply length_zero_iff_nil in L.
      apply existsb_exists in Hsome. destruct Hsome as (j & Hj & Aj).
      assert (In j active) by (apply filter_In; now split).
      rewrite L in H. contradiction. }
    destruct (fold_cancel_one active st) as (Hj & Hp & Hk & _).
    assert (Hget : forall j, In j (jobs st) ->
              jobs_get (job_id j) (fold_left cancel_one active st) =
              Some (if isActive j then mark_cancelled j else j)).
    { intros j Hin. unfold jobs_get. rewrite Hj.
      set (g := fun j0 => if includes (job_id j0) (map job_id active)
                          then mark_cancelled j0 else j0).
      assert (Hg : forall k, job_id (g k) = job_id k).
      { intros k. unfold g. now destruct (includes _ _). }
      replace (if isActive j then mark_cancelled j else j) with (g j)
        by (unfold g; now rewrite Hact).
      rewrite <- (Hg j). apply find_job_In.
      - rewrite map_map. erewrite map_ext; [exact ND|].
        intros k. apply Hg.
      - now apply in_map. }
    intros j Hin. split; [|split].
    + intros A. rewrite (Hget j Hin), A. repeat split.
      * destruct (procs_has (job_id j) (fold_left cancel_one active st))
          eqn:P; [|reflexivity].
        exfalso. unfold procs_has in P. apply includes_In in P.
        apply Hp in P. destruct P as [_ P]. apply P.
        apply includes_In. now rewrite Hact.
      * intros P. apply Hk. right. split.
        -- apply includes_In. now rewrite Hact.
        -- now apply includes_In.
    + intros A. now rewrite (Hget j Hin), A.
    + intros W. rewrite (Hget j Hin).
      unfold isActive. now rewrite W.
  - intros Hnone.
    unfold active. now rewrite (filter_none _ _ Hnone).
Qed.

(** C8.  When the heartbeat check fires after the timeout has expired
    ([now - lastHeartbeat >= HEARTBEAT_TIMEOUT_MS]): if some job has status
    [pending] or [processing], each such job ends up cancelled, by the four
    assignments [status = 'cancelled'], [currentStep = null],
    [waitingStep = null], [waitingImage = null] and no other, a worker
    registered for it is sent SIGTERM and removed from the running-process
    table, and every other job, those in [waiting_input] among them, is
    exactly as before; if no job is pending or processing, the whole state
    is as before. *)
Theorem checkHeartbeat_expired (now t : Z) (st : State) :
  HEARTBEAT_TIMEOUT_MS = Some t ->
  now - lastHeartbeat st >= t ->
  NoDup (map job_id (jobs st)) ->
  let st' := checkHeartbeat now st in
  ((exists a, In a (jobs st)
              /\ (status a = pending \/ status a = processing)) ->
   forall j, In j (jobs st) ->
     (status j = pending \/ status j = processing ->
        exists j',
          jobs_get (job_id j) st' = Some j'
          /\ j' = set_waitingImage None
                    (set_waitingStep None
                       (set_currentStep None (set_status cancelled j)))
          /\ status j' = cancelled
          /\ currentStep j' = None
          /\ waitingStep j' = None
          /\ waitingImage j' = None
          /\ procs_has (job_id j) st' = false
          /\ (procs_has (job_id j) st = true -> In (job_id j) (killed st')))
     /\ (status j <> pending -> status j <> processing ->
         jobs_get (job_id j) st' = Some j)
     /\ (status j = waiting_input -> jobs_get (job_id j) st' = Some j))
  /\ ((forall a, In a (jobs st) ->
                 status a <> pending /\ status a <> processing) ->
      st' = st).
Proof.
  intros Ht Hex ND st'.
  destruct (checkHeartbeat_overdue_active now t st Ht Hex ND) as [Hsome Hnone].
  fold st' in Hsome, Hnone. split.
  - intros Ha j Hin. apply existsb_isActive in Ha.
    destruct (Hsome Ha j Hin) as (H1 & H2 & H3).
    split; [|split; [|exact H3]].
    + intros Hs. apply isActive_spec in Hs.
      destruct (H1 Hs) as (G1 & G2 & G3 & G4 & G5 & G6 & G7).
      exists (mark_cancelled j). split; [exact G1|].
      split; [reflexivity|]. repeat split; assumption.
    + intros Hp Hr. apply H2.
      destruct (isActive j) eqn:A; [|reflexivity].
      apply isActive_spec in A. tauto.
  - intros Hall. apply Hnone.
    destruct (existsb isActive (jobs st)) eqn:E; [|reflexivity].
    apply existsb_isActive in E. destruct E as (a & Hin & Hs).
    destruct (Hall a Hin). tauto.
Qed.

(** ** Dispatch *)

(** The keys of [MANUAL_STEPS] are the stages declared [manual]. *)
Lemma MANUAL_STEPS_has_manual (s : string) :
  MANUAL_STEPS_has s = true <->
  exists sd, STEPS s = Some (Stage sd) /\ manual sd = true.
Proof.
  rewrite MANUAL_STEPS_has_spec. split.
  - intros [->| ->]; eexists; split; reflexivity.
  - intros (sd & Hd & Hm).
    destruct (STEPS_cases _ _ Hd) as [[-> _]|[[-> _]|(_ & _ & N)]];
      [now left | now right | congruence].
Qed.

Lemma jobHasManualSteps_false (j : Job) :
  jobHasManualSteps j = false <->
  forall s sd, In s (steps j) -> STEPS s = Some (Stage sd) ->
               manual sd = false.
Proof.
  unfold jobHasManualSteps. split.
  - intros H s sd Hin Hd. destruct (manual sd) eqn:M; [|reflexivity].
    assert (E : existsb MANUAL_STEPS_has (steps j) = true).
    { apply existsb_exists. exists s. split; [exact Hin|].
      apply MANUAL_STEPS_has_manual. now exists sd. }
    congruence.
  - intros H. destruct (existsb _ _) eqn:E; [|reflexivity].
    apply existsb_exists in E. destruct E as (s & Hin & Hm).
    apply MANUAL_STEPS_has_manual in Hm. destruct Hm as (sd & Hd & Hm).
    rewrite (H s sd Hin Hd) in Hm. discriminate.
Qed.

Lemma hasWaitingManual_true (l : list Job) :
  hasWaitingManual l = true <->
  exists w, In w l /\ status w = waiting_input.
Proof.
  unfold hasWaitingManual. rewrite existsb_exists.
  split; intros (w & Hin & H); exists w; split; try assumption;
    now apply Status_eqb_eq.
Qed.

Lemma jobWillPauseImmediately_spec (c : Job) :
  jobWillPauseImmediately c = true <->
  exists step sd,
    at_index (steps c) (startIndex_of c) = Some step
    /\ STEPS step = Some (Stage sd) /\ manual sd = true
    /\ needsInput_of (Some (Stage sd)) c = true.
Proof.
  unfold jobWillPauseImmediately, stepDef_at. split.
  - destruct (at_index _ _) as [step|]; [|discriminate].
    destruct (STEPS step) as [[sd|]|] eqn:Hd; try discriminate.
    intros Hn. exists step, sd. repeat split; try assumption.
    destruct (STEPS_cases _ _ Hd) as [[_ ->]|[[_ ->]|[N _]]];
      try reflexivity.
    simpl in Hn. rewrite N in Hn. discriminate.
  - intros (step & sd & -> & -> & _ & Hn). exact Hn.
Qed.

(** A dispatch pass does not touch the jobs it does not visit. *)
Lemma processNext_untouched (st : State) (j : Job) :
  NoDup (map job_id (jobs st)) ->
  In j (jobs st) -> ~ In j (candidates (jobs st)) ->
  jobs_get (job_id j) (processNext st) = Some j.
Proof.
  intros ND Hj Hn.
  assert (Hc : forall c, In c (candidates (jobs st)) ->
                 In c (jobs st) /\ status c = pending).
  { intros c Hin. apply candidates_In in Hin. tauto. }
  destruct (dispatch_spec (candidates (jobs st))
              (count_status processing (jobs st)) 0 st ND
              (candidates_NoDup _ ND) Hc) as (_ & _ & Hkeep & _).
  apply Hkeep; [assumption|].
  intros Hin. apply in_map_iff in Hin. destruct Hin as (c & E & Hin).
  apply Hn. replace j with c; [assumption|].
  destruct (Hc c Hin) as [Hcj _].
  apply jobs_get_In in Hcj; [|assumption].
  apply jobs_get_In in Hj; [|assumption]. congruence.
Qed.

(** C1.  A dispatch pass works on the jobs that are pending when it starts,
    leaving out, when some job of the store has status [waiting_input],
    those with a step that is a stage declared [manual]; it visits them by
    ascending priority; a visited
    job whose step at [resumeFromStep] is a manual stage still needing its
    input is dispatched and consumes no slot; any other visited job is
    dispatched exactly when the number of jobs processing at the start of the
    pass plus the slots consumed by the jobs dispatched before it is below
    [maxConcurrent].  Jobs that are not candidates are not touched. *)
Theorem processNext_dispatch (st : State) :
  NoDup (map job_id (jobs st)) ->
  let queue := candidates (jobs st) in
  let running := count_status processing (jobs st) in
  let st' := processNext st in
  (forall j, In j queue <->
             In j (jobs st) /\ status j = pending /\
             ((exists w, In w (jobs st) /\ status w = waiting_input) ->
              forall s sd, In s (steps j) -> STEPS s = Some (Stage sd) ->
                           manual sd = false))
  /\ StronglySorted by_priority queue
  /\ (forall j, In j (jobs st) -> ~ In j queue ->
                jobs_get (job_id j) st' = Some j)
  /\ (forall c, jobWillPauseImmediately c = true <->
                exists step sd,
                  at_index (steps c) (startIndex_of c) = Some step
                  /\ STEPS step = Some (Stage sd) /\ manual sd = true
                  /\ needsInput_of (Some (Stage sd)) c = true)
  /\ (forall k c, nth_error queue k = Some c ->
        (dispatched st' c = true <->
         jobWillPauseImmediately c = true \/
         running + slotsConsumed st' (firstn k queue) < maxConcurrent st)).
Proof.
  intros ND queue running st'.
  assert (Hc : forall c, In c queue ->
                 In c (jobs st) /\ status c = pending).
  { intros c Hin. apply candidates_In in Hin. tauto. }
  destruct (dispatch_spec queue running 0 st ND
              (candidates_NoDup _ ND) Hc) as (_ & _ & _ & Hdisp).
  split.
  { intros j. rewrite <- hasWaitingManual_true, <- jobHasManualSteps_false.
    apply candidates_In. }
  split; [apply sort_by_priority_sorted|].
  split; [|split; [apply jobWillPauseImmediately_spec|]].
  - intros j Hj Hn. now apply processNext_untouched.
  - intros k c E. specialize (Hdisp k c E).
    rewrite Z.add_0_l in Hdisp. exact Hdisp.
Qed.

(** C3, as the code has it.  A dispatch pass never takes the number of jobs
    in [processing] beyond [maxConcurrent]: it ends with at most as many as
    it started with, or at most [maxConcurrent]. *)
Theorem processNext_processing_bound (st : State) :
  NoDup (map job_id (jobs st)) ->
  count_status processing (jobs (processNext st))
    <= Z.max (count_status processing (jobs st)) (maxConcurrent st).
Proof.
  intros ND. unfold processNext.
  replace (count_status processing (jobs st))
    with (count_status processing (jobs st) + 0) at 2 by lia.
  apply dispatch_count; try assumption.
  - now apply candidates_NoDup.
  - intros c Hin. apply candidates_In in Hin. tauto.
  - lia.
Qed.


(** ** Settings *)

Lemma dispatch_maxConcurrent (rest : list Job) :
  forall running slotsUsed s,
    maxConcurrent (dispatch running rest slotsUsed s) = maxConcurrent s.
Proof.
  induction rest as [|job rest IH]; intros running slotsUsed s;
    cbn [dispatch]; [reflexivity|].
  destruct (_ && _); rewrite IH; [reflexivity|].
  apply processJob_maxConcurrent.
Qed.

Lemma processNext_maxConcurrent (st : State) :
  maxConcurrent (processNext st) = maxConcurrent st.
Proof. apply dispatch_maxConcurrent. Qed.

Lemma inRange_spec (q : Q) :
  inRange q = true <-> (1 <= q <= inject_Z MAX_CONCURRENT_LIMIT)%Q.
Proof.
  unfold inRange. rewrite andb_true_iff, !Qle_bool_iff. reflexivity.
Qed.

Lemma Math_round_bounds (q : Q) (n : Z) :
  (1 <= q <= inject_Z n)%Q -> 1 <= Math_round q <= n.
Proof.
  intros [Hlo Hhi]. unfold Math_round. split.
  - assert (H : Qfloor (inject_Z 1) <= Qfloor (q + (1 # 2))).
    { apply Qfloor_resp_le. change (inject_Z 1) with 1%Q.
      apply Qle_trans with q; [exact Hlo|].
      rewrite <- (Qplus_0_r q) at 1. apply Qplus_le_r.
      unfold Qle. simpl. lia. }
    now rewrite Qfloor_Z in H.
  - assert (H : (inject_Z (Qfloor (q + (1 # 2))) <= inject_Z n + (1 # 2))%Q).
    { apply Qle_trans with (q + (1 # 2))%Q; [apply Qfloor_le|].
      apply Qplus_le_l. exact Hhi. }
    set (F := Qfloor (q + (1 # 2))) in *. clearbody F.
    unfold Qle in H. simpl in H. lia.
Qed.

(** C9.  [PUT /settings] changes [maxConcurrent] only for a number between
    1 and [MAX_CONCURRENT_LIMIT], to that number rounded, which stays within
    the same bounds; for any other value, numeric or not, [maxConcurrent]
    keeps its value and the response carries the current values; after a
    successful update the queue is dispatched again. *)
Theorem putSettings_maxConcurrent (val : JsValue) (st : State) :
  let st' := fst (putSettings val st) in
  let resp := snd (putSettings val st) in
  (forall q, val = JsNumber q ->
             (1 <= q <= inject_Z MAX_CONCURRENT_LIMIT)%Q ->
             maxConcurrent st' = Math_round q
             /\ 1 <= maxConcurrent st' <= MAX_CONCURRENT_LIMIT
             /\ st' = processNext (setMaxConcurrent (Math_round q) st))
  /\ ((forall q, val = JsNumber q ->
                 ~ (1 <= q <= inject_Z MAX_CONCURRENT_LIMIT)%Q) ->
      maxConcurrent st' = maxConcurrent st
      /\ st' = processNext st
      /\ resp = RespSettings (maxConcurrent st) MAX_CONCURRENT_LIMIT)
  /\ resp = RespSettings (maxConcurrent st') MAX_CONCURRENT_LIMIT.
Proof.
  cbn zeta. unfold putSettings. cbn [fst snd]. split; [|split].
  - intros q -> Hq. rewrite (proj2 (inRange_spec q) Hq).
    rewrite processNext_maxConcurrent. cbn [setMaxConcurrent maxConcurrent set_maxConcurrent].
    split; [reflexivity|]. split; [|reflexivity].
    now apply Math_round_bounds.
  - intros Hout.
    assert (E : match val with
                | JsNumber q => if inRange q then setMaxConcurrent (Math_round q) st else st
                | _ => st
                end = st).
    { destruct val as [| |b|q|s|]; try reflexivity.
      destruct (inRange q) eqn:R; [|reflexivity].
      apply inRange_spec in R. now destruct (Hout q eq_refl). }
    rewrite E. rewrite processNext_maxConcurrent. repeat split.
  - reflexivity.
Qed.

(** ** Rewind *)

Lemma at_index_nat {A} (l : list A) (k : nat) :
  at_index l (Z.of_nat k) = nth_error l k.
Proof.
  unfold at_index. destruct (Z.ltb_spec (Z.of_nat k) 0); [lia|].
  now rewrite Nat2Z.id.
Qed.

Lemma previousManual_step (l : list string) (k : nat) :
  previousManual l (S k) =
  if manualAt l (Z.of_nat k) then Z.of_nat k else previousManual l k.
Proof.
  cbn [previousManual]. unfold manualAt. rewrite at_index_nat.
  destruct (nth_error l k); reflexivity.
Qed.

Lemma previousManual_none (l : list string) (n : nat) :
  (forall k, 0 <= k < Z.of_nat n -> manualAt l k = false) ->
  previousManual l n = -1.
Proof.
  induction n as [|n IH]; intros H; [reflexivity|].
  rewrite previousManual_step, H by lia. apply IH. intros k Hk. apply H. lia.
Qed.

Lemma previousManual_greatest (l : list string) (n : nat) (t : Z) :
  0 <= t < Z.of_nat n -> manualAt l t = true ->
  (forall k, t < k < Z.of_nat n -> manualAt l k = false) ->
  previousManual l n = t.
Proof.
  induction n as [|n IH]; intros Ht Hm Hnot; [lia|].
  rewrite previousManual_step.
  destruct (Z.eq_dec t (Z.of_nat n)) as [->|N].
  - now rewrite Hm.
  - rewrite Hnot by lia. apply IH; [lia | assumption |].
    intros k Hk. apply Hnot. lia.
Qed.

Lemma fold_clearInput (l : list string) :
  forall (job : Job) (fs : list string),
    fold_left clearInput l (job, fs) =
    (set_maskPath (if includes "inpaint" l then None else maskPath job)
       (set_cropRect (if includes "crop" l then None else cropRect job) job),
     if includes "inpaint" l && truthy (maskPath job)
     then unlinkSync (orElse (maskPath job) "") fs else fs).
Proof.
  induction l as [|s l IH]; intros job fs.
  - destruct job; reflexivity.
  - cbn [fold_left]. rewrite !includes_cons.
    destruct (String.eqb_spec s "crop") as [->|Nc].
    + change (clearInput (job, fs) "crop") with (set_cropRect None job, fs).
      change ("crop" =? "inpaint")%string with false.
      rewrite IH. cbn [orb].
      destruct (includes "crop" l); reflexivity.
    + destruct (String.eqb_spec s "inpaint") as [->|Ni].
      * change (clearInput (job, fs) "inpaint")
          with (set_maskPath None job,
                if truthy (maskPath job)
                then unlinkSync (orElse (maskPath job) "") fs else fs).
        rewrite IH. cbn [orb andb].
        change (maskPath (set_maskPath None job)) with (@None string).
        cbn [truthy]. rewrite andb_false_r.
        destruct (truthy (maskPath job)), (includes "inpaint" l),
          (includes "crop" l); reflexivity.
      * replace (clearInput (job, fs) s) with (job, fs).
        -- rewrite IH. reflexivity.
        -- unfold clearInput.
           rewrite (proj2 (String.eqb_neq s "crop") Nc).
           now rewrite (proj2 (String.eqb_neq s "inpaint") Ni).
Qed.

Lemma find_upd_found jid f l job :
  find (fun k => (job_id k =? jid)%string) l = Some job ->
  job_id (f job) = jid ->
  find (fun k => (job_id k =? jid)%string) (map (upd jid f) l) = Some (f job).
Proof.
  intros Hf K. induction l as [|k l IH]; cbn [map find] in *; [discriminate|].
  unfold upd at 1 2. destruct (String.eqb_spec (job_id k) jid) as [E|N].
  - injection Hf as ->. now rewrite K, String.eqb_refl.
  - rewrite (proj2 (String.eqb_neq _ _) N). now apply IH.
Qed.

(** What [POST /jobs/:id/back] does.  It is accepted only for a job in
    [waiting_input].  With no manual step below [resumeFromStep] it answers
    400 and the state is untouched.  Otherwise, for the greatest manual index
    [t] below [resumeFromStep]: the inputs of the steps from [t] on are
    cleared ([cropRect] set to null if one of them is crop; the mask file
    deleted and [maskPath] set to null if one of them is inpaint),
    [stepResults] keeps its first [t] entries, [currentInputPath] is [ROOT]
    joined with the URL of the last remaining result, or the upload of the
    photo when none remains, [resumeFromStep] is [t], [waitingStep] and
    [waitingImage] are null, and [processJob] is called on the job. *)
Theorem back_rewind (jid : string) (st : State) :
  (snd (back jid st) = RespOk ->
   exists job, jobs_get jid st = Some job /\ status job = waiting_input)
  /\ (forall job,
        jobs_get jid st = Some job -> status job = waiting_input ->
        let cur := startIndex_of job in
        ((forall k, 0 <= k < cur -> manualAt (steps job) k = false) ->
         back jid st = (st, RespError 400 "No previous manual step"))
        /\ (forall t,
              0 <= t < cur -> manualAt (steps job) t = true ->
              (forall k, t < k < cur -> manualAt (steps job) k = false) ->
              let later := skipn (Z.to_nat t) (steps job) in
              let st1 := rewindTo t jid job st in
              back jid st = (processJob jid st1, RespOk)
              /\ files st1 =
                   (if includes "inpaint" later && truthy (maskPath job)
                    then remove_file (orElse (maskPath job) "") (files st)
                    else files st)
              /\ exists job',
                   jobs_get jid st1 = Some job'
                   /\ cropRect job' =
                        (if includes "crop" later then None else cropRect job)
                   /\ maskPath job' =
                        (if includes "inpaint" later then None
                         else maskPath job)
                   /\ stepResults job' =
                        firstn (Z.to_nat t) (stepResults job)
                   /\ currentInputPath job' =
                        match rev (stepResults job') with
                        | r :: _ =>
                            Some (Path.join ROOT
                                    (stripLeadingSlash (sr_result r)))
                        | [] =>
                            option_map
                              (fun p => Path.join UPLOADS_DIR (filename p))
                              (photos_get (photoId job) st)
                        end
                   /\ resumeFromStep job' = Some t
                   /\ waitingStep job' = None
                   /\ waitingImage job' = None
                   /\ status job' = waiting_input
                   /\ steps job' = steps job)).
Proof.
  split.
  - unfold back. destruct (jobs_get jid st) as [job|]; [|discriminate].
    destruct (Status_eqb (status job) waiting_input) eqn:S; [|discriminate].
    intros _. exists job. split; [reflexivity | now apply Status_eqb_eq].
  - intros job Hget Hw cur. split.
    + intros Hnone. unfold back. rewrite Hget, Hw. cbn [Status_eqb negb].
      fold cur. rewrite previousManual_none; [reflexivity|].
      intros k Hk. apply Hnone. lia.
    + intros t Ht Hm Hnot later st1.
      assert (Hprev : previousManual (steps job) (Z.to_nat cur) = t).
      { apply previousManual_greatest; [lia | assumption |].
        intros k Hk. apply Hnot. lia. }
      split; [|split].
      * unfold back. rewrite Hget, Hw. cbn [Status_eqb negb].
        fold cur. rewrite Hprev.
        destruct (Z.ltb_spec t 0); [lia | reflexivity].
      * unfold st1, rewindTo. fold later. rewrite fold_clearInput.
        reflexivity.
      * unfold st1, rewindTo. fold later. rewrite fold_clearInput.
        cbv beta iota zeta.
        eexists. split.
        -- unfold jobs_get in *. cbn [jobs set_files update_job set_jobs].
           refine (find_upd_found jid (fun _ => _) _ job Hget _).
           apply find_job_Some in Hget. destruct Hget as [_ <-]. reflexivity.
        -- cbn. repeat split; try exact Hw.
Qed.


(** ** Reachability *)

Lemma run_reachable (evs : list Event) :
  forall st st', reachable st -> run evs st = Some st' -> reachable st'.
Proof.
  induction evs as [|ev evs IH]; intros st st' R; cbn [run].
  - intros E. injection E as <-. exact R.
  - destruct (enabled ev st) eqn:En; [|discriminate].
    apply IH. now constructor.
Qed.

Lemma state_after_reachable (evs : list Event) : reachable (state_after evs).
Proof.
  unfold state_after. destruct (run evs (init 0)) eqn:E.
  - eapply run_reachable; [apply reachable_init | exact E].
  - apply reachable_init.
Qed.

Lemma distinct_NoDup (l : list string) : distinct l = true -> NoDup l.
Proof.
  induction l as [|x l IH]; cbn [distinct]; [constructor|].
  intros H. apply andb_true_iff in H. destruct H as [Hx Hl].
  apply negb_true_iff, includes_not_In in Hx. constructor; auto.
Qed.


(** ** The invariant *)

Lemma Inv_ext (st st' : State) :
  photos st' = photos st -> jobs st' = jobs st -> awaiting st' = awaiting st ->
  Inv st -> Inv st'.
Proof.
  intros Hp Hj Ha [I1 I2 I3 I4].
  assert (Hg : forall pid, photo_gone pid st' = photo_gone pid st)
    by (intros; unfold photo_gone, photos_get; now rewrite Hp).
  assert (Hf : forall jid, has_frame jid st' = has_frame jid st)
    by (intros; unfold has_frame; now rewrite Ha).
  split.
  - now rewrite Hj.
  - now rewrite Ha.
  - intros j Hin. rewrite Hg, Hf. apply I3. now rewrite <- Hj.
  - intros fr Hin. rewrite Ha in Hin. specialize (I4 fr Hin).
    unfold frame_ok, jobs_get in *. now rewrite Hj.
Qed.

Lemma map_upd_const (jid : string) (f : Job -> Job) (l : list Job) (job : Job) :
  NoDup (map job_id l) ->
  find (fun k => (job_id k =? jid)%string) l = Some job ->
  map (upd jid f) l = map (upd jid (fun _ => f job)) l.
Proof.
  intros ND Hf. apply map_ext_in. intros j Hin. unfold upd.
  destruct (String.eqb_spec (job_id j) jid) as [E|N]; [|reflexivity].
  f_equal. apply find_job_In in Hin; [|assumption].
  rewrite E in Hin. congruence.
Qed.

Lemma has_frame_In (jid : string) (st : State) :
  has_frame jid st = true <-> In jid (map fr_job (awaiting st)).
Proof.
  unfold has_frame. rewrite existsb_exists, in_map_iff. split.
  - intros (fr & Hin & E). apply String.eqb_eq in E. now exists fr.
  - intros (fr & E & Hin). exists fr. split; [assumption|].
    now apply String.eqb_eq.
Qed.

Lemma find_upd_other_const (jid jid' : string) (job' : Job) (l : list Job) :
  job_id job' = jid -> jid' <> jid ->
  find (fun k => (job_id k =? jid')%string) (map (upd jid (fun _ => job')) l)
  = find (fun k => (job_id k =? jid')%string) l.
Proof.
  intros Hid N. induction l as [|k l IH]; cbn [map find]; [reflexivity|].
  unfold upd at 1 2. destruct (String.eqb_spec (job_id k) jid) as [E|N'].
  - rewrite Hid, E, (proj2 (String.eqb_neq jid jid')) by congruence.
    exact IH.
  - now rewrite IH.
Qed.

(** Replacing the job [jid] by [job'] while photos and frames stay. *)
Lemma Inv_replace (st st' : State) (jid : string) (job job' : Job) :
  Inv st -> jobs_get jid st = Some job ->
  job_id job' = jid -> steps job' = steps job ->
  photoId job' = photoId job ->
  photos st' = photos st -> awaiting st' = awaiting st ->
  jobs st' = map (upd jid (fun _ => job')) (jobs st) ->
  job_ok (photo_gone (photoId job) st) (has_frame jid st) job' ->
  (has_frame jid st = true -> status job' <> processing) ->
  Inv st'.
Proof.
  intros [I1 I2 I3 I4] Hget Hid Hsteps Hpid Hp Ha Hj Hok Hfr.
  assert (Hg : forall pid, photo_gone pid st' = photo_gone pid st)
    by (intros; unfold photo_gone, photos_get; now rewrite Hp).
  assert (Hf : forall k, has_frame k st' = has_frame k st)
    by (intros; unfold has_frame; now rewrite Ha).
  assert (Hget' : jobs_get jid st' = Some job').
  { unfold jobs_get. rewrite Hj.
    apply (find_upd_found jid (fun _ => job') _ job Hget Hid). }
  split.
  - rewrite Hj, map_map. erewrite map_ext; [exact I1|].
    intros j. unfold upd. cbn beta.
    destruct (String.eqb_spec (job_id j) jid); congruence.
  - now rewrite Ha.
  - intros j Hin. rewrite Hj in Hin. apply In_upd in Hin.
    destruct Hin as (j0 & Hin0 & [[E ->]|[N ->]]).
    + rewrite Hg, Hf, Hid, Hpid. exact Hok.
    + rewrite Hg, Hf. now apply I3.
  - intros fr Hin. rewrite Ha in Hin.
    destruct (I4 fr Hin) as (Ho & Hs & j & Hgj & Hat & Hproc).
    split; [assumption|]. split; [assumption|].
    destruct (String.eqb_spec (fr_job fr) jid) as [E|N].
    + exists job'. rewrite E. split; [assumption|].
      assert (j = job) by (rewrite E in Hgj; congruence). subst j.
      split; [now rewrite Hsteps|].
      intros Hst. exfalso. apply Hfr; [|assumption].
      apply has_frame_In. rewrite <- E. now apply in_map.
    + exists j. split; [|now split].
      unfold jobs_get. rewrite Hj.
      rewrite find_upd_other_const; [assumption | assumption | congruence].
Qed.

Lemma Inv_update (st st' : State) (jid : string) (f : Job -> Job) (job : Job) :
  Inv st -> jobs_get jid st = Some job ->
  job_id (f job) = jid -> steps (f job) = steps job ->
  photoId (f job) = photoId job ->
  job_ok (photo_gone (photoId job) st) (has_frame jid st) (f job) ->
  (has_frame jid st = true -> status (f job) <> processing) ->
  photos st' = photos st -> awaiting st' = awaiting st ->
  jobs st' = jobs (update_job jid f st) ->
  Inv st'.
Proof.
  intros I Hget Hid Hs Hp Hok Hfr Ep Ea Ej.
  apply (Inv_replace st st' jid job (f job)); try assumption.
  rewrite Ej, jobs_update_job. apply map_upd_const; [apply I | exact Hget].
Qed.

Lemma job_ok_weaken (g g' fr fr' : bool) (j : Job) :
  job_ok g fr j -> (g = true -> g' = true) -> (fr' = true -> fr = true) ->
  job_ok g' fr' j.
Proof.
  intros (H1 & H2 & H3 & H4 & H5 & H6 & H7) Hg Hf.
  split; [exact H1|]. split; [exact H2|]. split; [exact H3|].
  split; [|split; [exact H5|split; [exact H6|]]].
  - intros A B. destruct (H4 A B). auto.
  - intros F. apply H7. now apply Hf.
Qed.

Lemma job_ok_framed (g fr : bool) (j : Job) :
  job_ok g fr j -> status j = processing -> job_ok g true j.
Proof.
  intros (H1 & H2 & H3 & H4 & H5 & H6 & H7) Hp.
  split; [exact H1|]. split; [exact H2|]. split; [exact H3|].
  split; [exact H4|]. split; [exact H5|]. split; [exact H6|].
  intros _. now left.
Qed.

Lemma jobs_get_ids (jid : string) (st : State) (j : Job) :
  jobs_get jid st = Some j -> In jid (map job_id (jobs st)).
Proof.
  intros H. apply jobs_get_Some in H. destruct H as [Hin <-].
  now apply in_map.
Qed.

Lemma frame_job_known (st : State) (fr : Frame) :
  Inv st -> In fr (awaiting st) -> In (fr_job fr) (map job_id (jobs st)).
Proof.
  intros I Hin. destruct (inv_awaiting st I fr Hin) as (_ & _ & j & Hj & _).
  eapply jobs_get_ids; eauto.
Qed.

Lemma has_frame_false (jid : string) (st : State) :
  has_frame jid st = false <-> ~ In jid (map fr_job (awaiting st)).
Proof.
  rewrite <- has_frame_In. destruct (has_frame jid st); split; congruence.
Qed.

Lemma Inv_framed_status (st : State) (jid : string) (j : Job) :
  Inv st -> jobs_get jid st = Some j -> has_frame jid st = true ->
  status j = processing \/ status j = cancelled.
Proof.
  intros I Hget Hf. apply jobs_get_Some in Hget. destruct Hget as [Hin <-].
  now apply (inv_jobs st I j Hin).
Qed.

Lemma Inv_unframed (st : State) (jid : string) (j : Job) :
  Inv st -> jobs_get jid st = Some j ->
  status j <> processing -> status j <> cancelled ->
  has_frame jid st = false.
Proof.
  intros I Hget Hp Hc. destruct (has_frame jid st) eqn:F; [|reflexivity].
  destruct (Inv_framed_status st jid j I Hget F); contradiction.
Qed.

(** A frame is parked for a processing job that had none. *)
Lemma Inv_spawn (st : State) (fr : Frame) (job : Job) :
  Inv st -> jobs_get (fr_job fr) st = Some job ->
  has_frame (fr_job fr) st = false -> status job = processing ->
  frame_ok st fr -> Inv (spawn fr st).
Proof.
  intros I Hget Hnf Hst Hfr.
  assert (Ea : awaiting (spawn fr st) = (awaiting st ++ [fr])%list).
  { unfold spawn, procs_set.
    destruct (truthy _); [destruct (procs_has _ _)|]; reflexivity. }
  assert (Ej : jobs (spawn fr st) = jobs st).
  { unfold spawn, procs_set.
    destruct (truthy _); [destruct (procs_has _ _)|]; reflexivity. }
  assert (Ep : photos (spawn fr st) = photos st).
  { unfold spawn, procs_set.
    destruct (truthy _); [destruct (procs_has _ _)|]; reflexivity. }
  assert (Hg : forall pid, photo_gone pid (spawn fr st) = photo_gone pid st)
    by (intros; unfold photo_gone, photos_get; now rewrite Ep).
  assert (Hf : forall k, has_frame k (spawn fr st) =
                         has_frame k st || (fr_job fr =? k)%string).
  { intros k. unfold has_frame. rewrite Ea, existsb_app. cbn [existsb].
    now rewrite orb_false_r. }
  destruct I as [I1 I2 I3 I4]. split.
  - now rewrite Ej.
  - rewrite Ea, map_app. cbn [map].
    apply NoDup_app; [assumption | repeat constructor; intros [] |].
    intros x Hx [<-|[]]. now apply has_frame_false in Hnf.
  - intros j Hin. rewrite Ej in Hin. rewrite Hg, Hf.
    destruct (String.eqb_spec (fr_job fr) (job_id j)) as [E|N].
    + rewrite orb_true_r.
      apply find_job_In in Hin as Hfind; [|assumption].
      rewrite <- E in Hfind. unfold jobs_get in Hget.
      assert (j = job) by congruence. subst j.
      eapply job_ok_framed; [|assumption].
      eapply I3. exact Hin.
    + rewrite orb_false_r. now apply I3.
  - intros fr' Hin. rewrite Ea in Hin. apply in_app_or in Hin.
    assert (Hsame : forall fr0, frame_ok st fr0 -> frame_ok (spawn fr st) fr0).
    { intros fr0 Hok. unfold frame_ok, jobs_get in *. now rewrite Ej. }
    destruct Hin as [Hin|[<-|[]]]; apply Hsame; auto.
Qed.

Lemma remove_frame_incl (jid : string) (l : list Frame) (fr : Frame) :
  In fr (remove_frame jid l) -> In fr l.
Proof.
  induction l as [|x l IH]; cbn [remove_frame]; [trivial|].
  destruct (fr_job x =? jid)%string; [now right|].
  intros [<-|H]; [now left | right; auto].
Qed.

Lemma remove_frame_NoDup (jid : string) (l : list Frame) :
  NoDup (map fr_job l) ->
  NoDup (map fr_job (remove_frame jid l))
  /\ ~ In jid (map fr_job (remove_frame jid l)).
Proof.
  induction l as [|x l IH]; cbn [remove_frame map]; intros ND.
  - split; [constructor | intros []].
  - inversion ND as [|? ? Hx ND']; subst.
    destruct (String.eqb_spec (fr_job x) jid) as [E|N].
    + split; [assumption | now rewrite <- E].
    + destruct (IH ND') as [IH1 IH2]. cbn [map]. split.
      * constructor; [|assumption]. intros Hin. apply Hx.
        apply in_map_iff in Hin. destruct Hin as (y & Ey & Hy).
        apply in_map_iff. exists y. split; [assumption|].
        eapply remove_frame_incl; eauto.
      * intros [E|Hin]; [congruence | contradiction].
Qed.

(** The frame of the job [jid] is taken out. *)
Lemma Inv_unframe (st st' : State) (jid : string) :
  Inv st -> photos st' = photos st -> jobs st' = jobs st ->
  awaiting st' = remove_frame jid (awaiting st) ->
  Inv st' /\ has_frame jid st' = false.
Proof.
  intros [I1 I2 I3 I4] Ep Ej Ea.
  destruct (remove_frame_NoDup jid _ I2) as [N1 N2].
  assert (Hg : forall pid, photo_gone pid st' = photo_gone pid st)
    by (intros; unfold photo_gone, photos_get; now rewrite Ep).
  split; [split|].
  - now rewrite Ej.
  - now rewrite Ea.
  - intros j Hin. rewrite Ej in Hin. rewrite Hg.
    eapply job_ok_weaken; [apply I3; exact Hin | trivial |].
    intros F. apply has_frame_In in F. rewrite Ea in F.
    apply has_frame_In. apply in_map_iff in F. destruct F as (y & Ey & Hy).
    apply in_map_iff. exists y. split; [assumption|].
    eapply remove_frame_incl; eauto.
  - intros fr Hin. rewrite Ea in Hin. apply remove_frame_incl in Hin.
    specialize (I4 fr Hin). unfold frame_ok, jobs_get in *. now rewrite Ej.
  - apply has_frame_false. now rewrite Ea.
Qed.

(** Photos come and go; a photo that a job refers to and that has left the
    store does not come back. *)
Lemma Inv_photos (st st' : State) :
  Inv st -> jobs st' = jobs st -> awaiting st' = awaiting st ->
  (forall j, In j (jobs st) -> photo_gone (photoId j) st = true ->
             photo_gone (photoId j) st' = true) ->
  Inv st'.
Proof.
  intros [I1 I2 I3 I4] Ej Ea Hgone.
  assert (Hf : forall k, has_frame k st' = has_frame k st)
    by (intros; unfold has_frame; now rewrite Ea).
  split.
  - now rewrite Ej.
  - now rewrite Ea.
  - intros j Hin. rewrite Ej in Hin. rewrite Hf.
    eapply job_ok_weaken; [apply I3; exact Hin | | trivial].
    now apply Hgone.
  - intros fr Hin. rewrite Ea in Hin.
    specialize (I4 fr Hin). unfold frame_ok, jobs_get in *. now rewrite Ej.
Qed.

Lemma find_job_app_fresh (jid : string) (l : list Job) (job : Job) :
  ~ In (job_id job) (map job_id l) ->
  find (fun k => (job_id k =? jid)%string) (l ++ [job]) =
  match find (fun k => (job_id k =? jid)%string) l with
  | Some j => Some j
  | None => if (job_id job =? jid)%string then Some job else None
  end.
Proof.
  intros _. induction l as [|k l IH]; cbn [app find]; [reflexivity|].
  destruct (job_id k =? jid)%string; [reflexivity | exact IH].
Qed.

(** A new pending job enters the store. *)
Lemma Inv_add_job (st st' : State) (job : Job) :
  Inv st -> ~ In (job_id job) (map job_id (jobs st)) ->
  status job = pending -> stepResults job = [] ->
  resumeFromStep job = None -> failedStep job = None ->
  failedStepIndex job = None ->
  photos st' = photos st -> awaiting st' = awaiting st ->
  jobs st' = (jobs st ++ [job])%list ->
  Inv st'.
Proof.
  intros I Hfresh Hst Hres Hrf Hfs Hfi Ep Ea Ej.
  assert (Hnf : has_frame (job_id job) st = false).
  { apply has_frame_false. intros Hin. apply Hfresh.
    apply in_map_iff in Hin. destruct Hin as (fr & E & Hfr).
    rewrite <- E. now apply frame_job_known. }
  destruct I as [I1 I2 I3 I4].
  assert (Hg : forall pid, photo_gone pid st' = photo_gone pid st)
    by (intros; unfold photo_gone, photos_get; now rewrite Ep).
  assert (Hf : forall k, has_frame k st' = has_frame k st)
    by (intros; unfold has_frame; now rewrite Ea).
  split.
  - rewrite Ej, map_app. cbn [map].
    apply NoDup_app; [assumption | repeat constructor; intros [] |].
    intros x Hx [<-|[]]. contradiction.
  - now rewrite Ea.
  - intros j Hin. rewrite Ej in Hin. apply in_app_or in Hin.
    rewrite Hg, Hf. destruct Hin as [Hin|[<-|[]]]; [now apply I3|].
    rewrite Hnf. unfold job_ok. rewrite Hst, Hres, Hrf, Hfs, Hfi.
    repeat split; try discriminate; try congruence.
    intros [H|H]; congruence.
  - intros fr Hin. rewrite Ea in Hin.
    destruct (I4 fr Hin) as (Ho & Hs & j & Hgj & Hrest).
    split; [assumption|]. split; [assumption|]. exists j.
    split; [|assumption]. unfold jobs_get in *.
    rewrite Ej, find_job_app_fresh, Hgj; [reflexivity | assumption].
Qed.

(** Reading a field of a job after a series of assignments. *)
Ltac job_simpl :=
  unfold steps_length, results_length, startIndex_of, failedIndex_of in *;
  cbn [job_id photoId photoName original steps options maskPath cropRect
       status progress createdAt result stepResults priority resumeFromStep
       currentInputPath currentStep waitingStep waitingImage job_error
       failedStep failedStepIndex set_options set_maskPath set_cropRect
       set_status set_progress set_result set_stepResults set_priority
       set_resumeFromStep set_currentInputPath set_currentStep
       set_waitingStep set_waitingImage set_job_error set_failedStep
       set_failedStepIndex pause complete enter_step fail mark_cancelled
       clear_waiting clear_error record_result steps_length results_length
       startIndex_of failedIndex_of] in *.

(** ** Jobs that run *)

Lemma job_ok_calm (g fr : bool) (j : Job) :
  job_ok g fr j -> status j <> failed -> calm j.
Proof.
  intros (H1 & H2 & _) Hs.
  destruct (failedStep j) eqn:E1.
  { exfalso. apply Hs, H1. left. discriminate. }
  destruct (failedStepIndex j) eqn:E2.
  { exfalso. apply Hs, H1. right. discriminate. }
  split; [exact E1|]. split; [exact E2 | exact H2].
Qed.

Lemma Inv_calm (st : State) (jid : string) (j : Job) :
  Inv st -> jobs_get jid st = Some j -> status j <> failed -> calm j.
Proof.
  intros I Hget Hs. apply jobs_get_Some in Hget. destruct Hget as [Hin _].
  eapply job_ok_calm; [apply (inv_jobs st I j Hin) | assumption].
Qed.

Lemma job_ok_busy (g fr : bool) (j : Job) :
  calm j ->
  status j <> failed -> status j <> waiting_input -> status j <> pending ->
  (fr = true -> status j = processing \/ status j = cancelled) ->
  job_ok g fr j.
Proof.
  intros (C1 & C2 & C3) Hf Hw Hp Hfr. unfold job_ok. rewrite C1, C2.
  split; [intros [H|H]; congruence|]. split; [exact C3|].
  split; [discriminate|].
  split; [intros; contradiction|].
  split; [intros; contradiction|].
  split; [intros; contradiction | exact Hfr].
Qed.

Lemma join_nonempty (dir rel : string) : Path.join dir rel <> "".
Proof. unfold Path.join. destruct dir; discriminate. Qed.

Lemma orElse_nonempty (o : option string) (d : string) :
  d <> "" -> orElse o d <> "".
Proof.
  intros Hd. unfold orElse. destruct o as [s|]; [|assumption].
  destruct (String.eqb_spec s ""); assumption.
Qed.

Lemma has_frame_update (jid k : string) (f : Job -> Job) (st : State) :
  has_frame k (update_job jid f st) = has_frame k st.
Proof. reflexivity. Qed.

Lemma indexOf_from_lt (x : string) (l : list string) (i : Z) :
  indexOf_from i x l < i + Z.of_nat (List.length l) \/ indexOf_from i x l = -1.
Proof.
  revert i. induction l as [|y l IH]; intros i; cbn [indexOf_from];
    [now right|].
  destruct (y =? x)%string.
  - left. cbn [List.length]. lia.
  - destruct (IH (i + 1)) as [H|H]; [left | now right].
    cbn [List.length]. lia.
Qed.

Lemma indexOf_lt (x : string) (l : list string) :
  indexOf x l < Z.of_nat (List.length l).
Proof.
  unfold indexOf. destruct (indexOf_from_lt x l 0) as [H|H]; lia.
Qed.

Lemma indexOf_from_nth (x : string) (l : list string) :
  forall (i : Z) (k : nat),
    NoDup l -> nth_error l k = Some x -> indexOf_from i x l = i + Z.of_nat k.
Proof.
  induction l as [|y l IH]; intros i k ND Hk; [destruct k; discriminate|].
  inversion ND as [|? ? Hy ND']; subst. cbn [indexOf_from].
  destruct k as [|k]; cbn [nth_error] in Hk.
  - injection Hk as ->. rewrite String.eqb_refl. lia.
  - destruct (String.eqb_spec y x) as [->|N].
    + exfalso. apply Hy. eapply nth_error_In; eauto.
    + rewrite (IH (i + 1) k ND' Hk). lia.
Qed.

Lemma indexOf_at (x : string) (l : list string) (i : Z) :
  NoDup l -> at_index l i = Some x -> indexOf x l = i.
Proof.
  intros ND H. apply at_index_Some in H as Hi. unfold at_index in H.
  destruct (Z.ltb_spec i 0); [lia|].
  unfold indexOf. rewrite (indexOf_from_nth x l 0 (Z.to_nat i) ND H). lia.
Qed.

(** The loop of [processJob] keeps the invariant when it is entered for a
    processing job without a frame. *)
Lemma runLoop_Inv (n : nat) (jid origName jobShort : string) (i : Z)
    (cur : string) (st : State) (job : Job) :
  Inv st -> jobs_get jid st = Some job ->
  status job = processing -> has_frame jid st = false -> cur <> "" ->
  (NoDup (steps job) -> results_length job <= i) ->
  Inv (runLoop n jid origName jobShort i cur st).
Proof.
  intros I Hget Hst Hnf Hcur Hres.
  assert (C : calm job) by (eapply Inv_calm; eauto; congruence).
  assert (Hid : job_id job = jid) by (now apply jobs_get_Some in Hget).
  destruct (runLoop_outcome n jid origName jobShort i cur st job Hget)
    as [|i' stp sd Hi Hs Hd Hn|i' stp sd Hi Hs Hd Hn Hc|i' stp sd Hi Hs Hd Hn Hc
        |i' stp Hi Hs Hd].
  - (* the loop is left: completed *)
    apply (Inv_update st _ jid complete job I Hget); try reflexivity;
      try assumption; [|rewrite Hnf; discriminate].
    apply job_ok_busy; [exact C | job_simpl; congruence ..].
  - (* pause *)
    apply (Inv_update st _ jid (pause stp i' cur) job I Hget);
      try reflexivity; try assumption; [|rewrite Hnf; discriminate].
    destruct C as (C1 & C2 & C3). apply at_index_Some in Hs as Hlt.
    unfold job_ok, waiting_ok. job_simpl. rewrite C1, C2, Hnf.
    split; [intros [H|H]; congruence|].
    split; [intros r E; injection E as <-; lia|].
    split; [discriminate|]. split; [discriminate|].
    split; [|split; discriminate].
    intros _. exists i', stp, sd, cur.
    split; [reflexivity|]. split; [assumption|]. split; [reflexivity|].
    split; [assumption|]. split.
    { rewrite <- Hn. eapply needsInput_of_ext; eauto. }
    split; [reflexivity|]. split; [assumption|]. split; [reflexivity|].
    intros ND. specialize (Hres ND). lia.
  - congruence.
  - (* a worker is started *)
    set (st1 := update_job jid (enter_step stp i') st).
    assert (I1 : Inv st1).
    { apply (Inv_update st _ jid (enter_step stp i') job I Hget);
        try reflexivity; try assumption; [|rewrite Hnf; discriminate].
      apply job_ok_busy; [exact C | job_simpl; congruence ..]. }
    destruct (frame_at_fields jid origName jobShort i' stp sd cur job)
      as (F1 & F2 & F3 & F4 & _ & _ & F7).
    set (fr := frame_at jid origName jobShort i' stp sd cur job) in *.
    cbv zeta in F1, F2, F3, F4, F7.
    assert (Hget1 : jobs_get jid st1 = Some (enter_step stp i' job)).
    { apply jobs_get_update_same; [keeps | assumption]. }
    apply (Inv_spawn st1 fr (enter_step stp i' job)); try assumption.
    + now rewrite F1.
    + now rewrite F1.
    + unfold frame_ok. rewrite F1, F2, F3, F4, F7.
      split; [apply join_nonempty|]. split; [assumption|].
      exists (enter_step stp i' job). split; [assumption|].
      split; [exact Hs|]. intros _. split; [reflexivity|].
      intros ND. specialize (Hres ND). job_simpl. lia.
  - (* the step is an inherited member: [buildArgs] throws *)
    rewrite update_caught.
    assert (E : caught buildArgs_TypeError (enter_step stp i' job)
                = fail buildArgs_TypeError (enter_step stp i' job))
      by (apply caught_live; job_simpl; congruence).
    apply (Inv_update st _ jid
             (fun j => caught buildArgs_TypeError (enter_step stp i' j))
             job I Hget); try reflexivity; cbv beta; rewrite ?E;
      try reflexivity; try assumption; [|rewrite Hnf; discriminate].
    destruct C as (C1 & C2 & C3). unfold job_ok.
    job_simpl. unfold indexOf_currentStep. job_simpl. rewrite Hnf.
    split; [reflexivity|]. split; [exact C3|]. split.
    { intros k Ek. injection Ek as <-.
      split; [apply indexOf_lt|]. split; [discriminate|].
      intros ND. rewrite (indexOf_at _ _ _ ND Hs).
      specialize (Hres ND). lia. }
    repeat split; intros; discriminate.
Qed.

(** A job without a frame is about to run: after the assignments [g] of
    the caller, [processJob] marks it processing. *)
Lemma Inv_start (st st' : State) (jid : string) (g : Job -> Job) (job : Job) :
  Inv st -> jobs_get jid st = Some job -> has_frame jid st = false ->
  job_id (g job) = jid -> steps (g job) = steps job ->
  photoId (g job) = photoId job -> calm (g job) ->
  photos st' = photos st -> awaiting st' = awaiting st ->
  jobs st' = jobs (update_job jid (fun j => set_status processing (g j)) st) ->
  Inv st'.
Proof.
  intros I Hget Hnf Hid Hs Hp C Ep Ea Ej.
  apply (Inv_update st st' jid (fun j => set_status processing (g j)) job I
           Hget); try assumption.
  - apply job_ok_busy; [exact C | job_simpl; congruence ..].
  - rewrite Hnf. discriminate.
Qed.

Lemma processJob_Inv (jid : string) (st : State) (job : Job) :
  jobs_get jid st = Some job ->
  Inv (update_job jid (set_status processing) st) ->
  has_frame jid st = false ->
  (photo_gone (photoId job) st = false -> NoDup (steps job) ->
   results_length job <= startIndex_of job) ->
  Inv (processJob jid st).
Proof.
  intros Hget I1 Hnf Hres. unfold processJob. rewrite Hget.
  set (st1 := update_job jid (set_status processing) st) in *.
  assert (Hget1 : jobs_get jid st1 = Some (set_status processing job)).
  { apply jobs_get_update_same; [keeps | assumption]. }
  change (photos_get (photoId job) st1) with (photos_get (photoId job) st).
  destruct (photos_get (photoId job) st) as [photo|] eqn:Hph.
  - change (iterations job (startIndex_of job))
      with (iterations (set_status processing job) (startIndex_of job)).
    apply (runLoop_Inv _ _ _ _ _ _ st1 (set_status processing job));
      try assumption; try reflexivity.
    + apply orElse_nonempty, join_nonempty.
    + intros ND. apply Hres; [|exact ND]. unfold photo_gone. now rewrite Hph.
  - assert (C : calm (set_status processing job))
      by (eapply Inv_calm; eauto; discriminate).
    assert (Hid : job_id job = jid) by (now apply jobs_get_Some in Hget).
    apply (Inv_update st1 _ jid (set_status failed) _ I1 Hget1);
      try reflexivity; try exact Hid.
    + destruct C as (C1 & C2 & C3). unfold job_ok. job_simpl.
      rewrite C1, C2.
      change (has_frame jid st1) with (has_frame jid st). rewrite Hnf.
      split; [reflexivity|]. split; [exact C3|]. split; [discriminate|].
      split; [|repeat split; intros; discriminate].
      intros _ _. split; [reflexivity|].
      unfold photo_gone.
      change (photos_get (photoId job) st1) with (photos_get (photoId job) st).
      now rewrite Hph.
    + job_simpl. discriminate.
Qed.

Lemma processJob_Inv_pending (jid : string) (st : State) (job : Job) :
  Inv st -> jobs_get jid st = Some job -> status job = pending ->
  Inv (processJob jid st).
Proof.
  intros I Hget Hst.
  assert (Hnf : has_frame jid st = false)
    by (eapply Inv_unframed; eauto; congruence).
  assert (Hid : job_id job = jid) by (now apply jobs_get_Some in Hget).
  apply jobs_get_Some in Hget as Hin. destruct Hin as [Hin _].
  destruct (inv_jobs st I job Hin) as (_ & _ & _ & _ & _ & H6 & _).
  destruct (H6 Hst) as [Hr Hs].
  apply (processJob_Inv jid st job Hget); try assumption.
  - apply (Inv_start st _ jid (fun j => j) job I Hget Hnf); try reflexivity;
      try assumption.
    eapply Inv_calm; eauto. congruence.
  - intros _ _. unfold results_length, startIndex_of. rewrite Hr, Hs.
    reflexivity.
Qed.

Lemma dispatch_Inv (rest : list Job) :
  forall (running slotsUsed : Z) (s : State),
    Inv s -> NoDup (map job_id rest) ->
    (forall c, In c rest -> In c (jobs s) /\ status c = pending) ->
    Inv (dispatch running rest slotsUsed s).
Proof.
  induction rest as [|job rest IH]; intros running slotsUsed s I NDr Hall;
    cbn [dispatch]; [exact I|].
  inversion NDr as [|? ? Hnot NDr']; subst.
  destruct (Hall job (or_introl eq_refl)) as [Hjob Hpend].
  assert (Hget : jobs_get (job_id job) s = Some job)
    by (apply jobs_get_In; [apply I | assumption]).
  destruct (_ && _).
  - apply IH; try assumption. intros c Hc. apply Hall. now right.
  - apply IH; try assumption.
    + eapply processJob_Inv_pending; eauto.
    + intros c Hc. destruct (Hall c (or_intror Hc)) as [Hin P].
      split; [|assumption].
      eapply jobs_get_In_quiet; [apply processJob_quiet | assumption |].
      intros E. apply Hnot. rewrite <- E. now apply in_map.
Qed.

Lemma processNext_Inv (st : State) : Inv st -> Inv (processNext st).
Proof.
  intros I. unfold processNext. apply dispatch_Inv; [assumption | |].
  - apply candidates_NoDup, I.
  - intros c Hin. apply candidates_In in Hin. tauto.
Qed.

Lemma dispatch_frames (rest : list Job) :
  forall (running slotsUsed : Z) (s : State) (fr : Frame),
    In fr (awaiting (dispatch running rest slotsUsed s)) ->
    In fr (awaiting s) \/ In (fr_job fr) (map job_id rest).
Proof.
  induction rest as [|job rest IH]; intros running slotsUsed s fr;
    cbn [dispatch]; [now left|].
  destruct (_ && _); intros Hin; apply IH in Hin.
  - destruct Hin; [now left | right; now right].
  - destruct Hin as [Hin|Hin]; [|right; now right].
    destruct (q_awaiting _ _ _ (processJob_quiet (job_id job) s))
      as (x & Ex & Hx).
    rewrite Ex in Hin. apply in_app_or in Hin.
    destruct Hin as [Hin|Hin]; [now left|].
    right. left. symmetry. now apply Hx.
Qed.

(** A dispatch pass leaves a job that is not pending, and its frame, as
    they are. *)
Lemma processNext_other (st : State) (jid : string) (job : Job) :
  NoDup (map job_id (jobs st)) ->
  jobs_get jid st = Some job -> status job <> pending ->
  jobs_get jid (processNext st) = Some job
  /\ (has_frame jid st = false -> has_frame jid (processNext st) = false).
Proof.
  intros ND Hget Hst.
  apply jobs_get_Some in Hget as Hin. destruct Hin as [Hin Hid].
  assert (Hnc : ~ In jid (map job_id (candidates (jobs st)))).
  { intros H. apply in_map_iff in H. destruct H as (c & E & Hc).
    apply candidates_In in Hc. destruct Hc as (Hc & P & _).
    apply jobs_get_In in Hc; [|assumption].
    rewrite E in Hc. congruence. }
  split.
  - rewrite <- Hid.
    apply (processNext_untouched st job ND); [assumption|].
    intros Hc. apply Hnc. rewrite <- Hid. now apply in_map.
  - intros Hnf. apply has_frame_false. intros H.
    apply in_map_iff in H. destruct H as (fr & E & Hfr).
    apply dispatch_frames in Hfr. destruct Hfr as [Hfr|Hfr].
    + apply has_frame_false in Hnf. apply Hnf. rewrite <- E.
      now apply in_map.
    + apply Hnc. now rewrite <- E.
Qed.

(** Two series of writes to the job [jid] agree. *)
Ltac upd_norm :=
  rewrite ?map_map; apply map_ext;
  let j := fresh "j" in
  let Eb := fresh "Eb" in
  intros j; unfold upd;
  destruct (job_id j =? _)%string eqn:Eb;
  repeat (job_simpl; rewrite ?Eb); reflexivity.

(** ** Resuming a job *)

Lemma upd_upd_const (jid : string) (f : Job -> Job) (c : Job) (l : list Job) :
  job_id c = jid ->
  map (upd jid f) (map (upd jid (fun _ => c)) l)
  = map (upd jid (fun _ => f c)) l.
Proof.
  intros Hc. rewrite map_map. apply map_ext. intros j. unfold upd.
  destruct (String.eqb_spec (job_id j) jid) as [E|N].
  - now rewrite Hc, String.eqb_refl.
  - now rewrite (proj2 (String.eqb_neq _ _) N).
Qed.

(** The common part of the resume paths: the handler has replaced the job
    [job], which has no frame, by [job3], and calls [processJob]. *)
Lemma resume_Inv (st st3 : State) (jid : string) (job job3 : Job) :
  Inv st -> jobs_get jid st = Some job -> has_frame jid st = false ->
  photos st3 = photos st -> awaiting st3 = awaiting st ->
  jobs st3 = map (upd jid (fun _ => job3)) (jobs st) ->
  job_id job3 = jid -> steps job3 = steps job -> photoId job3 = photoId job ->
  calm job3 ->
  (photo_gone (photoId job) st = false -> NoDup (steps job) ->
   results_length job3 <= startIndex_of job3) ->
  Inv (processJob jid st3).
Proof.
  intros I Hget Hnf Ep Ea Ej Hid Hs Hp C Hres.
  assert (Hget3 : jobs_get jid st3 = Some job3).
  { unfold jobs_get. rewrite Ej.
    apply (find_upd_found jid (fun _ => job3) _ job Hget Hid). }
  apply (processJob_Inv jid st3 job3 Hget3).
  - apply (Inv_replace st _ jid job (set_status processing job3) I Hget);
      try assumption; try reflexivity.
    + cbn [update_job set_jobs jobs]. fold (upd jid (set_status processing)).
      rewrite Ej. now apply upd_upd_const.
    + apply job_ok_busy; [exact C | job_simpl; congruence ..].
    + rewrite Hnf. discriminate.
  - unfold has_frame. rewrite Ea. exact Hnf.
  - rewrite Hp, Hs. unfold photo_gone, photos_get. rewrite Ep. exact Hres.
Qed.

Lemma Inv_waiting (st : State) (jid : string) (job : Job) :
  Inv st -> jobs_get jid st = Some job -> status job = waiting_input ->
  waiting_ok job /\ calm job /\ has_frame jid st = false.
Proof.
  intros I Hget Hst. split; [|split].
  - apply jobs_get_Some in Hget. destruct Hget as [Hin _].
    now apply (inv_jobs st I job Hin).
  - eapply Inv_calm; eauto. congruence.
  - eapply Inv_unframed; eauto; congruence.
Qed.

Lemma submitInput_Inv (jid : string) (mask cropRect : option string)
    (maskId : string) (st : State) :
  Inv st -> Inv (fst (submitInput jid mask cropRect maskId st)).
Proof.
  intros I. unfold submitInput.
  destruct (jobs_get jid st) as [job|] eqn:Hget; [|exact I].
  destruct (Status_eqb (status job) waiting_input) eqn:Hst; [|exact I].
  apply Status_eqb_eq in Hst. cbn [negb fst].
  destruct (Inv_waiting st jid job I Hget Hst)
    as ((i & stp & sd & p & Hr & _ & _ & _ & _ & _ & _ & _ & Hres) & C & Hnf).
  assert (Hid : job_id job = jid) by (now apply jobs_get_Some in Hget).
  set (g1 := fun j : Job =>
               if opt_eqb (waitingStep job) "inpaint" && truthy mask
               then set_maskPath (Some (maskFile maskId)) j else j).
  set (g2 := fun j : Job =>
               if opt_eqb (waitingStep job) "crop" && truthy cropRect
               then set_cropRect cropRect j else j).
  apply (resume_Inv st _ jid job (clear_waiting (g2 (g1 job))) I Hget Hnf).
  - destruct (_ && _), (_ && _); reflexivity.
  - destruct (_ && _), (_ && _); reflexivity.
  - rewrite <- (map_upd_const jid (fun j => clear_waiting (g2 (g1 j))) _ job
                  (inv_ids st I) Hget).
    unfold g1, g2.
    destruct (opt_eqb (waitingStep job) "inpaint" && truthy mask),
      (opt_eqb (waitingStep job) "crop" && truthy cropRect);
      cbn [update_job set_jobs set_files jobs]; upd_norm.
  - unfold g1, g2. destruct (_ && _), (_ && _); exact Hid.
  - unfold g1, g2. destruct (_ && _), (_ && _); reflexivity.
  - unfold g1, g2. destruct (_ && _), (_ && _); reflexivity.
  - unfold g1, g2. destruct (_ && _), (_ && _); exact C.
  - intros _ ND. specialize (Hres ND). unfold g1, g2.
    destruct (_ && _), (_ && _); job_simpl; rewrite Hr; exact Hres.
Qed.

Lemma resume_update_Inv (st : State) (jid : string) (g : Job -> Job)
    (job : Job) :
  Inv st -> jobs_get jid st = Some job -> has_frame jid st = false ->
  job_id (g job) = jid -> steps (g job) = steps job ->
  photoId (g job) = photoId job -> calm (g job) ->
  (photo_gone (photoId job) st = false -> NoDup (steps job) ->
   results_length (g job) <= startIndex_of (g job)) ->
  Inv (processJob jid (update_job jid g st)).
Proof.
  intros I Hget Hnf Hid Hs Hp C Hres.
  apply (resume_Inv st _ jid job (g job) I Hget Hnf); try assumption;
    try reflexivity.
  cbn [update_job set_jobs jobs]. fold (upd jid g).
  apply map_upd_const; [apply I | exact Hget].
Qed.

Lemma skipStep_Inv (jid : string) (st : State) :
  Inv st -> Inv (fst (skipStep jid st)).
Proof.
  intros I. unfold skipStep.
  destruct (jobs_get jid st) as [job|] eqn:Hget; [|exact I].
  destruct (Status_eqb (status job) waiting_input) eqn:Hst; [|exact I].
  apply Status_eqb_eq in Hst. cbn [negb fst].
  destruct (Inv_waiting st jid job I Hget Hst)
    as ((i & stp & sd & p & Hr & Hat & _ & _ & _ & _ & _ & _ & Hres)
        & (C1 & C2 & C3) & Hnf).
  assert (Hid : job_id job = jid) by (now apply jobs_get_Some in Hget).
  apply at_index_Some in Hat.
  apply (resume_update_Inv st jid _ job I Hget Hnf); try assumption;
    try reflexivity.
  - split; [exact C1|]. split; [exact C2|]. job_simpl. rewrite Hr.
    intros r E. injection E as <-. lia.
  - intros _ ND. specialize (Hres ND). job_simpl. rewrite Hr. lia.
Qed.

Lemma previousManual_bound (l : list string) (n : nat) :
  previousManual l n = -1
  \/ (0 <= previousManual l n < Z.of_nat n
      /\ previousManual l n < Z.of_nat (List.length l)).
Proof.
  induction n as [|n IH]; [now left|]. cbn [previousManual].
  destruct (nth_error l n) as [x|] eqn:E.
  - destruct (MANUAL_STEPS_has x).
    + right. assert (nth_error l n <> None) by congruence.
      apply nth_error_Some in H. lia.
    + destruct IH as [IH|IH]; [now left | right; lia].
  - destruct IH as [IH|IH]; [now left | right; lia].
Qed.

Lemma back_Inv (jid : string) (st : State) :
  Inv st -> Inv (fst (back jid st)).
Proof.
  intros I. unfold back.
  destruct (jobs_get jid st) as [job|] eqn:Hget; [|exact I].
  destruct (Status_eqb (status job) waiting_input) eqn:Hst; [|exact I].
  apply Status_eqb_eq in Hst. cbn [negb].
  set (t := previousManual (steps job) (Z.to_nat (startIndex_of job))).
  destruct (Z.ltb_spec t 0) as [Hneg|Hpos]; [exact I|]. cbn [fst].
  destruct (Inv_waiting st jid job I Hget Hst) as (_ & (C1 & C2 & C3) & Hnf).
  assert (Hid : job_id job = jid) by (now apply jobs_get_Some in Hget).
  assert (Hb : t < Z.of_nat (List.length (steps job))).
  { destruct (previousManual_bound (steps job)
                (Z.to_nat (startIndex_of job))) as [H|H]; fold t in H; lia. }
  unfold rewindTo. rewrite fold_clearInput. cbv beta iota zeta.
  eapply (resume_Inv st _ jid job _ I Hget Hnf); try reflexivity;
    try exact Hid.
  - split; [exact C1|]. split; [exact C2|]. job_simpl.
    intros r E. injection E as <-. lia.
  - intros _ _. job_simpl. rewrite length_firstn. lia.
Qed.

Lemma retry_Inv (jid : string) (model : option string) (st : State) :
  Inv st -> Inv (fst (retry jid model st)).
Proof.
  intros I. unfold retry.
  destruct (jobs_get jid st) as [job|] eqn:Hget; [|exact I].
  destruct (Status_eqb (status job) failed) eqn:Hst; [|exact I].
  apply Status_eqb_eq in Hst. cbn [negb fst].
  assert (Hnf : has_frame jid st = false)
    by (eapply Inv_unframed; eauto; congruence).
  assert (Hid : job_id job = jid) by (now apply jobs_get_Some in Hget).
  apply jobs_get_Some in Hget as Hin. destruct Hin as [Hin _].
  destruct (inv_jobs st I job Hin) as (_ & H2 & H3 & H4 & _).
  apply (resume_update_Inv st jid _ job I Hget Hnf).
  - destruct model, (failedStep job); try exact Hid.
    destruct (_ && _); [destruct (_ =? _)%string|]; exact Hid.
  - destruct model, (failedStep job); try reflexivity.
    destruct (_ && _); [destruct (_ =? _)%string|]; reflexivity.
  - destruct model, (failedStep job); try reflexivity.
    destruct (_ && _); [destruct (_ =? _)%string|]; reflexivity.
  - assert (Hr : failedIndex_of job <= steps_length job).
    { unfold failedIndex_of. destruct (failedStepIndex job) as [k|].
      - destruct (H3 k eq_refl). lia.
      - unfold steps_length. lia. }
    unfold calm. destruct model, (failedStep job);
      try (destruct (_ && _); [destruct (_ =? _)%string|]); job_simpl;
      (split; [reflexivity|]; split; [reflexivity|];
       intros r E; injection E as <-; exact Hr).
  - intros Hg ND.
    assert (Hr : results_length job <= failedIndex_of job).
    { unfold failedIndex_of. destruct (failedStepIndex job) as [k|] eqn:Ek.
      - destruct (H3 k eq_refl) as (_ & _ & H). now apply H.
      - destruct (H4 Hst eq_refl). congruence. }
    destruct model, (failedStep job);
      try (destruct (_ && _); [destruct (_ =? _)%string|]); job_simpl;
      exact Hr.
Qed.

Lemma update_job_twice (jid : string) (f g : Job -> Job) (st : State) :
  keeps_id g ->
  update_job jid f (update_job jid g st)
  = update_job jid (fun j => f (g j)) st.
Proof.
  intros K. unfold update_job, set_jobs. cbn. f_equal.
  now apply upd_upd.
Qed.

Lemma skipFailed_Inv (jid : string) (st : State) :
  Inv st -> Inv (fst (skipFailed jid st)).
Proof.
  intros I. unfold skipFailed.
  destruct (jobs_get jid st) as [job|] eqn:Hget; [|exact I].
  destruct (Status_eqb (status job) failed) eqn:Hst; [|exact I].
  apply Status_eqb_eq in Hst. cbn [negb].
  assert (Hnf : has_frame jid st = false)
    by (eapply Inv_unframed; eauto; congruence).
  assert (Hid : job_id job = jid) by (now apply jobs_get_Some in Hget).
  apply jobs_get_Some in Hget as Hin. destruct Hin as [Hin _].
  destruct (inv_jobs st I job Hin) as (_ & H2 & H3 & H4 & _).
  destruct (Z.geb_spec (failedIndex_of job + 1) (steps_length job))
    as [Hge|Hlt]; cbn [fst].
  - apply (Inv_update st _ jid
             (fun j => set_result (last_result (clear_error j))
                         (set_progress 100
                            (set_status completed (clear_error j))))
             job I Hget); try reflexivity; try exact Hid.
    + apply job_ok_busy; try (job_simpl; congruence).
      split; [reflexivity|]. split; [reflexivity|]. exact H2.
    + rewrite Hnf. discriminate.
    + cbn [update_job set_jobs jobs]. upd_norm.
  - replace (update_job jid
               (fun j => set_status processing
                           (set_resumeFromStep
                              (Some (failedIndex_of job + 1)) j))
               (update_job jid clear_error st))
      with (update_job jid
              (fun j => set_status processing
                          (set_resumeFromStep
                             (Some (failedIndex_of job + 1))
                             (clear_error j))) st).
    2:{ symmetry.
        apply (update_job_twice jid
                 (fun j => set_status processing
                             (set_resumeFromStep
                                (Some (failedIndex_of job + 1)) j))
                 clear_error st).
        keeps. }
    apply (resume_update_Inv st jid _ job I Hget Hnf); try reflexivity;
      try exact Hid.
    + split; [reflexivity|]. split; [reflexivity|]. job_simpl.
      intros r E. injection E as <-. lia.
    + intros Hg ND. job_simpl.
      destruct (failedStepIndex job) as [k|] eqn:Ek.
      * destruct (H3 k eq_refl) as (_ & _ & H). specialize (H ND).
        job_simpl. lia.
      * destruct (H4 Hst eq_refl). congruence.
Qed.

(** ** Cancellation *)

Lemma cancel_id_Inv (jid : string) (st st' : State) :
  Inv st ->
  (forall j, jobs_get jid st = Some j -> status j <> failed) ->
  photos st' = photos st -> awaiting st' = awaiting st ->
  jobs st' = jobs (update_job jid mark_cancelled st) ->
  Inv st'.
Proof.
  intros I Hnf Ep Ea Ej.
  destruct (jobs_get jid st) as [job|] eqn:Hget.
  - assert (Hid : job_id job = jid) by (now apply jobs_get_Some in Hget).
    apply (Inv_update st st' jid mark_cancelled job I Hget);
      try assumption; try reflexivity.
    + apply job_ok_busy; try (job_simpl; congruence).
      * apply (Inv_calm st jid job I Hget). now apply Hnf.
      * intros _. now right.
    + intros _. job_simpl. discriminate.
  - apply (Inv_ext st); try assumption. rewrite Ej.
    cbn [update_job set_jobs jobs]. rewrite <- (map_id (jobs st)) at 2.
    apply map_ext_in. intros j Hin.
    destruct (String.eqb_spec (job_id j) jid) as [E|N]; [|reflexivity].
    exfalso. apply find_job_None in Hget. apply Hget. rewrite <- E.
    now apply in_map.
Qed.

Lemma cancel_one_Inv (st : State) (job : Job) :
  Inv st ->
  (forall j, jobs_get (job_id job) st = Some j -> status j <> failed) ->
  Inv (cancel_one st job).
Proof.
  intros I H. apply (cancel_id_Inv (job_id job) st); try assumption;
    unfold cancel_one, kill_proc; destruct (procs_has _ _); reflexivity.
Qed.

Lemma cancel_one_status (st : State) (job : Job) (jid : string) (j : Job) :
  jobs_get jid (cancel_one st job) = Some j ->
  status j = cancelled \/ jobs_get jid st = Some j.
Proof.
  assert (Ej : jobs (cancel_one st job) =
               map (upd (job_id job) mark_cancelled) (jobs st)).
  { unfold cancel_one, kill_proc. destruct (procs_has _ _); reflexivity. }
  unfold jobs_get. rewrite Ej. intros H.
  destruct (String.eqb_spec jid (job_id job)) as [->|N].
  - destruct (find (fun k => (job_id k =? job_id job)%string) (jobs st))
      as [j0|] eqn:E.
    + erewrite find_upd_same in H; [|keeps|exact E].
      injection H as <-. now left.
    + apply find_job_None in E. exfalso.
      apply find_job_Some in H. destruct H as [H Hid].
      apply E. rewrite <- Hid, <- (map_upd_ids (job_id job) mark_cancelled)
        by keeps. now apply in_map.
  - right. rewrite find_upd_other in H; [assumption | keeps | assumption].
Qed.

Lemma fold_cancel_one_Inv (l : list Job) :
  forall st, Inv st ->
    (forall c j, In c l -> jobs_get (job_id c) st = Some j ->
                 status j <> failed) ->
    Inv (fold_left cancel_one l st).
Proof.
  induction l as [|c l IH]; intros st I H; cbn [fold_left]; [exact I|].
  apply IH.
  - apply cancel_one_Inv; [assumption|]. intros j. apply H. now left.
  - intros c' j Hin Hget. apply cancel_one_status in Hget.
    destruct Hget as [E|Hget]; [congruence|].
    eapply H; [right; exact Hin | exact Hget].
Qed.

Lemma checkHeartbeat_Inv (now : Z) (st : State) :
  Inv st -> Inv (checkHeartbeat now st).
Proof.
  intros I. unfold checkHeartbeat.
  destruct (heartbeatFresh now st); [exact I|].
  destruct (_ =? _)%nat; [exact I|].
  apply fold_cancel_one_Inv; [exact I|].
  intros c j Hin Hget. apply filter_In in Hin. destruct Hin as [Hin A].
  apply jobs_get_In in Hin; [|apply I].
  assert (j = c) by congruence. subst j.
  unfold isActive in A. intros E. rewrite E in A. discriminate.
Qed.

Lemma cancel_Inv (jid : string) (st : State) :
  Inv st -> Inv (fst (cancel jid st)).
Proof.
  intros I. unfold cancel.
  destruct (jobs_get jid st) as [job|] eqn:Hget; [|exact I].
  destruct (cancellable (status job)) eqn:Hc; [|exact I].
  cbn [fst]. apply processNext_Inv, cancel_one_Inv; [exact I|].
  assert (Hid : job_id job = jid) by (now apply jobs_get_Some in Hget).
  rewrite Hid, Hget. intros j E. injection E as <-.
  intros E. rewrite E in Hc. discriminate.
Qed.

Lemma cancelAll_Inv (st : State) : Inv st -> Inv (fst (cancelAll st)).
Proof.
  intros I. unfold cancelAll.
  set (body := fun (acc : State * Z) (jid : string) => _).
  assert (H : forall ids acc, Inv (fst acc) ->
                Inv (fst (fold_left body ids acc))).
  { induction ids as [|jid ids IH]; intros acc Ia; cbn [fold_left];
      [exact Ia|].
    apply IH. unfold body.
    destruct (jobs_get jid (fst acc)) as [job|] eqn:Hget; [|exact Ia].
    destruct (cancellable (status job)) eqn:Hc; [|exact Ia].
    cbn [fst]. apply cancel_one_Inv; [exact Ia|].
    assert (Hid : job_id job = jid) by (now apply jobs_get_Some in Hget).
    rewrite Hid, Hget. intros j E. injection E as <-.
    intros E. rewrite E in Hc. discriminate. }
  specialize (H (map job_id (jobs st)) (st, 0) I).
  destruct (fold_left body (map job_id (jobs st)) (st, 0)). exact H.
Qed.

(** ** Reordering, photos, creation *)

Lemma reorder_from_Inv (jobIds : list string) :
  forall index st, Inv st -> Inv (reorder_from index jobIds st).
Proof.
  induction jobIds as [|jid ids IH]; intros index st I; cbn [reorder_from];
    [exact I|].
  apply IH. destruct (jobs_get jid st) as [job|] eqn:Hget; [|exact I].
  destruct (Status_eqb (status job) pending) eqn:Hst; [|exact I].
  apply Status_eqb_eq in Hst.
  assert (Hid : job_id job = jid) by (now apply jobs_get_Some in Hget).
  apply jobs_get_Some in Hget as Hin. destruct Hin as [Hin _].
  apply (Inv_update st _ jid (set_priority index) job I Hget);
    try reflexivity; try exact Hid.
  - generalize (inv_jobs st I job Hin). rewrite Hid.
    intros (H1 & H2 & H3 & H4 & H5 & H6 & H7).
    split; [exact H1|]. split; [exact H2|]. split; [exact H3|].
    split; [exact H4|]. split; [|split; [exact H6 | exact H7]].
    job_simpl. intros E. congruence.
  - intros _. job_simpl. congruence.
Qed.

Lemma find_photo_app (pid : string) (l : list Photo) (p : Photo) :
  find (fun q => (photo_id q =? pid)%string) (l ++ [p]) =
  match find (fun q => (photo_id q =? pid)%string) l with
  | Some q => Some q
  | None => if (photo_id p =? pid)%string then Some p else None
  end.
Proof.
  induction l as [|q l IH]; cbn [app find]; [reflexivity|].
  destruct (photo_id q =? pid)%string; [reflexivity | exact IH].
Qed.

Lemma includes_map {A} (f : A -> string) (x : string) (l : list A) :
  includes x (map f l) = existsb (fun a => (f a =? x)%string) l.
Proof.
  unfold includes. induction l as [|a l IH]; cbn [map existsb];
    [reflexivity | now rewrite IH].
Qed.

Lemma photos_set_Inv (p : Photo) (st : State) :
  Inv st ->
  includes (photo_id p) (map photo_id (photos st)) = false ->
  includes (photo_id p) (map photoId (jobs st)) = false ->
  Inv (photos_set p st).
Proof.
  intros I Hp Hj. unfold photos_set.
  replace (existsb (fun q => (photo_id q =? photo_id p)%string) (photos st))
    with false.
  2:{ now rewrite <- includes_map, Hp. }
  apply (Inv_photos st); try reflexivity; [exact I|].
  intros j Hin. unfold photo_gone, photos_get. cbn [photos set_photos].
  rewrite find_photo_app.
  destruct (find _ (photos st)); [discriminate|]. intros _.
  destruct (String.eqb_spec (photo_id p) (photoId j)) as [E|N];
    [|reflexivity].
  exfalso. apply includes_not_In in Hj. apply Hj. rewrite E.
  now apply in_map.
Qed.

Lemma find_filter_None {A} (f p : A -> bool) (l : list A) :
  find f l = None -> find f (filter p l) = None.
Proof.
  induction l as [|a l IH]; cbn [find filter]; [trivial|].
  destruct (f a) eqn:Fa; [discriminate|]. intros H.
  destruct (p a); cbn [find]; [rewrite Fa|]; auto.
Qed.

Lemma photos_delete_Inv (pid : string) (st : State) :
  Inv st -> Inv (photos_delete pid st).
Proof.
  intros I. apply (Inv_photos st); try reflexivity; [exact I|].
  intros j Hin. unfold photo_gone, photos_get. cbn [photos_delete photos set_photos].
  destruct (find _ (photos st)) eqn:E; [discriminate|]. intros _.
  now rewrite find_filter_None.
Qed.

Lemma photos_clear_Inv (st : State) : Inv st -> Inv (photos_clear st).
Proof.
  intros I. apply (Inv_photos st); try reflexivity. exact I.
Qed.

Lemma dispatch_ids (rest : list Job) :
  forall running slotsUsed s,
    map job_id (jobs (dispatch running rest slotsUsed s)) =
    map job_id (jobs s).
Proof.
  induction rest as [|job rest IH]; intros running slotsUsed s;
    cbn [dispatch]; [reflexivity|].
  destruct (_ && _); rewrite IH; [reflexivity|].
  apply (quiet_ids _ _ _ (processJob_quiet _ _)).
Qed.

Lemma processNext_ids (st : State) :
  map job_id (jobs (processNext st)) = map job_id (jobs st).
Proof. apply dispatch_ids. Qed.

Lemma createJob_Inv (validSteps : list string)
    (opts masks cropRects : list (string * string))
    (acc : State * list string) (req : string * Fresh) :
  Inv (fst acc) ->
  ~ In (fresh_uuid (snd req)) (map job_id (jobs (fst acc))) ->
  let acc' := createJob validSteps opts masks cropRects acc req in
  Inv (fst acc')
  /\ (forall u, In u (map job_id (jobs (fst acc'))) ->
                In u (map job_id (jobs (fst acc)))
                \/ u = fresh_uuid (snd req)).
Proof.
  destruct acc as [st created], req as [pid fr]. cbn [fst snd].
  intros I Hfresh. unfold createJob.
  destruct (photos_get pid st) as [photo|]; [|split; [exact I | auto]].
  set (withMask := includes "inpaint" validSteps && truthy (assoc pid masks)).
  set (st1 := if withMask then _ else st).
  set (job := {| job_id := fresh_uuid fr |}).
  assert (E1 : photos st1 = photos st /\ jobs st1 = jobs st
               /\ awaiting st1 = awaiting st)
    by (unfold st1; destruct withMask; repeat split).
  destruct E1 as (Ep & Ej & Ea).
  assert (Hset : jobs (jobs_set job st1) = (jobs st ++ [job])%list
                 /\ photos (jobs_set job st1) = photos st
                 /\ awaiting (jobs_set job st1) = awaiting st).
  { unfold jobs_set.
    replace (existsb (fun j => (job_id j =? job_id job)%string) (jobs st1))
      with false.
    - cbn [jobs photos awaiting set_jobs]. now rewrite Ej, Ep, Ea.
    - rewrite Ej, <- includes_map. symmetry. now apply includes_not_In. }
  destruct Hset as (Hj & Hp & Ha).
  cbn [fst]. unfold enqueueJob. split.
  - apply processNext_Inv.
    apply (Inv_add_job st _ job I); try assumption; reflexivity.
  - intros u. rewrite processNext_ids, Hj, map_app, in_app_iff.
    cbn [map In]. intros [H|[H|[]]]; [now left | right; now rewrite <- H].
Qed.

Lemma createJobs_Inv (aiReady setupRunning : bool)
    (reqs : list (string * Fresh)) (steps : list string)
    (opts masks cropRects : list (string * string)) (st : State) :
  Inv st ->
  distinct (map (fun r => fresh_uuid (snd r)) reqs) = true ->
  forallb (fun u => negb (includes u (map job_id (jobs st))))
          (map (fun r => fresh_uuid (snd r)) reqs) = true ->
  Inv (fst (createJobs aiReady setupRunning reqs steps opts masks cropRects
              st)).
Proof.
  intros I Hd Hf. unfold createJobs.
  destruct (negb aiReady); [exact I|].
  destruct (_ || _); [exact I|].
  set (validSteps := filter _ steps).
  destruct (_ =? _)%nat; [exact I|].
  assert (H : forall rs acc,
            Inv (fst acc) ->
            NoDup (map (fun r => fresh_uuid (snd r)) rs) ->
            (forall r, In r rs ->
               ~ In (fresh_uuid (snd r)) (map job_id (jobs (fst acc)))) ->
            Inv (fst (fold_left (createJob validSteps opts masks cropRects)
                        rs acc))).
  { induction rs as [|r rs IH]; intros acc Ia ND Hfr; cbn [fold_left];
      [exact Ia|].
    inversion ND as [|? ? Hr ND']; subst.
    destruct (createJob_Inv validSteps opts masks cropRects acc r Ia
                (Hfr r (or_introl eq_refl))) as [I' Hids].
    apply IH; try assumption.
    intros r' Hin' Hu. apply Hids in Hu. destruct Hu as [Hu|Hu].
    - now apply (Hfr r' (or_intror Hin')).
    - apply Hr. rewrite <- Hu.
      apply (in_map (fun r => fresh_uuid (snd r))). exact Hin'. }
  specialize (H reqs (st, []) I (distinct_NoDup _ Hd)).
  destruct (fold_left _ reqs (st, [])) as [st' created] eqn:E.
  cbn [fst] in *. apply H.
  intros r Hin. rewrite forallb_forall in Hf.
  apply includes_not_In. apply negb_true_iff. apply Hf.
  apply (in_map (fun r => fresh_uuid (snd r))). exact Hin.
Qed.

(** ** A worker exits *)

Lemma find_frame_Some (jid : string) (st : State) (fr : Frame) :
  find_frame jid st = Some fr -> In fr (awaiting st) /\ fr_job fr = jid.
Proof.
  unfold find_frame. intros H. apply find_some in H. destruct H as [H E].
  apply String.eqb_eq in E. now split.
Qed.

Lemma job_eta (job : Job) :
  set_maskPath (maskPath job) (set_cropRect (cropRect job) job) = job.
Proof. destruct job; reflexivity. Qed.

(** The completion hook of a registered stage only resets the inputs. *)
Lemma run_onComplete_shape (fr : Frame) (st : State) (job : Job) :
  NoDup (map job_id (jobs st)) ->
  STEPS (fr_step fr) = Some (Stage (fr_stepDef fr)) ->
  jobs_get (fr_job fr) st = Some job ->
  exists c m,
    jobs (run_onComplete fr st) =
      map (upd (fr_job fr) (fun _ => set_maskPath m (set_cropRect c job)))
          (jobs st)
    /\ photos (run_onComplete fr st) = photos st
    /\ awaiting (run_onComplete fr st) = awaiting st.
Proof.
  intros ND Hs Hget. unfold run_onComplete. rewrite Hget.
  assert (Hsame : jobs st =
            map (upd (fr_job fr)
                   (fun _ => set_maskPath (maskPath job)
                               (set_cropRect (cropRect job) job)))
                (jobs st)).
  { rewrite job_eta.
    rewrite <- (map_upd_const (fr_job fr) (fun j => j) _ job ND Hget).
    rewrite <- (map_id (jobs st)) at 1. apply map_ext. intros j.
    unfold upd. now destruct (_ =? _)%string. }
  destruct (STEPS_cases _ _ Hs) as [[_ ->]|[[_ ->]|(_ & -> & _)]].
  - exists None, (maskPath job). cbn. repeat split.
  - cbn. destruct (truthy (maskPath job)).
    + exists (cropRect job), None. cbn. repeat split.
    + exists (cropRect job), (maskPath job). rewrite job_eta.
      cbn. repeat split.
  - exists (cropRect job), (maskPath job). repeat split. exact Hsame.
Qed.

Lemma workerExit_Inv (jid : string) (o : Outcome) (st : State) :
  Inv st -> Inv (workerExit jid o st).
Proof.
  intros I. unfold workerExit.
  destruct (find_frame jid st) as [fr|] eqn:Hfr; [|exact I].
  apply find_frame_Some in Hfr. destruct Hfr as [Hin Hfj].
  set (st1 := procs_delete jid (set_awaiting _ st)).
  destruct (Inv_unframe st st1 jid I eq_refl eq_refl eq_refl) as [I1 Hnf1].
  destruct (inv_awaiting st I fr Hin) as (Ho & Hs & job & Hget & Hat & Hproc).
  rewrite Hfj in Hget.
  change (jobs_get jid st1) with (jobs_get jid st). rewrite Hget.
  assert (Hid : job_id job = jid) by (now apply jobs_get_Some in Hget).
  assert (Hst : status job = processing \/ status job = cancelled).
  { apply (Inv_framed_status st jid job I Hget).
    apply has_frame_In. rewrite <- Hfj. now apply in_map. }
  assert (Hget1 : jobs_get jid st1 = Some job) by exact Hget.
  assert (C : calm job).
  { apply (Inv_calm st jid job I Hget). destruct Hst; congruence. }
  destruct o as [out|message].
  - (* resolved *)
    destruct (Status_eqb (status job) cancelled) eqn:Hc.
    { apply (Inv_ext st1); [reflexivity.. | exact I1]. }
    apply Status_eqb_neq in Hc.
    assert (Hp : status job = processing) by (destruct Hst; congruence).
    destruct (Hproc Hp) as [Hcur Hres].
    rewrite <- Hfj in Hget1.
    destruct (run_onComplete_shape fr st1 job (inv_ids st1 I1) Hs Hget1)
      as (c & m & Ej2 & Ep2 & Ea2).
    rewrite Hfj in Ej2, Hget1.
    set (st2 := run_onComplete fr st1) in *.
    set (job2 := set_maskPath m (set_cropRect c job)) in *.
    set (st3 := update_job jid (record_result fr) st2).
    assert (Ej3 : jobs st3 =
                  map (upd jid (fun _ => record_result fr job2)) (jobs st1)).
    { unfold st3. cbn [update_job set_jobs jobs].
      fold (upd jid (record_result fr)). rewrite Ej2.
      apply upd_upd_const. exact Hid. }
    assert (I3 : Inv st3).
    { apply (Inv_replace st1 st3 jid job (record_result fr job2) I1 Hget1);
        try assumption; try reflexivity.
      - apply job_ok_busy; try (unfold job2; job_simpl; congruence).
        exact C.
      - rewrite Hnf1. discriminate. }
    assert (Hget3 : jobs_get jid st3 = Some (record_result fr job2)).
    { unfold jobs_get. rewrite Ej3.
      apply (find_upd_found jid (fun _ => record_result fr job2) _ job Hget1).
      exact Hid. }
    assert (Hnf3 : has_frame jid st3 = false).
    { unfold has_frame. unfold st3. cbn [update_job set_jobs awaiting].
      rewrite Ea2. exact Hnf1. }
    destruct (processNext_other st3 jid _ (inv_ids st3 I3) Hget3) as [Hget4 Hnf4].
    { unfold job2. job_simpl. congruence. }
    apply (runLoop_Inv _ _ _ _ _ _ _ (record_result fr job2));
      try assumption.
    + now apply processNext_Inv.
    + now apply Hnf4.
    + intros ND. specialize (Hres ND). unfold job2. job_simpl.
      rewrite length_app. cbn [List.length]. lia.
  - (* rejected *)
    destruct (Status_eqb (status job) cancelled) eqn:Hc.
    + apply Status_eqb_eq in Hc.
      apply (Inv_update st1 _ jid (set_currentStep None) job I1 Hget1);
        try reflexivity; try exact Hid.
      * apply job_ok_busy; try (job_simpl; congruence). exact C.
      * rewrite Hnf1. discriminate.
    + apply Status_eqb_neq in Hc.
      assert (Hp : status job = processing) by (destruct Hst; congruence).
      destruct (Hproc Hp) as [Hcur Hres].
      apply (Inv_update st1 _ jid (fail message) job I1 Hget1);
        try reflexivity; try exact Hid.
      * destruct C as (C1 & C2 & C3). unfold job_ok.
        job_simpl. unfold indexOf_currentStep. rewrite Hcur, Hnf1.
        split; [reflexivity|]. split; [exact C3|]. split.
        { intros k E. injection E as <-.
          split; [apply indexOf_lt|]. split; [discriminate|].
          intros ND. rewrite (indexOf_at _ _ _ ND Hat). now apply Hres. }
        repeat split; intros; discriminate.
      * rewrite Hnf1. discriminate.
Qed.

(** ** Every reachable state satisfies the invariant *)

Lemma init_Inv (now : Z) : Inv (init now).
Proof.
  split; cbn; [constructor | constructor | intros ? [] | intros ? []].
Qed.

Lemma step_Inv (ev : Event) (st : State) :
  Inv st -> enabled ev st = true -> Inv (step ev st).
Proof.
  intros I En. destruct ev; cbn [step].
  - cbn [enabled] in En. apply andb_true_iff in En. destruct En as [_ En].
    apply andb_true_iff in En. destruct En as [E1 E2].
    apply negb_true_iff in E1, E2. now apply photos_set_Inv.
  - now apply photos_delete_Inv.
  - now apply photos_clear_Inv.
  - cbn [enabled] in En. apply andb_true_iff in En. destruct En as [_ En].
    apply andb_true_iff in En. destruct En as [E1 E2].
    now apply createJobs_Inv.
  - apply (Inv_ext st); [reflexivity.. | exact I].
  - now apply submitInput_Inv.
  - now apply skipStep_Inv.
  - now apply back_Inv.
  - now apply retry_Inv.
  - now apply skipFailed_Inv.
  - now apply cancel_Inv.
  - now apply cancelAll_Inv.
  - unfold reorder. cbn [fst]. now apply reorder_from_Inv.
  - unfold putSettings. cbn [fst]. apply processNext_Inv.
    destruct val as [| | |q| |]; try exact I.
    destruct (inRange q); [|exact I].
    apply (Inv_ext st); [reflexivity.. | exact I].
  - now apply checkHeartbeat_Inv.
  - now apply workerExit_Inv.
  - destruct (microtasks st) as [|k]; [exact I|].
    apply processNext_Inv. apply (Inv_ext st); [reflexivity.. | exact I].
Qed.

Lemma reachable_Inv (st : State) : reachable st -> Inv st.
Proof.
  induction 1 as [now|st ev R IH En]; [apply init_Inv | now apply step_Inv].
Qed.

(** ** Consequences for the reachable states *)

(** C6, amended.  In every reachable state [resumeFromStep] (read as 0 while
    it has not been assigned) is at most [steps.length] for every job; and a
    job in [waiting_input] whose steps are pairwise distinct has at most
    [resumeFromStep] step results. *)
Theorem resumeFromStep_bounds (st : State) :
  reachable st ->
  Forall (fun j =>
            startIndex_of j <= steps_length j
            /\ (status j = waiting_input -> NoDup (steps j) ->
                results_length j <= startIndex_of j))
         (jobs st).
Proof.
  intros R. apply reachable_Inv in R. apply Forall_forall. intros j Hin.
  destruct (inv_jobs st R j Hin) as (_ & H2 & _ & _ & H5 & _).
  split.
  - unfold startIndex_of. destruct (resumeFromStep j) as [r|].
    + now apply H2.
    + unfold steps_length. lia.
  - intros W ND.
    destruct (H5 W) as (i & stp & sd & p & Hr & _ & _ & _ & _ & _ & _ & _ & H).
    unfold startIndex_of. rewrite Hr. now apply H.
Qed.

(** C7, amended.  In every reachable state a job whose [failedStep] or
    [failedStepIndex] is set has the status [failed], and one is set exactly
    when the other is; a failed job has them set unless its photo is missing
    from the store.  A job that is run while its photo is missing becomes
    [failed] with neither field set. *)
Theorem failure_record (st : State) :
  reachable st ->
  Forall (fun j =>
            (failedStep j <> None \/ failedStepIndex j <> None ->
             status j = failed)
            /\ (failedStep j <> None <-> failedStepIndex j <> None)
            /\ (status j = failed -> failedStepIndex j = None ->
                photos_get (photoId j) st = None))
         (jobs st)
  /\ (forall jid job,
        jobs_get jid st = Some job -> status job <> failed ->
        photos_get (photoId job) st = None ->
        exists job',
          jobs_get jid (processJob jid st) = Some job'
          /\ status job' = failed
          /\ failedStep job' = None /\ failedStepIndex job' = None).
Proof.
  intros R. apply reachable_Inv in R. split.
  - apply Forall_forall. intros j Hin.
    destruct (inv_jobs st R j Hin) as (H1 & _ & H3 & H4 & _).
    split; [exact H1|]. split; [split|].
    + intros Hs Hi. destruct (H4 (H1 (or_introl Hs)) Hi) as [E _].
      contradiction.
    + intros Hi. destruct (failedStepIndex j) as [k|]; [|contradiction].
      now destruct (H3 k eq_refl) as (_ & E & _).
    + intros Hf Hi. destruct (H4 Hf Hi) as [_ G]. unfold photo_gone in G.
      destruct (photos_get (photoId j) st); [discriminate | reflexivity].
  - intros jid job Hget Hst Hph.
    destruct (Inv_calm st jid job R Hget Hst) as (C1 & C2 & _).
    unfold processJob. rewrite Hget.
    change (photos_get (photoId job)
              (update_job jid (set_status processing) st))
      with (photos_get (photoId job) st). rewrite Hph.
    eexists. split.
    + unfold settle. cbn [jobs_get jobs set_microtasks].
      rewrite update_job_twice by keeps.
      apply jobs_get_update_same; [keeps | exact Hget].
    + cbn. auto.
Qed.



(** ** Further properties *)

Lemma dropLast_trimEnd (s : string) : dropLast_ s = trimEnd_ s.
Proof.
  unfold dropLast_.
  induction s as [|c s IH]; [reflexivity|].
  destruct s as [|d s].
  - cbn. destruct (Ascii.eqb c "_") eqn:E.
    + apply Ascii.eqb_eq in E. subst c. reflexivity.
    + destruct (String.eqb_spec (String c "") "_") as [H|H]; [|reflexivity].
      injection H as ->. discriminate.
  - change (String.length (String c (String d s)))
      with (S (String.length (String d s))).
    cbn [String.length] in IH |- *.
    change (substring (S (String.length s)) 1 (String c (String d s)))
      with (substring (String.length s) 1 (String d s)).
    change (substring 0 (S (String.length s)) (String c (String d s)))
      with (String c (substring 0 (String.length s) (String d s))).
    change (trimEnd_ (String c (String d s)))
      with (String c (trimEnd_ (String d s))).
    rewrite <- IH.
    destruct (substring (String.length s) 1 (String d s) =? "_")%string;
      reflexivity.
Qed.

Lemma underscore_loose (s : string) :
  forall prev, loose prev (underscore prev s) = true.
Proof.
  induction s as [|c s IH]; intros prev; [reflexivity|].
  cbn [underscore]. destruct (isPlain c) eqn:Ep.
  - destruct (Ascii.eqb c "_") eqn:E.
    + destruct prev; [apply IH|].
      cbn [loose]. rewrite Ep, E. cbn. apply IH.
    + cbn [loose]. rewrite Ep, E. cbn. apply IH.
  - change (Ascii.eqb "_" "_") with true. cbv iota.
    destruct prev; [apply IH|].
    cbn [loose]. change (isPlain "_") with true.
    change (Ascii.eqb "_" "_") with true. cbn. apply IH.
Qed.

Lemma loose_weaken (s : string) (p : bool) :
  loose p s = true -> loose false s = true.
Proof.
  destruct s as [|c s]; [reflexivity|]. cbn [loose].
  destruct (isPlain c); [|discriminate]. cbn [andb].
  destruct (Ascii.eqb c "_"); [|auto].
  destruct p; [discriminate | auto].
Qed.

Lemma dropFirst_loose (s : string) :
  loose false s = true -> loose true (dropFirst_ s) = true.
Proof.
  destruct s as [|c s]; [reflexivity|]. cbn [loose dropFirst_].
  destruct (isPlain c) eqn:Ep; [|discriminate]. cbn [andb].
  destruct (Ascii.eqb c "_") eqn:E.
  - cbn. auto.
  - intros H. cbn [loose]. now rewrite Ep, E.
Qed.

Lemma trimEnd_empty (s : string) :
  trimEnd_ s = "" -> s = "" \/ s = "_".
Proof.
  destruct s as [|c [|d s]]; cbn [trimEnd_]; auto.
  - destruct (Ascii.eqb c "_") eqn:E; [|discriminate].
    apply Ascii.eqb_eq in E. subst c. auto.
  - discriminate.
Qed.

Lemma trimEnd_loose (s : string) :
  forall p, loose p s = true ->
    loose p (trimEnd_ s) = true /\ ends_ (trimEnd_ s) = false.
Proof.
  induction s as [|c s IH]; intros p H; [auto|].
  destruct s as [|d s].
  - cbn [trimEnd_]. destruct (Ascii.eqb c "_") eqn:E; [auto|].
    split; [exact H|]. cbn [ends_]. exact E.
  - change (trimEnd_ (String c (String d s)))
      with (String c (trimEnd_ (String d s))).
    cbn [loose] in H. apply andb_true_iff in H. destruct H as [Ep H].
    destruct (Ascii.eqb c "_") eqn:E.
    + apply andb_true_iff in H. destruct H as [Hp H].
      destruct (IH true H) as [H1 H2].
      split; [cbn [loose]; now rewrite Ep, E, Hp, H1|].
      cbn [ends_]. destruct (trimEnd_ (String d s)) eqn:Et; [|exact H2].
      apply trimEnd_empty in Et. destruct Et as [Et|Et]; [discriminate|].
      injection Et as Ed Es. subst d s. vm_compute in H. discriminate.
    + destruct (IH false H) as [H1 H2].
      split; [cbn [loose]; now rewrite Ep, E, H1|].
      cbn [ends_]. destruct (trimEnd_ (String d s)) eqn:Et; [exact E|exact H2].
Qed.

Lemma underscore_fixed (s : string) :
  forall p q, loose p s = true -> (q = true -> p = true) ->
              underscore q s = s.
Proof.
  induction s as [|c s IH]; intros p q H Hq; [reflexivity|].
  cbn [loose] in H. apply andb_true_iff in H. destruct H as [Ep H].
  cbn [underscore]. rewrite Ep. destruct (Ascii.eqb c "_") eqn:E.
  - apply andb_true_iff in H. destruct H as [Hp H].
    destruct p; [discriminate|].
    destruct q; [discriminate (Hq eq_refl)|].
    f_equal. now apply (IH true true).
  - f_equal. now apply (IH false false).
Qed.

Lemma trimEnd_fixed (s : string) : ends_ s = false -> trimEnd_ s = s.
Proof.
  induction s as [|c s IH]; [reflexivity|].
  destruct s as [|d s].
  - cbn [ends_ trimEnd_]. now intros ->.
  - intros H. change (trimEnd_ (String c (String d s)))
      with (String c (trimEnd_ (String d s))).
    f_equal. apply IH. exact H.
Qed.

Lemma dropFirst_fixed (s : string) : loose true s = true -> dropFirst_ s = s.
Proof.
  destruct s as [|c s]; [reflexivity|]. cbn [loose dropFirst_].
  destruct (isPlain c); [|discriminate]. cbn [andb].
  destruct (Ascii.eqb c "_"); [discriminate | reflexivity].
Qed.

Lemma baseLetter_plain (c : ascii) : isPlain c = true -> baseLetter c = c.
Proof.
  destruct c as [[] [] [] [] [] [] [] []]; vm_compute; intros H;
    first [reflexivity | discriminate H].
Qed.

Lemma removeDiacritics_fixed (s : string) :
  forall p, loose p s = true -> removeDiacritics s = s.
Proof.
  induction s as [|c s IH]; intros p H; [reflexivity|].
  cbn [loose] in H. apply andb_true_iff in H. destruct H as [Ep H].
  cbn [removeDiacritics]. rewrite (baseLetter_plain c Ep). f_equal.
  destruct (Ascii.eqb c "_").
  - apply andb_true_iff in H. destruct H as [_ H]. now apply (IH true).
  - now apply (IH false).
Qed.

Lemma sanitizeFilename_loose (name : string) :
  loose true (sanitizeFilename name) = true
  /\ ends_ (sanitizeFilename name) = false.
Proof.
  unfold sanitizeFilename. rewrite dropLast_trimEnd.
  apply trimEnd_loose, dropFirst_loose, underscore_loose.
Qed.

Lemma loose_get (s : string) :
  forall p, loose p s = true ->
    (forall k c, String.get k s = Some c -> isPlain c = true)
    /\ (p = true -> String.get 0 s <> Some "_"%char)
    /\ (forall k, String.get k s = Some "_"%char ->
                  String.get (S k) s <> Some "_"%char).
Proof.
  induction s as [|c s IH]; intros p H.
  - split; [|split]; cbn; intros; discriminate.
  - cbn [loose] in H. apply andb_true_iff in H. destruct H as [Ep H].
    assert (Hs : exists p', loose p' s = true
                            /\ (c = "_"%char -> p' = true /\ p = false)).
    { destruct (Ascii.eqb c "_") eqn:E.
      - apply andb_true_iff in H. destruct H as [Hp H]. exists true.
        split; [exact H|]. intros _. split; [reflexivity|].
        now destruct p.
      - exists false. split; [exact H|]. intros ->. discriminate. }
    destruct Hs as (p' & Hl & Hc).
    destruct (IH p' Hl) as (G1 & G2 & G3).
    split; [|split].
    + intros [|k] d; cbn [String.get]; [|apply G1].
      intros [= <-]. exact Ep.
    + intros -> [= ->]. now destruct (Hc eq_refl).
    + intros [|k]; cbn [String.get]; [|apply G3].
      intros [= ->]. destruct (Hc eq_refl) as [-> _]. now apply G2.
Qed.

Lemma ends_get (s : string) :
  ends_ s = false ->
  forall k, String.get k s = Some "_"%char -> String.get (S k) s <> None.
Proof.
  induction s as [|c s IH]; intros H k; [destruct k; discriminate|].
  destruct s as [|d s].
  - cbn [ends_] in H. destruct k as [|k]; cbn.
    + intros [= ->]. discriminate.
    + destruct k; discriminate.
  - destruct k as [|k]; [cbn; discriminate|].
    change (String.get (S k) (String c (String d s)))
      with (String.get k (String d s)).
    change (String.get (S (S k)) (String c (String d s)))
      with (String.get (S k) (String d s)).
    apply IH. exact H.
Qed.

(** X1.  [sanitizeFilename] returns a name made of letters, digits, dots,
    underscores and hyphens only, in which every underscore stands between
    two other characters; sanitizing such a name again changes nothing. *)
Theorem sanitizeFilename_safe (name : string) :
  let r := sanitizeFilename name in
  (forall k c, String.get k r = Some c -> isPlain c = true)
  /\ String.get 0 r <> Some "_"%char
  /\ (forall k, String.get k r = Some "_"%char ->
                exists c, String.get (S k) r = Some c /\ c <> "_"%char)
  /\ sanitizeFilename r = r.
Proof.
  cbv zeta. destruct (sanitizeFilename_loose name) as [Hl He].
  destruct (loose_get _ true Hl) as (G1 & G2 & G3).
  split; [exact G1|]. split; [now apply G2|]. split.
  - intros k Hk. pose proof (ends_get _ He k Hk) as Hn.
    pose proof (G3 k Hk) as Hu.
    destruct (String.get (S k) (sanitizeFilename name)) as [c|];
      [|contradiction].
    exists c. split; [reflexivity|]. intros ->. now apply Hu.
  - set (r := sanitizeFilename name) in *.
    unfold sanitizeFilename. rewrite (removeDiacritics_fixed r true Hl).
    rewrite (underscore_fixed r true false Hl) by discriminate.
    rewrite (dropFirst_fixed r Hl), dropLast_trimEnd.
    now apply trimEnd_fixed.
Qed.

Lemma append_empty (s : string) : s ++ "" = s.
Proof. induction s as [|c s IH]; cbn; congruence. Qed.

Lemma append_assoc (a b c : string) : (a ++ b) ++ c = a ++ (b ++ c).
Proof. induction a as [|x a IH]; cbn; congruence. Qed.

Lemma no_slash_app (a b : string) :
  no_slash (a ++ b) = no_slash a && no_slash b.
Proof.
  induction a as [|c a IH]; [reflexivity|].
  cbn [append no_slash]. now rewrite IH, andb_assoc.
Qed.

Lemma no_slash_substring (s : string) :
  forall n m, no_slash s = true -> no_slash (substring n m s) = true.
Proof.
  induction s as [|c s IH]; intros n m H.
  - destruct n, m; reflexivity.
  - cbn [no_slash] in H. apply andb_true_iff in H. destruct H as [Hc Hs].
    destruct n as [|n]; cbn [substring].
    + destruct m as [|m]; [reflexivity|].
      cbn [no_slash]. rewrite Hc. now apply IH.
    + now apply IH.
Qed.

Lemma loose_no_slash (s : string) :
  forall p, loose p s = true -> no_slash s = true.
Proof.
  induction s as [|c s IH]; intros p H; [reflexivity|].
  cbn [loose] in H. apply andb_true_iff in H. destruct H as [Ep H].
  cbn [no_slash]. apply andb_true_iff. split.
  - destruct (Ascii.eqb c "/") eqn:E; [|reflexivity].
    apply Ascii.eqb_eq in E. subst c. discriminate.
  - destruct (Ascii.eqb c "_").
    + apply andb_true_iff in H. destruct H as [_ H]. now apply (IH true).
    + now apply (IH false).
Qed.

Lemma basename_from_plain (s : string) :
  forall last acc,
    no_slash s = true -> acc ++ s <> "" ->
    Path.basename_from last acc s = acc ++ s.
Proof.
  induction s as [|c s IH]; intros last acc H Hne; cbn [Path.basename_from].
  - rewrite append_empty in *.
    now rewrite (proj2 (String.eqb_neq acc "") Hne).
  - cbn [no_slash] in H. apply andb_true_iff in H. destruct H as [Hc Hs].
    apply negb_true_iff in Hc. rewrite Hc, (IH _ _ Hs).
    + now rewrite append_assoc.
    + rewrite append_assoc. exact Hne.
Qed.

Lemma basename_from_join (dir rel : string) :
  no_slash rel = true -> rel <> "" ->
  forall last acc, Path.basename_from last acc (Path.join dir rel) = rel.
Proof.
  intros H Hne. unfold Path.join.
  induction dir as [|c dir IH]; intros last acc.
  - cbn [append Path.basename_from]. change (Ascii.eqb "/" "/") with true.
    cbv iota. now rewrite basename_from_plain.
  - cbn [append Path.basename_from]. destruct (Ascii.eqb c "/"); apply IH.
Qed.

Lemma basename_join (dir rel : string) :
  no_slash rel = true -> rel <> "" ->
  Path.basename (Path.join dir rel) = rel.
Proof. intros H Hne. now apply basename_from_join. Qed.

Lemma prefix_app (a b : string) : String.prefix a (a ++ b) = true.
Proof.
  induction a as [|c a IH]; [now destruct b|].
  cbn. destruct (ascii_dec c c); [exact IH | contradiction].
Qed.

Lemma STEPS_prefix (step : string) (sd : StepDef) :
  STEPS step = Some (Stage sd) ->
  no_slash (orElse (Some (prefix sd)) step) = true.
Proof.
  unfold STEPS. rewrite STEPS_entries_eq. cbn [assoc].
  repeat (destruct (_ =? step)%string; [intros [= <-]; reflexivity|]).
  destruct (existsb _ _); discriminate.
Qed.

Lemma last_result_record (fr : Frame) (job : Job) :
  last_result (record_result fr job)
  = Some ("/results/" ++ fr_outputFilename fr).
Proof.
  unfold last_result, record_result.
  cbn [stepResults set_currentInputPath set_stepResults].
  now rewrite rev_unit.
Qed.

(** X2.  With the default results directory, the file a step writes is
    served under the URL recorded for the step: once a result has been
    recorded, the URL of the job's current input is its last result. *)
Theorem result_url_of_output (jid name : string) (i : Z) (step : string)
    (sd : StepDef) (cur : string) (job : Job) :
  env_RESULTS_DIR = None ->
  STEPS step = Some (Stage sd) -> no_slash jid = true ->
  let fr := frame_at jid (sanitizeFilename name) (substring 0 6 jid) i step
                     sd cur job in
  let job' := record_result fr job in
  getUrlForPath (fr_outputPath fr) = "/results/" ++ fr_outputFilename fr
  /\ option_map getUrlForPath (currentInputPath job') = last_result job'.
Proof.
  intros Henv Hsd Hjid fr job'.
  assert (G : getUrlForPath (fr_outputPath fr)
              = "/results/" ++ fr_outputFilename fr).
  { destruct (frame_at_fields jid (sanitizeFilename name) (substring 0 6 jid)
                i step sd cur job) as (_ & _ & _ & _ & _ & _ & Hp).
    fold fr in Hp. rewrite Hp. unfold getUrlForPath.
    unfold Path.join at 1. rewrite prefix_app.
    rewrite basename_join; [reflexivity| |];
      unfold fr, frame_at;
      destruct (buildArgs sd cur _ job _) as [scr args];
      cbn [fr_outputFilename];
      [|now destruct (sanitizeFilename name)].
    rewrite !no_slash_app.
    rewrite (loose_no_slash _ true (proj1 (sanitizeFilename_loose name))).
    rewrite (STEPS_prefix step sd Hsd).
    now rewrite (no_slash_substring jid 0 6 Hjid). }
  split; [exact G|].
  unfold job'. rewrite last_result_record.
  unfold record_result. cbn [currentInputPath set_currentInputPath option_map].
  now rewrite G.
Qed.

(** X3.  With the default results directory, the input path a rewind
    computes from the last recorded result is the file that step wrote. *)
Theorem rewindInput_recovers_output (jid origName jobShort : string) (i : Z)
    (step : string) (sd : StepDef) (cur : string) (job : Job) (st : State) :
  env_RESULTS_DIR = None ->
  let fr := frame_at jid origName jobShort i step sd cur job in
  rewindInput (record_result fr job) st = Some (fr_outputPath fr)
  /\ rewindInput (record_result fr job) st
     = currentInputPath (record_result fr job).
Proof.
  intros Henv fr.
  assert (G : rewindInput (record_result fr job) st
              = Some (fr_outputPath fr)).
  { destruct (frame_at_fields jid origName jobShort i step sd cur job)
      as (_ & _ & _ & _ & _ & _ & Hp).
    fold fr in Hp. rewrite Hp.
    unfold rewindInput, record_result.
    cbn [stepResults set_currentInputPath set_stepResults].
    rewrite rev_unit. cbn [sr_result].
    f_equal. unfold RESULTS_DIR. rewrite Henv. cbn [orElse].
    unfold Path.join. cbn [stripLeadingSlash append Ascii.eqb].
    change (stripLeadingSlash ("/results/" ++ fr_outputFilename fr))
      with ("results/" ++ fr_outputFilename fr).
    now rewrite !append_assoc. }
  split; [exact G|]. rewrite G. reflexivity.
Qed.

(** X4.  Which requests are accepted: input and skip for a job in
    [waiting_input], retry and skip-failed for a failed job, cancel for a
    job that is pending, processing or waiting; every other request is
    answered with an error and changes nothing. *)
Theorem request_guards (st : State) (jid : string) :
  (forall mask cropRect maskId,
     let r := submitInput jid mask cropRect maskId st in
     (snd r = RespOk <-> has_status jid waiting_input st)
     /\ (snd r <> RespOk -> fst r = st))
  /\ (let r := skipStep jid st in
      (snd r = RespOk <-> has_status jid waiting_input st)
      /\ (snd r <> RespOk -> fst r = st))
  /\ (forall model,
        let r := retry jid model st in
        (snd r = RespOk <-> has_status jid failed st)
        /\ (snd r <> RespOk -> fst r = st))
  /\ (let r := skipFailed jid st in
      (snd r = RespOk <-> has_status jid failed st)
      /\ (snd r <> RespOk -> fst r = st))
  /\ (let r := cancel jid st in
      (snd r = RespOk <->
       has_status jid pending st \/ has_status jid processing st
       \/ has_status jid waiting_input st)
      /\ (snd r = RespError 404 "Job not found" <-> jobs_get jid st = None)
      /\ (snd r <> RespOk -> fst r = st)).
Proof.
  unfold has_status.
  split; [|split; [|split; [|split]]].
  - intros mask cropRect maskId. unfold submitInput.
    destruct (jobs_get jid st) as [job|];
      [|cbn; split; [split; [discriminate | intros (j & [=] & _)] | auto]].
    destruct (status job) eqn:S; cbn [Status_eqb negb fst snd];
      (split; [split; [try discriminate; intros _; now exists job
                      | intros (j & [= <-] & E); congruence]
              | try reflexivity; intros H; now elim H]).
  - unfold skipStep.
    destruct (jobs_get jid st) as [job|];
      [|cbn; split; [split; [discriminate | intros (j & [=] & _)] | auto]].
    destruct (status job) eqn:S; cbn [Status_eqb negb fst snd];
      (split; [split; [try discriminate; intros _; now exists job
                      | intros (j & [= <-] & E); congruence]
              | try reflexivity; intros H; now elim H]).
  - intros model. unfold retry.
    destruct (jobs_get jid st) as [job|];
      [|cbn; split; [split; [discriminate | intros (j & [=] & _)] | auto]].
    destruct (status job) eqn:S; cbn [Status_eqb negb fst snd];
      (split; [split; [try discriminate; intros _; now exists job
                      | intros (j & [= <-] & E); congruence]
              | try reflexivity; intros H; now elim H]).
  - unfold skipFailed.
    destruct (jobs_get jid st) as [job|];
      [|cbn; split; [split; [discriminate | intros (j & [=] & _)] | auto]].
    destruct (status job) eqn:S; cbn [Status_eqb negb];
      try (cbn [fst snd];
           split; [split; [discriminate
                          | intros (j & [= <-] & E); congruence]
                  | reflexivity]).
    destruct (_ >=? _); cbn [fst snd];
      (split; [split; [intros _; now exists job | reflexivity]
              | intros H; now elim H]).
  - unfold cancel.
    destruct (jobs_get jid st) as [job|].
    + destruct (status job) eqn:S; cbn [cancellable Status_eqb orb fst snd];
        (split; [|split];
         [ split;
           [ try discriminate; intros _;
             first [ left; now exists job
                   | right; left; now exists job
                   | right; right; now exists job ]
           | try reflexivity;
             intros [(j & [= <-] & E)|[(j & [= <-] & E)|(j & [= <-] & E)]];
             congruence ]
         | split; discriminate
         | try reflexivity; intros H; now elim H ]).
    + cbn [fst snd]. split; [|split].
      * split; [discriminate|].
        intros [(j & [=] & _)|[(j & [=] & _)|(j & [=] & _)]].
      * split; reflexivity.
      * reflexivity.
Qed.

(** *** What a run of [processJob] or [processNext] leaves alone *)

Lemma identity_update (jid : string) (f : Job -> Job) (st : State) :
  (forall j, identity_of (f j) = identity_of j) ->
  map identity_of (jobs (update_job jid f st)) = map identity_of (jobs st).
Proof.
  intros H. rewrite jobs_update_job, map_map. apply map_ext. intros j.
  unfold upd. destruct (_ =? _)%string; [apply H | reflexivity].
Qed.

Lemma runLoop_identity n jid origName jobShort i cur st :
  map identity_of (jobs (runLoop n jid origName jobShort i cur st))
  = map identity_of (jobs st).
Proof.
  destruct (jobs_get jid st) as [job|] eqn:Hget.
  - destruct (runLoop_outcome n jid origName jobShort i cur st job Hget)
      as [|i' stp sd _ _ _ _|i' stp sd _ _ _ _ _|i' stp sd _ _ _ _ _
          |i' stp _ _ _].
    + apply (identity_update jid complete). keeps.
    + apply (identity_update jid (pause stp i' cur)). keeps.
    + apply (identity_update jid (enter_step stp i')). keeps.
    + unfold spawn, procs_set.
      destruct (truthy _); [destruct (procs_has _ _)|];
        apply (identity_update jid (enter_step stp i')); keeps.
    + rewrite update_caught. apply identity_update.
      intros j. unfold caught. now destruct (Status_eqb _ _).
  - revert i. induction n as [|n IH]; intros i; cbn [runLoop].
    + apply (identity_update jid complete). keeps.
    + now rewrite Hget.
Qed.

Lemma processJob_identity jid st :
  map identity_of (jobs (processJob jid st)) = map identity_of (jobs st).
Proof.
  unfold processJob. destruct (jobs_get jid st) as [job|]; [|reflexivity].
  destruct (photos_get _ _) as [photo|].
  - rewrite runLoop_identity.
    apply (identity_update jid (set_status processing)). keeps.
  - unfold settle. cbn [jobs set_microtasks].
    rewrite (identity_update jid (set_status failed)) by keeps.
    apply (identity_update jid (set_status processing)). keeps.
Qed.

Lemma dispatch_identity (rest : list Job) :
  forall running slotsUsed s,
    map identity_of (jobs (dispatch running rest slotsUsed s))
    = map identity_of (jobs s).
Proof.
  induction rest as [|job rest IH]; intros running slotsUsed s;
    cbn [dispatch]; [reflexivity|].
  destruct (_ && _); rewrite IH; [reflexivity | apply processJob_identity].
Qed.

Lemma processNext_identity (st : State) :
  map identity_of (jobs (processNext st)) = map identity_of (jobs st).
Proof. apply dispatch_identity. Qed.

Lemma dispatch_photos (rest : list Job) :
  forall running slotsUsed s,
    photos (dispatch running rest slotsUsed s) = photos s.
Proof.
  induction rest as [|job rest IH]; intros running slotsUsed s;
    cbn [dispatch]; [reflexivity|].
  destruct (_ && _); rewrite IH; [reflexivity|].
  apply (q_photos _ _ _ (processJob_quiet _ _)).
Qed.

Lemma processNext_photos (st : State) : photos (processNext st) = photos st.
Proof. apply dispatch_photos. Qed.

Lemma identity_ids (l : list Job) :
  map job_id l = map (fun t => fst (fst (fst (fst (fst t)))))
                     (map identity_of l).
Proof. rewrite map_map. apply map_ext. reflexivity. Qed.

Lemma createJob_appends (validSteps : list string)
    (opts masks cropRects : list (string * string)) (st : State)
    (created : list string) (req : string * Fresh) :
  ~ In (fresh_uuid (snd req)) (map job_id (jobs st)) ->
  let acc' := createJob validSteps opts masks cropRects (st, created) req in
  photos (fst acc') = photos st
  /\ map identity_of (jobs (fst acc'))
     = (map identity_of (jobs st) ++ created_for validSteps st req)%list
  /\ snd acc'
     = (created ++ map (fun t => fst (fst (fst (fst (fst t)))))
                      (created_for validSteps st req))%list.
Proof.
  destruct req as [pid fr]. cbn [fst snd]. intros Hfresh.
  unfold createJob, created_for. cbn [fst snd].
  destruct (photos_get pid st) as [photo|];
    [|cbn [fst snd map]; now rewrite !app_nil_r].
  set (withMask := includes "inpaint" validSteps && truthy (assoc pid masks)).
  set (st1 := if withMask then _ else st).
  set (job := {| job_id := fresh_uuid fr |}).
  assert (E1 : photos st1 = photos st /\ jobs st1 = jobs st)
    by (unfold st1; destruct withMask; split; reflexivity).
  destruct E1 as (Ep & Ej).
  assert (Hset : jobs (jobs_set job st1) = (jobs st ++ [job])%list
                 /\ photos (jobs_set job st1) = photos st).
  { unfold jobs_set.
    replace (existsb (fun j => (job_id j =? job_id job)%string) (jobs st1))
      with false.
    - cbn [jobs photos set_jobs]. now rewrite Ej, Ep.
    - rewrite Ej, <- includes_map. symmetry. now apply includes_not_In. }
  destruct Hset as (Hj & Hp).
  cbn [fst snd]. unfold enqueueJob.
  rewrite processNext_photos, processNext_identity, Hj, Hp, map_app.
  repeat split.
Qed.

(** X5.  An accepted [POST /jobs] adds one job for each requested photo that
    is in the store, in the order of the request, with those steps of the
    request under which [STEPS] holds something: the names of the seven
    stages and of the twelve members inherited from [Object.prototype], in
    the order of the request.  Requests for unknown photos are passed over,
    the jobs that were there keep their identity and the photos are not
    touched.  The answer lists the new ids. *)
Theorem createJobs_appends (setupRunning : bool)
    (reqs : list (string * Fresh)) (steps : list string)
    (opts masks cropRects : list (string * string)) (st : State) :
  let validSteps :=
    filter (fun s => match STEPS s with Some _ => true | None => false end)
           steps in
  let uuids := map (fun r => fresh_uuid (snd r)) reqs in
  reqs <> [] -> validSteps <> [] ->
  NoDup uuids -> (forall u, In u uuids -> ~ In u (map job_id (jobs st))) ->
  let r := createJobs true setupRunning reqs steps opts masks cropRects st in
  let new := flat_map (created_for validSteps st) reqs in
  snd r = RespCreated (map (fun t => fst (fst (fst (fst (fst t))))) new)
  /\ photos (fst r) = photos st
  /\ map identity_of (jobs (fst r)) = (map identity_of (jobs st) ++ new)%list
  /\ (forall s, In s validSteps <->
                In s steps
                /\ (In s ["crop"; "inpaint"; "spot_removal";
                          "scratch_removal"; "face_restore"; "colorize";
                          "upscale"]
                    \/ In s ["constructor"; "__defineGetter__";
                             "__defineSetter__"; "hasOwnProperty";
                             "__lookupGetter__"; "__lookupSetter__";
                             "isPrototypeOf"; "propertyIsEnumerable";
                             "toString"; "valueOf"; "__proto__";
                             "toLocaleString"])).
Proof.
  intros validSteps uuids Hreqs Hvalid ND Hfresh. cbv zeta.
  assert (Hnames : forall s, In s validSteps <->
            In s steps
            /\ (In s ["crop"; "inpaint"; "spot_removal"; "scratch_removal";
                      "face_restore"; "colorize"; "upscale"]
                \/ In s Object_prototype_keys)).
  { intros s. unfold validSteps. rewrite filter_In.
    now rewrite <- registered_names. }
  cut (let r := createJobs true setupRunning reqs steps opts masks cropRects
                  st in
       let new := flat_map (created_for validSteps st) reqs in
       snd r = RespCreated (map (fun t => fst (fst (fst (fst (fst t))))) new)
       /\ photos (fst r) = photos st
       /\ map identity_of (jobs (fst r))
          = (map identity_of (jobs st) ++ new)%list).
  { cbv zeta. intros (H1 & H2 & H3). repeat split; try assumption;
      apply Hnames; assumption. }
  clear Hnames. cbv zeta.
  unfold createJobs. cbn [negb]. fold validSteps.
  assert (Hs : steps <> []) by (intros E; apply Hvalid; unfold validSteps;
                                now rewrite E).
  assert (E1 : (List.length reqs =? 0)%nat = false)
    by (apply Nat.eqb_neq; now rewrite length_zero_iff_nil).
  assert (E2 : (List.length steps =? 0)%nat = false)
    by (apply Nat.eqb_neq; now rewrite length_zero_iff_nil).
  assert (E3 : (List.length validSteps =? 0)%nat = false)
    by (apply Nat.eqb_neq; now rewrite length_zero_iff_nil).
  rewrite E1, E2, E3. cbn [orb].
  clearbody validSteps.
  assert (H : forall rs s created,
            photos s = photos st ->
            NoDup (map (fun r => fresh_uuid (snd r)) rs) ->
            (forall u, In u (map (fun r => fresh_uuid (snd r)) rs) ->
                       ~ In u (map job_id (jobs s))) ->
            let acc := fold_left (createJob validSteps opts masks cropRects)
                                 rs (s, created) in
            photos (fst acc) = photos st
            /\ map identity_of (jobs (fst acc))
               = (map identity_of (jobs s)
                  ++ flat_map (created_for validSteps st) rs)%list
            /\ snd acc
               = (created
                  ++ map (fun t => fst (fst (fst (fst (fst t)))))
                         (flat_map (created_for validSteps st) rs))%list).
  { induction rs as [|q rs IH]; intros s created Hp NDq Hq;
      cbn [fold_left flat_map map].
    - cbn [fst snd]. now rewrite !app_nil_r.
    - cbn [map] in NDq, Hq. apply NoDup_cons_iff in NDq.
      destruct NDq as [Hnq NDq].
      destruct (createJob_appends validSteps opts masks cropRects s created q)
        as (Ap & Aj & Ac); [apply Hq; now left|].
      destruct (createJob validSteps opts masks cropRects (s, created) q)
        as [s1 created1] eqn:Ec.
      cbn [fst snd] in Ap, Aj, Ac.
      assert (Ecf : created_for validSteps s q = created_for validSteps st q)
        by (unfold created_for, photos_get; now rewrite Hp).
      rewrite Ecf in Aj, Ac.
      destruct (IH s1 created1) as (Bp & Bj & Bc);
        [congruence | exact NDq | |].
      + intros u Hu. rewrite identity_ids, Aj, map_app, <- identity_ids.
        intros Hin. apply in_app_or in Hin. destruct Hin as [Hin|Hin].
        * revert Hin. apply Hq. now right.
        * unfold created_for in Hin.
          destruct (photos_get (fst q) st); [|contradiction].
          cbn in Hin. destruct Hin as [<-|[]]. contradiction.
      + cbv zeta in Bp, Bj, Bc. split; [exact Bp|]. split.
        * now rewrite Bj, Aj, <- app_assoc.
        * now rewrite Bc, Ac, map_app, <- app_assoc. }
  specialize (H reqs st [] eq_refl ND Hfresh). cbv zeta in H.
  destruct (fold_left _ reqs (st, [])) as [st' created'].
  cbn [fst snd] in *. destruct H as (Hp & Hj & Hc).
  split; [now rewrite Hc|]. split; assumption.
Qed.

(** *** Cancelling everything, changing the order *)

Lemma includes_filter_ids (p : Job -> bool) (l : list Job) (j : Job) :
  NoDup (map job_id l) -> In j l ->
  includes (job_id j) (map job_id (filter p l)) = p j.
Proof.
  intros ND Hj. destruct (p j) eqn:A.
  - apply includes_In, in_map, filter_In. now split.
  - apply includes_not_In. intros Hin. apply in_map_iff in Hin.
    destruct Hin as (k & Ek & Hk). apply filter_In in Hk.
    destruct Hk as [Hk Ak].
    assert (k = j); [|congruence].
    apply find_job_In in Hk; [|assumption].
    apply find_job_In in Hj; [|assumption].
    rewrite Ek, Hj in Hk. now injection Hk.
Qed.

Lemma cancel_one_jobs (st : State) (c : Job) :
  jobs (cancel_one st c) = map (upd (job_id c) mark_cancelled) (jobs st).
Proof.
  unfold cancel_one, kill_proc. destruct (procs_has _ _); reflexivity.
Qed.

Lemma cancelAll_fold (l : list Job) :
  forall (s : State) (n : Z),
    NoDup (map job_id l) ->
    (forall j, In j l -> jobs_get (job_id j) s = Some j) ->
    fold_left
      (fun acc jid =>
         match jobs_get jid (fst acc) with
         | Some job =>
             if cancellable (status job)
             then (cancel_one (fst acc) job, snd acc + 1)
             else acc
         | None => acc
         end) (map job_id l) (s, n)
    = (fold_left cancel_one (filter (fun j => cancellable (status j)) l) s,
       n + Z.of_nat (List.length
                       (filter (fun j => cancellable (status j)) l))).
Proof.
  induction l as [|j l IH]; intros s n ND Hget; cbn [map fold_left filter].
  - cbn. f_equal. lia.
  - cbn [map] in ND. apply NoDup_cons_iff in ND. destruct ND as [Hj ND].
    cbn [fst snd]. rewrite (Hget j (or_introl eq_refl)).
    destruct (cancellable (status j)) eqn:C.
    + rewrite IH; [|exact ND|].
      * cbn [fold_left List.length]. f_equal. lia.
      * intros k Hk. unfold jobs_get. rewrite cancel_one_jobs.
        rewrite find_upd_other; [apply Hget; now right | keeps |].
        intros E. apply Hj. rewrite <- E. now apply in_map.
    + apply IH; [exact ND|]. intros k Hk. apply Hget. now right.
Qed.

(** X6.  [POST /jobs/cancel-all] cancels every job that is pending,
    processing or waiting and leaves the others as they are; it answers
    with their number, and the workers of the cancelled jobs are killed and
    no longer registered. *)
Theorem cancelAll_cancels (st : State) :
  NoDup (map job_id (jobs st)) ->
  let st' := fst (cancelAll st) in
  snd (cancelAll st)
    = RespCancelled
        (Z.of_nat (List.length
                     (filter (fun j => cancellable (status j)) (jobs st))))
  /\ jobs st' = map (fun j => if cancellable (status j)
                              then mark_cancelled j else j) (jobs st)
  /\ (forall j, In j (jobs st') -> cancellable (status j) = false)
  /\ (forall j, In j (jobs st) -> cancellable (status j) = true ->
                procs_has (job_id j) st' = false
                /\ (procs_has (job_id j) st = true ->
                    In (job_id j) (killed st')))
  /\ (forall k, In k (runningProcs st') -> In k (runningProcs st))
  /\ photos st' = photos st /\ awaiting st' = awaiting st
  /\ maxConcurrent st' = maxConcurrent st /\ files st' = files st.
Proof.
  intros ND. cbv zeta. unfold cancelAll.
  rewrite (cancelAll_fold (jobs st) st 0 ND)
    by (intros j Hj; now apply jobs_get_In).
  cbn [fst snd].
  set (hit := filter (fun j => cancellable (status j)) (jobs st)).
  destruct (fold_cancel_one hit st)
    as (Hj & Hp & Hk & Hph & Haw & Hmc & _ & Hf & _).
  assert (Ej : jobs (fold_left cancel_one hit st)
               = map (fun j => if cancellable (status j)
                               then mark_cancelled j else j) (jobs st)).
  { rewrite Hj. apply map_ext_in. intros j Hin. unfold hit.
    now rewrite (includes_filter_ids (fun j => cancellable (status j))). }
  split; [reflexivity|]. split; [exact Ej|]. split; [|split; [|split]].
  - intros j Hin. rewrite Ej in Hin. apply in_map_iff in Hin.
    destruct Hin as (k & <- & _).
    destruct (cancellable (status k)) eqn:C; [reflexivity | exact C].
  - intros j Hin C.
    assert (Hhit : In (job_id j) (map job_id hit))
      by (apply in_map, filter_In; now split).
    split.
    + destruct (procs_has (job_id j) (fold_left cancel_one hit st)) eqn:P;
        [|reflexivity].
      exfalso. unfold procs_has in P. apply includes_In in P.
      apply Hp in P. now destruct P.
    + intros P. apply Hk. right. split; [exact Hhit|].
      now apply includes_In.
  - intros k Hin. now apply Hp in Hin.
  - repeat split; assumption.
Qed.

Lemma indexOf_from_tail (x y : string) (l : list string) (i : Z) :
  y <> x -> indexOf_from i x (y :: l) = indexOf_from (i + 1) x l.
Proof.
  intros H. cbn [indexOf_from].
  destruct (String.eqb_spec y x); [contradiction | reflexivity].
Qed.

Lemma reorder_from_jobs (jobIds : list string) :
  forall (index : Z) (st : State),
    NoDup jobIds -> NoDup (map job_id (jobs st)) ->
    jobs (reorder_from index jobIds st)
    = map (fun j =>
             if Status_eqb (status j) pending && includes (job_id j) jobIds
             then set_priority (indexOf_from index (job_id j) jobIds) j
             else j) (jobs st).
Proof.
  induction jobIds as [|jid rest IH]; intros index st NDi ND;
    cbn [reorder_from].
  - symmetry. erewrite map_ext; [apply map_id|].
    intros j. now rewrite andb_false_r.
  - apply NoDup_cons_iff in NDi. destruct NDi as [Hjid NDi].
    set (st1 := match jobs_get jid st with
                | Some job => if Status_eqb (status job) pending
                              then update_job jid (set_priority index) st
                              else st
                | None => st
                end).
    assert (E1 : jobs st1
                 = map (fun j => if (job_id j =? jid)%string
                                    && Status_eqb (status j) pending
                                 then set_priority index j else j)
                       (jobs st)).
    { unfold st1. destruct (jobs_get jid st) as [job|] eqn:Hget.
      - destruct (Status_eqb (status job) pending) eqn:P.
        + rewrite jobs_update_job. apply map_ext_in. intros j Hin.
          unfold upd. destruct (String.eqb_spec (job_id j) jid) as [E|E];
            [|reflexivity].
          apply jobs_get_In in Hin; [|assumption].
          rewrite E, Hget in Hin. injection Hin as <-. now rewrite P.
        + symmetry. erewrite map_ext_in; [apply map_id|].
          intros j Hin.
          destruct (String.eqb_spec (job_id j) jid) as [E|E]; [|reflexivity].
          apply jobs_get_In in Hin; [|assumption].
          rewrite E, Hget in Hin. injection Hin as <-. now rewrite P.
      - symmetry. erewrite map_ext_in; [apply map_id|].
        intros j Hin.
        destruct (String.eqb_spec (job_id j) jid) as [E|E]; [|reflexivity].
        apply jobs_get_In in Hin; [|assumption].
        rewrite E, Hget in Hin. discriminate. }
    assert (ND1 : NoDup (map job_id (jobs st1))).
    { rewrite E1, map_map. erewrite map_ext; [exact ND|].
      intros j. now destruct (_ && _). }
    rewrite (IH (index + 1) st1 NDi ND1), E1, map_map.
    apply map_ext. intros j. rewrite includes_cons.
    destruct (String.eqb_spec (job_id j) jid) as [E|E].
    + rewrite String.eqb_sym. destruct (String.eqb_spec (job_id j) jid);
        [|contradiction].
      cbn [orb andb].
      destruct (Status_eqb (status j) pending) eqn:P.
      * cbn [status set_priority job_id]. rewrite P, E.
        replace (includes jid rest) with false
          by (symmetry; now apply includes_not_In).
        cbn [andb indexOf_from]. now rewrite String.eqb_refl.
      * now rewrite P.
    + cbn [andb]. rewrite String.eqb_sym.
      destruct (String.eqb_spec (job_id j) jid); [contradiction|].
      cbn [orb]. destruct (_ && _); [|reflexivity].
      rewrite indexOf_from_tail; [reflexivity|]. now intros ->.
Qed.

(** X7.  [PUT /jobs/reorder] with distinct ids gives every listed job that
    is pending its position in the list as priority and changes nothing
    else: ids that are unknown or not pending are passed over. *)
Theorem reorder_priorities (jobIds : list string) (st : State) :
  NoDup jobIds -> NoDup (map job_id (jobs st)) ->
  let st' := fst (reorder jobIds st) in
  snd (reorder jobIds st) = RespOk
  /\ jobs st'
     = map (fun j =>
              if Status_eqb (status j) pending && includes (job_id j) jobIds
              then set_priority (indexOf (job_id j) jobIds) j
              else j) (jobs st)
  /\ (forall k jid job,
        nth_error jobIds k = Some jid ->
        jobs_get jid st = Some job -> status job = pending ->
        jobs_get jid st' = Some (set_priority (Z.of_nat k) job)).
Proof.
  intros NDi ND. cbv zeta. unfold reorder. cbn [fst snd].
  pose proof (reorder_from_jobs jobIds 0 st NDi ND) as E.
  split; [reflexivity|]. split; [exact E|].
  intros k jid job Hk Hget P.
  apply jobs_get_Some in Hget as Hin. destruct Hin as [Hin Hid].
  set (g := fun j => if Status_eqb (status j) pending
                        && includes (job_id j) jobIds
                     then set_priority (indexOf_from 0 (job_id j) jobIds) j
                     else j) in E.
  assert (Hg : forall j, job_id (g j) = job_id j)
    by (intros j; unfold g; now destruct (_ && _)).
  assert (Ej : g job = set_priority (Z.of_nat k) job).
  { unfold g. rewrite P, Hid. cbn [Status_eqb andb].
    replace (includes jid jobIds) with true
      by (symmetry; apply includes_In; eapply nth_error_In; eauto).
    now rewrite (indexOf_from_nth jid jobIds 0 k NDi Hk). }
  unfold jobs_get. rewrite E, <- Ej, <- Hid, <- (Hg job).
  apply find_job_In; [|now apply in_map].
  rewrite map_map. erewrite map_ext; [exact ND|]. exact Hg.
Qed.

(** A job whose next step has what it needs starts its worker. *)
Lemma runLoop_starts_now jid origName jobShort i cur st job step sd :
  jobs_get jid st = Some job ->
  at_index (steps job) i = Some step -> STEPS step = Some (Stage sd) ->
  needsInput_of (Some (Stage sd)) job = false -> status job <> cancelled ->
  runLoop (iterations job i) jid origName jobShort i cur st =
  spawn (frame_at jid origName jobShort i step sd cur job)
        (update_job jid (enter_step step i) st).
Proof.
  intros Hget Hs Hd Hn Hc. unfold iterations, steps_length.
  apply at_index_Some in Hs as Hi.
  destruct (Z.to_nat _) as [|n] eqn:En; [lia|].
  cbn [runLoop]. rewrite Hget, Hs, Hd, Hn.
  apply Status_eqb_neq in Hc. now rewrite Hc.
Qed.

Lemma spawn_fields (fr : Frame) (st : State) :
  jobs (spawn fr st) = jobs st /\ files (spawn fr st) = files st
  /\ microtasks (spawn fr st) = microtasks st
  /\ photos (spawn fr st) = photos st
  /\ awaiting (spawn fr st) = (awaiting st ++ [fr])%list.
Proof.
  unfold spawn, procs_set.
  destruct (truthy (Some (fr_job fr)));
    [destruct (procs_has (fr_job fr) st)|]; repeat split.
Qed.

Lemma find_frame_spawn (jid : string) (fr : Frame) (st : State) :
  fr_job fr = jid -> has_frame jid st = false ->
  find_frame jid (spawn fr st) = Some fr
  /\ awaiting (spawn fr st) = (awaiting st ++ [fr])%list.
Proof.
  intros Hfr Hnf.
  assert (Ha : awaiting (spawn fr st) = (awaiting st ++ [fr])%list).
  { unfold spawn, procs_set.
    destruct (truthy _); [destruct (procs_has _ _)|]; reflexivity. }
  split; [|exact Ha]. unfold find_frame. rewrite Ha.
  unfold has_frame in Hnf. clear Ha.
  induction (awaiting st) as [|x l IH].
  - cbn [app find]. now rewrite Hfr, String.eqb_refl.
  - cbn [existsb] in Hnf. apply orb_false_iff in Hnf.
    destruct Hnf as [Hx Hl]. cbn [app find]. rewrite Hx. now apply IH.
Qed.

Lemma procs_has_spawn (fr : Frame) (st : State) :
  fr_job fr <> "" -> procs_has (fr_job fr) (spawn fr st) = true.
Proof.
  intros Hne. unfold spawn, truthy.
  apply String.eqb_neq in Hne. rewrite Hne. cbn [negb].
  unfold procs_set. destruct (procs_has (fr_job fr) st) eqn:P.
  - exact P.
  - unfold procs_has. cbn [runningProcs set_awaiting set_runningProcs].
    rewrite existsb_app. cbn. now rewrite String.eqb_refl, orb_true_r.
Qed.

(** [processJob] on a job whose photo is in the store and whose next step
    has what it needs. *)
Lemma processJob_starts (jid : string) (st : State) (job : Job)
    (photo : Photo) (i : Z) (stp : string) (sd : StepDef) (p : string) :
  jobs_get jid st = Some job ->
  photos_get (photoId job) st = Some photo ->
  resumeFromStep job = Some i -> at_index (steps job) i = Some stp ->
  STEPS stp = Some (Stage sd) -> needsInput_of (Some (Stage sd)) job = false ->
  currentInputPath job = Some p -> p <> "" ->
  let job1 := set_status processing job in
  let fr := frame_at jid
              (sanitizeFilename (Path.parse_name (originalName photo)))
              (substring 0 6 (job_id job)) i stp sd p job1 in
  processJob jid st
  = spawn fr (update_job jid (enter_step stp i)
                (update_job jid (set_status processing) st)).
Proof.
  intros Hget Hph Hr Hat Hd Hn Hcp Hpne. cbv zeta.
  unfold processJob. rewrite Hget.
  change (photos_get (photoId job)
            (update_job jid (set_status processing) st))
    with (photos_get (photoId job) st). rewrite Hph.
  replace (startIndex_of job) with i
    by (unfold startIndex_of; now rewrite Hr).
  replace (orElse (currentInputPath job) _) with p.
  2:{ rewrite Hcp. unfold orElse.
      now rewrite (proj2 (String.eqb_neq p "") Hpne). }
  change (iterations job i) with (iterations (set_status processing job) i).
  apply runLoop_starts_now with (sd := sd).
  - apply jobs_get_update_same; [keeps | exact Hget].
  - exact Hat.
  - exact Hd.
  - rewrite <- Hn. eapply needsInput_of_ext; eauto.
  - discriminate.
Qed.

Lemma STEPS_crop : STEPS "crop" = Some (Stage crop).
Proof. unfold STEPS. now rewrite STEPS_entries_eq. Qed.

Lemma STEPS_inpaint : STEPS "inpaint" = Some (Stage inpaint).
Proof. unfold STEPS. now rewrite STEPS_entries_eq. Qed.

Lemma writeFileSync_In (p : string) (fs : list string) :
  In p (writeFileSync p fs).
Proof.
  unfold writeFileSync. destruct (existsb _ fs) eqn:E.
  - apply existsb_exists in E. destruct E as (q & Hq & E).
    apply String.eqb_eq in E. now subst q.
  - apply in_or_app. right. now left.
Qed.

(** X8.  Submitting the crop rectangle (resp. the mask) a job waits for
    starts the worker of that step on the job's current input, with the
    rectangle (resp. the mask file just written) among its arguments; the
    job is processing and its process is registered. *)
Theorem submitInput_starts_worker (st : State) (jid : string) (job : Job)
    (photo : Photo) (mask cropRect : option string) (maskId : string) :
  reachable st ->
  jobs_get jid st = Some job -> status job = waiting_input ->
  photos_get (photoId job) st = Some photo ->
  (waitingStep job = Some "crop" /\ truthy cropRect = true)
  \/ (waitingStep job = Some "inpaint" /\ truthy mask = true) ->
  let st' := fst (submitInput jid mask cropRect maskId st) in
  exists fr job',
    awaiting st' = (awaiting st ++ [fr])%list
    /\ find_frame jid st' = Some fr
    /\ Some (fr_i fr) = resumeFromStep job
    /\ Some (fr_step fr) = waitingStep job
    /\ (waitingStep job = Some "crop" ->
        fr_script fr = "crop.py"
        /\ fr_args fr
           = [currentInputPath job; Some (fr_outputPath fr); cropRect]
        /\ files st' = files st)
    /\ (waitingStep job = Some "inpaint" ->
        fr_script fr = "inpaint.py"
        /\ fr_args fr
           = [currentInputPath job; Some (maskFile maskId);
              Some (fr_outputPath fr)]
        /\ In (maskFile maskId) (files st'))
    /\ jobs_get jid st' = Some job'
    /\ status job' = processing
    /\ currentStep job' = waitingStep job
    /\ waitingStep job' = None /\ waitingImage job' = None
    /\ stepResults job' = stepResults job
    /\ (jid <> "" -> procs_has jid st' = true)
    /\ microtasks st' = microtasks st.
Proof.
  intros R Hget Hst Hph Hbody. apply reachable_Inv in R.
  destruct (Inv_waiting st jid job R Hget Hst)
    as ((i & stp & sd & p & Hr & Hat & Hws & Hd & Hn & Hcp & Hpne & Hwi & _)
        & _ & Hnf).
  apply jobs_get_Some in Hget as Hid. destruct Hid as [_ Hid].
  cbv zeta. unfold submitInput. rewrite Hget, Hst. cbn [Status_eqb negb fst].
  destruct Hbody as [[Hw Hb]|[Hw Hb]]; rewrite Hw; cbn [opt_eqb];
    rewrite Hb; cbn [String.eqb Ascii.eqb Bool.eqb andb];
    rewrite Hw in Hws; injection Hws as <-.
  - (* crop *)
    rewrite STEPS_crop in Hd. injection Hd as <-.
    rewrite update_job_twice by keeps.
    set (g := fun j => clear_waiting (set_cropRect cropRect j)).
    set (st3 := update_job jid g st).
    assert (Hget3 : jobs_get jid st3 = Some (g job))
      by (apply jobs_get_update_same; [keeps | exact Hget]).
    rewrite (processJob_starts jid st3 (g job) photo i "crop" crop p Hget3);
      try assumption; try exact STEPS_crop;
      [| cbn; now rewrite Hb].
    set (st1 := update_job jid (enter_step "crop" i) _).
    set (fr := frame_at _ _ _ _ _ _ _ _).
    assert (Hfj : fr_job fr = jid) by reflexivity.
    assert (Hnf1 : has_frame jid st1 = false) by exact Hnf.
    destruct (find_frame_spawn jid fr st1 Hfj Hnf1) as [Hff Haw].
    exists fr, (enter_step "crop" i (set_status processing (g job))).
    split; [exact Haw|]. split; [exact Hff|].
    split; [now rewrite Hr|]. split; [reflexivity|].
    split; [intros _; split; [reflexivity|]; split;
            [cbn; now rewrite Hcp
            | apply (spawn_fields fr st1)]|].
    split; [discriminate|].
    split.
    { assert (Hj : jobs (spawn fr st1) = jobs st1)
        by apply (spawn_fields fr st1).
      unfold jobs_get. rewrite Hj. unfold st1.
      apply jobs_get_update_same; [keeps|].
      apply jobs_get_update_same; [keeps | exact Hget3]. }
    split; [reflexivity|]. split; [reflexivity|].
    split; [reflexivity|]. split; [reflexivity|].
    split; [reflexivity|]. split.
    + intros Hne. rewrite <- Hfj. apply procs_has_spawn. now rewrite Hfj.
    + apply (spawn_fields fr st1).
  - (* inpaint *)
    rewrite STEPS_inpaint in Hd. injection Hd as <-.
    set (mp := maskFile maskId).
    set (g := fun j => clear_waiting (set_maskPath (Some mp) j)).
    set (st3 := update_job jid clear_waiting _).
    assert (Hget3 : jobs_get jid st3 = Some (g job)).
    { unfold st3. apply (jobs_get_update_same jid clear_waiting); [keeps|].
      change (jobs_get jid
                (update_job jid (set_maskPath (Some mp)) st)
              = Some (set_maskPath (Some mp) job)).
      apply jobs_get_update_same; [keeps | exact Hget]. }
    assert (Hmp : truthy (Some mp) = true).
    { unfold truthy, mp, maskFile.
      destruct (String.eqb_spec (Path.join UPLOADS_DIR
                                   ("mask_" ++ maskId ++ ".png")) "")
        as [E|E]; [|reflexivity].
      now apply join_nonempty in E. }
    rewrite (processJob_starts jid st3 (g job) photo i "inpaint" inpaint p
               Hget3); try assumption; try exact STEPS_inpaint;
      [| cbn [needsInput_of needsInput inpaint g clear_waiting maskPath
              set_waitingImage set_waitingStep set_maskPath];
         now rewrite Hmp].
    set (st1 := update_job jid (enter_step "inpaint" i) _).
    set (fr := frame_at _ _ _ _ _ _ _ _).
    assert (Hfj : fr_job fr = jid) by reflexivity.
    assert (Hnf1 : has_frame jid st1 = false) by exact Hnf.
    destruct (find_frame_spawn jid fr st1 Hfj Hnf1) as [Hff Haw].
    exists fr, (enter_step "inpaint" i (set_status processing (g job))).
    split; [exact Haw|]. split; [exact Hff|].
    split; [now rewrite Hr|]. split; [reflexivity|].
    split; [discriminate|].
    split.
    { intros _. split; [reflexivity|]. split; [cbn; now rewrite Hcp|].
      assert (Hf : files (spawn fr st1) = writeFileSync mp (files st))
        by apply (spawn_fields fr st1).
      rewrite Hf. apply writeFileSync_In. }
    split.
    { assert (Hj : jobs (spawn fr st1) = jobs st1)
        by apply (spawn_fields fr st1).
      unfold jobs_get. rewrite Hj. unfold st1.
      apply jobs_get_update_same; [keeps|].
      apply jobs_get_update_same; [keeps | exact Hget3]. }
    split; [reflexivity|]. split; [reflexivity|].
    split; [reflexivity|]. split; [reflexivity|].
    split; [reflexivity|]. split.
    + intros Hne. rewrite <- Hfj. apply procs_has_spawn. now rewrite Hfj.
    + apply (spawn_fields fr st1).
Qed.

(** How a synchronous run of the loop leaves the job it runs, when the job
    is processing at its start. *)
Lemma runLoop_result (n : nat) (jid origName jobShort : string) (i : Z)
    (cur : string) (st : State) (job : Job) :
  jobs_get jid st = Some job -> status job = processing ->
  has_frame jid st = false ->
  let st' := runLoop n jid origName jobShort i cur st in
  exists job',
    jobs_get jid st' = Some job'
    /\ stepResults job' = stepResults job
    /\ cropRect job' = cropRect job /\ maskPath job' = maskPath job
    /\ ((job' = complete job /\ has_frame jid st' = false)
        \/ (exists i' stp,
              i <= i' /\ at_index (steps job) i' = Some stp
              /\ job' = pause stp i' cur job /\ has_frame jid st' = false)
        \/ (exists i' stp fr,
              i <= i' /\ at_index (steps job) i' = Some stp
              /\ job' = enter_step stp i' job
              /\ find_frame jid st' = Some fr
              /\ fr_i fr = i' /\ fr_step fr = stp)
        \/ (exists i' stp,
              i <= i' /\ at_index (steps job) i' = Some stp
              /\ STEPS stp = Some Inherited
              /\ job' = fail buildArgs_TypeError (enter_step stp i' job)
              /\ has_frame jid st' = false)).
Proof.
  intros Hget Hp Hnf. cbv zeta.
  destruct (runLoop_outcome n jid origName jobShort i cur st job Hget)
    as [|i' stp sd Hi Hat _ _|i' stp sd _ _ _ _ Hc|i' stp sd Hi Hat _ _ _
        |i' stp Hi Hat Hd].
  - exists (complete job). split; [|repeat split; auto].
    unfold settle. cbn [jobs_get jobs set_microtasks].
    apply jobs_get_update_same; [keeps | exact Hget].
  - exists (pause stp i' cur job). split; [|repeat split].
    + unfold settle. cbn [jobs_get jobs set_microtasks].
      apply jobs_get_update_same; [keeps | exact Hget].
    + right. left. exists i', stp. repeat split; auto.
  - congruence.
  - set (fr := frame_at _ _ _ _ _ _ _ _).
    set (st1 := update_job jid (enter_step stp i') st).
    assert (Hfj : fr_job fr = jid) by apply frame_at_fields.
    destruct (find_frame_spawn jid fr st1 Hfj Hnf) as [Hff _].
    exists (enter_step stp i' job). split; [|repeat split].
    + unfold jobs_get.
      replace (jobs (spawn fr st1)) with (jobs st1) by
        (symmetry; apply spawn_fields).
      apply jobs_get_update_same; [keeps | exact Hget].
    + right. right. left. exists i', stp, fr. repeat split; auto;
        apply frame_at_fields.
  - rewrite update_caught.
    exists (fail buildArgs_TypeError (enter_step stp i' job)).
    split; [|repeat split].
    + rewrite <- (caught_live buildArgs_TypeError (enter_step stp i' job))
        by (job_simpl; congruence).
      apply (jobs_get_update_same jid
               (fun j => caught buildArgs_TypeError (enter_step stp i' j))
               st job); [|exact Hget].
      intros j. now rewrite caught_id.
    + right. right. right. exists i', stp. repeat split; auto.
Qed.

Lemma runLoop_zero (jid origName jobShort : string) (i : Z) (cur : string)
    (st : State) :
  runLoop 0 jid origName jobShort i cur st
  = settle (update_job jid complete st).
Proof. reflexivity. Qed.

(** X9.  Skipping the manual step a job waits for never runs that step and
    never asks for it again: with the step results it had, the job
    completes, waits at a later step, runs the worker of a later step, or
    fails at a later step that is no stage but an inherited member of
    [STEPS] (the call of [buildArgs] throws).  When the skipped step was
    the last one the job completes, its result being its last step
    result. *)
Theorem skipStep_moves_on (st : State) (jid : string) (job : Job)
    (photo : Photo) :
  reachable st ->
  jobs_get jid st = Some job -> status job = waiting_input ->
  photos_get (photoId job) st = Some photo ->
  let st' := fst (skipStep jid st) in
  let i := startIndex_of job in
  exists job',
    jobs_get jid st' = Some job'
    /\ stepResults job' = stepResults job
    /\ ((status job' = completed /\ progress job' = 100
         /\ result job' = last_result job /\ waitingStep job' = None)
        \/ (status job' = waiting_input
            /\ exists i' stp,
                 i < i' /\ at_index (steps job) i' = Some stp
                 /\ resumeFromStep job' = Some i'
                 /\ waitingStep job' = Some stp)
        \/ (status job' = processing
            /\ exists fr,
                 find_frame jid st' = Some fr /\ i < fr_i fr
                 /\ at_index (steps job) (fr_i fr) = Some (fr_step fr)
                 /\ currentStep job' = Some (fr_step fr))
        \/ (status job' = failed
            /\ exists i' stp,
                 i < i' /\ at_index (steps job) i' = Some stp
                 /\ STEPS stp = Some Inherited
                 /\ failedStep job' = Some stp
                 /\ job_error job' = Some buildArgs_TypeError))
    /\ (i + 1 = steps_length job -> status job' = completed).
Proof.
  intros R Hget Hst Hph. apply reachable_Inv in R.
  destruct (Inv_waiting st jid job R Hget Hst)
    as ((i & stp & sd & p & Hr & Hat & Hws & Hd & Hn & Hcp & Hpne & Hwi & _)
        & _ & Hnf).
  cbv zeta. unfold skipStep. rewrite Hget, Hst. cbn [Status_eqb negb fst].
  replace (startIndex_of job) with i
    by (unfold startIndex_of; now rewrite Hr).
  set (g := fun j => clear_waiting
                       (set_resumeFromStep (Some (startIndex_of j + 1)) j)).
  set (st0 := update_job jid g st).
  assert (Hget0 : jobs_get jid st0 = Some (g job))
    by (apply jobs_get_update_same; [keeps | exact Hget]).
  unfold processJob. rewrite Hget0.
  set (st1 := update_job jid (set_status processing) st0).
  change (photos_get (photoId (g job)) st1) with (photos_get (photoId job) st).
  rewrite Hph.
  assert (Hget1 : jobs_get jid st1 = Some (set_status processing (g job)))
    by (apply jobs_get_update_same; [keeps | exact Hget0]).
  assert (Hs : startIndex_of (g job) = i + 1)
    by (unfold g; job_simpl; now rewrite Hr).
  rewrite Hs.
  set (origName := sanitizeFilename _). set (jobShort := substring 0 6 _).
  set (cur := orElse _ _).
  destruct (runLoop_result (iterations (g job) (i + 1)) jid origName jobShort
              (i + 1) cur st1 _ Hget1 eq_refl Hnf)
    as (job' & Hget' & Hres & _ & _ & Hcase).
  exists job'. split; [exact Hget'|]. split; [exact Hres|]. split.
  - destruct Hcase as [[-> _]|[(i' & stp' & Hi & Hat' & -> & _)
                              |[(i' & stp' & fr & Hi & Hat' & -> & Hff & Hfi
                                 & Hfs)
                               |(i' & stp' & Hi & Hat' & Hd' & -> & _)]]].
    + left. repeat split.
    + right. left. split; [reflexivity|]. exists i', stp'.
      repeat split; [lia | exact Hat'].
    + right. right. left. split; [reflexivity|]. exists fr.
      split; [exact Hff|]. rewrite Hfi, Hfs.
      repeat split; [lia | exact Hat'].
    + right. right. right. split; [reflexivity|]. exists i', stp'.
      repeat split; [lia | exact Hat' | exact Hd'].
  - intros Hlast.
    assert (E0 : iterations (g job) (i + 1) = 0%nat).
    { unfold iterations. change (steps_length (g job)) with (steps_length job).
      rewrite <- Hlast. now rewrite Z.sub_diag. }
    rewrite E0, runLoop_zero in Hget'.
    change (jobs_get jid (update_job jid complete st1) = Some job') in Hget'.
    rewrite (jobs_get_update_same jid complete st1 _ (fun _ => eq_refl) Hget1)
      in Hget'.
    injection Hget' as <-. reflexivity.
Qed.

(** *** The exit of a worker *)

Lemma run_onComplete_fields (fr : Frame) (st : State) :
  runningProcs (run_onComplete fr st) = runningProcs st
  /\ maxConcurrent (run_onComplete fr st) = maxConcurrent st.
Proof.
  unfold run_onComplete.
  destruct (onComplete (fr_stepDef fr)) as [hook|]; [|now split].
  destruct (jobs_get (fr_job fr) st) as [job|]; [|now split].
  destruct (hook job (files st)). now split.
Qed.

(** The state [st3] in which the queue is dispatched after a worker of a
    processing job has succeeded (the hook has run and the result is
    recorded), and the state in which [processJob] then resumes its loop. *)
Lemma workerExit_resolved (jid : string) (out : string) (st : State)
    (fr : Frame) (job : Job) :
  Inv st -> find_frame jid st = Some fr ->
  jobs_get jid st = Some job -> status job = processing ->
  exists c m st3,
    let job3 := record_result fr (set_maskPath m (set_cropRect c job)) in
    let st4 := processNext st3 in
    workerExit jid (Resolved out) st
    = runLoop (iterations job (fr_i fr + 1)) jid (fr_origName fr)
              (fr_jobShort fr) (fr_i fr + 1) (fr_outputPath fr) st4
    /\ Inv st4 /\ jobs_get jid st4 = Some job3
    /\ has_frame jid st4 = false
    /\ (forall k j, k <> jid -> jobs_get k st = Some j ->
                    status j <> pending -> jobs_get k st4 = Some j)
    /\ Inv st3
    /\ jobs st3 = map (upd jid (fun _ => job3)) (jobs st)
    /\ awaiting st3 = remove_frame jid (awaiting st)
    /\ runningProcs st3 = runningProcs (procs_delete jid st)
    /\ maxConcurrent st3 = maxConcurrent st.
Proof.
  intros I Hfr Hget Hp. unfold workerExit. rewrite Hfr.
  apply find_frame_Some in Hfr. destruct Hfr as [Hin Hfj].
  set (st1 := procs_delete jid (set_awaiting _ st)).
  destruct (Inv_unframe st st1 jid I eq_refl eq_refl eq_refl) as [I1 Hnf1].
  destruct (inv_awaiting st I fr Hin) as (Ho & Hs & job0 & Hget0 & Hat & _).
  rewrite Hfj, Hget in Hget0. injection Hget0 as <-.
  change (jobs_get jid st1) with (jobs_get jid st). rewrite Hget, Hp.
  cbn [Status_eqb].
  assert (Hid : job_id job = jid) by (now apply jobs_get_Some in Hget).
  assert (Hget1 : jobs_get jid st1 = Some job) by exact Hget.
  assert (C : calm job) by (apply (Inv_calm st jid job I Hget); congruence).
  rewrite <- Hfj in Hget1.
  destruct (run_onComplete_shape fr st1 job (inv_ids st1 I1) Hs Hget1)
    as (c & m & Ej2 & Ep2 & Ea2).
  destruct (run_onComplete_fields fr st1) as [Er2 Em2].
  rewrite Hfj in Ej2, Hget1.
  set (st2 := run_onComplete fr st1) in *.
  set (job2 := set_maskPath m (set_cropRect c job)) in *.
  set (st3 := update_job jid (record_result fr) st2).
  assert (Ej3 : jobs st3 =
                map (upd jid (fun _ => record_result fr job2)) (jobs st1)).
  { unfold st3. cbn [update_job set_jobs jobs].
    fold (upd jid (record_result fr)). rewrite Ej2.
    apply upd_upd_const. exact Hid. }
  assert (I3 : Inv st3).
  { apply (Inv_replace st1 st3 jid job (record_result fr job2) I1 Hget1);
      try assumption; try reflexivity.
    - apply job_ok_busy; try (unfold job2; job_simpl; congruence).
      exact C.
    - rewrite Hnf1. discriminate. }
  assert (Hget3 : jobs_get jid st3 = Some (record_result fr job2)).
  { unfold jobs_get. rewrite Ej3.
    apply (find_upd_found jid (fun _ => record_result fr job2) _ job Hget1).
    exact Hid. }
  assert (Hnf3 : has_frame jid st3 = false).
  { unfold has_frame. unfold st3. cbn [update_job set_jobs awaiting].
    rewrite Ea2. exact Hnf1. }
  destruct (processNext_other st3 jid _ (inv_ids st3 I3) Hget3)
    as [Hget4 Hnf4].
  { unfold job2. job_simpl. congruence. }
  exists c, m, st3. cbv zeta. fold job2.
  split; [reflexivity|]. split; [now apply processNext_Inv|].
  split; [exact Hget4|]. split; [now apply Hnf4|].
  split.
  { intros k j Hk Hgk Hnp.
    apply (processNext_other st3 k j (inv_ids st3 I3)); [|exact Hnp].
    unfold jobs_get. rewrite Ej3.
    rewrite find_upd_other_const; [exact Hgk | exact Hid | exact Hk]. }
  split; [exact I3|]. split; [exact Ej3|].
  split; [unfold st3; cbn [update_job set_jobs awaiting]; now rewrite Ea2|].
  split; [unfold st3; cbn [update_job set_jobs runningProcs maxConcurrent];
          now rewrite Er2
         | unfold st3; cbn [update_job set_jobs runningProcs maxConcurrent];
           now rewrite Em2].
Qed.

(** X10.  When the worker of a processing job succeeds, the job gets exactly
    one more step result, for the step that ran and under the name of the
    file it wrote, which becomes the job's current input.  The job then
    completes, waits, runs its next worker, or fails at once at a later
    step that is no stage but an inherited member of [STEPS]; after the
    last step it completes with that result. *)
Theorem workerExit_records (jid : string) (out : string) (st : State)
    (fr : Frame) (job : Job) :
  reachable st -> find_frame jid st = Some fr ->
  jobs_get jid st = Some job -> status job = processing ->
  let st' := workerExit jid (Resolved out) st in
  let url := "/results/" ++ fr_outputFilename fr in
  exists job',
    jobs_get jid st' = Some job'
    /\ stepResults job'
       = (stepResults job ++ [{| sr_step := fr_step fr; sr_result := url |}])%list
    /\ currentInputPath job' = Some (fr_outputPath fr)
    /\ (status job' = completed \/ status job' = waiting_input
        \/ status job' = processing \/ status job' = failed)
    /\ (status job' = completed ->
        result job' = Some url /\ progress job' = 100)
    /\ (status job' = processing ->
        exists fr', find_frame jid st' = Some fr' /\ fr_i fr < fr_i fr')
    /\ (status job' = failed ->
        exists i' stp,
          fr_i fr < i' /\ at_index (steps job) i' = Some stp
          /\ STEPS stp = Some Inherited
          /\ failedStep job' = Some stp
          /\ job_error job' = Some buildArgs_TypeError)
    /\ (fr_i fr + 1 = steps_length job -> status job' = completed).
Proof.
  intros R Hfr Hget Hp. apply reachable_Inv in R. cbv zeta.
  destruct (workerExit_resolved jid out st fr job R Hfr Hget Hp)
    as (c & m & st3 & E & I4 & Hget4 & Hnf4 & _).
  cbv zeta in E. rewrite E. set (st4 := processNext st3) in *.
  set (job3 := record_result fr (set_maskPath m (set_cropRect c job))) in *.
  destruct (runLoop_result (iterations job (fr_i fr + 1)) jid (fr_origName fr)
              (fr_jobShort fr) (fr_i fr + 1) (fr_outputPath fr) st4 job3
              Hget4 Hp Hnf4)
    as (job' & Hget' & Hres & _ & _ & Hcase).
  exists job'. split; [exact Hget'|]. split; [exact Hres|].
  assert (Hlr : last_result job3 = Some ("/results/" ++ fr_outputFilename fr)).
  { unfold last_result, job3, record_result.
    cbn [stepResults set_currentInputPath set_stepResults].
    now rewrite rev_unit. }
  destruct Hcase as [[-> _]|[(i' & stp' & Hi & Hat' & -> & _)
                            |[(i' & stp' & fr' & Hi & Hat' & -> & Hff & Hfi
                               & Hfs)
                             |(i' & stp' & Hi & Hat' & Hd' & -> & _)]]].
  - split; [reflexivity|]. split; [now left|].
    split; [intros _; split; [exact Hlr | reflexivity]|].
    split; [intros H; job_simpl; discriminate H|].
    split; [intros H; job_simpl; discriminate H | reflexivity].
  - split; [reflexivity|]. split; [right; now left|].
    split; [intros H; job_simpl; discriminate H|].
    split; [intros H; job_simpl; discriminate H|].
    split; [intros H; job_simpl; discriminate H|].
    intros Hlast. apply at_index_Some in Hat'.
    change (steps job3) with (steps job) in Hat'.
    unfold steps_length in Hlast. lia.
  - split; [reflexivity|]. split; [right; right; now left|].
    split; [intros H; change (status job = completed) in H; congruence|].
    split; [intros _; exists fr'; split; [exact Hff | lia]|].
    split; [intros H; change (status job = failed) in H; congruence|].
    intros Hlast. apply at_index_Some in Hat'.
    change (steps job3) with (steps job) in Hat'.
    unfold steps_length in Hlast. lia.
  - split; [reflexivity|]. split; [right; right; now right|].
    split; [intros H; job_simpl; discriminate H|].
    split; [intros H; job_simpl; discriminate H|].
    split.
    + intros _. exists i', stp'.
      split; [lia|]. split; [exact Hat'|]. split; [exact Hd'|].
      split; reflexivity.
    + intros Hlast. apply at_index_Some in Hat'.
      change (steps job3) with (steps job) in Hat'.
      unfold steps_length in Hlast. lia.
Qed.

Lemma indexOf_from_first (x : string) (l : list string) :
  forall (i0 : Z) (k : nat),
    nth_error l k = Some x ->
    i0 <= indexOf_from i0 x l <= i0 + Z.of_nat k
    /\ nth_error l (Z.to_nat (indexOf_from i0 x l - i0)) = Some x.
Proof.
  induction l as [|y l IH]; intros i0 k Hk; [destruct k; discriminate|].
  cbn [indexOf_from]. destruct (String.eqb_spec y x) as [->|Hne].
  - split; [lia|]. now rewrite Z.sub_diag.
  - destruct k as [|k]; [cbn in Hk; congruence|]. cbn [nth_error] in Hk.
    destruct (IH (i0 + 1) k Hk) as [Hb Hn]. split; [lia|].
    replace (Z.to_nat (indexOf_from (i0 + 1) x l - i0))
      with (S (Z.to_nat (indexOf_from (i0 + 1) x l - (i0 + 1)))) by lia.
    exact Hn.
Qed.

Lemma indexOf_first (x : string) (l : list string) (i : Z) :
  at_index l i = Some x ->
  0 <= indexOf x l <= i /\ at_index l (indexOf x l) = Some x.
Proof.
  intros H. apply at_index_Some in H as Hi. unfold at_index in *.
  destruct (i <? 0) eqn:E; [discriminate|].
  destruct (indexOf_from_first x l 0 (Z.to_nat i) H) as [Hb Hn].
  unfold indexOf. split; [lia|].
  replace (indexOf_from 0 x l <? 0) with false by (symmetry; apply Z.ltb_ge; lia).
  now rewrite Z.sub_0_r in Hn.
Qed.

Lemma remove_frame_has (jid : string) (st st' : State) :
  NoDup (map fr_job (awaiting st)) ->
  awaiting st' = remove_frame jid (awaiting st) ->
  has_frame jid st' = false.
Proof.
  intros ND E. apply has_frame_false. rewrite E.
  now apply remove_frame_NoDup.
Qed.

Lemma procs_delete_has (jid : string) (st : State) :
  procs_has jid (procs_delete jid st) = false.
Proof.
  unfold procs_has, procs_delete. cbn [runningProcs set_runningProcs].
  destruct (existsb _ _) eqn:E; [|reflexivity].
  apply existsb_exists in E. destruct E as (k & Hk & E).
  apply filter_In in Hk. destruct Hk as [_ Hk]. now rewrite E in Hk.
Qed.

(** X11.  When the worker of a processing job fails, the job becomes failed
    with the worker's message as error, the step that ran as failed step
    and the first position of that step among the job's steps as failed
    index (its own position when the steps are distinct); its step results
    are kept and its process is no longer registered or awaited. *)
Theorem workerExit_fails (jid : string) (message : string) (st : State)
    (fr : Frame) (job : Job) :
  reachable st -> find_frame jid st = Some fr ->
  jobs_get jid st = Some job -> status job = processing ->
  let st' := workerExit jid (Rejected message) st in
  let k := indexOf (fr_step fr) (steps job) in
  exists job',
    jobs_get jid st' = Some job'
    /\ status job' = failed /\ job_error job' = Some message
    /\ failedStep job' = Some (fr_step fr)
    /\ failedStepIndex job' = Some k
    /\ 0 <= k <= fr_i fr
    /\ at_index (steps job) k = Some (fr_step fr)
    /\ (NoDup (steps job) -> k = fr_i fr)
    /\ currentStep job' = None
    /\ stepResults job' = stepResults job
    /\ has_frame jid st' = false /\ procs_has jid st' = false.
Proof.
  intros R Hfr Hget Hp. apply reachable_Inv in R. cbv zeta.
  unfold workerExit. rewrite Hfr.
  apply find_frame_Some in Hfr. destruct Hfr as [Hin Hfj].
  set (st1 := procs_delete jid (set_awaiting _ st)).
  destruct (inv_awaiting st R fr Hin) as (_ & _ & job0 & Hget0 & Hat & Hproc).
  rewrite Hfj, Hget in Hget0. injection Hget0 as <-.
  destruct (Hproc Hp) as [Hcur _].
  change (jobs_get jid st1) with (jobs_get jid st). rewrite Hget, Hp.
  cbn [Status_eqb].
  destruct (indexOf_first _ _ _ Hat) as [Hb Hk].
  exists (fail message job). split.
  { change (jobs_get jid (update_job jid (fail message) st1)
            = Some (fail message job)).
    apply jobs_get_update_same; [keeps | exact Hget]. }
  assert (Ek : indexOf_currentStep job = indexOf (fr_step fr) (steps job))
    by (unfold indexOf_currentStep; now rewrite Hcur).
  split; [reflexivity|]. split; [reflexivity|].
  split; [exact Hcur|]. split; [cbn; now rewrite Ek|].
  split; [exact Hb|]. split; [exact Hk|].
  split; [intros ND; now apply indexOf_at|].
  split; [reflexivity|]. split; [reflexivity|]. split.
  - apply (remove_frame_has jid st); [apply (inv_frames st R) | reflexivity].
  - apply (procs_delete_has jid).
Qed.

Lemma listCompare_le (a b : Job) :
  listCompare a b <= 0 <-> listed_before a b.
Proof.
  unfold listCompare, listed_before.
  destruct (Z.eqb_spec (statusOrder (status a)) (statusOrder (status b)))
    as [E|E]; cbn [negb].
  - destruct (status a) eqn:Sa, (status b) eqn:Sb; cbn in E; try discriminate;
      cbn [Status_eqb andb statusOrder]; split; intros H;
      try (right; split; [reflexivity | lia]);
      try (destruct H as [H|[_ H]]; lia).
  - split; [intros H; left; lia | intros [H|[H _]]; [lia | contradiction]].
Qed.

Lemma listed_before_total (a b : Job) : listed_before a b \/ listed_before b a.
Proof.
  unfold listed_before.
  destruct (Z.lt_trichotomy (statusOrder (status a)) (statusOrder (status b)))
    as [H|[H|H]]; [left; left; exact H | | right; left; exact H].
  rewrite H.
  destruct (Status_eqb (status a) pending) eqn:Pa.
  - apply Status_eqb_eq in Pa.
    assert (Pb : status b = pending)
      by (rewrite Pa in H; destruct (status b); cbn in H; congruence).
    rewrite Pb. cbn [Status_eqb].
    destruct (Z.le_ge_cases (priority a) (priority b));
      [left | right]; right; (split; [reflexivity | lia]).
  - assert (Pb : Status_eqb (status b) pending = false).
    { apply Status_eqb_neq in Pa. apply Status_eqb_neq. intros Pb.
      rewrite Pb in H. destruct (status a); cbn in H; congruence. }
    rewrite Pb.
    destruct (Z.le_ge_cases (createdAt a) (createdAt b));
      [right | left]; right; (split; [reflexivity | lia]).
Qed.

Lemma listed_before_trans (a b c : Job) :
  listed_before a b -> listed_before b c -> listed_before a c.
Proof.
  unfold listed_before. intros [H1|[E1 H1]] [H2|[E2 H2]].
  - left. lia.
  - left. lia.
  - left. lia.
  - right. split; [lia|].
    destruct (status a) eqn:Sa, (status b) eqn:Sb; cbn in E1;
      try discriminate; destruct (status c) eqn:Sc; cbn in E2;
      try discriminate; cbn [Status_eqb] in *; lia.
Qed.

Lemma insert_listed_perm (j : Job) (l : list Job) :
  Permutation (insert_listed j l) (j :: l).
Proof.
  induction l as [|k l IH]; cbn [insert_listed]; [reflexivity|].
  destruct (_ <=? 0); [reflexivity|].
  rewrite IH. apply perm_swap.
Qed.

Lemma insert_listed_sorted (j : Job) (l : list Job) :
  StronglySorted listed_before l ->
  StronglySorted listed_before (insert_listed j l).
Proof.
  induction 1 as [|k l Hs IH Hk]; cbn [insert_listed].
  - repeat constructor.
  - destruct (Z.leb_spec (listCompare j k) 0) as [H|H].
    + apply listCompare_le in H. constructor; [now constructor|].
      constructor; [exact H|].
      eapply Forall_impl; [|exact Hk].
      intros c Hc. now apply (listed_before_trans j k c).
    + assert (Hkj : listed_before k j).
      { destruct (listed_before_total j k) as [G|G]; [|exact G].
        apply listCompare_le in G. lia. }
      constructor; [exact IH|].
      eapply Permutation_Forall;
        [symmetry; apply insert_listed_perm|].
      now constructor.
Qed.

(** X12.  [GET /jobs] records the poll as heartbeat and lists every job
    once: the waiting jobs first, then the processing ones, then the
    pending ones by priority, then the finished ones; apart from the
    pending ones, later creations come first. *)
Theorem listJobs_order (now : Z) (st : State) :
  let r := listJobs now st in
  lastHeartbeat (fst r) = now /\ jobs (fst r) = jobs st
  /\ snd r = map listed (sort_listed (jobs st))
  /\ Permutation (sort_listed (jobs st)) (jobs st)
  /\ StronglySorted listed_before (sort_listed (jobs st)).
Proof.
  cbv zeta. split; [reflexivity|]. split; [reflexivity|].
  split; [reflexivity|]. split.
  - induction (jobs st) as [|j l IH]; [reflexivity|].
    cbn [sort_listed fold_right]. rewrite insert_listed_perm.
    now constructor.
  - induction (jobs st) as [|j l IH]; [constructor|].
    cbn [sort_listed fold_right]. now apply insert_listed_sorted.
Qed.

Lemma canGoBack_from_previous (l : list string) (n : nat) :
  canGoBack_from l n = negb (previousManual l n <? 0).
Proof.
  induction n as [|n IH]; [reflexivity|].
  cbn [canGoBack_from previousManual].
  destruct (nth_error l n) as [s|]; [|exact IH].
  destruct (MANUAL_STEPS_has s); [|exact IH].
  symmetry. apply negb_true_iff, Z.ltb_ge. lia.
Qed.

(** X13.  The listing offers to go back exactly when the back request would
    be carried out: [canGoBack] is true for a waiting job iff
    [POST /jobs/:id/back] is accepted, and false iff it is refused for want
    of an earlier manual step. *)
Theorem canGoBack_iff_back (jid : string) (st : State) (job : Job) (r : Z) :
  jobs_get jid st = Some job -> status job = waiting_input ->
  resumeFromStep job = Some r ->
  (canGoBack job = Some true <-> snd (back jid st) = RespOk)
  /\ (canGoBack job = Some false <->
      back jid st = (st, RespError 400 "No previous manual step")).
Proof.
  intros Hget Hst Hr. unfold canGoBack, back.
  rewrite Hget, Hst, Hr. cbn [Status_eqb negb].
  replace (startIndex_of job) with r
    by (unfold startIndex_of; now rewrite Hr).
  rewrite canGoBack_from_previous.
  destruct (previousManual (steps job) (Z.to_nat r) <? 0); cbn [negb snd].
  - split; split; try discriminate; reflexivity.
  - split; split; try discriminate; reflexivity.
Qed.

(** The jobs after a heartbeat check that found the poll overdue. *)
Lemma checkHeartbeat_overdue (now : Z) (st : State) :
  NoDup (map job_id (jobs st)) -> heartbeatFresh now st = false ->
  let st' := checkHeartbeat now st in
  jobs st' = map (fun j => if isActive j then mark_cancelled j else j)
                 (jobs st)
  /\ lastHeartbeat st' = lastHeartbeat st.
Proof.
  intros ND Hf. cbv zeta. unfold checkHeartbeat. rewrite Hf.
  set (active := filter isActive (jobs st)).
  destruct (List.length active =? 0)%nat eqn:L.
  - apply Nat.eqb_eq, length_zero_iff_nil in L. split; [|reflexivity].
    symmetry. erewrite map_ext_in; [apply map_id|].
    intros j Hj. destruct (isActive j) eqn:A; [|reflexivity].
    assert (Hin : In j active) by (apply filter_In; now split).
    rewrite L in Hin. contradiction.
  - destruct (fold_cancel_one active st) as (Hj & _ & _ & _ & _ & _ & Hl & _).
    split; [|exact Hl]. rewrite Hj. apply map_ext_in. intros j Hin.
    unfold active. now rewrite (includes_filter_ids isActive).
Qed.

Lemma mark_cancelled_inactive (l : list Job) :
  filter isActive
    (map (fun j => if isActive j then mark_cancelled j else j) l) = [].
Proof.
  induction l as [|j l IH]; [reflexivity|]. cbn [map filter].
  destruct (isActive j) eqn:A; [cbn; exact IH|]. now rewrite A.
Qed.

(** X14.  A second heartbeat check at the same time changes nothing.  A
    check that finds the poll overdue (the timeout is not a number, or
    [now - lastHeartbeat] is not below it) leaves no job with status
    [pending] or [processing]: those jobs are now cancelled, and the jobs
    that had any other status are as they were. *)
Theorem checkHeartbeat_idempotent (now : Z) (st : State) :
  NoDup (map job_id (jobs st)) ->
  let st' := checkHeartbeat now st in
  checkHeartbeat now st' = st'
  /\ ((forall t, HEARTBEAT_TIMEOUT_MS = Some t ->
                 t <= now - lastHeartbeat st) ->
      (forall j, In j (jobs st') ->
                 status j <> pending /\ status j <> processing)
      /\ (forall j, In j (jobs st) ->
                    status j = pending \/ status j = processing ->
                    exists j', jobs_get (job_id j) st' = Some j'
                               /\ status j' = cancelled))
  /\ (forall j, In j (jobs st) ->
                status j <> pending -> status j <> processing ->
                jobs_get (job_id j) st' = Some j).
Proof.
  intros ND. cbv zeta.
  assert (Hin' : forall g (l : list Job) (j : Job),
            NoDup (map job_id l) -> (forall k, job_id (g k) = job_id k) ->
            In j l ->
            find (fun k => (job_id k =? job_id j)%string) (map g l)
            = Some (g j)).
  { intros g l j NDl Hg Hj. rewrite <- (Hg j). apply find_job_In.
    - rewrite map_map. erewrite map_ext; [exact NDl|]. exact Hg.
    - now apply in_map. }
  destruct (heartbeatFresh now st) eqn:Hf.
  - assert (E : checkHeartbeat now st = st)
      by (unfold checkHeartbeat; now rewrite Hf).
    rewrite E. split; [exact E|]. split.
    + intros Hover. exfalso. unfold heartbeatFresh in Hf.
      destruct HEARTBEAT_TIMEOUT_MS as [t|]; [|discriminate].
      specialize (Hover t eq_refl). apply Z.ltb_lt in Hf. lia.
    + intros j Hj _ _. now apply jobs_get_In.
  - destruct (checkHeartbeat_overdue now st ND Hf) as [Hj Hl].
    set (st' := checkHeartbeat now st) in *.
    assert (Hnone : filter isActive (jobs st') = [])
      by (rewrite Hj; apply mark_cancelled_inactive).
    assert (Hget : forall j, In j (jobs st) ->
              jobs_get (job_id j) st'
              = Some (if isActive j then mark_cancelled j else j)).
    { intros j Hin. unfold jobs_get. rewrite Hj.
      apply (Hin' (fun k => if isActive k then mark_cancelled k else k));
        try assumption.
      intros k. now destruct (isActive k). }
    split; [|split].
    + unfold checkHeartbeat at 1. rewrite Hnone.
      now destruct (heartbeatFresh now st').
    + intros _. split.
      * intros j Hin.
        assert (A : isActive j = false).
        { destruct (isActive j) eqn:A; [|reflexivity].
          assert (H : In j (filter isActive (jobs st')))
            by (apply filter_In; now split).
          rewrite Hnone in H. contradiction. }
        split; intros E; unfold isActive in A; rewrite E in A;
          discriminate A.
      * intros j Hin Hs. apply isActive_spec in Hs.
        exists (mark_cancelled j). rewrite (Hget j Hin), Hs.
        split; reflexivity.
    + intros j Hin Hp Hr. rewrite (Hget j Hin).
      destruct (isActive j) eqn:A; [|reflexivity].
      apply isActive_spec in A. tauto.
Qed.

(** X15.  When [HEARTBEAT_TIMEOUT_SECONDS] does not parse as a number, every
    heartbeat check finds the poll overdue, whatever the time of the last
    poll: all pending and processing jobs are cancelled at each tick. *)
Theorem checkHeartbeat_unparsed (now : Z) (st : State) :
  env_HEARTBEAT_TIMEOUT_SECONDS = None ->
  NoDup (map job_id (jobs st)) ->
  jobs (checkHeartbeat now st)
  = map (fun j => if isActive j then mark_cancelled j else j) (jobs st).
Proof.
  intros Henv ND. apply checkHeartbeat_overdue; [exact ND|].
  unfold heartbeatFresh, HEARTBEAT_TIMEOUT_MS. now rewrite Henv.
Qed.

(** *** Reachable states *)

(** X16.  In every reachable state job ids are unique and a job has at most
    one worker awaited; a worker is only awaited for a job of the store
    that is processing or was cancelled meanwhile, and it runs the step at
    its index of the job's steps, which is a registered stage and, while
    the job is processing, the job's current step. *)
Theorem one_worker_per_job (st : State) :
  reachable st ->
  NoDup (map job_id (jobs st))
  /\ NoDup (map fr_job (awaiting st))
  /\ (forall fr, In fr (awaiting st) ->
        exists j,
          jobs_get (fr_job fr) st = Some j
          /\ (status j = processing \/ status j = cancelled)
          /\ at_index (steps j) (fr_i fr) = Some (fr_step fr)
          /\ STEPS (fr_step fr) = Some (Stage (fr_stepDef fr))
          /\ (status j = processing -> currentStep j = Some (fr_step fr))).
Proof.
  intros R. apply reachable_Inv in R.
  split; [apply (inv_ids st R)|]. split; [apply (inv_frames st R)|].
  intros fr Hin.
  destruct (inv_awaiting st R fr Hin) as (_ & Hs & j & Hget & Hat & Hproc).
  exists j. split; [exact Hget|]. split.
  - apply (Inv_framed_status st (fr_job fr) j R Hget).
    apply has_frame_In. now apply in_map.
  - split; [exact Hat|]. split; [exact Hs|].
    intros Hp. now apply Hproc.
Qed.


(** *** Progress, in double arithmetic *)

Lemma roundEven_le (x : Q) (N : Z) :
  (x <= inject_Z N)%Q -> roundEven x <= N.
Proof.
  intros H. unfold roundEven.
  pose proof (Qfloor_le x) as Hf.
  assert (Hle : Qfloor x <= N).
  { rewrite (Zle_Qle (Qfloor x) N). now apply Qle_trans with x. }
  assert (Hup : (1 # 2 <= x - inject_Z (Qfloor x))%Q -> Qfloor x + 1 <= N).
  { intros Hh. destruct (Z.eq_dec (Qfloor x) N) as [E|E]; [|lia].
    exfalso. rewrite E in Hh. lra. }
  destruct (Qcompare_spec (x - inject_Z (Qfloor x)) (1 # 2)) as [E|E|E].
  - destruct (Z.even (Qfloor x)); [lia|]. apply Hup. rewrite E. lra.
  - lia.
  - apply Hup. lra.
Qed.

Lemma roundEven_nonneg (x : Q) : (0 <= x)%Q -> 0 <= roundEven x.
Proof.
  intros H. unfold roundEven.
  assert (Hf : 0 <= Qfloor x).
  { change 0 with (Qfloor 0). now apply Qfloor_resp_le. }
  destruct (x - inject_Z (Qfloor x) ?= 1 # 2)%Q; [|lia|lia].
  destruct (Z.even (Qfloor x)); lia.
Qed.

Lemma pow2_pos (e : Z) : (0 < pow2 e)%Q.
Proof.
  unfold pow2. destruct (Z.leb_spec 0 e).
  - rewrite <- (Zlt_Qlt 0). apply Z.pow_pos_nonneg; lia.
  - apply Qinv_lt_0_compat. rewrite <- (Zlt_Qlt 0).
    apply Z.pow_pos_nonneg; lia.
Qed.

Lemma pow2_nonpos (e : Z) :
  e <= 0 -> (pow2 e == / inject_Z (2 ^ (- e)))%Q.
Proof.
  intros H. unfold pow2. destruct (Z.leb_spec 0 e); [|reflexivity].
  replace e with 0 by lia. reflexivity.
Qed.

Lemma double_nonneg (q : Q) : (0 <= double q)%Q.
Proof.
  unfold double. destruct (Qle_bool q 0) eqn:E; [apply Qle_refl|].
  assert (Hq : (0 < q)%Q).
  { apply Qnot_le_lt. intros H. apply Qle_bool_iff in H. congruence. }
  set (e := if Qle_bool _ q then _ else _).
  apply Qmult_le_0_compat; [|apply Qlt_le_weak, pow2_pos].
  rewrite <- (Zle_Qle 0). apply roundEven_nonneg.
  apply Qlt_le_weak. apply Qlt_shift_div_l; [apply pow2_pos|].
  now rewrite Qmult_0_l.
Qed.

(** Rounding to a double does not cross an integer below [2 ** 52]. *)
Lemma double_le (q : Q) (c : Z) :
  1 <= c <= 2 ^ 52 -> (q <= inject_Z c)%Q -> (double q <= inject_Z c)%Q.
Proof.
  intros Hc H. unfold double.
  destruct (Qle_bool q 0) eqn:E.
  { rewrite <- (Zle_Qle 0). lia. }
  assert (Hq : (0 < q)%Q).
  { apply Qnot_le_lt. intros H0. apply Qle_bool_iff in H0. congruence. }
  destruct q as [a b]. cbn [Qnum Qden].
  assert (Ha : 0 < a) by (unfold Qlt in Hq; cbn in Hq; lia).
  assert (Hab : a <= c * Zpos b) by (unfold Qle in H; cbn in H; lia).
  set (e0 := Z.log2 a - Z.log2 (Zpos b) - 52).
  assert (He0 : e0 <= 0).
  { assert (Z.log2 a <= Z.log2 (Zpos b) + 52); [|unfold e0; lia].
    replace (Z.log2 (Zpos b) + 52) with (52 + Z.log2 (Zpos b)) by lia.
    rewrite <- Z.log2_mul_pow2 by lia.
    apply Z.log2_le_mono. nia. }
  set (e := if Qle_bool _ _ then e0 else e0 - 1).
  assert (He : e <= 0)
    by (unfold e; destruct (Qle_bool (pow2 _) _); lia).
  set (K := 2 ^ (- e)).
  assert (HK : 0 < K) by (apply Z.pow_pos_nonneg; lia).
  assert (HKq : (0 < inject_Z K)%Q) by (now rewrite <- (Zlt_Qlt 0)).
  assert (Hp : (pow2 e == / inject_Z K)%Q) by (now apply pow2_nonpos).
  assert (Hm : roundEven ((a # b) / pow2 e)%Q <= c * K).
  { apply roundEven_le. apply Qle_shift_div_r; [apply pow2_pos|].
    rewrite Hp, inject_Z_mult.
    setoid_replace (inject_Z c * inject_Z K * / inject_Z K)%Q
      with (inject_Z c) by (field; lra).
    exact H. }
  apply Qle_trans with (inject_Z (c * K) * pow2 e)%Q.
  - apply Qmult_le_compat_r; [now rewrite <- Zle_Qle|].
    apply Qlt_le_weak, pow2_pos.
  - rewrite Hp, inject_Z_mult.
    setoid_replace (inject_Z c * inject_Z K * / inject_Z K)%Q
      with (inject_Z c) by (field; lra).
    apply Qle_refl.
Qed.

Lemma percent_bounds (i n : Z) : 0 <= i < n -> 0 <= percent i n <= 100.
Proof.
  intros H. unfold percent, Math_round.
  set (x := double (inject_Z i / inject_Z n)).
  assert (Hn : (0 < inject_Z n)%Q) by (rewrite <- (Zlt_Qlt 0); lia).
  assert (Hx : (0 <= x <= 1)%Q).
  { split; [apply double_nonneg|].
    apply (double_le _ 1); [lia|].
    apply Qle_shift_div_r; [exact Hn|].
    rewrite Qmult_1_l, <- Zle_Qle. lia. }
  set (y := double (x * 100)).
  assert (Hy : (0 <= y <= 100)%Q).
  { split; [apply double_nonneg|].
    apply (double_le _ 100); [lia|].
    change (inject_Z 100) with 100%Q. lra. }
  split.
  - change 0 with (Qfloor 0). apply Qfloor_resp_le. lra.
  - change 100 with (Qfloor (100 + (1 # 2))). apply Qfloor_resp_le. lra.
Qed.

(** The five ways [processJob] can end its synchronous run. *)
Lemma processJob_cases (jid : string) (st : State) (job : Job) :
  jobs_get jid st = Some job ->
  (photos_get (photoId job) st = None
   /\ processJob jid st
      = settle (update_job jid
                  (fun j => set_status failed (set_status processing j)) st))
  \/ processJob jid st
     = settle (update_job jid
                 (fun j => complete (set_status processing j)) st)
  \/ (exists i stp cur,
        startIndex_of job <= i /\ at_index (steps job) i = Some stp
        /\ processJob jid st
           = settle (update_job jid
                       (fun j => pause stp i cur (set_status processing j))
                       st))
  \/ (exists i stp fr,
        startIndex_of job <= i /\ at_index (steps job) i = Some stp
        /\ fr_job fr = jid /\ fr_i fr = i /\ fr_step fr = stp
        /\ processJob jid st
           = spawn fr (update_job jid
                         (fun j => enter_step stp i (set_status processing j))
                         st))
  \/ (exists i stp,
        startIndex_of job <= i /\ at_index (steps job) i = Some stp
        /\ STEPS stp = Some Inherited
        /\ processJob jid st
           = settle (update_job jid
                       (fun j => fail buildArgs_TypeError
                                   (enter_step stp i
                                      (set_status processing j)))
                       st)).
Proof.
  intros Hget. unfold processJob. rewrite Hget.
  change (photos_get (photoId job)
            (update_job jid (set_status processing) st))
    with (photos_get (photoId job) st).
  destruct (photos_get (photoId job) st) as [photo|].
  - right.
    set (st1 := update_job jid (set_status processing) st).
    assert (Hget1 : jobs_get jid st1 = Some (set_status processing job))
      by (apply jobs_get_update_same; [keeps | exact Hget]).
    set (n := iterations job (startIndex_of job)).
    set (o := sanitizeFilename _). set (js := substring 0 6 _).
    set (cur := orElse _ _).
    destruct (runLoop_outcome n jid o js (startIndex_of job) cur st1 _ Hget1)
      as [|i' stp sd Hi Hat _ _|i' stp sd _ _ _ _ Hc|i' stp sd Hi Hat _ _ _
          |i' stp Hi Hat Hd].
    + left. unfold st1. now rewrite update_job_twice by keeps.
    + right. left. exists i', stp, cur. split; [exact Hi|].
      split; [exact Hat|]. unfold st1. now rewrite update_job_twice by keeps.
    + discriminate Hc.
    + right. right. left.
      exists i', stp, (frame_at jid o js i' stp sd cur
                         (set_status processing job)).
      split; [exact Hi|]. split; [exact Hat|].
      destruct (frame_at_fields jid o js i' stp sd cur
                  (set_status processing job)) as (F1 & F2 & F3 & _).
      split; [exact F1|]. split; [exact F2|]. split; [exact F3|].
      unfold st1. now rewrite update_job_twice by keeps.
    + right. right. right. exists i', stp.
      split; [exact Hi|]. split; [exact Hat|]. split; [exact Hd|].
      rewrite update_caught. unfold st1.
      now rewrite update_job_twice by keeps.
  - left. split; [reflexivity|]. now rewrite update_job_twice by keeps.
Qed.

Lemma Tidy_ext (ex : string -> bool) (st st' : State) :
  jobs st' = jobs st -> awaiting st' = awaiting st ->
  runningProcs st' = runningProcs st ->
  maxConcurrent st' = maxConcurrent st ->
  Tidy ex st -> Tidy ex st'.
Proof.
  intros Ej Ea Ep Em [T1 T2 T3 T4].
  assert (Hf : forall k, has_frame k st' = has_frame k st)
    by (intros k; unfold has_frame; now rewrite Ea).
  assert (Hp : forall k, procs_has k st' = procs_has k st)
    by (intros k; unfold procs_has; now rewrite Ep).
  split.
  - now rewrite Em.
  - intros j Hin. rewrite Ej in Hin. unfold framedx. rewrite Hf.
    now apply T2.
  - intros k Hk. rewrite Ep in Hk. destruct (T3 k Hk) as (j & G1 & G2 & G3).
    exists j. unfold jobs_get. rewrite Ej, Hf. now repeat split.
  - intros j Hin. rewrite Ej in Hin. rewrite Hf, Hp. now apply T4.
Qed.

Lemma sound_mono (b b' : bool) (j : Job) :
  sound b j -> (b = true -> b' = true) -> sound b' j.
Proof.
  intros (S1 & S2 & S3) Hb. split; [exact S1|]. split; [|exact S3].
  intros P. apply Hb. now apply S2.
Qed.

(** The job [jid] is replaced by [job']; the frames stay and only the
    process of [jid] may be deregistered. *)
Lemma Tidy_rewrite (ex ex' : string -> bool) (st st' : State) (jid : string)
    (job job' : Job) :
  Tidy ex st -> NoDup (map job_id (jobs st)) ->
  jobs_get jid st = Some job -> job_id job' = jid ->
  jobs st' = map (upd jid (fun _ => job')) (jobs st) ->
  awaiting st' = awaiting st ->
  (forall k, In k (runningProcs st') -> In k (runningProcs st)) ->
  (forall k, k <> jid -> In k (runningProcs st) -> In k (runningProcs st')) ->
  maxConcurrent st' = maxConcurrent st ->
  (forall k, k <> jid -> ex' k = ex k) ->
  sound (framedx ex' jid st) job' ->
  (In jid (runningProcs st') -> status job' = processing) ->
  (status job' = processing -> has_frame jid st = true -> jid <> "" ->
   In jid (runningProcs st')) ->
  Tidy ex' st'.
Proof.
  intros [T1 T2 T3 T4] ND Hget Hid Ej Ea Ep1 Ep2 Em Hex Hs Hp Hr.
  assert (Hf : forall k, has_frame k st' = has_frame k st)
    by (intros k; unfold has_frame; now rewrite Ea).
  assert (Hget' : jobs_get jid st' = Some job').
  { unfold jobs_get. rewrite Ej.
    apply (find_upd_found jid (fun _ => job') _ job Hget Hid). }
  assert (Hother : forall k, k <> jid -> jobs_get k st' = jobs_get k st).
  { intros k Hk. unfold jobs_get. rewrite Ej.
    now apply find_upd_other_const. }
  split.
  - now rewrite Em.
  - intros j Hin. rewrite Ej in Hin. apply In_upd in Hin.
    destruct Hin as (j0 & Hin0 & [[E ->]|[E ->]]).
    + rewrite Hid. unfold framedx. rewrite Hf. exact Hs.
    + unfold framedx. rewrite Hf, (Hex _ E). now apply T2.
  - intros k Hk. destruct (T3 k (Ep1 k Hk)) as (j & G1 & G2 & G3).
    destruct (String.eqb_spec k jid) as [->|N].
    + exists job'. rewrite Hf. split; [exact Hget'|]. split; [|exact G3].
      now apply Hp.
    + exists j. rewrite Hf, (Hother k N). now repeat split.
  - intros j Hin. rewrite Ej in Hin. apply In_upd in Hin.
    destruct Hin as (j0 & Hin0 & [[E ->]|[E ->]]).
    + rewrite Hid, Hf. intros P F Hne. unfold procs_has.
      apply includes_In. now apply Hr.
    + rewrite Hf. intros P F Hne. unfold procs_has. apply includes_In.
      apply (Ep2 _ E). apply includes_In. now apply T4.
Qed.

(** The job [jid] is replaced by [job']; frames and processes stay. *)
Lemma Tidy_replace (ex ex' : string -> bool) (st st' : State) (jid : string)
    (job job' : Job) :
  Tidy ex st -> NoDup (map job_id (jobs st)) ->
  jobs_get jid st = Some job -> job_id job' = jid ->
  jobs st' = map (upd jid (fun _ => job')) (jobs st) ->
  awaiting st' = awaiting st -> runningProcs st' = runningProcs st ->
  maxConcurrent st' = maxConcurrent st ->
  (forall k, k <> jid -> ex' k = ex k) ->
  sound (framedx ex' jid st) job' ->
  (procs_has jid st = true -> status job' = processing) ->
  (status job' = processing -> has_frame jid st = true -> jid <> "" ->
   procs_has jid st = true) ->
  Tidy ex' st'.
Proof.
  intros T ND Hget Hid Ej Ea Ep Em Hex Hs Hp Hr.
  apply (Tidy_rewrite ex ex' st st' jid job job' T ND Hget Hid Ej Ea);
    try assumption.
  - intros k. now rewrite Ep.
  - intros k _. now rewrite Ep.
  - rewrite Ep. intros H. apply Hp. now apply includes_In.
  - rewrite Ep. intros P F Hne. apply includes_In. now apply Hr.
Qed.

(** A worker is started for the job [jid], which is processing. *)
Lemma Tidy_spawn (ex ex' : string -> bool) (st : State) (fr : Frame)
    (job : Job) :
  Tidy ex st -> NoDup (map job_id (jobs st)) ->
  jobs_get (fr_job fr) st = Some job -> status job = processing ->
  (forall k, k <> fr_job fr -> ex' k = ex k) ->
  Tidy ex' (spawn fr st).
Proof.
  intros [T1 T2 T3 T4] ND Hget Hp Hex.
  set (jid := fr_job fr) in *.
  destruct (spawn_fields fr st) as (Ej & _ & _ & _ & Ea).
  assert (Hm : maxConcurrent (spawn fr st) = maxConcurrent st).
  { unfold spawn, procs_set. destruct (truthy (Some (fr_job fr)));
      [destruct (procs_has (fr_job fr) st)|]; reflexivity. }
  assert (Hf : forall k, has_frame k (spawn fr st)
                         = has_frame k st || (jid =? k)%string).
  { intros k. unfold has_frame. rewrite Ea, existsb_app. cbn [existsb].
    now rewrite orb_false_r. }
  assert (Hprocs : forall k, In k (runningProcs (spawn fr st)) ->
                             In k (runningProcs st) \/ k = jid).
  { intros k. unfold spawn, procs_set.
    destruct (truthy (Some (fr_job fr)));
      [destruct (procs_has (fr_job fr) st)|];
      cbn [runningProcs set_awaiting set_runningProcs]; auto.
    intros H. apply in_app_or in H. destruct H as [H|[<-|[]]]; auto. }
  assert (Hkeep : forall k, procs_has k st = true ->
                            procs_has k (spawn fr st) = true).
  { intros k. unfold procs_has, spawn, procs_set.
    destruct (truthy (Some (fr_job fr)));
      [destruct (procs_has (fr_job fr) st)|];
      cbn [runningProcs set_awaiting set_runningProcs]; auto.
    intros H. rewrite existsb_app, H. reflexivity. }
  split.
  - now rewrite Hm.
  - intros j Hin. rewrite Ej in Hin. unfold framedx. rewrite Hf.
    destruct (String.eqb_spec jid (job_id j)) as [E|N].
    + apply (sound_mono _ _ _ (T2 j Hin)). intros _.
      now rewrite orb_true_r.
    + apply (sound_mono _ _ _ (T2 j Hin)). unfold framedx.
      rewrite orb_false_r, Hex; [auto | now apply not_eq_sym].
  - intros k Hk. unfold jobs_get. rewrite Ej, Hf.
    destruct (Hprocs k Hk) as [H| ->].
    + destruct (T3 k H) as (j & G1 & G2 & G3). exists j.
      split; [exact G1|]. split; [exact G2|]. now rewrite G3.
    + exists job. split; [exact Hget|]. split; [exact Hp|].
      now rewrite String.eqb_refl, orb_true_r.
  - intros j Hin P Hfr Hne. rewrite Ej in Hin. rewrite Hf in Hfr.
    destruct (String.eqb_spec jid (job_id j)) as [E|N].
    + rewrite <- E. apply procs_has_spawn. fold jid. now rewrite E.
    + rewrite orb_false_r in Hfr. apply Hkeep. now apply T4.
Qed.

Lemma ready_outcomes (j : Job) :
  ready j ->
  (forall b, sound b (set_status failed (set_status processing j)))
  /\ (forall b, sound b (complete (set_status processing j)))
  /\ (forall b i stp cur,
        at_index (steps j) i = Some stp ->
        sound b (pause stp i cur (set_status processing j)))
  /\ (forall i stp,
        at_index (steps j) i = Some stp ->
        sound true (enter_step stp i (set_status processing j)))
  /\ sound true (set_status processing j)
  /\ (forall b m i stp,
        at_index (steps j) i = Some stp ->
        sound b (fail m (enter_step stp i (set_status processing j)))).
Proof.
  intros (R1 & R2 & R3 & R4 & R5 & R6).
  unfold sound. job_simpl.
  split; [|split; [|split; [|split; [|split]]]].
  - intros b. split; [exact R1|]. split; [discriminate|].
    split; [intros [H|H]; congruence|]. split; [congruence|].
    split; [discriminate|]. split; [exact R5 | exact R6].
  - intros b. split; [exact R1|]. split; [discriminate|].
    split; [intros [H|H]; congruence|]. split; [reflexivity|].
    split; [intros _; split; reflexivity|]. split; [lia | exact R6].
  - intros b i stp cur Hat. apply at_index_Some in Hat.
    split; [exact R1|]. split; [discriminate|].
    split; [reflexivity|]. split; [congruence|].
    split; [discriminate|]. split; [now apply percent_bounds | exact R6].
  - intros i stp Hat. apply at_index_Some in Hat.
    split; [exact R1|]. split; [reflexivity|].
    split; [intros [H|H]; congruence|]. split; [congruence|].
    split; [discriminate|]. split; [now apply percent_bounds | exact R6].
  - split; [exact R1|]. split; [reflexivity|].
    split; [intros [H|H]; congruence|]. split; [congruence|].
    split; [discriminate|]. split; [exact R5 | exact R6].
  - intros b m i stp Hat. apply at_index_Some in Hat as Hi.
    unfold indexOf_currentStep. job_simpl.
    split; [exact R1|]. split; [discriminate|].
    split; [intros [H|H]; congruence|]. split; [congruence|].
    split; [discriminate|]. split; [now apply percent_bounds|].
    intros k [= <-]. destruct (indexOf_first _ _ _ Hat) as [Hb Hk].
    split; [lia | exact Hk].
Qed.

Lemma sound_ready (b : bool) (j : Job) :
  sound b j -> status j <> completed -> status j <> waiting_input -> ready j.
Proof.
  intros (S1 & _ & S3 & S4 & _ & S6 & S7) Hc Hw.
  split; [exact S1|].
  split; [destruct (waitingStep j) eqn:E; [|reflexivity];
          exfalso; apply Hw, S3; left; discriminate|].
  split; [destruct (waitingImage j) eqn:E; [|reflexivity];
          exfalso; apply Hw, S3; right; discriminate|].
  split; [destruct (result j) eqn:E; [|reflexivity];
          exfalso; apply Hc, S4; discriminate|].
  split; assumption.
Qed.

Lemma sound_ready_cleared (b : bool) (j : Job) :
  sound b j -> status j <> completed -> ready (clear_waiting j).
Proof.
  intros (S1 & _ & S3 & S4 & _ & S6 & S7) Hc.
  unfold ready. job_simpl.
  split; [exact S1|]. split; [reflexivity|]. split; [reflexivity|].
  split; [destruct (result j) eqn:E; [|reflexivity];
          exfalso; apply Hc, S4; discriminate|].
  split; assumption.
Qed.

Lemma update_const (jid : string) (f : Job -> Job) (st : State) (job : Job) :
  NoDup (map job_id (jobs st)) -> jobs_get jid st = Some job ->
  jobs (update_job jid f st) = map (upd jid (fun _ => f job)) (jobs st).
Proof.
  intros ND Hget. cbn [update_job set_jobs jobs]. fold (upd jid f).
  now apply map_upd_const.
Qed.

Lemma also_other (jid : string) (ex : string -> bool) (k : string) :
  k <> jid -> also jid ex k = ex k.
Proof.
  intros H. unfold also. apply String.eqb_neq in H. rewrite H.
  apply orb_false_r.
Qed.

Lemma framedx_also (jid : string) (ex : string -> bool) (st : State) :
  framedx (also jid ex) jid st = true.
Proof.
  unfold framedx, also. now rewrite String.eqb_refl, !orb_true_r.
Qed.

(** The loop of [processJob], for a job that is processing and has no
    worker. *)
Lemma runLoop_Tidy (ex ex' : string -> bool) (n : nat)
    (jid origName jobShort : string) (i : Z) (cur : string) (st : State)
    (job : Job) :
  Tidy ex st -> NoDup (map job_id (jobs st)) ->
  jobs_get jid st = Some job -> status job = processing -> ready job ->
  has_frame jid st = false -> procs_has jid st = false ->
  (forall k, k <> jid -> ex' k = ex k) ->
  Tidy ex' (runLoop n jid origName jobShort i cur st).
Proof.
  intros T ND Hget Hp R Hnf Hnp Hex.
  assert (Hid : job_id job = jid) by (now apply jobs_get_Some in Hget).
  assert (Ej : set_status processing job = job).
  { destruct job. cbn in Hp. now rewrite Hp. }
  destruct (ready_outcomes job R) as (_ & O2 & O3 & O4 & _ & O6).
  rewrite Ej in O2, O3, O4, O6.
  destruct (runLoop_outcome n jid origName jobShort i cur st job Hget)
    as [|i' stp sd Hi Hat _ _|i' stp sd _ _ _ _ Hc|i' stp sd Hi Hat _ _ _
        |i' stp Hi Hat Hd].
  - apply (Tidy_replace ex ex' st _ jid job (complete job) T ND Hget);
      try reflexivity; try assumption.
    + unfold settle. cbn [jobs set_microtasks]. now apply update_const.
    + apply O2.
    + rewrite Hnp. discriminate.
    + rewrite Hnf. discriminate.
  - apply (Tidy_replace ex ex' st _ jid job (pause stp i' cur job) T ND Hget);
      try reflexivity; try assumption.
    + unfold settle. cbn [jobs set_microtasks]. now apply update_const.
    + now apply O3.
    + rewrite Hnp. discriminate.
    + rewrite Hnf. discriminate.
  - congruence.
  - set (fr := frame_at _ _ _ _ _ _ _ _).
    assert (Hfj : fr_job fr = jid) by apply frame_at_fields.
    set (st1 := update_job jid (enter_step stp i') st).
    assert (ND1 : NoDup (map job_id (jobs st1)))
      by (unfold st1; rewrite jobs_update_job, map_upd_ids;
          [exact ND | keeps]).
    assert (T1 : Tidy (also jid ex) st1).
    { apply (Tidy_replace ex (also jid ex) st st1 jid job
               (enter_step stp i' job) T ND Hget);
        try reflexivity; try assumption.
      - now apply update_const.
      - intros k Hk. now apply also_other.
      - rewrite framedx_also. now apply O4.
      - intros _. exact Hp.
      - rewrite Hnf. discriminate. }
    apply (Tidy_spawn (also jid ex) ex' st1 fr (enter_step stp i' job) T1 ND1).
    + rewrite Hfj. apply jobs_get_update_same; [keeps | exact Hget].
    + exact Hp.
    + rewrite Hfj. intros k Hk. rewrite (Hex k Hk). symmetry.
      now apply also_other.
  - rewrite update_caught.
    apply (Tidy_replace ex ex' st _ jid job
             (fail buildArgs_TypeError (enter_step stp i' job)) T ND Hget);
      try reflexivity; try assumption.
    + unfold settle. cbn [jobs set_microtasks].
      rewrite <- (caught_live buildArgs_TypeError (enter_step stp i' job))
        by (job_simpl; congruence).
      apply (update_const jid
               (fun j => caught buildArgs_TypeError (enter_step stp i' j))
               st job ND Hget).
    + now apply O6.
    + rewrite Hnp. discriminate.
    + rewrite Hnf. discriminate.
Qed.

(** [processJob] on a job that has no worker. *)
Lemma processJob_Tidy (ex ex' : string -> bool) (jid : string) (st : State)
    (job : Job) :
  Tidy ex st -> NoDup (map job_id (jobs st)) ->
  jobs_get jid st = Some job -> ready job ->
  has_frame jid st = false -> procs_has jid st = false ->
  (forall k, k <> jid -> ex' k = ex k) ->
  Tidy ex' (processJob jid st).
Proof.
  intros T ND Hget R Hnf Hnp Hex.
  assert (Hid : job_id job = jid) by (now apply jobs_get_Some in Hget).
  destruct (ready_outcomes job R) as (O1 & _ & _ & _ & O5 & _).
  unfold processJob. rewrite Hget.
  set (st1 := update_job jid (set_status processing) st).
  assert (ND1 : NoDup (map job_id (jobs st1)))
    by (unfold st1; rewrite jobs_update_job, map_upd_ids; [exact ND | keeps]).
  assert (Hget1 : jobs_get jid st1 = Some (set_status processing job))
    by (apply jobs_get_update_same; [keeps | exact Hget]).
  assert (T1 : Tidy (also jid ex) st1).
  { apply (Tidy_replace ex (also jid ex) st st1 jid job
             (set_status processing job) T ND Hget);
      try reflexivity; try assumption.
    - now apply update_const.
    - intros k Hk. now apply also_other.
    - rewrite framedx_also. exact O5.
    - rewrite Hnf. discriminate. }
  destruct (photos_get _ st1) as [photo|].
  - apply (runLoop_Tidy (also jid ex) ex' _ jid _ _ _ _ st1
             (set_status processing job) T1 ND1 Hget1).
    + reflexivity.
    + exact R.
    + exact Hnf.
    + exact Hnp.
    + intros k Hk. rewrite (Hex k Hk). symmetry. now apply also_other.
  - apply (Tidy_replace (also jid ex) ex' st1 _ jid
             (set_status processing job)
             (set_status failed (set_status processing job)) T1 ND1 Hget1);
      try reflexivity; try assumption.
    + unfold settle. cbn [jobs set_microtasks]. now apply update_const.
    + intros k Hk. rewrite (Hex k Hk). symmetry. now apply also_other.
    + apply O1.
    + change (procs_has jid st1) with (procs_has jid st). rewrite Hnp.
      discriminate.
    + change (has_frame jid st1) with (has_frame jid st). rewrite Hnf.
      discriminate.
Qed.

Lemma ready_sound (j : Job) :
  ready j -> status j <> completed -> sound true j.
Proof.
  intros (R1 & R2 & R3 & R4 & R5 & R6) Hc.
  split; [exact R1|]. split; [reflexivity|].
  split; [intros [H|H]; congruence|]. split; [congruence|].
  split; [congruence|]. split; assumption.
Qed.

Lemma procs_has_false (ex : string -> bool) (st : State) (jid : string)
    (job : Job) :
  Tidy ex st -> jobs_get jid st = Some job -> status job <> processing ->
  procs_has jid st = false.
Proof.
  intros T Hget Hp. destruct (procs_has jid st) eqn:P; [|reflexivity].
  apply includes_In in P.
  destruct (tidy_procs ex st T jid P) as (j & G1 & G2 & _). congruence.
Qed.

Lemma dispatch_Tidy (ex : string -> bool) (rest : list Job) :
  forall (running slotsUsed : Z) (s : State),
    Inv s -> Tidy ex s -> NoDup (map job_id rest) ->
    (forall c, In c rest -> In c (jobs s) /\ status c = pending) ->
    Tidy ex (dispatch running rest slotsUsed s).
Proof.
  induction rest as [|job rest IH]; intros running slotsUsed s I T NDr Hall;
    cbn [dispatch]; [exact T|].
  inversion NDr as [|? ? Hnot NDr']; subst.
  destruct (Hall job (or_introl eq_refl)) as [Hjob Hpend].
  assert (Hget : jobs_get (job_id job) s = Some job)
    by (apply jobs_get_In; [apply I | assumption]).
  destruct (_ && _).
  - apply IH; try assumption. intros c Hc. apply Hall. now right.
  - apply IH; try assumption.
    + eapply processJob_Inv_pending; eauto.
    + apply (processJob_Tidy ex ex _ s job T (inv_ids s I) Hget).
      * apply (sound_ready _ _ (tidy_jobs ex s T job Hjob)); congruence.
      * eapply Inv_unframed; eauto; congruence.
      * apply (procs_has_false ex s _ job T Hget). congruence.
      * reflexivity.
    + intros c Hc. destruct (Hall c (or_intror Hc)) as [Hin P].
      split; [|assumption].
      eapply jobs_get_In_quiet; [apply processJob_quiet | assumption |].
      intros E. apply Hnot. rewrite <- E. now apply in_map.
Qed.

Lemma processNext_Tidy (ex : string -> bool) (st : State) :
  Inv st -> Tidy ex st -> Tidy ex (processNext st).
Proof.
  intros I T. unfold processNext. apply dispatch_Tidy; try assumption.
  - apply candidates_NoDup, I.
  - intros c Hin. apply candidates_In in Hin. tauto.
Qed.

(** The common part of the resume paths. *)
Lemma resume_Tidy (st st3 : State) (jid : string) (job job3 : Job) :
  Inv st -> Tidy nobody st ->
  jobs_get jid st = Some job -> status job <> processing ->
  has_frame jid st = false ->
  jobs st3 = map (upd jid (fun _ => job3)) (jobs st) ->
  awaiting st3 = awaiting st -> runningProcs st3 = runningProcs st ->
  maxConcurrent st3 = maxConcurrent st ->
  job_id job3 = jid -> ready job3 -> status job3 <> completed ->
  Tidy nobody (processJob jid st3).
Proof.
  intros I T Hget Hp Hnf Ej Ea Ep Em Hid R Hc.
  pose proof (procs_has_false nobody st jid job T Hget Hp) as Hnp.
  assert (T3 : Tidy (also jid nobody) st3).
  { apply (Tidy_replace nobody (also jid nobody) st st3 jid job job3 T
             (inv_ids st I) Hget); try assumption.
    - intros k Hk. now apply also_other.
    - rewrite framedx_also. now apply ready_sound.
    - rewrite Hnp. discriminate.
    - rewrite Hnf. discriminate. }
  assert (Hget3 : jobs_get jid st3 = Some job3).
  { unfold jobs_get. rewrite Ej.
    apply (find_upd_found jid (fun _ => job3) _ job Hget Hid). }
  apply (processJob_Tidy (also jid nobody) nobody jid st3 job3 T3);
    try assumption.
  - rewrite Ej, map_map. erewrite map_ext; [apply (inv_ids st I)|].
    intros j. unfold upd. destruct (String.eqb_spec (job_id j) jid);
      congruence.
  - unfold has_frame. now rewrite Ea.
  - unfold procs_has. rewrite Ep. exact Hnp.
  - intros k Hk. symmetry. now apply also_other.
Qed.

Lemma resume_update_Tidy (st : State) (jid : string) (g : Job -> Job)
    (job : Job) :
  Inv st -> Tidy nobody st ->
  jobs_get jid st = Some job -> status job <> processing ->
  has_frame jid st = false ->
  job_id (g job) = jid -> ready (g job) -> status (g job) <> completed ->
  Tidy nobody (processJob jid (update_job jid g st)).
Proof.
  intros I T Hget Hp Hnf Hid R Hc.
  apply (resume_Tidy st _ jid job (g job) I T Hget Hp Hnf); try assumption;
    try reflexivity.
  apply update_const; [apply I | exact Hget].
Qed.

Lemma Tidy_sound (st : State) (jid : string) (job : Job) :
  Tidy nobody st -> jobs_get jid st = Some job ->
  sound (has_frame jid st) job.
Proof.
  intros T Hget. apply jobs_get_Some in Hget. destruct Hget as [Hin Hid].
  generalize (tidy_jobs nobody st T job Hin). rewrite Hid.
  unfold framedx, nobody. now rewrite orb_false_r.
Qed.

Lemma submitInput_Tidy (jid : string) (mask cropRect : option string)
    (maskId : string) (st : State) :
  Inv st -> Tidy nobody st ->
  Tidy nobody (fst (submitInput jid mask cropRect maskId st)).
Proof.
  intros I T. unfold submitInput.
  destruct (jobs_get jid st) as [job|] eqn:Hget; [|exact T].
  destruct (Status_eqb (status job) waiting_input) eqn:Hst; [|exact T].
  apply Status_eqb_eq in Hst. cbn [negb fst].
  destruct (Inv_waiting st jid job I Hget Hst) as (_ & _ & Hnf).
  assert (Hid : job_id job = jid) by (now apply jobs_get_Some in Hget).
  pose proof (Tidy_sound st jid job T Hget) as S.
  set (g1 := fun j : Job =>
               if opt_eqb (waitingStep job) "inpaint" && truthy mask
               then set_maskPath (Some (maskFile maskId)) j else j).
  set (g2 := fun j : Job =>
               if opt_eqb (waitingStep job) "crop" && truthy cropRect
               then set_cropRect cropRect j else j).
  apply (resume_Tidy st _ jid job (clear_waiting (g2 (g1 job))) I T Hget);
    try assumption.
  - congruence.
  - rewrite <- (map_upd_const jid (fun j => clear_waiting (g2 (g1 j))) _ job
                  (inv_ids st I) Hget).
    unfold g1, g2.
    destruct (opt_eqb (waitingStep job) "inpaint" && truthy mask),
      (opt_eqb (waitingStep job) "crop" && truthy cropRect);
      cbn [update_job set_jobs set_files jobs]; upd_norm.
  - destruct (_ && _), (_ && _); reflexivity.
  - destruct (_ && _), (_ && _); reflexivity.
  - destruct (_ && _), (_ && _); reflexivity.
  - unfold g1, g2. destruct (_ && _), (_ && _); exact Hid.
  - assert (R : ready (clear_waiting job))
      by (apply (sound_ready_cleared _ _ S); congruence).
    unfold g1, g2. destruct (_ && _), (_ && _); exact R.
  - unfold g1, g2. destruct (_ && _), (_ && _); job_simpl; congruence.
Qed.

Lemma skipStep_Tidy (jid : string) (st : State) :
  Inv st -> Tidy nobody st -> Tidy nobody (fst (skipStep jid st)).
Proof.
  intros I T. unfold skipStep.
  destruct (jobs_get jid st) as [job|] eqn:Hget; [|exact T].
  destruct (Status_eqb (status job) waiting_input) eqn:Hst; [|exact T].
  apply Status_eqb_eq in Hst. cbn [negb fst].
  destruct (Inv_waiting st jid job I Hget Hst) as (_ & _ & Hnf).
  assert (Hid : job_id job = jid) by (now apply jobs_get_Some in Hget).
  pose proof (Tidy_sound st jid job T Hget) as S.
  apply (resume_update_Tidy st jid _ job I T Hget); try assumption.
  - congruence.
  - apply (sound_ready_cleared _ _ S). congruence.
  - job_simpl. congruence.
Qed.

Lemma back_Tidy (jid : string) (st : State) :
  Inv st -> Tidy nobody st -> Tidy nobody (fst (back jid st)).
Proof.
  intros I T. unfold back.
  destruct (jobs_get jid st) as [job|] eqn:Hget; [|exact T].
  destruct (Status_eqb (status job) waiting_input) eqn:Hst; [|exact T].
  apply Status_eqb_eq in Hst. cbn [negb].
  set (t := previousManual (steps job) (Z.to_nat (startIndex_of job))).
  destruct (Z.ltb_spec t 0) as [Hneg|Hpos]; [exact T|]. cbn [fst].
  destruct (Inv_waiting st jid job I Hget Hst) as (_ & _ & Hnf).
  assert (Hid : job_id job = jid) by (now apply jobs_get_Some in Hget).
  pose proof (Tidy_sound st jid job T Hget) as S.
  assert (R : ready (clear_waiting job))
    by (apply (sound_ready_cleared _ _ S); congruence).
  unfold rewindTo. rewrite fold_clearInput. cbv beta iota zeta.
  eapply (resume_Tidy st _ jid job _ I T Hget); try reflexivity;
    try exact Hid; try exact Hnf.
  - congruence.
  - exact R.
  - job_simpl. congruence.
Qed.

Lemma retry_Tidy (jid : string) (model : option string) (st : State) :
  Inv st -> Tidy nobody st -> Tidy nobody (fst (retry jid model st)).
Proof.
  intros I T. unfold retry.
  destruct (jobs_get jid st) as [job|] eqn:Hget; [|exact T].
  destruct (Status_eqb (status job) failed) eqn:Hst; [|exact T].
  apply Status_eqb_eq in Hst. cbn [negb fst].
  assert (Hnf : has_frame jid st = false)
    by (eapply Inv_unframed; eauto; congruence).
  assert (Hid : job_id job = jid) by (now apply jobs_get_Some in Hget).
  pose proof (Tidy_sound st jid job T Hget) as S.
  assert (R : ready job) by (apply (sound_ready _ _ S); congruence).
  destruct R as (R1 & R2 & R3 & R4 & R5 & R6).
  apply (resume_update_Tidy st jid _ job I T Hget); try assumption.
  - congruence.
  - destruct model, (failedStep job); try exact Hid.
    destruct (_ && _); [destruct (_ =? _)%string|]; exact Hid.
  - unfold ready.
    destruct model, (failedStep job);
      try (destruct (_ && _); [destruct (_ =? _)%string|]); job_simpl;
      (split; [exact R1|]; split; [exact R2|]; split; [exact R3|];
       split; [exact R4|]; split; [exact R5|]; intros k E; discriminate).
  - destruct model, (failedStep job);
      try (destruct (_ && _); [destruct (_ =? _)%string|]); job_simpl;
      discriminate.
Qed.

Lemma skipFailed_Tidy (jid : string) (st : State) :
  Inv st -> Tidy nobody st -> Tidy nobody (fst (skipFailed jid st)).
Proof.
  intros I T. unfold skipFailed.
  destruct (jobs_get jid st) as [job|] eqn:Hget; [|exact T].
  destruct (Status_eqb (status job) failed) eqn:Hst; [|exact T].
  apply Status_eqb_eq in Hst. cbn [negb].
  assert (Hnf : has_frame jid st = false)
    by (eapply Inv_unframed; eauto; congruence).
  assert (Hid : job_id job = jid) by (now apply jobs_get_Some in Hget).
  pose proof (Tidy_sound st jid job T Hget) as S.
  assert (R : ready job) by (apply (sound_ready _ _ S); congruence).
  assert (Hnp : procs_has jid st = false)
    by (apply (procs_has_false nobody st jid job T Hget); congruence).
  destruct R as (R1 & R2 & R3 & R4 & R5 & R6).
  destruct (Z.geb_spec (failedIndex_of job + 1) (steps_length job))
    as [Hge|Hlt]; cbn [fst].
  - rewrite update_job_twice by keeps.
    apply (Tidy_replace nobody nobody st _ jid job
             (set_result (last_result (clear_error job))
                (set_progress 100 (set_status completed (clear_error job))))
             T (inv_ids st I) Hget); try reflexivity; try exact Hid.
    + apply (update_const jid
               (fun j => set_result (last_result (clear_error j))
                           (set_progress 100
                              (set_status completed (clear_error j))))
               st job (inv_ids st I) Hget).
    + unfold sound. job_simpl.
      split; [exact R1|]. split; [discriminate|].
      split; [intros [H|H]; congruence|]. split; [reflexivity|].
      split; [intros _; split; reflexivity|]. split; [lia|].
      intros k E. discriminate.
    + rewrite Hnp. discriminate.
    + rewrite Hnf. discriminate.
  - rewrite update_job_twice by keeps.
    apply (resume_update_Tidy st jid _ job I T Hget); try assumption.
    + congruence.
    + unfold ready. job_simpl.
      split; [exact R1|]. split; [exact R2|]. split; [exact R3|].
      split; [exact R4|]. split; [exact R5|]. intros k E. discriminate.
    + job_simpl. discriminate.
Qed.

(** *** Cancellation, order, settings *)

Lemma cancel_one_fields (st : State) (c : Job) :
  awaiting (cancel_one st c) = awaiting st
  /\ maxConcurrent (cancel_one st c) = maxConcurrent st
  /\ (forall k, In k (runningProcs (cancel_one st c)) <->
                In k (runningProcs st) /\ k <> job_id c).
Proof.
  unfold cancel_one, kill_proc.
  destruct (procs_has (job_id c) _) eqn:P;
    cbn [awaiting maxConcurrent runningProcs procs_delete set_runningProcs
         set_killed update_job set_jobs]; (split; [reflexivity|]);
    (split; [reflexivity|]); intros k.
  - rewrite filter_In, negb_true_iff. split; intros [H1 H2]; split;
      try assumption; now apply String.eqb_neq.
  - split; [|tauto]. intros H. split; [exact H|]. intros ->.
    apply includes_not_In in P. now apply P.
Qed.

Lemma cancel_one_Tidy (ex : string -> bool) (st : State) (c : Job) :
  Tidy ex st -> NoDup (map job_id (jobs st)) ->
  (forall j, jobs_get (job_id c) st = Some j -> status j <> completed) ->
  Tidy ex (cancel_one st c).
Proof.
  intros T ND Hc. set (jid := job_id c) in *.
  destruct (cancel_one_fields st c) as (Ea & Em & Ep). fold jid in Ep.
  pose proof (cancel_one_jobs st c) as Ej. fold jid in Ej.
  destruct (jobs_get jid st) as [j|] eqn:Hget.
  - assert (Hid : job_id j = jid) by (now apply jobs_get_Some in Hget).
    apply jobs_get_Some in Hget as Hin. destruct Hin as [Hin _].
    apply (Tidy_rewrite ex ex st _ jid j (mark_cancelled j) T ND Hget);
      try assumption; try reflexivity.
    + rewrite Ej. now apply map_upd_const.
    + intros k Hk. now apply Ep in Hk.
    + intros k Hk Hin'. apply Ep. now split.
    + generalize (tidy_jobs ex st T j Hin). rewrite Hid.
      intros (S1 & S2 & S3 & S4 & S5 & S6 & S7). unfold sound. job_simpl.
      split; [exact S1|]. split; [discriminate|].
      split; [intros [H|H]; congruence|].
      split; [intros H; exfalso; apply (Hc j eq_refl); now apply S4|].
      split; [discriminate|]. split; assumption.
    + intros H. apply Ep in H. now destruct H.
    + discriminate.
  - assert (Ej' : jobs (cancel_one st c) = jobs st).
    { rewrite Ej. rewrite <- (map_id (jobs st)) at 2.
      apply map_ext_in. intros j Hin. unfold upd.
      destruct (String.eqb_spec (job_id j) jid) as [E|N]; [|reflexivity].
      exfalso. apply find_job_None in Hget. apply Hget. rewrite <- E.
      now apply in_map. }
    assert (Ep' : runningProcs (cancel_one st c) = runningProcs st).
    { unfold cancel_one, kill_proc. fold jid.
      destruct (procs_has jid _) eqn:P; [|reflexivity].
      exfalso. apply includes_In in P.
      change (In jid (runningProcs st)) in P.
      destruct (tidy_procs ex st T jid P) as (j & G & _). congruence. }
    now apply (Tidy_ext ex st).
Qed.

Lemma cancel_one_ids (st : State) (c : Job) :
  map job_id (jobs (cancel_one st c)) = map job_id (jobs st).
Proof. rewrite cancel_one_jobs. apply map_upd_ids. keeps. Qed.

Lemma fold_cancel_one_Tidy (ex : string -> bool) (l : list Job) :
  forall st, Tidy ex st -> NoDup (map job_id (jobs st)) ->
    (forall c j, In c l -> jobs_get (job_id c) st = Some j ->
                 status j <> completed) ->
    Tidy ex (fold_left cancel_one l st).
Proof.
  induction l as [|c l IH]; intros st T ND H; cbn [fold_left]; [exact T|].
  apply IH.
  - apply cancel_one_Tidy; try assumption. intros j. apply H. now left.
  - now rewrite cancel_one_ids.
  - intros c' j Hin Hget. apply cancel_one_status in Hget.
    destruct Hget as [E|Hget]; [congruence|].
    eapply H; [right; exact Hin | exact Hget].
Qed.

Lemma checkHeartbeat_Tidy (now : Z) (st : State) :
  Inv st -> Tidy nobody st -> Tidy nobody (checkHeartbeat now st).
Proof.
  intros I T. unfold checkHeartbeat.
  destruct (heartbeatFresh now st); [exact T|].
  destruct (_ =? _)%nat; [exact T|].
  apply fold_cancel_one_Tidy; [exact T | apply I |].
  intros c j Hin Hget. apply filter_In in Hin. destruct Hin as [Hin A].
  apply jobs_get_In in Hin; [|apply I].
  assert (j = c) by congruence. subst j.
  unfold isActive in A. intros E. rewrite E in A. discriminate.
Qed.

Lemma cancel_Tidy (jid : string) (st : State) :
  Inv st -> Tidy nobody st -> Tidy nobody (fst (cancel jid st)).
Proof.
  intros I T. unfold cancel.
  destruct (jobs_get jid st) as [job|] eqn:Hget; [|exact T].
  destruct (cancellable (status job)) eqn:Hc; [|exact T].
  cbn [fst].
  assert (Hid : job_id job = jid) by (now apply jobs_get_Some in Hget).
  apply processNext_Tidy.
  - apply cancel_one_Inv; [exact I|]. rewrite Hid, Hget.
    intros j E. injection E as <-. intros E. rewrite E in Hc. discriminate.
  - apply cancel_one_Tidy; [exact T | apply I |]. rewrite Hid, Hget.
    intros j E. injection E as <-. intros E. rewrite E in Hc. discriminate.
Qed.

Lemma cancelAll_Tidy (st : State) :
  Inv st -> Tidy nobody st -> Tidy nobody (fst (cancelAll st)).
Proof.
  intros I T. unfold cancelAll.
  set (body := fun (acc : State * Z) (jid : string) => _).
  assert (H : forall ids acc, Inv (fst acc) -> Tidy nobody (fst acc) ->
                Tidy nobody (fst (fold_left body ids acc))).
  { induction ids as [|jid ids IH]; intros acc Ia Ta; cbn [fold_left];
      [exact Ta|].
    unfold body at 2.
    destruct (jobs_get jid (fst acc)) as [job|] eqn:Hget;
      [|now apply IH].
    destruct (cancellable (status job)) eqn:Hc; [|now apply IH].
    assert (Hid : job_id job = jid) by (now apply jobs_get_Some in Hget).
    apply IH; cbn [fst].
    - apply cancel_one_Inv; [exact Ia|]. rewrite Hid, Hget.
      intros j E. injection E as <-. intros E. rewrite E in Hc.
      discriminate.
    - apply cancel_one_Tidy; [exact Ta | apply Ia |]. rewrite Hid, Hget.
      intros j E. injection E as <-. intros E. rewrite E in Hc.
      discriminate. }
  specialize (H (map job_id (jobs st)) (st, 0) I T).
  destruct (fold_left body (map job_id (jobs st)) (st, 0)). exact H.
Qed.

Lemma reorder_from_Tidy (jobIds : list string) :
  forall index st, Inv st -> Tidy nobody st ->
                   Tidy nobody (reorder_from index jobIds st).
Proof.
  induction jobIds as [|jid ids IH]; intros index st I T; cbn [reorder_from];
    [exact T|].
  destruct (jobs_get jid st) as [job|] eqn:Hget; [|now apply IH].
  destruct (Status_eqb (status job) pending) eqn:Hst; [|now apply IH].
  apply Status_eqb_eq in Hst.
  assert (Hid : job_id job = jid) by (now apply jobs_get_Some in Hget).
  apply IH.
  - pose proof (reorder_from_Inv [jid] index st I) as I1.
    cbn [reorder_from] in I1. now rewrite Hget, Hst in I1.
  - apply (Tidy_replace nobody nobody st _ jid job (set_priority index job) T
             (inv_ids st I) Hget); try reflexivity; try exact Hid.
    + now apply update_const; [apply I|].
    + unfold framedx, nobody. rewrite orb_false_r.
      exact (Tidy_sound st jid job T Hget).
    + intros P. exfalso.
      rewrite (procs_has_false nobody st jid job T Hget) in P;
        [discriminate | congruence].
    + job_simpl. congruence.
Qed.

Lemma putSettings_Tidy (val : JsValue) (st : State) :
  Inv st -> Tidy nobody st -> Tidy nobody (fst (putSettings val st)).
Proof.
  intros I T. unfold putSettings. cbn [fst].
  destruct val as [| | |q| |]; try (now apply processNext_Tidy).
  destruct (inRange q) eqn:Hq; [|now apply processNext_Tidy].
  apply inRange_spec in Hq.
  apply processNext_Tidy.
  - apply (Inv_ext st); [reflexivity.. | exact I].
  - destruct T as [T1 T2 T3 T4]. split; try assumption.
    cbn [maxConcurrent setMaxConcurrent set_maxConcurrent].
    now apply Math_round_bounds.
Qed.

(** *** Creation *)

Lemma forallb_filter {A} (p : A -> bool) (l : list A) :
  forallb p (filter p l) = true.
Proof.
  induction l as [|a l IH]; [reflexivity|]. cbn [filter].
  destruct (p a) eqn:E; [cbn [forallb]; now rewrite E | exact IH].
Qed.

Lemma Tidy_add_job (ex : string -> bool) (st st' : State) (job : Job) :
  Tidy ex st -> ~ In (job_id job) (map job_id (jobs st)) ->
  jobs st' = (jobs st ++ [job])%list -> awaiting st' = awaiting st ->
  runningProcs st' = runningProcs st ->
  maxConcurrent st' = maxConcurrent st ->
  sound false job -> status job = pending ->
  Tidy ex st'.
Proof.
  intros [T1 T2 T3 T4] Hfresh Ej Ea Ep Em S P.
  assert (Hf : forall k, has_frame k st' = has_frame k st)
    by (intros k; unfold has_frame; now rewrite Ea).
  assert (Hph : forall k, procs_has k st' = procs_has k st)
    by (intros k; unfold procs_has; now rewrite Ep).
  split.
  - now rewrite Em.
  - intros j Hin. rewrite Ej in Hin. unfold framedx. rewrite Hf.
    apply in_app_or in Hin. destruct Hin as [Hin|[<-|[]]].
    + now apply T2.
    + apply (sound_mono false _ _ S). discriminate.
  - intros k Hk. rewrite Ep in Hk. destruct (T3 k Hk) as (j & G1 & G2 & G3).
    exists j. rewrite Hf. split; [|now split].
    unfold jobs_get in *. rewrite Ej, find_job_app_fresh by assumption.
    now rewrite G1.
  - intros j Hin. rewrite Ej in Hin. rewrite Hf, Hph.
    apply in_app_or in Hin. destruct Hin as [Hin|[<-|[]]].
    + now apply T4.
    + congruence.
Qed.

Lemma createJob_Tidy (validSteps : list string)
    (opts masks cropRects : list (string * string))
    (acc : State * list string) (req : string * Fresh) :
  validSteps <> [] -> forallb registered validSteps = true ->
  Inv (fst acc) -> Tidy nobody (fst acc) ->
  ~ In (fresh_uuid (snd req)) (map job_id (jobs (fst acc))) ->
  Tidy nobody (fst (createJob validSteps opts masks cropRects acc req)).
Proof.
  destruct acc as [st created], req as [pid fr]. cbn [fst snd].
  intros Hne Hreg I T Hfresh. unfold createJob.
  destruct (photos_get pid st) as [photo|]; [|exact T].
  set (withMask := includes "inpaint" validSteps && truthy (assoc pid masks)).
  set (st1 := if withMask then _ else st).
  set (job := {| job_id := fresh_uuid fr |}).
  assert (E1 : photos st1 = photos st /\ jobs st1 = jobs st
               /\ awaiting st1 = awaiting st
               /\ runningProcs st1 = runningProcs st
               /\ maxConcurrent st1 = maxConcurrent st)
    by (unfold st1; destruct withMask; repeat split).
  destruct E1 as (Ep & Ej & Ea & Er & Em).
  assert (Hset : jobs (jobs_set job st1) = (jobs st ++ [job])%list
                 /\ photos (jobs_set job st1) = photos st
                 /\ awaiting (jobs_set job st1) = awaiting st
                 /\ runningProcs (jobs_set job st1) = runningProcs st
                 /\ maxConcurrent (jobs_set job st1) = maxConcurrent st).
  { unfold jobs_set.
    replace (existsb (fun j => (job_id j =? job_id job)%string) (jobs st1))
      with false.
    - cbn [jobs photos awaiting runningProcs maxConcurrent set_jobs].
      now rewrite Ej, Ep, Ea, Er, Em.
    - rewrite Ej, <- includes_map. symmetry. now apply includes_not_In. }
  destruct Hset as (Hj & Hp & Ha & Hr & Hm).
  cbn [fst]. unfold enqueueJob. apply processNext_Tidy.
  - apply (Inv_add_job st _ job I); try assumption; reflexivity.
  - apply (Tidy_add_job nobody st _ job T); try assumption; [|reflexivity].
    unfold sound, job. job_simpl.
    split; [now split|]. split; [discriminate|].
    split; [intros [H|H]; congruence|]. split; [congruence|].
    split; [discriminate|]. split; [lia|]. discriminate.
Qed.

Lemma createJobs_Tidy (aiReady setupRunning : bool)
    (reqs : list (string * Fresh)) (steps : list string)
    (opts masks cropRects : list (string * string)) (st : State) :
  Inv st -> Tidy nobody st ->
  distinct (map (fun r => fresh_uuid (snd r)) reqs) = true ->
  forallb (fun u => negb (includes u (map job_id (jobs st))))
          (map (fun r => fresh_uuid (snd r)) reqs) = true ->
  Tidy nobody
    (fst (createJobs aiReady setupRunning reqs steps opts masks cropRects
            st)).
Proof.
  intros I T Hd Hf. unfold createJobs.
  destruct (negb aiReady); [exact T|].
  destruct (_ || _); [exact T|].
  set (validSteps := filter _ steps).
  destruct (List.length validSteps =? 0)%nat eqn:L; [exact T|].
  assert (Hne : validSteps <> [])
    by (intros E; rewrite E in L; discriminate).
  assert (Hreg : forallb registered validSteps = true)
    by apply (forallb_filter registered).
  assert (H : forall rs acc,
            Inv (fst acc) -> Tidy nobody (fst acc) ->
            NoDup (map (fun r => fresh_uuid (snd r)) rs) ->
            (forall r, In r rs ->
               ~ In (fresh_uuid (snd r)) (map job_id (jobs (fst acc)))) ->
            Tidy nobody
              (fst (fold_left (createJob validSteps opts masks cropRects)
                      rs acc))).
  { induction rs as [|r rs IH]; intros acc Ia Ta ND Hfr; cbn [fold_left];
      [exact Ta|].
    cbn [map] in ND. apply NoDup_cons_iff in ND. destruct ND as [Hr ND].
    destruct (createJob_Inv validSteps opts masks cropRects acc r Ia)
      as [Ia' Hids]; [apply Hfr; now left|].
    apply IH; try assumption.
    - apply createJob_Tidy; try assumption. apply Hfr. now left.
    - intros r' Hr' Hin. apply Hids in Hin. destruct Hin as [Hin|E].
      + revert Hin. apply Hfr. now right.
      + apply Hr. rewrite <- E.
        apply (in_map (fun r => fresh_uuid (snd r))). exact Hr'. }
  specialize (H reqs (st, []) I T (distinct_NoDup _ Hd)).
  destruct (fold_left _ reqs (st, [])) as [st' created]. apply H.
  intros r Hr. rewrite forallb_forall in Hf.
  specialize (Hf _ (in_map (fun r => fresh_uuid (snd r)) _ _ Hr)).
  apply negb_true_iff in Hf. now apply includes_not_In.
Qed.

(** *** The exit of a worker *)

Lemma has_frame_remove_other (jid k : string) (l : list Frame) :
  k <> jid ->
  existsb (fun fr => (fr_job fr =? k)%string) (remove_frame jid l)
  = existsb (fun fr => (fr_job fr =? k)%string) l.
Proof.
  intros Hk. induction l as [|fr l IH]; [reflexivity|].
  cbn [remove_frame existsb].
  destruct (String.eqb_spec (fr_job fr) jid) as [E|N].
  - destruct (String.eqb_spec (fr_job fr) k) as [E'|N']; [congruence|].
    reflexivity.
  - cbn [existsb]. now rewrite IH.
Qed.

(** The frame and the process of [jid] are dropped: the job is between two
    workers. *)
Lemma Tidy_unframe (ex : string -> bool) (st st' : State) (jid : string) :
  Tidy ex st -> NoDup (map fr_job (awaiting st)) ->
  jobs st' = jobs st -> awaiting st' = remove_frame jid (awaiting st) ->
  runningProcs st' = runningProcs (procs_delete jid st) ->
  maxConcurrent st' = maxConcurrent st ->
  Tidy (also jid ex) st'.
Proof.
  intros [T1 T2 T3 T4] ND Ej Ea Ep Em.
  assert (Hf : forall k, k <> jid -> has_frame k st' = has_frame k st)
    by (intros k Hk; unfold has_frame; rewrite Ea;
        now apply has_frame_remove_other).
  assert (Hnf : has_frame jid st' = false)
    by (apply (remove_frame_has jid st); assumption).
  assert (Hp : forall k, In k (runningProcs st') <->
                         In k (runningProcs st) /\ k <> jid).
  { intros k. rewrite Ep. cbn [procs_delete runningProcs set_runningProcs].
    rewrite filter_In, negb_true_iff. split; intros [H1 H2]; split;
      try assumption; now apply String.eqb_neq. }
  split.
  - now rewrite Em.
  - intros j Hin. rewrite Ej in Hin.
    destruct (String.eqb_spec (job_id j) jid) as [E|N].
    + apply (sound_mono _ _ _ (T2 j Hin)). intros _. rewrite E.
      apply framedx_also.
    + apply (sound_mono _ _ _ (T2 j Hin)). unfold framedx.
      rewrite (Hf _ N), (also_other jid ex _ N). auto.
  - intros k Hk. apply Hp in Hk. destruct Hk as [Hk N].
    destruct (T3 k Hk) as (j & G1 & G2 & G3). exists j.
    unfold jobs_get. rewrite Ej, (Hf k N). now repeat split.
  - intros j Hin P F Hne. rewrite Ej in Hin.
    destruct (String.eqb_spec (job_id j) jid) as [E|N];
      [rewrite E in F; congruence|].
    rewrite (Hf _ N) in F. unfold procs_has. apply includes_In, Hp.
    split; [|exact N]. apply includes_In. now apply T4.
Qed.

(** A job that is not processing needs no exemption. *)
Lemma Tidy_settled (ex : string -> bool) (st st' : State) (jid : string) :
  Tidy (also jid ex) st ->
  (forall j, jobs_get jid st = Some j -> status j <> processing) ->
  NoDup (map job_id (jobs st)) ->
  jobs st' = jobs st -> awaiting st' = awaiting st ->
  runningProcs st' = runningProcs st ->
  maxConcurrent st' = maxConcurrent st ->
  Tidy ex st'.
Proof.
  intros T Hs ND Ej Ea Ep Em. apply (Tidy_ext ex st); try assumption.
  destruct T as [T1 T2 T3 T4]. split; try assumption.
  intros j Hin. destruct (T2 j Hin) as (S1 & S2 & S3).
  split; [exact S1|]. split; [|exact S3].
  intros P. specialize (S2 P). unfold framedx, also in *.
  destruct (String.eqb_spec (job_id j) jid) as [E|N].
  - exfalso. apply (Hs j); [|exact P]. rewrite <- E.
    now apply jobs_get_In.
  - now rewrite orb_false_r in S2.
Qed.

Lemma workerExit_Tidy (jid : string) (o : Outcome) (st : State) :
  Inv st -> Tidy nobody st -> Tidy nobody (workerExit jid o st).
Proof.
  intros I T.
  destruct (find_frame jid st) as [fr|] eqn:Hfr;
    [|unfold workerExit; now rewrite Hfr].
  apply find_frame_Some in Hfr as Hin. destruct Hin as [Hin Hfj].
  destruct (inv_awaiting st I fr Hin) as (_ & _ & job & Hget & Hat & Hproc).
  rewrite Hfj in Hget.
  assert (Hid : job_id job = jid) by (now apply jobs_get_Some in Hget).
  assert (Hst : status job = processing \/ status job = cancelled).
  { apply (Inv_framed_status st jid job I Hget).
    apply has_frame_In. rewrite <- Hfj. now apply in_map. }
  set (st1 := procs_delete jid
                (set_awaiting (remove_frame jid (awaiting st)) st)).
  assert (T1 : Tidy (also jid nobody) st1)
    by (apply (Tidy_unframe nobody st st1 jid T (inv_frames st I));
        reflexivity).
  destruct (Inv_unframe st st1 jid I eq_refl eq_refl eq_refl) as [I1 Hnf1].
  assert (Hnp1 : procs_has jid st1 = false)
    by apply (procs_delete_has jid).
  pose proof (Tidy_sound st jid job T Hget) as S.
  destruct (Status_eqb (status job) cancelled) eqn:Hc.
  - (* the job was cancelled meanwhile *)
    apply Status_eqb_eq in Hc.
    destruct o as [out|message]; unfold workerExit; rewrite Hfr;
      fold st1; change (jobs_get jid st1) with (jobs_get jid st);
      rewrite Hget, Hc; cbn [Status_eqb].
    + apply (Tidy_settled nobody st1 _ jid T1); try reflexivity;
        [|apply I1].
      change (jobs_get jid st1) with (jobs_get jid st). rewrite Hget.
      intros j [= <-]. congruence.
    + apply (Tidy_replace (also jid nobody) nobody st1 _ jid job
               (set_currentStep None job) T1 (inv_ids st1 I1) Hget);
        try reflexivity; try exact Hid.
      * unfold settle. cbn [jobs set_microtasks].
        now apply update_const; [apply I1|].
      * intros k Hk. symmetry. now apply also_other.
      * destruct S as (S1 & S2 & S3 & S4 & S5 & S6 & S7).
        unfold sound. job_simpl. rewrite Hc.
        split; [exact S1|]. split; [discriminate|].
        split; [intros H; specialize (S3 H); congruence|].
        split; [intros H; specialize (S4 H); congruence|].
        split; [discriminate|]. split; assumption.
      * rewrite Hnp1. discriminate.
      * rewrite Hnf1. discriminate.
  - apply Status_eqb_neq in Hc.
    assert (Hp : status job = processing) by (destruct Hst; congruence).
    destruct (Hproc Hp) as [Hcur _].
    assert (R : ready job) by (apply (sound_ready _ _ S); congruence).
    destruct o as [out|message].
    + (* resolved *)
      destruct (workerExit_resolved jid out st fr job I Hfr Hget Hp)
        as (c & m & st3 & E & I4 & Hget4 & Hnf4 & _ & I3 & Ej3 & Ea3 & Er3
            & Em3).
      cbv zeta in E, Hget4, Hnf4, I4. rewrite E.
      set (job3 := record_result fr (set_maskPath m (set_cropRect c job)))
        in *.
      assert (T3 : Tidy (also jid nobody) st3).
      { apply (Tidy_replace (also jid nobody) (also jid nobody) st1 st3 jid
                 job job3 T1 (inv_ids st1 I1) Hget);
          try assumption; try reflexivity.
        - rewrite framedx_also.
          apply (ready_sound job3 R). unfold job3. job_simpl. congruence.
        - rewrite Hnp1. discriminate.
        - rewrite Hnf1. discriminate. }
      pose proof (processNext_Tidy (also jid nobody) st3 I3 T3) as T4.
      assert (Hnp4 : procs_has jid (processNext st3) = false).
      { destruct (procs_has jid (processNext st3)) eqn:P; [|reflexivity].
        apply includes_In in P.
        destruct (tidy_procs _ _ T4 jid P) as (j & _ & _ & F). congruence. }
      apply (runLoop_Tidy (also jid nobody) nobody _ jid _ _ _ _ _ job3 T4
               (inv_ids _ I4) Hget4 Hp R Hnf4 Hnp4).
      intros k Hk. symmetry. now apply also_other.
    + (* rejected *)
      unfold workerExit. rewrite Hfr. fold st1.
      change (jobs_get jid st1) with (jobs_get jid st). rewrite Hget, Hp.
      cbn [Status_eqb].
      apply (Tidy_replace (also jid nobody) nobody st1 _ jid job
               (fail message job) T1 (inv_ids st1 I1) Hget);
        try reflexivity; try exact Hid.
      * unfold settle. cbn [jobs set_microtasks].
        now apply update_const; [apply I1|].
      * intros k Hk. symmetry. now apply also_other.
      * destruct R as (R1 & R2 & R3 & R4 & R5 & R6).
        unfold sound. job_simpl. unfold indexOf_currentStep. rewrite Hcur.
        split; [exact R1|]. split; [discriminate|].
        split; [intros [H|H]; congruence|]. split; [congruence|].
        split; [discriminate|]. split; [exact R5|].
        intros k [= <-]. destruct (indexOf_first _ _ _ Hat) as [Hb Hk].
        split; [lia | exact Hk].
      * rewrite Hnp1. discriminate.
      * rewrite Hnf1. discriminate.
Qed.

(** *** Every reachable state is tidy *)

Lemma init_Tidy (now : Z) : Tidy nobody (init now).
Proof.
  split; cbn; try (intros ? []).
  unfold MAX_CONCURRENT_LIMIT. lia.
Qed.

Lemma step_Tidy (ev : Event) (st : State) :
  Inv st -> Tidy nobody st -> enabled ev st = true ->
  Tidy nobody (step ev st).
Proof.
  intros I T En. destruct ev; cbn [step].
  - apply (Tidy_ext nobody st); try assumption;
      unfold photos_set; destruct (existsb _ _); reflexivity.
  - now apply (Tidy_ext nobody st).
  - now apply (Tidy_ext nobody st).
  - cbn [enabled] in En. apply andb_true_iff in En. destruct En as [_ En].
    apply andb_true_iff in En. destruct En as [E1 E2].
    now apply createJobs_Tidy.
  - now apply (Tidy_ext nobody st).
  - now apply submitInput_Tidy.
  - now apply skipStep_Tidy.
  - now apply back_Tidy.
  - now apply retry_Tidy.
  - now apply skipFailed_Tidy.
  - now apply cancel_Tidy.
  - now apply cancelAll_Tidy.
  - unfold reorder. cbn [fst]. now apply reorder_from_Tidy.
  - now apply putSettings_Tidy.
  - now apply checkHeartbeat_Tidy.
  - now apply workerExit_Tidy.
  - destruct (microtasks st) as [|k]; [exact T|].
    apply processNext_Tidy.
    + apply (Inv_ext st); [reflexivity.. | exact I].
    + now apply (Tidy_ext nobody st).
Qed.

Lemma reachable_Tidy (st : State) : reachable st -> Tidy nobody st.
Proof.
  induction 1 as [now|st ev R IH En]; [apply init_Tidy|].
  apply step_Tidy; [now apply reachable_Inv | exact IH | exact En].
Qed.

Lemma reachable_sound (st : State) (j : Job) :
  reachable st -> In j (jobs st) -> sound (has_frame (job_id j) st) j.
Proof.
  intros R Hin. apply (Tidy_sound st (job_id j) j (reachable_Tidy st R)).
  apply jobs_get_In; [|exact Hin]. apply (reachable_Inv st R).
Qed.

(** X18.  In every reachable state the process table holds exactly the
    workers of the processing jobs: a job in processing has a worker
    awaited and (its id not being empty) its process registered, and every
    registered process belongs to a processing job whose worker is
    awaited. *)
Theorem processing_has_worker (st : State) :
  reachable st ->
  (forall j, In j (jobs st) -> status j = processing ->
     has_frame (job_id j) st = true
     /\ (job_id j <> "" -> procs_has (job_id j) st = true))
  /\ (forall k, In k (runningProcs st) ->
        exists j, jobs_get k st = Some j /\ status j = processing
                  /\ has_frame k st = true).
Proof.
  intros R. pose proof (reachable_Tidy st R) as T. split.
  - intros j Hin P.
    destruct (reachable_sound st j R Hin) as (_ & S2 & _).
    split; [now apply S2|]. intros Hne.
    apply (tidy_reg nobody st T j Hin P); [now apply S2 | exact Hne].
  - apply (tidy_procs nobody st T).
Qed.

(** X19.  In every reachable state [maxConcurrent] lies between 1 and
    [MAX_CONCURRENT_LIMIT], which is itself at least 1. *)
Theorem maxConcurrent_bounds (st : State) :
  reachable st ->
  1 <= maxConcurrent st <= MAX_CONCURRENT_LIMIT /\ 1 <= MAX_CONCURRENT_LIMIT.
Proof.
  intros R. split; [apply (tidy_max nobody st (reachable_Tidy st R))|].
  unfold MAX_CONCURRENT_LIMIT. lia.
Qed.


(** X21.  In every reachable state [waitingStep] and [waitingImage] are set
    exactly for the jobs in [waiting_input]. *)
Theorem waiting_fields (st : State) :
  reachable st ->
  Forall (fun j =>
            (waitingStep j <> None <-> status j = waiting_input)
            /\ (waitingImage j <> None <-> status j = waiting_input))
         (jobs st).
Proof.
  intros R. apply Forall_forall. intros j Hin.
  destruct (reachable_sound st j R Hin) as (_ & _ & S3 & _).
  pose proof (reachable_Inv st R) as I.
  assert (W : status j = waiting_input ->
              waitingStep j <> None /\ waitingImage j <> None).
  { intros Hw.
    destruct (inv_jobs st I j Hin) as (_ & _ & _ & _ & H5 & _).
    destruct (H5 Hw) as (i & stp & sd & p & _ & _ & E1 & _ & _ & _ & _
                         & E2 & _).
    rewrite E1, E2. split; discriminate. }
  split; split; intros H; try (now apply W); apply S3; auto.
Qed.

(** X22.  In every reachable state only completed jobs have a result, a
    completed job's result is its last step result (none when no step
    left one) and its progress is 100; the progress of every job lies
    between 0 and 100. *)
Theorem completed_result (st : State) :
  reachable st ->
  Forall (fun j =>
            (result j <> None -> status j = completed)
            /\ (status j = completed ->
                result j = last_result j /\ progress j = 100)
            /\ 0 <= progress j <= 100)
         (jobs st).
Proof.
  intros R. apply Forall_forall. intros j Hin.
  destruct (reachable_sound st j R Hin) as (_ & _ & _ & S4 & S5 & S6 & _).
  split; [exact S4|]. split; [exact S5 | exact S6].
Qed.

(** X23.  In every reachable state the failed index of a job, when set, is
    an index of its steps at which its failed step stands. *)
Theorem failedStepIndex_points (st : State) :
  reachable st ->
  Forall (fun j =>
            forall k, failedStepIndex j = Some k ->
              0 <= k < steps_length j
              /\ exists s, failedStep j = Some s
                           /\ at_index (steps j) k = Some s)
         (jobs st).
Proof.
  intros R. apply Forall_forall. intros j Hin k Hk.
  destruct (reachable_sound st j R Hin) as (_ & _ & _ & _ & _ & _ & S7).
  destruct (S7 k Hk) as [H0 Hat].
  destruct (inv_jobs st (reachable_Inv st R) j Hin) as (_ & _ & H3 & _).
  destruct (H3 k Hk) as (Hlt & Hne & _).
  split; [lia|]. destruct (failedStep j) as [s|]; [|contradiction].
  now exists s.
Qed.

(** *** Jobs that an event does not concern *)

Lemma jobs_get_update_other (jid k : string) (f : Job -> Job) (st : State) :
  keeps_id f -> k <> jid -> jobs_get k (update_job jid f st) = jobs_get k st.
Proof.
  intros K N. unfold jobs_get. rewrite jobs_update_job.
  now apply find_upd_other.
Qed.

Lemma processJob_other (jid k : string) (st : State) :
  k <> jid -> jobs_get k (processJob jid st) = jobs_get k st.
Proof.
  intros N. apply (jobs_get_quiet_other jid k st); [|exact N].
  apply processJob_quiet.
Qed.

Lemma jobs_get_map (g : Job -> Job) (st st' : State) (j : Job) :
  NoDup (map job_id (jobs st)) -> (forall k, job_id (g k) = job_id k) ->
  jobs st' = map g (jobs st) -> In j (jobs st) ->
  jobs_get (job_id j) st' = Some (g j).
Proof.
  intros ND Hg Ej Hin. unfold jobs_get. rewrite Ej, <- (Hg j).
  apply find_job_In; [|now apply in_map].
  rewrite map_map. erewrite map_ext; [exact ND|]. exact Hg.
Qed.

Lemma reorder_from_other (jobIds : list string) :
  forall (index : Z) (st : State) (jid : string) (job : Job),
    jobs_get jid st = Some job -> status job <> pending ->
    jobs_get jid (reorder_from index jobIds st) = Some job.
Proof.
  induction jobIds as [|k ids IH]; intros index st jid job Hget Hp;
    cbn [reorder_from]; [exact Hget|].
  apply IH; [|exact Hp].
  destruct (jobs_get k st) as [j|] eqn:Hk; [|exact Hget].
  destruct (Status_eqb (status j) pending) eqn:P; [|exact Hget].
  apply Status_eqb_eq in P.
  rewrite jobs_get_update_other; [exact Hget | keeps |].
  intros ->. congruence.
Qed.

Lemma createJob_other (validSteps : list string)
    (opts masks cropRects : list (string * string))
    (acc : State * list string) (req : string * Fresh) (jid : string)
    (job : Job) :
  Inv (fst acc) ->
  ~ In (fresh_uuid (snd req)) (map job_id (jobs (fst acc))) ->
  jobs_get jid (fst acc) = Some job -> status job <> pending ->
  jobs_get jid (fst (createJob validSteps opts masks cropRects acc req))
  = Some job.
Proof.
  destruct acc as [st created], req as [pid fr]. cbn [fst snd].
  intros I Hfresh Hget Hp. unfold createJob.
  destruct (photos_get pid st) as [photo|]; [|exact Hget].
  set (withMask := includes "inpaint" validSteps && truthy (assoc pid masks)).
  set (st1 := if withMask then _ else st).
  set (new := {| job_id := fresh_uuid fr |}).
  assert (E1 : photos st1 = photos st /\ jobs st1 = jobs st
               /\ awaiting st1 = awaiting st)
    by (unfold st1; destruct withMask; repeat split).
  destruct E1 as (Ep & Ej & Ea).
  assert (Hset : jobs (jobs_set new st1) = (jobs st ++ [new])%list
                 /\ photos (jobs_set new st1) = photos st
                 /\ awaiting (jobs_set new st1) = awaiting st).
  { unfold jobs_set.
    replace (existsb (fun j => (job_id j =? job_id new)%string) (jobs st1))
      with false.
    - cbn [jobs photos awaiting set_jobs]. now rewrite Ej, Ep, Ea.
    - rewrite Ej, <- includes_map. symmetry. now apply includes_not_In. }
  destruct Hset as (Hj & Hph & Ha).
  cbn [fst]. unfold enqueueJob.
  assert (I2 : Inv (jobs_set new st1))
    by (apply (Inv_add_job st _ new I); try assumption; reflexivity).
  apply (processNext_other _ jid job (inv_ids _ I2)); [|exact Hp].
  unfold jobs_get. rewrite Hj, find_job_app_fresh by exact Hfresh.
  unfold jobs_get in Hget. now rewrite Hget.
Qed.

Lemma createJobs_other (aiReady setupRunning : bool)
    (reqs : list (string * Fresh)) (steps : list string)
    (opts masks cropRects : list (string * string)) (st : State)
    (jid : string) (job : Job) :
  Inv st ->
  distinct (map (fun r => fresh_uuid (snd r)) reqs) = true ->
  forallb (fun u => negb (includes u (map job_id (jobs st))))
          (map (fun r => fresh_uuid (snd r)) reqs) = true ->
  jobs_get jid st = Some job -> status job <> pending ->
  jobs_get jid
    (fst (createJobs aiReady setupRunning reqs steps opts masks cropRects st))
  = Some job.
Proof.
  intros I Hd Hf Hget Hp. unfold createJobs.
  destruct (negb aiReady); [exact Hget|].
  destruct (_ || _); [exact Hget|].
  set (validSteps := filter _ steps).
  destruct (_ =? _)%nat; [exact Hget|].
  assert (H : forall rs acc,
            Inv (fst acc) ->
            NoDup (map (fun r => fresh_uuid (snd r)) rs) ->
            (forall r, In r rs ->
               ~ In (fresh_uuid (snd r)) (map job_id (jobs (fst acc)))) ->
            jobs_get jid (fst acc) = Some job ->
            jobs_get jid
              (fst (fold_left (createJob validSteps opts masks cropRects)
                      rs acc)) = Some job).
  { induction rs as [|r rs IH]; intros acc Ia ND Hfr Hg; cbn [fold_left];
      [exact Hg|].
    cbn [map] in ND. apply NoDup_cons_iff in ND. destruct ND as [Hr ND].
    destruct (createJob_Inv validSteps opts masks cropRects acc r Ia)
      as [Ia' Hids]; [apply Hfr; now left|].
    apply IH; try assumption.
    - intros r' Hr' Hin. apply Hids in Hin. destruct Hin as [Hin|E].
      + revert Hin. apply Hfr. now right.
      + apply Hr. rewrite <- E.
        apply (in_map (fun r => fresh_uuid (snd r))). exact Hr'.
    - apply createJob_other; try assumption. apply Hfr. now left. }
  specialize (H reqs (st, []) I (distinct_NoDup _ Hd)).
  destruct (fold_left _ reqs (st, [])) as [st' created]. apply H.
  - intros r Hr. rewrite forallb_forall in Hf.
    specialize (Hf _ (in_map (fun r => fresh_uuid (snd r)) _ _ Hr)).
    apply negb_true_iff in Hf. now apply includes_not_In.
  - exact Hget.
Qed.

Lemma cancel_one_other (st : State) (c : Job) (jid : string) :
  jid <> job_id c -> jobs_get jid (cancel_one st c) = jobs_get jid st.
Proof.
  intros N. unfold jobs_get. rewrite cancel_one_jobs.
  apply find_upd_other; [keeps | exact N].
Qed.

Lemma cancelAll_other (st : State) (jid : string) (job : Job) :
  NoDup (map job_id (jobs st)) ->
  jobs_get jid st = Some job -> cancellable (status job) = false ->
  jobs_get jid (fst (cancelAll st)) = Some job.
Proof.
  intros ND Hget Hc. unfold cancelAll.
  rewrite (cancelAll_fold (jobs st) st 0 ND)
    by (intros j Hj; now apply jobs_get_In).
  cbn [fst].
  set (hit := filter (fun j => cancellable (status j)) (jobs st)).
  destruct (fold_cancel_one hit st) as (Hj & _).
  apply jobs_get_Some in Hget as Hin. destruct Hin as [Hin Hid].
  rewrite <- Hid.
  set (g := fun j => if includes (job_id j) (map job_id hit)
                     then mark_cancelled j else j) in Hj.
  replace job with (g job) at 2.
  - apply (jobs_get_map g st); try assumption.
    intros k. unfold g. now destruct (includes _ _).
  - unfold g, hit.
    now rewrite (includes_filter_ids (fun j => cancellable (status j))), Hc.
Qed.

Lemma checkHeartbeat_other (now : Z) (st : State) (jid : string) (job : Job) :
  NoDup (map job_id (jobs st)) ->
  jobs_get jid st = Some job -> isActive job = false ->
  jobs_get jid (checkHeartbeat now st) = Some job.
Proof.
  intros ND Hget Ha.
  destruct (heartbeatFresh now st) eqn:Hf.
  - unfold checkHeartbeat. now rewrite Hf.
  - destruct (checkHeartbeat_overdue now st ND Hf) as [Hj _].
    apply jobs_get_Some in Hget as Hin. destruct Hin as [Hin Hid].
    rewrite <- Hid.
    set (g := fun j => if isActive j then mark_cancelled j else j) in Hj.
    replace job with (g job) at 2 by (unfold g; now rewrite Ha).
    apply (jobs_get_map g st); try assumption.
    intros k. unfold g. now destruct (isActive k).
Qed.

(** The exit of a worker of another job. *)
Lemma workerExit_other (jid k : string) (o : Outcome) (st : State)
    (job : Job) :
  Inv st -> k <> jid ->
  jobs_get k st = Some job -> status job <> pending ->
  jobs_get k (workerExit jid o st) = Some job.
Proof.
  intros I N Hget Hp.
  destruct (find_frame jid st) as [fr|] eqn:Hfr;
    [|unfold workerExit; now rewrite Hfr].
  apply find_frame_Some in Hfr as Hin. destruct Hin as [Hin Hfj].
  destruct (inv_awaiting st I fr Hin) as (_ & _ & j & Hgj & _).
  rewrite Hfj in Hgj.
  destruct (Status_eqb (status j) cancelled) eqn:Hc.
  - unfold workerExit. rewrite Hfr.
    set (st1 := procs_delete jid (set_awaiting _ st)).
    change (jobs_get jid st1) with (jobs_get jid st). rewrite Hgj, Hc.
    destruct o as [out|message]; [exact Hget|].
    change (jobs_get k (update_job jid (set_currentStep None) st1)
            = Some job).
    rewrite jobs_get_update_other; [exact Hget | keeps | exact N].
  - apply Status_eqb_neq in Hc.
    assert (Hpr : status j = processing).
    { destruct (Inv_framed_status st jid j I Hgj); [|assumption|congruence].
      apply has_frame_In. rewrite <- Hfj. now apply in_map. }
    destruct o as [out|message].
    + destruct (workerExit_resolved jid out st fr j I Hfr Hgj Hpr)
        as (c & m & st3 & E & _ & _ & _ & Hoth & _).
      cbv zeta in E, Hoth. rewrite E.
      rewrite (jobs_get_quiet_other jid k (processNext st3));
        [now apply Hoth | apply runLoop_quiet | exact N].
    + unfold workerExit. rewrite Hfr.
      set (st1 := procs_delete jid (set_awaiting _ st)).
      change (jobs_get jid st1) with (jobs_get jid st).
      rewrite Hgj, Hpr. cbn [Status_eqb].
      change (jobs_get k (update_job jid (fail message) st1) = Some job).
      rewrite jobs_get_update_other; [exact Hget | keeps | exact N].
Qed.

Lemma rewindTo_other (t : Z) (jid k : string) (job : Job) (st : State) :
  job_id job = jid -> k <> jid ->
  jobs_get k (rewindTo t jid job st) = jobs_get k st.
Proof.
  intros Hid N. unfold rewindTo. rewrite fold_clearInput.
  cbv beta iota zeta. unfold jobs_get.
  cbn [set_files update_job set_jobs jobs]. fold (upd jid).
  apply find_upd_other_const; [exact Hid | exact N].
Qed.

Ltac other :=
  repeat first
    [ rewrite processJob_other by assumption
    | rewrite jobs_get_update_other by (try keeps; assumption)
    | progress change (jobs_get ?k (set_files ?fs ?s)) with (jobs_get k s) ].

(** A request about another job leaves a job that is not pending as it
    is. *)
Lemma request_other (ev : Event) (st : State) (k : string) (job : Job) :
  Inv st -> enabled ev st = true ->
  jobs_get k st = Some job -> cancellable (status job) = false ->
  match ev with
  | EvSubmitInput jid _ _ _ | EvSkip jid | EvBack jid | EvRetry jid _
  | EvSkipFailed jid | EvCancel jid | EvWorkerExit jid _ => k <> jid
  | _ => True
  end ->
  jobs_get k (step ev st) = Some job.
Proof.
  intros I En Hget Hc Hev.
  assert (Hp : status job <> pending) by (intros E; now rewrite E in Hc).
  assert (Ha : isActive job = false).
  { unfold isActive. unfold cancellable in Hc.
    destruct (status job); try discriminate Hc; reflexivity. }
  pose proof (inv_ids st I) as ND.
  destruct ev as [p|pid| |aiReady setupRunning reqs steps opts masks cropRects
                 |now|jid mask cropRect maskId|jid|jid|jid model|jid|jid| 
                 |jobIds|val|now|jid o| ]; cbn [step].
  - unfold photos_set. now destruct (existsb _ _).
  - exact Hget.
  - exact Hget.
  - unfold enabled in En. apply andb_prop in En. destruct En as [_ En].
    apply andb_prop in En. destruct En as [Hd Hf].
    now apply createJobs_other.
  - exact Hget.
  - unfold submitInput. destruct (jobs_get jid st) as [j|]; [|exact Hget].
    destruct (negb _); [exact Hget|]. cbn [fst].
    destruct (_ && _), (_ && _); other; exact Hget.
  - unfold skipStep. destruct (jobs_get jid st) as [j|]; [|exact Hget].
    destruct (negb _); [exact Hget|]. cbn [fst]. other. exact Hget.
  - unfold back. destruct (jobs_get jid st) as [j|] eqn:Hj; [|exact Hget].
    destruct (negb _); [exact Hget|].
    destruct (_ <? 0); [exact Hget|]. cbn [fst]. other.
    rewrite rewindTo_other; [exact Hget | | exact Hev].
    now apply jobs_get_Some in Hj.
  - unfold retry. destruct (jobs_get jid st) as [j|]; [|exact Hget].
    destruct (negb _); [exact Hget|]. cbn [fst].
    rewrite processJob_other by assumption.
    rewrite jobs_get_update_other; [exact Hget | | exact Hev].
    intros x. destruct model, (failedStep x); try reflexivity.
    destruct (_ && _); [destruct (_ =? _)%string|]; reflexivity.
  - unfold skipFailed. destruct (jobs_get jid st) as [j|]; [|exact Hget].
    destruct (negb _); [exact Hget|].
    destruct (_ >=? _); cbn [fst]; other; exact Hget.
  - unfold cancel. destruct (jobs_get jid st) as [j|] eqn:Hj; [|exact Hget].
    destruct (cancellable (status j)); [|exact Hget]. cbn [fst].
    apply jobs_get_Some in Hj as Hid. destruct Hid as [_ Hid].
    apply processNext_other; [| |exact Hp].
    + rewrite cancel_one_jobs. rewrite map_map.
      erewrite map_ext; [exact ND|]. intros x. unfold upd.
      now destruct (_ =? _)%string.
    + rewrite cancel_one_other; [exact Hget | congruence].
  - now apply cancelAll_other.
  - unfold reorder. cbn [fst]. now apply reorder_from_other.
  - unfold putSettings. cbn [fst]. apply processNext_other; [| |exact Hp].
    + destruct val as [| |b|q|s|]; try exact ND. now destruct (inRange q).
    + destruct val as [| |b|q|s|]; try exact Hget. now destruct (inRange q).
  - now apply checkHeartbeat_other.
  - now apply workerExit_other.
  - destruct (microtasks st) as [|m]; [exact Hget|].
    now apply processNext_other.
Qed.

(** Requests about a job whose status they do not accept, and the exit
    of a worker that is not awaited. *)
Lemma settled_stays (ev : Event) (st : State) (jid : string) (job : Job) :
  Inv st -> enabled ev st = true ->
  jobs_get jid st = Some job -> cancellable (status job) = false ->
  match ev with
  | EvRetry k _ | EvSkipFailed k => k = jid -> status job <> failed
  | EvWorkerExit k _ => k = jid -> status job <> cancelled
  | _ => True
  end ->
  jobs_get jid (step ev st) = Some job.
Proof.
  intros I En Hget Hc Hev.
  assert (Hw : Status_eqb (status job) waiting_input = false)
    by (destruct (status job); try reflexivity; discriminate Hc).
  assert (Hother : match ev with
            | EvSubmitInput k _ _ _ | EvSkip k | EvBack k | EvRetry k _
            | EvSkipFailed k | EvCancel k | EvWorkerExit k _ => jid <> k
            | _ => True
            end -> jobs_get jid (step ev st) = Some job)
    by (now apply request_other).
  destruct ev as [p|pid| |aiReady setupRunning reqs steps opts masks cropRects
                 |now|k mask cropRect maskId|k|k|k model|k|k| 
                 |jobIds|val|now|k o| ];
    try (apply Hother; exact Logic.I).
  - destruct (String.eqb_spec jid k) as [<-|N]; [|now apply Hother].
    cbn [step]. unfold submitInput. now rewrite Hget, Hw.
  - destruct (String.eqb_spec jid k) as [<-|N]; [|now apply Hother].
    cbn [step]. unfold skipStep. now rewrite Hget, Hw.
  - destruct (String.eqb_spec jid k) as [<-|N]; [|now apply Hother].
    cbn [step]. unfold back. now rewrite Hget, Hw.
  - destruct (String.eqb_spec jid k) as [<-|N]; [|now apply Hother].
    cbn [step]. unfold retry. rewrite Hget.
    specialize (Hev eq_refl). now destruct (status job).
  - destruct (String.eqb_spec jid k) as [<-|N]; [|now apply Hother].
    cbn [step]. unfold skipFailed. rewrite Hget.
    specialize (Hev eq_refl). now destruct (status job).
  - destruct (String.eqb_spec jid k) as [<-|N]; [|now apply Hother].
    cbn [step]. unfold cancel. now rewrite Hget, Hc.
  - destruct (String.eqb_spec jid k) as [<-|N]; [|now apply Hother].
    cbn [step]. unfold workerExit. specialize (Hev eq_refl).
    assert (Hnf : has_frame jid st = false).
    { apply (Inv_unframed st jid job I Hget); [|exact Hev].
      intros E. now rewrite E in Hc. }
    destruct (find_frame jid st) as [fr|] eqn:Hfr; [|exact Hget].
    apply find_frame_Some in Hfr. destruct Hfr as [Hin Hfj].
    assert (has_frame jid st = true)
      by (apply has_frame_In; rewrite <- Hfj; now apply in_map).
    congruence.
Qed.

(** X24.  A job that has reached a final status is left alone.  In a
    reachable state, whatever happens next, a completed job stays exactly
    as it is, and so does a failed job unless the event is a retry or a
    skip-failed request for that very job; a cancelled job stays cancelled
    and keeps every field, except that the late failure of its killed
    worker clears [currentStep]. *)
Theorem finished_jobs_stay (st : State) (ev : Event) (jid : string)
    (job : Job) :
  reachable st -> enabled ev st = true ->
  jobs_get jid st = Some job ->
  (status job = completed -> jobs_get jid (step ev st) = Some job)
  /\ (status job = failed ->
      (forall m, ev <> EvRetry jid m) -> ev <> EvSkipFailed jid ->
      jobs_get jid (step ev st) = Some job)
  /\ (status job = cancelled ->
      exists job', jobs_get jid (step ev st) = Some job'
                   /\ status job' = cancelled
                   /\ set_currentStep None job' = set_currentStep None job).
Proof.
  intros R En Hget. pose proof (reachable_Inv st R) as I.
  split; [|split].
  - intros Hs. apply (settled_stays ev st jid job I En Hget);
      [now rewrite Hs|].
    destruct ev; try exact Logic.I; intros _; congruence.
  - intros Hs Hr Hsf. apply (settled_stays ev st jid job I En Hget);
      [now rewrite Hs|].
    destruct ev as [p|pid| |aiReady setupRunning reqs steps opts masks cropRects
                   |now|k mask cropRect maskId|k|k|k model|k|k| 
                   |jobIds|val|now|k o| ]; try exact Logic.I.
    + intros ->. now destruct (Hr model).
    + intros ->. now destruct Hsf.
    + intros _. congruence.
  - intros Hs.
    assert (Hc : cancellable (status job) = false) by (now rewrite Hs).
    assert (Hsame : jobs_get jid (step ev st) = Some job ->
              exists job', jobs_get jid (step ev st) = Some job'
                           /\ status job' = cancelled
                           /\ set_currentStep None job'
                              = set_currentStep None job)
      by (intros E; now exists job).
    destruct ev as [p|pid| |aiReady setupRunning reqs steps opts masks cropRects
                   |now|k mask cropRect maskId|k|k|k model|k|k| 
                   |jobIds|val|now|k o| ];
      try (apply Hsame, (settled_stays _ st jid job I En Hget Hc);
           first [exact Logic.I | intros _; congruence]).
    destruct (String.eqb_spec k jid) as [->|N].
    2:{ apply Hsame, (settled_stays _ st jid job I En Hget Hc).
        intros E. now destruct N. }
    cbn [step]. unfold workerExit.
    destruct (find_frame jid st) as [fr|] eqn:Hfr; [|now exists job].
    set (st1 := procs_delete jid (set_awaiting _ st)).
    change (jobs_get jid st1) with (jobs_get jid st).
    rewrite Hget, Hs. cbn [Status_eqb].
    destruct o as [out|message].
    + exists job. now split.
    + exists (set_currentStep None job). split; [|now split].
      change (jobs_get jid (update_job jid (set_currentStep None) st1)
              = Some (set_currentStep None job)).
      apply jobs_get_Some in Hget as Hin. destruct Hin as [Hin Hid].
      rewrite <- Hid.
      replace (set_currentStep None job)
        with (upd (job_id job) (set_currentStep None) job)
        by (unfold upd; now rewrite String.eqb_refl).
      apply (jobs_get_map (upd (job_id job) (set_currentStep None)) st);
        try assumption; [| |reflexivity].
      * apply inv_ids. exact I.
      * intros x. unfold upd. now destruct (_ =? _)%string.
Qed.

End Properties.

(** * The scenarios, evaluated *)

#[local] Existing Instance demo_env.

(** C2.  After three crop-only jobs have been created and the first one
    cancelled, the two others are in [waiting_input] together: the pass that
    follows the cancellation tests [hasWaitingManual] once, before it
    dispatches both. *)
Theorem two_jobs_waiting_input :
  reachable (env:=demo_env) (state_after two_waiting_trace)
  /\ map (fun j => (job_id j, status j))
         (jobs (state_after (env:=demo_env) two_waiting_trace))
     = [("job-a00001", cancelled); ("job-b00002", waiting_input);
        ("job-c00003", waiting_input)]
  /\ count_status waiting_input
       (jobs (state_after (env:=demo_env) two_waiting_trace)) = 2.
Proof.
  split; [apply state_after_reachable|]. split; vm_compute; reflexivity.
Qed.

(** C3 fails as stated: with [maxConcurrent = 1], submitting the crop of a
    waiting job while another job is processing leaves two jobs in
    [processing]. *)
Lemma processing_exceeds_maxConcurrent :
  ~ (forall st, reachable (env:=demo_env) st ->
                count_status processing (jobs st) <= maxConcurrent st).
Proof.
  intros H.
  specialize (H (state_after over_limit_trace)
                (state_after_reachable over_limit_trace)).
  vm_compute in H. apply H. reflexivity.
Qed.

(** C4.  In the pipeline [face_restore; colorize; face_restore] the third
    worker, started at index 2, fails: the job records the stage but the
    index of its first occurrence, 0. *)
Theorem failedStepIndex_first_occurrence :
  let st := state_after (env:=demo_env) duplicate_step_trace in
  let st' := workerExit "job-a00001" (Rejected "boom") st in
  map fr_i (awaiting st) = [2]
  /\ map (fun j => (status j, job_error j, failedStep j, failedStepIndex j,
                    List.length (stepResults j))) (jobs st')
     = [(failed, Some "boom", Some "face_restore", Some 0, 2%nat)].
Proof. vm_compute. split; reflexivity. Qed.

(** C5.  In the installation of the [Dockerfile] a pipeline
    [face_restore; crop; inpaint] has run its first two steps and waits for
    its mask; the first worker wrote its result under [/data/results].
    [POST /jobs/:id/back] is accepted and rewinds to the crop at index 1:
    the crop rectangle is cleared, one step result remains and the job
    waits for the crop again.  But [currentInputPath] is built from [ROOT]
    and the URL of that result: it names a file under [/app/results], not
    the file the step wrote, and the image offered to the user is looked
    for among the uploads. *)
Theorem back_input_not_the_result_file :
  let st0 := state_after (env:=docker_env) (firstn 2 rewind_trace) in
  let st := state_after (env:=docker_env) rewind_trace in
  let r := back (env:=docker_env) "job-a00001" st in
  map (fun fr => (fr_step fr, fr_outputPath fr)) (awaiting st0)
  = [("face_restore", "/data/results/grand-pere_1923_FACE_job-a0.png")]
  /\ map (fun j => (status j, resumeFromStep j, map sr_step (stepResults j)))
         (jobs st)
     = [(waiting_input, Some 2, ["face_restore"; "crop"])]
  /\ snd r = RespOk
  /\ map (fun j => (status j, resumeFromStep j, waitingStep j, cropRect j,
                    stepResults j))
         (jobs (fst r))
     = [(waiting_input, Some 1, Some "crop", None,
         [{| sr_step := "face_restore";
             sr_result := "/results/grand-pere_1923_FACE_job-a0.png" |}])]
  /\ map currentInputPath (jobs (fst r))
     = [Some "/app/results/grand-pere_1923_FACE_job-a0.png"]
  /\ map waitingImage (jobs (fst r))
     = [Some "/uploads/grand-pere_1923_FACE_job-a0.png"].
Proof. vm_compute. repeat split; reflexivity. Qed.

(** C6 fails as stated: once the first worker of an automatic pipeline has
    succeeded the job has one step result while [resumeFromStep] has never
    been assigned. *)
Lemma stepResults_beyond_resumeFromStep :
  ~ (forall st, reachable (env:=demo_env) st ->
       forall j, In j (jobs st) ->
         results_length j <= startIndex_of j <= steps_length j).
Proof.
  intros H.
  specialize (H (state_after automatic_trace)
                (state_after_reachable automatic_trace)).
  vm_compute in H.
  specialize (H _ (or_introl eq_refl)). destruct H as [H _].
  apply H. reflexivity.
Qed.

(** C7 fails as stated: a job whose photo is gone when it runs is marked
    failed and nothing else is recorded. *)
Lemma failed_without_failedStep :
  ~ (forall st, reachable (env:=demo_env) st ->
       forall j, In j (jobs st) ->
         (failedStep j <> None /\ failedStepIndex j <> None
          <-> status j = failed)).
Proof.
  intros H.
  specialize (H (state_after missing_photo_trace)
                (state_after_reachable missing_photo_trace)).
  vm_compute in H.
  specialize (H _ (or_introl eq_refl)). destruct H as [_ H].
  destruct (H eq_refl) as [H' _]. now apply H'.
Qed.

(** The dispatch theorems and the heartbeat theorem at [queued_state]: one
    job processing, two pending, one slot, no poll since start-up. *)
Lemma queued_state_NoDup : NoDup (map job_id (jobs queued_state)).
Proof. apply distinct_NoDup. vm_compute. reflexivity. Defined.

(** The dispatch theorem at [gated_state]: a job waits for its crop, the
    pending job with a crop among its steps is left out and the other one
    is dispatched. *)
Lemma processNext_dispatch_witness :
  let queue := candidates (jobs gated_state) in
  let st' := processNext gated_state in
  NoDup (map job_id (jobs gated_state))
  /\ map (fun j => (job_id j, status j, steps j)) (jobs gated_state)
     = [("job-x00000", completed, ["face_restore"]);
        ("job-a00001", waiting_input, ["crop"]);
        ("job-b00002", pending, ["crop"; "colorize"]);
        ("job-c00003", pending, ["colorize"])]
  /\ map job_id queue = ["job-c00003"]
  /\ (forall j, In j queue <->
                In j (jobs gated_state) /\ status j = pending /\
                ((exists w, In w (jobs gated_state)
                            /\ status w = waiting_input) ->
                 forall s sd, In s (steps j) -> STEPS s = Some (Stage sd) ->
                              manual sd = false))
  /\ StronglySorted by_priority queue
  /\ (forall k c,
        nth_error queue k = Some c ->
        (dispatched st' c = true <->
         jobWillPauseImmediately c = true \/
         count_status processing (jobs gated_state)
         + slotsConsumed st' (firstn k queue)
           < maxConcurrent gated_state))
  /\ map (fun j => (job_id j, status j)) (jobs st')
     = [("job-x00000", completed); ("job-a00001", waiting_input);
        ("job-b00002", pending); ("job-c00003", processing)].
Proof.
  cbv zeta.
  assert (ND : NoDup (map job_id (jobs gated_state)))
    by (apply distinct_NoDup; vm_compute; reflexivity).
  destruct (processNext_dispatch gated_state ND)
    as (Hq & Hsorted & _ & _ & Hdisp).
  split; [exact ND|]. split; [vm_compute; reflexivity|].
  split; [vm_compute; reflexivity|]. split; [exact Hq|].
  split; [exact Hsorted|]. split; [exact Hdisp|].
  vm_compute. reflexivity.
Defined.

Lemma processNext_processing_bound_witness :
  NoDup (map job_id (jobs queued_state))
  /\ count_status processing (jobs (processNext queued_state))
       <= Z.max (count_status processing (jobs queued_state))
                (maxConcurrent queued_state).
Proof.
  split; [exact queued_state_NoDup|].
  apply (processNext_processing_bound queued_state queued_state_NoDup).
Defined.

Lemma checkHeartbeat_expired_witness :
  let st' := checkHeartbeat 20000 queued_state in
  HEARTBEAT_TIMEOUT_MS = Some 10000
  /\ 20000 - lastHeartbeat queued_state >= 10000
  /\ NoDup (map job_id (jobs queued_state))
  /\ (exists a, In a (jobs queued_state)
                /\ (status a = pending \/ status a = processing))
  /\ map (fun j => (job_id j, status j)) (jobs queued_state)
     = [("job-a00001", processing); ("job-b00002", pending);
        ("job-c00003", pending)]
  /\ Forall (fun j =>
               exists j', jobs_get (job_id j) st' = Some j'
                          /\ status j' = cancelled
                          /\ currentStep j' = None
                          /\ procs_has (job_id j) st' = false)
            (jobs queued_state)
  /\ runningProcs queued_state = ["job-a00001"]
  /\ In "job-a00001" (killed st').
Proof.
  cbv zeta.
  assert (Ht : HEARTBEAT_TIMEOUT_MS = Some 10000) by reflexivity.
  assert (Hnow : 20000 - lastHeartbeat queued_state >= 10000)
    by (vm_compute; discriminate).
  assert (Ha : exists a, In a (jobs queued_state)
                         /\ (status a = pending \/ status a = processing)).
  { exists (hd demo_job (jobs queued_state)).
    split; [vm_compute; left; reflexivity | right; vm_compute; reflexivity]. }
  destruct (checkHeartbeat_expired 20000 10000 queued_state Ht Hnow
              queued_state_NoDup) as [H _].
  specialize (H Ha).
  split; [exact Ht|]. split; [exact Hnow|].
  split; [exact queued_state_NoDup|]. split; [exact Ha|].
  split; [vm_compute; reflexivity|].
  assert (Hs : forall j, In j (jobs queued_state) ->
                 status j = pending \/ status j = processing).
  { intros j Hin. vm_compute in Hin.
    destruct Hin as [<-|[<-|[<-|[]]]];
      [right | left | left]; reflexivity. }
  split.
  - apply Forall_forall. intros j Hin.
    destruct (H j Hin) as (H1 & _).
    destruct (H1 (Hs j Hin)) as (j' & G1 & _ & G3 & G4 & _ & _ & G7 & _).
    exists j'. repeat split; assumption.
  - split; [vm_compute; reflexivity|].
    pose (j := hd demo_job (jobs queued_state)).
    assert (Hin : In j (jobs queued_state))
      by (vm_compute; left; reflexivity).
    destruct (H j Hin) as (H1 & _).
    destruct (H1 (Hs j Hin)) as (j' & _ & _ & _ & _ & _ & _ & _ & G8).
    apply G8. vm_compute. reflexivity.
Defined.

(** The bounds on [resumeFromStep] where two jobs wait for their crop. *)
Lemma resumeFromStep_bounds_witness :
  reachable (env:=demo_env) (state_after two_waiting_trace)
  /\ Forall (fun j =>
               startIndex_of j <= steps_length j
               /\ (status j = waiting_input -> NoDup (steps j) ->
                   results_length j <= startIndex_of j))
            (jobs (state_after (env:=demo_env) two_waiting_trace)).
Proof.
  split; [apply state_after_reachable|].
  apply (resumeFromStep_bounds (state_after two_waiting_trace)
           (state_after_reachable two_waiting_trace)).
Defined.

(** The failure record where a waiting job has lost its photo: running the
    job marks it failed and records no step. *)
Lemma failure_record_witness :
  reachable (env:=demo_env) (state_after orphan_trace)
  /\ photos_get "photo-1" (state_after (env:=demo_env) orphan_trace) = None
  /\ exists job',
       jobs_get "job-a00001"
         (processJob "job-a00001" (state_after (env:=demo_env) orphan_trace))
       = Some job'
       /\ status job' = failed
       /\ failedStep job' = None /\ failedStepIndex job' = None.
Proof.
  split; [apply state_after_reachable|].
  split; [vm_compute; reflexivity|].
  destruct (failure_record (state_after orphan_trace)
              (state_after_reachable orphan_trace)) as [_ H].
  eapply H.
  - vm_compute. reflexivity.
  - vm_compute. discriminate.
  - vm_compute. reflexivity.
Defined.


(** * The further properties, at concrete inputs *)

Lemma result_url_of_output_witness :
  let fr := frame_at "job-a00001" (sanitizeFilename "grand-pere 1923")
              (substring 0 6 "job-a00001") 0 "face_restore" face_restore
              "/app/uploads/3f2a.jpg" demo_job in
  env_RESULTS_DIR = None /\ STEPS "face_restore" = Some (Stage face_restore)
  /\ no_slash "job-a00001" = true
  /\ getUrlForPath (fr_outputPath fr) = "/results/grand-pere_1923_FACE_job-a0.png".
Proof.
  cbv zeta.
  assert (H1 : env_RESULTS_DIR = None) by reflexivity.
  assert (H2 : STEPS "face_restore" = Some (Stage face_restore)) by reflexivity.
  assert (H3 : no_slash "job-a00001" = true) by reflexivity.
  split; [exact H1|]. split; [exact H2|]. split; [exact H3|].
  destruct (result_url_of_output "job-a00001" "grand-pere 1923" 0
              "face_restore" face_restore "/app/uploads/3f2a.jpg" demo_job
              H1 H2 H3) as [E _].
  rewrite E. reflexivity.
Defined.

Lemma rewindInput_recovers_output_witness :
  let fr := frame_at "job-a00001" "grand-pere_1923" "job-a0" 0
              "face_restore" face_restore "/app/uploads/3f2a.jpg" demo_job in
  env_RESULTS_DIR = None
  /\ rewindInput (record_result fr demo_job) uploaded_state
     = Some "/app/results/grand-pere_1923_FACE_job-a0.png".
Proof.
  cbv zeta.
  assert (H1 : env_RESULTS_DIR = None) by reflexivity.
  split; [exact H1|].
  destruct (rewindInput_recovers_output "job-a00001" "grand-pere_1923"
              "job-a0" 0 "face_restore" face_restore "/app/uploads/3f2a.jpg"
              demo_job uploaded_state H1) as [E _].
  rewrite E. reflexivity.
Defined.

Lemma createJobs_appends_witness :
  let r := createJobs true false two_requests
             ["crop"; "sepia"; "constructor"; "online_restore"; "upscale"]
             [] [] [] uploaded_state in
  two_requests <> []
  /\ NoDup (map (fun q => fresh_uuid (snd q)) two_requests)
  /\ snd r = RespCreated ["job-a00001"]
  /\ map identity_of (jobs (fst r))
     = [("job-a00001", "photo-1", "grand-pere 1923.jpg",
         "/uploads/3f2a.jpg", ["crop"; "constructor"; "upscale"], 1)].
Proof.
  cbv zeta.
  assert (H1 : two_requests <> []) by discriminate.
  assert (H2 : filter (fun s => match STEPS s with
                                | Some _ => true
                                | None => false
                                end)
                 ["crop"; "sepia"; "constructor"; "online_restore"; "upscale"]
               <> [])
    by (vm_compute; discriminate).
  assert (H3 : NoDup (map (fun q => fresh_uuid (snd q)) two_requests))
    by (apply distinct_NoDup; reflexivity).
  assert (H4 : forall u,
             In u (map (fun q => fresh_uuid (snd q)) two_requests) ->
             ~ In u (map job_id (jobs uploaded_state)))
    by (intros u _ []).
  split; [exact H1|]. split; [exact H3|].
  destruct (createJobs_appends false two_requests
              ["crop"; "sepia"; "constructor"; "online_restore"; "upscale"]
              [] [] [] uploaded_state H1 H2 H3 H4) as (E1 & _ & E2 & _).
  split; [rewrite E1 | rewrite E2]; reflexivity.
Defined.

Lemma cancelAll_cancels_witness :
  NoDup (map job_id (jobs queued_state))
  /\ snd (cancelAll queued_state) = RespCancelled 3
  /\ map status (jobs (fst (cancelAll queued_state)))
     = [cancelled; cancelled; cancelled].
Proof.
  split; [exact queued_state_NoDup|].
  destruct (cancelAll_cancels queued_state queued_state_NoDup)
    as (E1 & E2 & _).
  split; [rewrite E1 | rewrite E2]; reflexivity.
Defined.

Lemma reorder_priorities_witness :
  let ids := ["job-c00003"; "job-x"; "job-b00002"; "job-a00001"] in
  NoDup ids /\ NoDup (map job_id (jobs queued_state))
  /\ map (fun j => (job_id j, status j, priority j))
         (jobs (fst (reorder ids queued_state)))
     = [("job-a00001", processing, 1); ("job-b00002", pending, 2);
        ("job-c00003", pending, 0)].
Proof.
  cbv zeta.
  assert (H1 : NoDup ["job-c00003"; "job-x"; "job-b00002"; "job-a00001"])
    by (apply distinct_NoDup; reflexivity).
  split; [exact H1|]. split; [exact queued_state_NoDup|].
  destruct (reorder_priorities
              ["job-c00003"; "job-x"; "job-b00002"; "job-a00001"]
              queued_state H1 queued_state_NoDup) as (_ & E & _).
  rewrite E. reflexivity.
Defined.

Lemma submitInput_starts_worker_witness :
  let st' := fst (submitInput "job-b00002" None (Some "10,10,200,200")
                    "0a1b2c3d" waiting_state) in
  reachable waiting_state
  /\ has_status "job-b00002" waiting_input waiting_state
  /\ exists fr,
       find_frame "job-b00002" st' = Some fr
       /\ fr_script fr = "crop.py"
       /\ fr_args fr
          = [Some "/app/uploads/3f2a.jpg"; Some (fr_outputPath fr);
             Some "10,10,200,200"].
Proof.
  cbv zeta.
  assert (R : reachable waiting_state) by apply state_after_reachable.
  assert (G : exists job photo,
             jobs_get "job-b00002" waiting_state = Some job
             /\ status job = waiting_input
             /\ photos_get (photoId job) waiting_state = Some photo
             /\ waitingStep job = Some "crop"
             /\ currentInputPath job = Some "/app/uploads/3f2a.jpg").
  { eexists. eexists. split; [vm_compute; reflexivity|].
    split; [reflexivity|]. split; [vm_compute; reflexivity|].
    split; reflexivity. }
  destruct G as (job & photo & Hget & Hst & Hph & Hw & Hcp).
  split; [exact R|]. split; [exists job; now split|].
  destruct (submitInput_starts_worker waiting_state "job-b00002" job photo
              None (Some "10,10,200,200") "0a1b2c3d" R Hget Hst Hph
              (or_introl (conj Hw eq_refl)))
    as (fr & job' & _ & Hff & _ & _ & Hcrop & _).
  destruct (Hcrop Hw) as (Hs & Ha & _).
  exists fr. split; [exact Hff|]. split; [exact Hs|].
  now rewrite Ha, Hcp.
Defined.

Lemma skipStep_moves_on_witness :
  (reachable waiting_state
   /\ has_status "job-b00002" waiting_input waiting_state
   /\ has_status "job-b00002" completed
        (fst (skipStep "job-b00002" waiting_state)))
  /\ (reachable inherited_state
      /\ map (fun j => (job_id j, status j, steps j)) (jobs inherited_state)
         = [("job-a00001", waiting_input, ["crop"; "constructor"])]
      /\ exists job',
           jobs_get "job-a00001" (fst (skipStep "job-a00001" inherited_state))
           = Some job'
           /\ stepResults job' = []
           /\ status job' = failed
           /\ failedStep job' = Some "constructor"
           /\ job_error job' = Some "stepDef.buildArgs is not a function").
Proof.
  split.
  - assert (R : reachable waiting_state) by apply state_after_reachable.
    assert (G : exists job photo,
               jobs_get "job-b00002" waiting_state = Some job
               /\ status job = waiting_input
               /\ photos_get (photoId job) waiting_state = Some photo
               /\ startIndex_of job + 1 = steps_length job).
    { eexists. eexists. split; [vm_compute; reflexivity|].
      split; [reflexivity|]. split; [vm_compute; reflexivity|].
      reflexivity. }
    destruct G as (job & photo & Hget & Hst & Hph & Hlast).
    split; [exact R|]. split; [exists job; now split|].
    destruct (skipStep_moves_on waiting_state "job-b00002" job photo R Hget
                Hst Hph) as (job' & Hget' & _ & _ & Hdone).
    exists job'. split; [exact Hget' | now apply Hdone].
  - assert (R : reachable inherited_state) by apply state_after_reachable.
    assert (G : exists job photo,
               jobs_get "job-a00001" inherited_state = Some job
               /\ status job = waiting_input
               /\ photos_get (photoId job) inherited_state = Some photo
               /\ stepResults job = []
               /\ steps job = ["crop"; "constructor"]
               /\ startIndex_of job = 0).
    { eexists. eexists. split; [vm_compute; reflexivity|].
      split; [reflexivity|]. split; [vm_compute; reflexivity|].
      repeat split. }
    destruct G as (job & photo & Hget & Hst & Hph & Hres & Hsteps & Hi).
    split; [exact R|]. split; [vm_compute; reflexivity|].
    destruct (skipStep_moves_on inherited_state "job-a00001" job photo R Hget
                Hst Hph) as (job' & Hget' & Hr' & Hcase & Hlast).
    exists job'. split; [exact Hget'|]. split; [now rewrite Hr'|].
    pose proof Hget' as Hc. vm_compute in Hc. injection Hc as Hc.
    subst job'. repeat split.
Defined.

Lemma workerExit_records_witness :
  (reachable queued_state
   /\ has_status "job-a00001" processing queued_state
   /\ exists job',
        jobs_get "job-a00001"
          (workerExit "job-a00001" (Resolved "ok") queued_state) = Some job'
        /\ map sr_result (stepResults job')
           = ["/results/grand-pere_1923_FACE_job-a0.png"])
  /\ (reachable inherited_next_state
      /\ map (fun j => (job_id j, status j, steps j))
             (jobs inherited_next_state)
         = [("job-a00001", processing, ["face_restore"; "toString"])]
      /\ exists job',
           jobs_get "job-a00001"
             (workerExit "job-a00001" (Resolved "ok") inherited_next_state)
           = Some job'
           /\ map sr_result (stepResults job')
              = ["/results/grand-pere_1923_FACE_job-a0.png"]
           /\ status job' = failed
           /\ failedStep job' = Some "toString"
           /\ failedStepIndex job' = Some 1
           /\ job_error job' = Some "stepDef.buildArgs is not a function").
Proof.
  split.
  - assert (R : reachable queued_state) by apply state_after_reachable.
    assert (G : exists fr job,
               find_frame "job-a00001" queued_state = Some fr
               /\ jobs_get "job-a00001" queued_state = Some job
               /\ status job = processing /\ stepResults job = []
               /\ fr_outputFilename fr = "grand-pere_1923_FACE_job-a0.png").
    { eexists. eexists. split; [vm_compute; reflexivity|].
      split; [vm_compute; reflexivity|]. repeat split. }
    destruct G as (fr & job & Hfr & Hget & Hp & Hres & Hname).
    split; [exact R|]. split; [exists job; now split|].
    destruct (workerExit_records "job-a00001" "ok" queued_state fr job R Hfr
                Hget Hp) as (job' & Hget' & Hr' & _).
    exists job'. split; [exact Hget'|]. now rewrite Hr', Hres, Hname.
  - assert (R : reachable inherited_next_state)
      by apply state_after_reachable.
    assert (G : exists fr job,
               find_frame "job-a00001" inherited_next_state = Some fr
               /\ jobs_get "job-a00001" inherited_next_state = Some job
               /\ status job = processing /\ stepResults job = []
               /\ fr_outputFilename fr = "grand-pere_1923_FACE_job-a0.png").
    { eexists. eexists. split; [vm_compute; reflexivity|].
      split; [vm_compute; reflexivity|]. repeat split. }
    destruct G as (fr & job & Hfr & Hget & Hp & Hres & Hname).
    split; [exact R|]. split; [vm_compute; reflexivity|].
    destruct (workerExit_records "job-a00001" "ok" inherited_next_state fr
                job R Hfr Hget Hp) as (job' & Hget' & Hr' & _).
    exists job'. split; [exact Hget'|].
    split; [now rewrite Hr', Hres, Hname|].
    pose proof Hget' as Hc. vm_compute in Hc. injection Hc as Hc.
    subst job'. repeat split.
Defined.

Lemma workerExit_fails_witness :
  reachable queued_state
  /\ has_status "job-a00001" processing queued_state
  /\ exists job',
       jobs_get "job-a00001"
         (workerExit "job-a00001" (Rejected "out of memory") queued_state)
       = Some job'
       /\ status job' = failed /\ job_error job' = Some "out of memory"
       /\ failedStep job' = Some "face_restore".
Proof.
  assert (R : reachable queued_state) by apply state_after_reachable.
  assert (G : exists fr job,
             find_frame "job-a00001" queued_state = Some fr
             /\ jobs_get "job-a00001" queued_state = Some job
             /\ status job = processing
             /\ fr_step fr = "face_restore").
  { eexists. eexists. split; [vm_compute; reflexivity|].
    split; [vm_compute; reflexivity|]. repeat split. }
  destruct G as (fr & job & Hfr & Hget & Hp & Hstep).
  split; [exact R|]. split; [exists job; now split|].
  destruct (workerExit_fails "job-a00001" "out of memory" queued_state fr job
              R Hfr Hget Hp) as (job' & Hget' & Hs & He & Hf & _).
  exists job'. split; [exact Hget'|]. split; [exact Hs|].
  split; [exact He|]. now rewrite Hf, Hstep.
Defined.

Lemma canGoBack_iff_back_witness :
  has_status "job-b00002" waiting_input waiting_state
  /\ back "job-b00002" waiting_state
     = (waiting_state, RespError 400 "No previous manual step")
  /\ exists job,
       jobs_get "job-b00002" waiting_state = Some job
       /\ canGoBack job = Some false.
Proof.
  assert (G : exists job,
             jobs_get "job-b00002" waiting_state = Some job
             /\ status job = waiting_input /\ resumeFromStep job = Some 0).
  { eexists. split; [vm_compute; reflexivity|]. split; reflexivity. }
  destruct G as (job & Hget & Hst & Hr).
  assert (B : back "job-b00002" waiting_state
              = (waiting_state, RespError 400 "No previous manual step"))
    by (vm_compute; reflexivity).
  split; [exists job; now split|]. split; [exact B|].
  exists job. split; [exact Hget|].
  now apply (canGoBack_iff_back "job-b00002" waiting_state job 0 Hget Hst Hr).
Defined.

Lemma checkHeartbeat_idempotent_witness :
  let st' := checkHeartbeat 20000 queued_state in
  NoDup (map job_id (jobs queued_state))
  /\ map status (jobs queued_state) = [processing; pending; pending]
  /\ checkHeartbeat 20000 st' = st'
  /\ Forall (fun j => status j <> pending /\ status j <> processing)
            (jobs st')
  /\ map status (jobs st') = [cancelled; cancelled; cancelled].
Proof.
  cbv zeta.
  destruct (checkHeartbeat_idempotent 20000 queued_state queued_state_NoDup)
    as (H1 & H2 & _).
  split; [exact queued_state_NoDup|]. split; [vm_compute; reflexivity|].
  split; [exact H1|]. split; [|vm_compute; reflexivity].
  apply Forall_forall. apply H2.
  intros t Et. vm_compute in Et. injection Et as <-.
  vm_compute. discriminate.
Defined.

Lemma checkHeartbeat_unparsed_witness :
  let st := state_after (env:=unparsed_env) queued_trace in
  env_HEARTBEAT_TIMEOUT_SECONDS (Env:=unparsed_env) = None
  /\ NoDup (map job_id (jobs st))
  /\ map status (jobs st) = [processing; pending; pending]
  /\ map status (jobs (checkHeartbeat (env:=unparsed_env) 0 st))
     = [cancelled; cancelled; cancelled].
Proof.
  cbv zeta.
  assert (H1 : env_HEARTBEAT_TIMEOUT_SECONDS (Env:=unparsed_env) = None)
    by reflexivity.
  assert (H2 : NoDup (map job_id
                        (jobs (state_after (env:=unparsed_env) queued_trace))))
    by (apply distinct_NoDup; vm_compute; reflexivity).
  split; [exact H1|]. split; [exact H2|].
  split; [vm_compute; reflexivity|].
  rewrite (checkHeartbeat_unparsed (env:=unparsed_env) 0 _ H1 H2).
  vm_compute. reflexivity.
Defined.

Lemma one_worker_per_job_witness :
  reachable queued_state
  /\ NoDup (map job_id (jobs queued_state))
  /\ NoDup (map fr_job (awaiting queued_state)).
Proof.
  assert (R : reachable queued_state) by apply state_after_reachable.
  split; [exact R|].
  destruct (one_worker_per_job queued_state R) as (H1 & H2 & _).
  split; assumption.
Defined.


Lemma processing_has_worker_witness :
  reachable queued_state
  /\ has_frame "job-a00001" queued_state = true
  /\ procs_has "job-a00001" queued_state = true.
Proof.
  assert (R : reachable queued_state) by apply state_after_reachable.
  split; [exact R|].
  destruct (processing_has_worker queued_state R) as [H _].
  pose (j := hd demo_job (jobs queued_state)).
  assert (Hin : In j (jobs queued_state)) by (vm_compute; left; reflexivity).
  assert (Hp : status j = processing) by (vm_compute; reflexivity).
  assert (Hne : job_id j <> "") by (vm_compute; discriminate).
  destruct (H j Hin Hp) as [H1 H2].
  split; [exact H1 | exact (H2 Hne)].
Defined.

Lemma maxConcurrent_bounds_witness :
  reachable queued_state
  /\ 1 <= maxConcurrent queued_state <= MAX_CONCURRENT_LIMIT.
Proof.
  assert (R : reachable queued_state) by apply state_after_reachable.
  split; [exact R|].
  exact (proj1 (maxConcurrent_bounds queued_state R)).
Defined.


Lemma waiting_fields_witness :
  reachable waiting_state
  /\ Forall (fun j => waitingStep j <> None <-> status j = waiting_input)
            (jobs waiting_state).
Proof.
  assert (R : reachable waiting_state) by apply state_after_reachable.
  split; [exact R|].
  eapply Forall_impl; [|apply (waiting_fields waiting_state R)].
  intros j [H _]. exact H.
Defined.

Lemma completed_result_witness :
  reachable completed_state
  /\ Forall (fun j => status j = completed ->
                      result j = last_result j /\ progress j = 100)
            (jobs completed_state).
Proof.
  assert (R : reachable completed_state) by apply state_after_reachable.
  split; [exact R|].
  eapply Forall_impl; [|apply (completed_result completed_state R)].
  intros j (_ & H & _). exact H.
Defined.

Lemma failedStepIndex_points_witness :
  reachable failed_state
  /\ Forall (fun j => forall k, failedStepIndex j = Some k ->
                                0 <= k < steps_length j)
            (jobs failed_state).
Proof.
  assert (R : reachable failed_state) by apply state_after_reachable.
  split; [exact R|].
  eapply Forall_impl; [|apply (failedStepIndex_points failed_state R)].
  intros j H k Hk. exact (proj1 (H k Hk)).
Defined.

Lemma finished_jobs_stay_witness :
  reachable completed_state
  /\ enabled EvCancelAll completed_state = true
  /\ jobs_get "job-a00001" (step EvCancelAll completed_state)
     = jobs_get "job-a00001" completed_state.
Proof.
  assert (R : reachable completed_state) by apply state_after_reachable.
  assert (En : enabled EvCancelAll completed_state = true)
    by (vm_compute; reflexivity).
  split; [exact R|]. split; [exact En|].
  destruct (jobs_get "job-a00001" completed_state) as [job|] eqn:E.
  - destruct (finished_jobs_stay completed_state EvCancelAll "job-a00001"
                job R En E) as [H _].
    apply H. vm_compute in E. injection E as <-. reflexivity.
  - vm_compute in E. discriminate E.
Defined.
